(* ===== verification/_CoqProject ===== *)
-Q . S2P
Prelude.v
States.v
Text.v
Json.v
Money.v
Hash.v
Address.v
Datetime.v
Number.v
Wire.v
Model.v
Environ.v
Store.v
Protocol.v
Node.v
Chain.v
Effects.v
Pipeline.v
Worker.v
Discipline.v
Sequential.v
System.v
Invariant.v
Calls.v
Handlers.v
Safety.v
Payments.v
Ledger.v
Evidence.v
Resilience.v
Intake.v
Postgres.v
PgWorker.v
PgRow.v
Contract.v
PgIntake.v
Progress.v
Drain.v
Recovery.v
Soundness.v
Demo.v
