(* ===== verification/Prelude.v ===== *)
(** * sluice: a verified model of the withdrawal processor

    sluice takes withdrawal requests over HTTP, stores each one as a row with a
    state, and lets any number of workers drive the rows through signing,
    broadcast and confirmation on a TRON node, without ever paying one twice.
    This library models that program and proves what makes it correct.  This
    file holds the notation, the tactics and the hint database the others share.

    ** The program and the files that model it

    - [States]: [sluice/states.py] and the trigger of
      [migrations/001_schema.sql], the two copies of the transition table.
    - [Text], [Json], [Hash], [Datetime], [Number]: what the program uses of
      Python: text and UTF-8, [json.dumps] with sorted keys, SHA-256 and HMAC,
      ISO 8601, the float computation of milliseconds, [int(s)], [float(s)] and
      [timedelta(seconds=x)] on IEEE doubles.  All are executable.
    - [Money] ([money.py]), [Address] ([tron/address.py]), [Wire]
      ([canonical.py], [tron/types.py], [tron/signer.py]), [Model] ([model.py],
      [config.py], the column whitelist of [store/__init__.py]), [Environ]
      ([Config.from_env]).
    - [Store]: [store/memory.py].  Each method runs under one lock, so it is one
      function on [MemoryStore].  [Protocol]: the [Store] protocol of
      [store/__init__.py] as a class of operations and its rules as a class of
      laws, with the in-memory store as an instance.
    - [Postgres]: [store/postgres.py] over the schema.  Each method is one
      transaction; the statement's SET list, the trigger and the unique index
      are written out.  [PgRow]: the table's columns and [_row_to_op].
      [Contract]: the Postgres store as an instance of the protocol.
    - [Node]: [tron/mocknet.py], the chain, its faults, broadcast and lookup;
      [Chain]: what a run of blocks does.
    - [Effects], [Pipeline], [Worker]: [crashpoints.py], [pipeline.py],
      [worker.py].  A handler is a program ([prog]) whose nodes are the calls to
      store, node, clock and crash switch, in the order of the source.  The same
      program runs alone ([run]) or interleaved with others call by call;
      [Sequential] has the rules for a program that runs alone, [Discipline]
      says which calls a worker can make whatever it is answered.
    - [System]: the whole process: threads of workers ([run_forever] for any
      number of passes), intake, blocks, faults, crashes and the clock as one
      step relation [sys_step].  Any call to the store may raise
      [StoreFailure], before it did anything or after its effect is committed
      ([EFail]), which is what a broken database connection looks like.
    - [Ledger]: what all this is for, as an abstract ledger of accounts that are
      opened, pay and close.
    - [Intake]: [service.py] and the routes of [api.py] over any [Store], with
      [uuid.UUID] as the service calls it; [PgIntake] runs them over Postgres.
    - [PgWorker]: what the calls of a worker do on Postgres.
    - [Progress], [Drain], [Recovery], [Soundness]: the same programs run from
      start to end.  [Resilience]: the [except] branches of the worker.
    - [Demo]: [scripts/demo.py], with what it prints.

    ** What is proved

    - Components.  Exact input and output of the amount parser and printer,
      base58check as a bijection, the request hash as faithful up to a SHA-256
      collision, ISO dates read back, milliseconds exact over the program's
      years, the signature check, settings from the environment exact to the
      microsecond ([Money], [Address], [Wire], [Datetime], [Environ]).
    - Stores.  An invariant of every operation sequence (each row's history
      follows the transition table and ends in its state), fair batches, rows
      that only evolve, idempotent inserts, fencing.  A lease past the calendar
      is the one way to break a write in half: until one is asked for, every
      row's log tells its history, and a theorem shows the half-written row
      ([Store]).  The Postgres [cas] refines
      the in-memory one except where the server refuses, and every reason it has
      to refuse is named and exact ([Postgres]).  Both stores keep every rule of
      the storage contract, which lets an error leave a half-written row only
      when it is that of a late lease; fencing follows from the rules alone
      ([Protocol], [Contract]).  A table row reads back as the operation it
      stores ([PgRow]).
    - Node.  Block times rise, a mined transaction was in time, and once the
      solid time has reached an expiration no future includes it ([Node]).
    - System.  [Invariant] states the global invariant and a rely/guarantee
      reading of programs ([safe]), with or without store failures; [Calls]
      proves one rule per call, [Handlers] applies them to every handler and to
      the worker loop, [Safety] concludes that every reachable world satisfies the invariant.  [Payments]
      draws the consequences: every transfer on chain is accounted for, no
      operation is paid twice, a confirmed one was paid exactly once, a failed
      or rejected one never, and the total on chain is the confirmed total but
      for what is in flight.  [Ledger] sums it up as a refinement: every run of
      the system is a run of the abstract ledger.  [Evidence] reads the event log:
      whatever is retired carries the evidence it rests on.
    - Type soundness.  On the rows of a reachable system no handler raises a
      [KeyError], [ValueError], [TypeError] or [IllegalTransition]
      ([Soundness]).  Interleaved with other workers, and as long as the store
      works and dates stay in range, handlers raise only a lost claim or a
      crash: no worker is ever about to write the note of the
      [except Exception] branch, and no row has it ([Resilience]).
    - Failures.  The safety theorems hold in runs in which calls to the store
      fail; only a crash ends a worker; while the store is down a pass gives up
      at the first operation of its batch and leaves the rest leased, against
      what the worker's docstring says ([Resilience]).
    - Progress.  On a node without faults a valid withdrawal is broadcast in one
      worker pass and confirmed in a second one after the chain moved on, both
      passes returning ([Progress]).  From any reachable system, once the
      faults stop and what is outstanding has expired, two passes settle every
      operation in the store; what could still wait is an envelope built in
      these passes whose txid is that of an older transaction with different
      contents ([Recovery]).  [drain] always ends, and returns unless its first
      claim needs a date past the calendar: a potential of each row, which
      bounds the state changes still possible, falls whenever a pass advances
      something ([Drain]).  [Demo] runs the model on the demo's
      scenario and compares what is printed.
    - Intake.  POST path by path: which request gets which status and body, and
      what it leaves in the store; replays answered or
      refused, a created operation found by GET, and agreement with the worker's
      own validation ([Intake]); the API answers over Postgres exactly as it
      does in memory ([PgIntake]).
    - Behaviour worth knowing, as theorems: a worker stalled between lookup and
      death proof can double spend, two equal withdrawals of one millisecond
      share a transfer in memory ([Payments]); an amount of more than 4300
      digits is a 500 ([Intake]); a [cas] in memory whose renewed lease would end
      past the calendar raises after it changed the row and before it logged
      it ([Store]); on Postgres no operation reaches a terminal
      state, because the final write assigns the lease twice ([PgWorker]);
      [drain] stops although an operation could advance when the oldest
      [claim_batch] rows are parked ([Drain]).

    ** Assumptions

    Store, node and workers read one clock, which never goes back.  The theorems
    about reachable systems are about timely schedules: no worker lets the
    safety margin pass on chain between looking a txid up and reading the solid
    time ([timely_call] in [System]).  Those that say what one operation was
    paid also assume that no two operations hold a common txid
    ([txids_separate]).  The two theorems named above show what happens
    otherwise.  A signature and a txid are concrete functions of the bytes; a
    statement that needs SHA-256 to be injective says "or a collision".  Not
    part of the repository and so parameters: the Unicode digit table behind
    [int()] and [float()] ([ucd]), the order of the claim scan, and what the
    Postgres server does with values ([PgServer]): which JSON it takes and how
    it normalises it, which text it takes for a column (its encoding has no
    NUL), and the numbers of its sequence, which are fresh and grow but may
    have gaps ([documented]).

    ** Bounds and fuel

    Integers are unbounded in Python and here.  Instants are microseconds, with
    the range of [datetime] checked wherever the source adds a [timedelta], in
    the pipeline and in the stores; the system theorems hold past the end of
    the calendar too, with the half-written rows a late lease leaves.  On
    Postgres the columns have their widths: [int], [bigint], [numeric(38,0)],
    [timestamptz] and the interval of a lease.  [MAX_STEPS_PER_CLAIM] is 8 and
    [drain] makes 1000 passes, as in the source, which is enough for stores whose total potential is below 1000
    (at most [8 * max_build_attempts + 14] for a row); the loops of the demo
    have the same 1000 passes as fuel and its theorem shows that they end.
    Recursion is otherwise structural, or has the length of its input as fuel.
    Amounts stop at the interpreter's 4300 digits and, on Postgres, at
    [numeric(38,0)].  [Recovery] asks that a claim batch has room for every
    row, that the blocks of [solidify] before and after the first pass are
    done before an envelope of that pass expires, and that the dates of the two
    passes stay in range; [Progress] asks the same of the leases it takes.

    ** Not modelled

    Logging, Flask's routing and JSON parser, connection pooling, the jitter of
    [run_forever] (time passes freely between its passes), the default worker name (host, process and object id), and the
    entry points that only call what is modelled.

    ** Limits

    The system theorems are about workers over the in-memory store, whose calls
    may fail at any time.  They are not stated for workers over [Postgres]: the
    server returns the JSON columns with their keys in another order, so its
    rows agree with those in memory only up to a coarser equality of JSON, and
    with [PgWorker] no run there gets an operation to its end.  What holds on
    both stores is the contract ([Contract]) and the intake ([PgIntake]).
    [Recovery] asks for a store no larger than a claim batch because a pass
    takes the oldest free rows: parked rows keep younger ones waiting, so how
    many passes a larger store needs depends on when the parked ones settle. *)
From Stdlib Require Import ZArith Lia.
From stdpp Require Import base list gmap strings sorting.

Local Open Scope Z_scope.

(** ** Python values shared by every component *)

(** A Python [str] is the list of its code points; [bytes] is a list of
    integers in [0, 256). *)
Abbreviation pystr := (list Z) (only parsing).
Abbreviation bytes := (list Z) (only parsing).

(** ASCII literals. *)
Fixpoint str (s : string) : pystr :=
  match s with
  | EmptyString => []
  | String c s' => Z.of_N (Ascii.N_of_ascii c) :: str s'
  end.

Arguments str : simpl never.

(** A fallible computation: the value, or the Python exception raised. *)
Inductive result (E A : Type) : Type :=
| Ok (a : A)
| Err (e : E).
Arguments Ok {E A} a.
Arguments Err {E A} e.

Definition result_bind {E A B : Type} (m : result E A) (f : A -> result E B) : result E B :=
  match m with
  | Ok a => f a
  | Err e => Err e
  end.

Definition result_map_err {E F A : Type} (f : E -> F) (m : result E A) : result F A :=
  match m with
  | Ok a => Ok a
  | Err e => Err (f e)
  end.

Declare Scope sluice_scope.
Delimit Scope sluice_scope with sluice.
Notation "'let?' x := m 'in' f" := (result_bind m (fun x => f))
  (at level 10, x pattern, m at level 100, f at level 200) : sluice_scope.

Create HintDb sluice.
Create Rewrite HintDb sluice.

(** ** Tactics *)

(** Turn a membership hypothesis in a literal list into its cases. *)
Ltac in_list H :=
  repeat match type of H with
  | _ ∈ _ :: _ => apply elem_of_cons in H; destruct H as [H | H]
  | _ ∈ [] => exfalso; exact (proj1 (elem_of_nil _) H)
  end.
