(* ===== verification/States.v ===== *)
(** * The operation state machine

    [sluice/states.py]: the nine states, the transition table, the terminal
    and claimable sets, [can_transition].  [migrations/001_schema.sql]: the
    trigger [op_transition_guard], the second copy of the same table.  The
    theorems say that the two copies agree on every pair of states, that a
    terminal state has no exit, and that the graph has the shape the rest of
    the development relies on: no cycle avoids [SIGNING], and a confirmed
    operation went through the write-ahead state. *)
From stdpp Require Import base list gmap strings finite relations.
From S2P Require Import Prelude.

Inductive OpState : Type :=
| REQUESTED
| VALIDATED
| SIGNING
| SIGNED
| BROADCASTING
| BROADCAST
| CONFIRMED
| FAILED
| REJECTED.

#[export] Instance OpState_eq_dec : EqDecision OpState.
Proof. solve_decision. Defined.

#[export] Program Instance OpState_finite : Finite OpState :=
  {| enum := [REQUESTED; VALIDATED; SIGNING; SIGNED; BROADCASTING; BROADCAST;
              CONFIRMED; FAILED; REJECTED] |}.
Next Obligation. apply (bool_decide_unpack _). vm_compute. exact I. Qed.
Next Obligation. intros []; apply (bool_decide_unpack _); vm_compute; exact I. Qed.

(** [OpState] is a [StrEnum]: each member is the string it is stored as. *)
Definition OpState_value (s : OpState) : pystr :=
  match s with
  | REQUESTED => str "requested"
  | VALIDATED => str "validated"
  | SIGNING => str "signing"
  | SIGNED => str "signed"
  | BROADCASTING => str "broadcasting"
  | BROADCAST => str "broadcast"
  | CONFIRMED => str "confirmed"
  | FAILED => str "failed"
  | REJECTED => str "rejected"
  end.

Definition TRANSITIONS (s : OpState) : list OpState :=
  match s with
  | REQUESTED => [VALIDATED; REJECTED]
  | VALIDATED => [SIGNING; REJECTED]
  | SIGNING => [SIGNED; FAILED]
  | SIGNED => [BROADCASTING; SIGNING]
  | BROADCASTING => [BROADCAST; SIGNING; FAILED]
  | BROADCAST => [CONFIRMED; SIGNING; FAILED]
  | CONFIRMED => []
  | FAILED => []
  | REJECTED => []
  end.

Definition TERMINAL : list OpState :=
  filter (fun s => TRANSITIONS s = []) (enum OpState).

Definition CLAIMABLE : list OpState :=
  filter (fun s => s ∉ TERMINAL) (enum OpState).

Definition can_transition (src dst : OpState) : bool :=
  bool_decide (src = dst) || bool_decide (dst ∈ TRANSITIONS src).

(** The exception [IllegalTransition(src, dst)] carries its two states. *)
Record IllegalTransition : Type := mkIllegalTransition {
  it_src : OpState;
  it_dst : OpState
}.

(** ** The database's copy of the table *)

Module Sql.

(** The three literals of [OLD.state IN (...)]. *)
Definition terminal_literals : list pystr :=
  [str "confirmed"; str "failed"; str "rejected"].

(** The pair list of [(OLD.state::text, NEW.state::text) NOT IN (...)]. *)
Definition legal_pairs : list (pystr * pystr) :=
  [ (str "requested", str "validated");
    (str "requested", str "rejected");
    (str "validated", str "signing");
    (str "validated", str "rejected");
    (str "signing", str "signed");
    (str "signing", str "failed");
    (str "signed", str "broadcasting");
    (str "signed", str "signing");
    (str "broadcasting", str "broadcast");
    (str "broadcasting", str "signing");
    (str "broadcasting", str "failed");
    (str "broadcast", str "confirmed");
    (str "broadcast", str "signing");
    (str "broadcast", str "failed") ].

Inductive guard_error : Type :=
| terminal_immutable (old : OpState)
| illegal_transition (old new : OpState).

(** [op_transition_guard]: [BEFORE UPDATE ... FOR EACH ROW]. *)
Definition op_transition_guard (old new : OpState) : result guard_error unit :=
  if bool_decide (OpState_value old ∈ terminal_literals) then
    Err (terminal_immutable old)
  else if negb (bool_decide (new = old)) &&
          negb (bool_decide ((OpState_value old, OpState_value new) ∈ legal_pairs)) then
    Err (illegal_transition old new)
  else Ok tt.

End Sql.

(** ** Lemmas *)

(** Decide a statement about one or two states by trying them all. *)
Ltac by_states := intros; repeat match goal with s : OpState |- _ => destruct s end;
  vm_compute; intuition (try discriminate; try congruence; auto).

Lemma elem_of_TERMINAL (s : OpState) :
  s ∈ TERMINAL <-> s = CONFIRMED \/ s = FAILED \/ s = REJECTED.
Proof.
  unfold TERMINAL. rewrite list_elem_of_filter.
  split; [intros [H _] | intros [-> | [-> | ->]]; split; try done; apply elem_of_enum].
  destruct s; try discriminate; auto.
Qed.

Lemma elem_of_CLAIMABLE (s : OpState) : s ∈ CLAIMABLE <-> s ∉ TERMINAL.
Proof.
  unfold CLAIMABLE. rewrite list_elem_of_filter.
  split; [intros [H _]; exact H | intros H; split; [exact H | apply elem_of_enum]].
Qed.

Lemma can_transition_spec (src dst : OpState) :
  can_transition src dst = true <-> src = dst \/ dst ∈ TRANSITIONS src.
Proof.
  unfold can_transition. rewrite orb_true_iff, !bool_decide_eq_true. done.
Qed.

Lemma can_transition_refl (s : OpState) : can_transition s s = true.
Proof. apply can_transition_spec. by left. Qed.

Lemma terminal_no_exit (src dst : OpState) :
  src ∈ TERMINAL -> can_transition src dst = true -> dst = src.
Proof.
  rewrite elem_of_TERMINAL, can_transition_spec.
  intros [-> | [-> | ->]] [<- | H]; try done; by apply elem_of_nil in H.
Qed.

#[export] Instance OpState_value_inj : Inj (=) (=) OpState_value.
Proof. intros [] []; vm_compute; congruence. Qed.

#[export] Hint Resolve can_transition_refl : sluice.
#[export] Hint Rewrite elem_of_TERMINAL elem_of_CLAIMABLE can_transition_spec : sluice.

(** One edge of the table. *)
Definition edge (src dst : OpState) : Prop := dst ∈ TRANSITIONS src.

#[export] Instance edge_dec (src dst : OpState) : Decision (edge src dst).
Proof. unfold edge. apply _. Defined.

(** The table without the edges back into [SIGNING] is ranked, so every
    cycle of the machine goes through [SIGNING]. *)
Definition rank (s : OpState) : nat :=
  match s with
  | REQUESTED => 6 | VALIDATED => 5 | SIGNING => 4 | SIGNED => 3
  | BROADCASTING => 2 | BROADCAST => 1
  | CONFIRMED | FAILED | REJECTED => 0
  end.

Lemma edge_rank (src dst : OpState) :
  edge src dst -> dst = SIGNING \/ (rank dst < rank src)%nat.
Proof.
  unfold edge. intros H. destruct src; simpl in H; in_list H; subst dst; simpl; auto with lia.
Qed.

(** Before the write-ahead: the states an operation is in when no worker has
    committed to sending its current envelope. *)
Definition pre_wire (s : OpState) : bool :=
  match s with
  | REQUESTED | VALIDATED | SIGNING | SIGNED | REJECTED => true
  | _ => false
  end.

(** The only door to the wire is [SIGNED -> BROADCASTING] (the exit
    [SIGNING -> FAILED] leads no further). *)
Lemma door_to_the_wire (src dst : OpState) :
  can_transition src dst = true -> pre_wire src = true -> pre_wire dst = false ->
  (src = SIGNED /\ dst = BROADCASTING) \/ (src = SIGNING /\ dst = FAILED).
Proof.
  rewrite can_transition_spec. intros [-> | H] H1 H2; [congruence |].
  destruct src; simpl in H; in_list H; subst dst; try discriminate; auto.
Qed.

(** The trigger passes exactly the updates the application's table allows. *)
Lemma guard_agrees (src dst : OpState) :
  Sql.op_transition_guard src dst = Ok tt <->
  can_transition src dst = true /\ src ∉ TERMINAL.
Proof.
  rewrite elem_of_TERMINAL.
  destruct src, dst; vm_compute; (split; [intros H; try discriminate; intuition discriminate |]);
    intros [H1 H2]; try discriminate; try reflexivity; exfalso; apply H2; auto.
Qed.

(** ** Properties *)

(** C35. The transition table exists twice and the copies agree: for every
    pair of states, the trigger of the migration lets the update through
    exactly when [can_transition] allows it and the old state is not
    terminal. *)
Theorem sql_guard_agrees (src dst : OpState) :
  Sql.op_transition_guard src dst = Ok tt <->
  can_transition src dst = true /\ src ∉ TERMINAL.
Proof. apply guard_agrees. Qed.

(** A confirmed operation crossed the write-ahead: no sequence of writes
    the table allows leads from intake to [CONFIRMED] without entering
    [BROADCASTING]. *)
Theorem confirmed_crossed_write_ahead :
  ~ rtc (fun a b => can_transition a b = true /\ b <> BROADCASTING) REQUESTED CONFIRMED.
Proof.
  intros H.
  assert (pre_wire CONFIRMED = true \/ CONFIRMED = FAILED) as [|]; [| discriminate..].
  revert H. generalize CONFIRMED as s. apply rtc_ind_r; [by left |].
  intros a b _ [Hc Hb] IH.
  destruct IH as [Ha | ->].
  - destruct (pre_wire b) eqn:Eb; [by left |].
    destruct (door_to_the_wire _ _ Hc Ha Eb) as [[_ ?] | [_ ?]]; [done | by right].
  - right. by apply (terminal_no_exit FAILED); [apply elem_of_TERMINAL; auto |].
Qed.
