(* ===== verification/Text.v ===== *)
(** * Positional notation and text

    The parts of Python's [int], [str] and [bytes] that the program uses:
    positional notation in an arbitrary base (decimal [str] and [int], the
    base-58 alphabet, [int.to_bytes] and [int.from_bytes], hexadecimal), the
    string methods [strip], [lstrip], [rstrip], [ljust], [rjust], and the limit
    CPython puts on the digits of an [int] read from or written to decimal
    text. *)
From Stdlib Require Import ZArith Lia.
From stdpp Require Import base list strings.
From S2P Require Import Prelude.

Local Open Scope Z_scope.

(** ** Positional notation *)

Definition of_base (b : Z) (ds : list Z) : Z := fold_left (fun a d => a * b + d) ds 0.

(** Digits of [n], most significant first; none for zero.  The fuel bounds the
    number of binary digits of [n], hence of its digits in any base. *)
Fixpoint to_base_fuel (fuel : nat) (b n : Z) : list Z :=
  match fuel with
  | O => []
  | S fuel => if n <=? 0 then [] else to_base_fuel fuel b (n / b) ++ [n mod b]
  end.

Definition to_base (b n : Z) : list Z := to_base_fuel (S (Z.to_nat (Z.log2 n))) b n.

Definition digit_of (b d : Z) : Prop := 0 <= d < b.

Lemma of_base_fold (b a : Z) (ds : list Z) :
  fold_left (fun a d => a * b + d) ds a = a * b ^ Z.of_nat (length ds) + of_base b ds.
Proof.
  unfold of_base. revert a. induction ds as [|d ds IH]; intros a; [simpl; lia |].
  cbn [fold_left length]. rewrite IH, (IH (0 * b + d)), Nat2Z.inj_succ, Z.pow_succ_r by lia. ring.
Qed.

Lemma of_base_app (b : Z) (xs ys : list Z) :
  of_base b (xs ++ ys) = of_base b xs * b ^ Z.of_nat (length ys) + of_base b ys.
Proof. unfold of_base at 1. rewrite fold_left_app. apply of_base_fold. Qed.

Lemma of_base_cons (b x : Z) (xs : list Z) :
  of_base b (x :: xs) = x * b ^ Z.of_nat (length xs) + of_base b xs.
Proof. apply (of_base_app b [x] xs). Qed.

Lemma of_base_snoc (b x : Z) (xs : list Z) : of_base b (xs ++ [x]) = of_base b xs * b + x.
Proof. rewrite of_base_app. unfold of_base at 2. simpl. lia. Qed.

Lemma of_base_bounds (b : Z) (ds : list Z) :
  1 < b -> Forall (digit_of b) ds -> 0 <= of_base b ds < b ^ Z.of_nat (length ds).
Proof.
  intros Hb. induction ds as [|d ds IH] using rev_ind; [done |].
  rewrite Forall_app, Forall_singleton. intros [Hds Hd]. unfold digit_of in Hd.
  specialize (IH Hds). rewrite of_base_snoc, length_app; simpl.
  replace (Z.of_nat (length ds + 1)) with (Z.succ (Z.of_nat (length ds))) by lia.
  rewrite Z.pow_succ_r by lia. nia.
Qed.

Lemma to_base_fuel_spec (fuel : nat) (b n : Z) :
  1 < b -> 0 <= n < 2 ^ Z.of_nat fuel ->
  of_base b (to_base_fuel fuel b n) = n /\
  Forall (digit_of b) (to_base_fuel fuel b n) /\ head (to_base_fuel fuel b n) <> Some 0.
Proof.
  intros Hb. revert n. induction fuel as [|fuel IH]; intros n Hn; simpl; [change (2 ^ Z.of_nat 0) with 1 in Hn |].
  { split; [unfold of_base; simpl; lia | done]. }
  destruct (Z.leb_spec n 0) as [Hz | Hz]; [split; [unfold of_base; simpl; lia | done] |].
  rewrite Nat2Z.inj_succ, Z.pow_succ_r in Hn by lia.
  pose proof (Z.div_mod n b ltac:(lia)) as Hdm.
  pose proof (Z.mod_pos_bound n b ltac:(lia)) as Hm.
  assert (0 <= n / b < 2 ^ Z.of_nat fuel) as Hq.
  { split; [apply Z.div_pos; lia | apply Z.div_lt_upper_bound; nia]. }
  destruct (IH _ Hq) as (IHv & IHd & IHh).
  split; [rewrite of_base_snoc, IHv; lia |].
  split; [apply Forall_app; auto |].
  destruct (to_base_fuel fuel b (n / b)) as [|x xs] eqn:E; [| exact IHh].
  simpl. intros [= Hx]. unfold of_base in IHv; simpl in IHv. lia.
Qed.

Lemma to_base_spec (b n : Z) :
  1 < b -> 0 <= n ->
  of_base b (to_base b n) = n /\ Forall (digit_of b) (to_base b n) /\ head (to_base b n) <> Some 0.
Proof.
  intros Hb Hn. apply to_base_fuel_spec; [done |].
  rewrite Nat2Z.inj_succ, Z2Nat.id by apply Z.log2_nonneg.
  destruct (Z.eq_dec n 0) as [-> | Hne]; [done |].
  pose proof (Z.log2_spec n ltac:(lia)). lia.
Qed.

Lemma of_base_pos (b x : Z) (xs : list Z) :
  1 < b -> Forall (digit_of b) (x :: xs) -> x <> 0 ->
  b ^ Z.of_nat (length xs) <= of_base b (x :: xs).
Proof.
  intros Hb [Hx Hxs]%Forall_cons Hne. unfold digit_of in Hx.
  pose proof (of_base_bounds b xs Hb Hxs). rewrite of_base_cons.
  assert (0 < b ^ Z.of_nat (length xs)) by (apply Z.pow_pos_nonneg; lia).
  assert (1 * b ^ Z.of_nat (length xs) <= x * b ^ Z.of_nat (length xs))
    by (apply Z.mul_le_mono_nonneg_r; lia). lia.
Qed.

(** The empty list is the only one, without a leading zero, for zero. *)
Lemma of_base_zero (b : Z) (ds : list Z) :
  1 < b -> Forall (digit_of b) ds -> head ds <> Some 0 -> of_base b ds = 0 -> ds = [].
Proof.
  intros Hb Hd Hh E. destruct ds as [|x xs]; [done | exfalso]. simpl in Hh.
  pose proof (of_base_pos b x xs Hb Hd ltac:(congruence)).
  assert (0 < b ^ Z.of_nat (length xs)) by (apply Z.pow_pos_nonneg; lia). lia.
Qed.

(** Two digit lists without a leading zero and with the same value are equal. *)
Lemma of_base_inj (b : Z) (xs ys : list Z) :
  1 < b -> Forall (digit_of b) xs -> Forall (digit_of b) ys ->
  head xs <> Some 0 -> head ys <> Some 0 -> of_base b xs = of_base b ys -> xs = ys.
Proof.
  intros Hb. revert ys. induction xs as [|x xs IH] using rev_ind; intros ys Hx Hy Hhx Hhy E.
  - symmetry. by apply (of_base_zero b).
  - destruct ys as [|y ys _] using rev_ind; [by apply (of_base_zero b) |].
    apply Forall_app in Hx as [Hxs Hx]. rewrite Forall_singleton in Hx.
    apply Forall_app in Hy as [Hys Hy]. rewrite Forall_singleton in Hy.
    rewrite !of_base_snoc in E. unfold digit_of in *.
    assert (x = y /\ of_base b xs = of_base b ys) as [-> E'].
    { pose proof (of_base_bounds b xs Hb Hxs). pose proof (of_base_bounds b ys Hb Hys).
      assert (of_base b xs = of_base b ys) as E'; [| rewrite E' in E; lia].
      apply (f_equal (fun z => z / b)) in E; cbv beta in E.
      rewrite !Z.div_add_l in E by lia. rewrite !Z.div_small in E; lia. }
    f_equal. apply IH; auto.
    + destruct xs; simpl in *; congruence.
    + destruct ys; simpl in *; congruence.
Qed.

Lemma to_of_base (b : Z) (ds : list Z) :
  1 < b -> Forall (digit_of b) ds -> head ds <> Some 0 -> to_base b (of_base b ds) = ds.
Proof.
  intros Hb Hd Hh. pose proof (of_base_bounds b ds Hb Hd).
  destruct (to_base_spec b (of_base b ds) Hb ltac:(lia)) as (Hv & Hd' & Hh').
  by apply (of_base_inj b).
Qed.

Lemma of_base_zeros (b : Z) (n : nat) : of_base b (replicate n 0) = 0.
Proof. induction n as [|n IH]; [done |]. simpl replicate. rewrite of_base_cons, IH. lia. Qed.

(** The number of digits is determined by the magnitude. *)
Lemma to_base_length (b n : Z) (k : nat) :
  1 < b -> b ^ (Z.of_nat k) <= n < b ^ (Z.of_nat k + 1) -> length (to_base b n) = S k.
Proof.
  intros Hb Hn. assert (0 < b ^ Z.of_nat k) by (apply Z.pow_pos_nonneg; lia).
  destruct (to_base_spec b n Hb ltac:(lia)) as (Hv & Hd & Hh).
  pose proof (of_base_bounds b _ Hb Hd) as Hub. rewrite Hv in Hub.
  assert (Z.of_nat k < Z.of_nat (length (to_base b n))) by (apply (Z.pow_lt_mono_r_iff b); lia).
  assert (Z.of_nat (length (to_base b n)) <= Z.of_nat k + 1); [| lia].
  destruct (to_base b n) as [|x xs]; [simpl in *; lia |].
  simpl in Hh. pose proof (of_base_pos b x xs Hb Hd ltac:(congruence)) as Hlo.
  assert (b ^ Z.of_nat (length xs) < b ^ (Z.of_nat k + 1)) as Hlt by lia.
  apply Z.pow_lt_mono_r_iff in Hlt; simpl; lia.
Qed.

(** ** Decimal text *)

Definition is_digit (c : Z) : bool := (48 <=? c) && (c <=? 57).

(** [str(n)] of a natural number. *)
Definition decimal (n : Z) : pystr :=
  if n =? 0 then [48] else map (Z.add 48) (to_base 10 n).

(** [str(z)] of an integer. *)
Definition str_of_int (z : Z) : pystr := if z <? 0 then 45 :: decimal (- z) else decimal z.

(** The value of a string of ASCII digits. *)
Definition digits_value (s : pystr) : Z := of_base 10 (map (fun c => c - 48) s).

(** [sys.int_info.default_max_str_digits]: [int] and [str] refuse to convert
    decimal text with more digits and raise [ValueError]. *)
Definition max_str_digits : nat := 4300.

(** [int(s)] for a string of ASCII digits; [None] is the [ValueError]. *)
Definition int_of_digits (s : pystr) : option Z :=
  if (length s <=? max_str_digits)%nat then Some (digits_value s) else None.

Lemma is_digit_spec (c : Z) : is_digit c = true <-> 48 <= c <= 57.
Proof. unfold is_digit. rewrite andb_true_iff, !Z.leb_le. done. Qed.

Lemma digits_value_bounds (s : pystr) :
  Forall (fun c => is_digit c = true) s -> 0 <= digits_value s < 10 ^ Z.of_nat (length s).
Proof.
  intros Hs. unfold digits_value. rewrite <-(length_map (fun c => c - 48) s).
  apply of_base_bounds; [lia |]. rewrite Forall_fmap.
  eapply Forall_impl; [exact Hs |]. simpl. intros c Hc%is_digit_spec. unfold digit_of. lia.
Qed.

Lemma digits_value_app (s t : pystr) :
  digits_value (s ++ t) = digits_value s * 10 ^ Z.of_nat (length t) + digits_value t.
Proof. unfold digits_value. by rewrite map_app, of_base_app, length_map. Qed.

Lemma digits_value_zeros (n : nat) : digits_value (replicate n 48) = 0.
Proof.
  induction n as [|n IH]; [done |]. change (replicate (S n) 48) with ([48] ++ replicate n 48).
  rewrite digits_value_app, IH. done.
Qed.

Lemma map_sub_add (k : Z) (l : list Z) : map (fun c => c - k) (map (Z.add k) l) = l.
Proof. rewrite map_map. rewrite <-(map_id l) at 2. apply map_ext. lia. Qed.

Lemma decimal_digits (n : Z) : 0 <= n -> Forall (fun c => is_digit c = true) (decimal n).
Proof.
  intros Hn. unfold decimal. destruct (Z.eqb_spec n 0); [by repeat constructor |].
  apply Forall_fmap. destruct (to_base_spec 10 n ltac:(lia) Hn) as (_ & Hd & _).
  eapply Forall_impl; [exact Hd |]. intros c Hc. apply is_digit_spec. unfold digit_of in Hc. lia.
Qed.

Lemma decimal_value (n : Z) : 0 <= n -> digits_value (decimal n) = n.
Proof.
  intros Hn. unfold decimal. destruct (Z.eqb_spec n 0) as [-> |]; [done |].
  unfold digits_value. rewrite map_sub_add. by apply to_base_spec.
Qed.

Lemma decimal_nonempty (n : Z) : 0 <= n -> decimal n <> [].
Proof.
  intros Hn. unfold decimal. destruct (Z.eqb_spec n 0) as [-> |]; [done |].
  intros E. apply fmap_nil_inv in E.
  destruct (to_base_spec 10 n ltac:(lia) Hn) as (Hv & _). rewrite E in Hv. by destruct n.
Qed.

Lemma decimal_inj (m n : Z) : 0 <= m -> 0 <= n -> decimal m = decimal n -> m = n.
Proof. intros Hm Hn E. rewrite <-(decimal_value m), <-(decimal_value n), E; done. Qed.

Lemma str_of_int_inj (m n : Z) : str_of_int m = str_of_int n -> m = n.
Proof.
  unfold str_of_int. destruct (Z.ltb_spec m 0), (Z.ltb_spec n 0); intros E.
  - injection E as E. apply decimal_inj in E; lia.
  - pose proof (decimal_digits n ltac:(lia)) as Hd. rewrite <-E in Hd.
    by apply Forall_cons in Hd as [? _].
  - pose proof (decimal_digits m ltac:(lia)) as Hd. rewrite E in Hd.
    by apply Forall_cons in Hd as [? _].
  - apply decimal_inj in E; lia.
Qed.

(** ** String methods *)

Fixpoint take_while (p : Z -> bool) (s : pystr) : pystr :=
  match s with
  | [] => []
  | c :: s' => if p c then c :: take_while p s' else []
  end.

Fixpoint drop_while (p : Z -> bool) (s : pystr) : pystr :=
  match s with
  | [] => []
  | c :: s' => if p c then drop_while p s' else s
  end.

Definition lstrip_by (p : Z -> bool) (s : pystr) : pystr := drop_while p s.
Definition rstrip_by (p : Z -> bool) (s : pystr) : pystr := rev (drop_while p (rev s)).

(** [str.isspace] of one code point: Unicode whitespace and the separators
    U+001C to U+001F. *)
Definition py_isspace (c : Z) : bool :=
  ((9 <=? c) && (c <=? 13)) || ((28 <=? c) && (c <=? 32)) || (c =? 133) || (c =? 160) ||
  (c =? 5760) || ((8192 <=? c) && (c <=? 8202)) || (c =? 8232) || (c =? 8233) ||
  (c =? 8239) || (c =? 8287) || (c =? 12288).

(** [_PyUnicode_TransformDecimalAndSpaceToASCII] on one code point; [ucd] is the
    decimal value of a non-ASCII digit, from the Unicode table. *)
Definition to_ascii (ucd : Z -> option Z) (c : Z) : Z :=
  if c <? 127 then c
  else if py_isspace c then 32
  else match ucd c with Some d => 48 + d | None => 63 end.

Definition ascii_space (c : Z) : bool := ((9 <=? c) && (c <=? 13)) || (c =? 32).

(** [s.strip()]. *)
Definition strip (s : pystr) : pystr := rstrip_by py_isspace (lstrip_by py_isspace s).

(** [s.ljust(w, c)] and [s.rjust(w, c)]. *)
Definition ljust (w : nat) (c : Z) (s : pystr) : pystr := s ++ replicate (w - length s) c.
Definition rjust (w : nat) (c : Z) (s : pystr) : pystr := replicate (w - length s) c ++ s.

Lemma take_drop_while (p : Z -> bool) (s : pystr) : take_while p s ++ drop_while p s = s.
Proof. induction s as [|c s IH]; [done |]. simpl. destruct (p c); simpl; congruence. Qed.

Lemma take_while_Forall (p : Z -> bool) (s : pystr) :
  Forall (fun c => p c = true) (take_while p s).
Proof. induction s as [|c s IH]; [constructor |]. simpl. destruct (p c) eqn:E; by constructor. Qed.

Lemma drop_while_head (p : Z -> bool) (s : pystr) (c : Z) :
  head (drop_while p s) = Some c -> p c = false.
Proof.
  induction s as [|d s IH]; [done |]. simpl.
  destruct (p d) eqn:E; [exact IH | simpl; congruence].
Qed.

(** A maximal run: [take_while] and [drop_while] find a split whose first part
    satisfies [p] and whose second part does not start with it. *)
Lemma while_split (p : Z -> bool) (s t : pystr) :
  Forall (fun c => p c = true) s -> (forall c, head t = Some c -> p c = false) ->
  take_while p (s ++ t) = s /\ drop_while p (s ++ t) = t.
Proof.
  induction 1 as [|c s Hc Hs IH]; intros Ht; simpl.
  - destruct t as [|d t]; [done |]. simpl. by rewrite (Ht d).
  - rewrite Hc. destruct (IH Ht) as [-> ->]. done.
Qed.

Lemma drop_while_none (p : Z -> bool) (s : pystr) :
  (forall c, head s = Some c -> p c = false) -> drop_while p s = s.
Proof. intros H. by apply (while_split p [] s). Qed.

(** Stripping leaves a string alone whose ends are not stripped characters. *)
Lemma strip_by_id (p : Z -> bool) (s : pystr) :
  (forall c, head s = Some c -> p c = false) ->
  (forall c, last s = Some c -> p c = false) -> rstrip_by p (lstrip_by p s) = s.
Proof.
  intros Hh Hl. unfold lstrip_by, rstrip_by. rewrite (drop_while_none _ s) by done.
  rewrite drop_while_none; [apply rev_involutive |].
  intros c Hc. apply Hl. rewrite <-(rev_involutive s). destruct (rev s) as [|d t]; [done |].
  simpl in *. by rewrite last_snoc.
Qed.

Lemma is_digit_not_space (c : Z) : is_digit c = true -> py_isspace c = false.
Proof.
  intros Hc%is_digit_spec. unfold py_isspace.
  repeat match goal with
  | |- context [?a <=? ?b] => destruct (Z.leb_spec a b); try lia
  | |- context [?a =? ?b] => destruct (Z.eqb_spec a b); try lia
  end; done.
Qed.
