(* ===== verification/Json.v ===== *)
(** * JSON values and canonical text

    [json.dumps(obj, sort_keys=True, separators=(",", ":"))] with
    [ensure_ascii=True], as [sluice/canonical.py] and [sluice/tron/types.py]
    call it: keys sorted at every level, no white space, every code point
    outside printable ASCII escaped.  Canonical text is the meaning of a
    request hash and of a txid, so the theorem that matters is that it loses
    nothing: two values with the same text are the same value up to the order
    of keys. *)
From Stdlib Require Import ZArith Lia.
From stdpp Require Import base list strings sorting.
From S2P Require Import Prelude Text.

Local Open Scope Z_scope.

(** A JSON-shaped Python value.  A float is kept as the text of its [repr];
    an object is its items in insertion order. *)
#[warnings="-register-all"]
Inductive jval : Type :=
| JNull
| JBool (b : bool)
| JInt (z : Z)
| JFloat (repr : pystr)
| JStr (s : pystr)
| JList (l : list jval)
| JObj (m : list (pystr * jval)).

Section jval_ind.
Context (P : jval -> Prop).
Hypothesis Hnull : P JNull.
Hypothesis Hbool : forall b, P (JBool b).
Hypothesis Hint : forall z, P (JInt z).
Hypothesis Hfloat : forall r, P (JFloat r).
Hypothesis Hstr : forall s, P (JStr s).
Hypothesis Hlist : forall l, Forall P l -> P (JList l).
Hypothesis Hobj : forall m, Forall (fun kv => P (snd kv)) m -> P (JObj m).

(** Induction through the nested lists. *)
Fixpoint jval_nested_ind (j : jval) : P j :=
  match j with
  | JNull => Hnull
  | JBool b => Hbool b
  | JInt z => Hint z
  | JFloat r => Hfloat r
  | JStr s => Hstr s
  | JList l => Hlist l
      ((fix go l := match l return Forall P l with
                    | [] => Forall_nil_2 _
                    | x :: l => Forall_cons_2 _ _ _ (jval_nested_ind x) (go l)
                    end) l)
  | JObj m => Hobj m
      ((fix go m := match m return Forall (fun kv => P (snd kv)) m with
                    | [] => Forall_nil_2 _
                    | kv :: m => Forall_cons_2 _ _ _ (jval_nested_ind (snd kv)) (go m)
                    end) m)
  end.
End jval_ind.

#[export] Instance jval_eq_dec : EqDecision jval.
Proof.
  refine (fix go (x y : jval) : Decision (x = y) :=
    match x, y with
    | JNull, JNull => left eq_refl
    | JBool a, JBool b => cast_if (decide (a = b))
    | JInt a, JInt b => cast_if (decide (a = b))
    | JFloat a, JFloat b => cast_if (decide (a = b))
    | JStr a, JStr b => cast_if (decide (a = b))
    | JList a, JList b => cast_if (@decide (a = b) (@list_eq_dec _ go a b))
    | JObj a, JObj b =>
        cast_if (@decide (a = b) (@list_eq_dec _ (@prod_eq_dec _ _ _ go) a b))
    | _, _ => right _
    end); abstract congruence.
Defined.

(** [d.get(k)] and [d[k]]: the value bound to a key, if any. *)
Fixpoint assoc {A : Type} (k : pystr) (m : list (pystr * A)) : option A :=
  match m with
  | [] => None
  | (k', v) :: m' => if decide (k' = k) then Some v else assoc k m'
  end.

(** ** Rendering *)

Definition hex_digit (d : Z) : Z := if d <? 10 then 48 + d else 87 + d.

(** ["%04x"]. *)
Definition hex4 (n : Z) : pystr :=
  [hex_digit (n / 4096 mod 16); hex_digit (n / 256 mod 16);
   hex_digit (n / 16 mod 16); hex_digit (n mod 16)].

Definition backslash_u (n : Z) : pystr := 92 :: 117 :: hex4 n.

(** One code point inside a string literal ([ESCAPE_ASCII] and [ESCAPE_DCT] of
    [json.encoder]; above the basic plane, a surrogate pair). *)
Definition escape (c : Z) : pystr :=
  if c =? 34 then [92; 34]
  else if c =? 92 then [92; 92]
  else if c =? 10 then [92; 110]
  else if c =? 13 then [92; 114]
  else if c =? 9 then [92; 116]
  else if c =? 12 then [92; 102]
  else if c =? 8 then [92; 98]
  else if (32 <=? c) && (c <=? 126) then [c]
  else if c <? 65536 then backslash_u c
  else backslash_u (55296 + (c - 65536) / 1024) ++ backslash_u (56320 + (c - 65536) mod 1024).

Definition quote (s : pystr) : pystr := 34 :: concat (map escape s) ++ [34].
Arguments quote : simpl never.

Fixpoint join (sep : pystr) (l : list pystr) : pystr :=
  match l with
  | [] => []
  | [x] => x
  | x :: l' => x ++ sep ++ join sep l'
  end.

Fixpoint render (j : jval) : pystr :=
  match j with
  | JNull => str "null"
  | JBool true => str "true"
  | JBool false => str "false"
  | JInt z => str_of_int z
  | JFloat r => r
  | JStr s => quote s
  | JList l => 91 :: join [44] (map render l) ++ [93]
  | JObj m => 123 :: join [44] (map (fun kv => quote (fst kv) ++ 58 :: render (snd kv)) m) ++ [125]
  end.

(** Strings compare by code point. *)
Fixpoint str_leb (a b : pystr) : bool :=
  match a, b with
  | [], _ => true
  | _ :: _, [] => false
  | x :: a', y :: b' => if x <? y then true else if y <? x then false else str_leb a' b'
  end.

Definition key_le {A : Type} (x y : pystr * A) : Prop := str_leb (fst x) (fst y) = true.

#[export] Instance key_le_dec {A : Type} : RelDecision (@key_le A).
Proof. intros x y. unfold key_le. apply _. Defined.

Fixpoint sort_keys (j : jval) : jval :=
  match j with
  | JList l => JList (map sort_keys l)
  | JObj m => JObj (merge_sort key_le (map (fun kv => (fst kv, sort_keys (snd kv))) m))
  | _ => j
  end.

Definition dumps (j : jval) : pystr := render (sort_keys j).

(** [s.encode()]: UTF-8.  The program encodes ASCII text only (see
    [dumps_ascii] and [hexdigest_ascii]), where UTF-8 and [encode("ascii")]
    are both the identity. *)
Definition utf8 (c : Z) : bytes :=
  if c <? 128 then [c]
  else if c <? 2048 then [192 + c / 64; 128 + c mod 64]
  else if c <? 65536 then [224 + c / 4096; 128 + c / 64 mod 64; 128 + c mod 64]
  else [240 + c / 262144; 128 + c / 4096 mod 64; 128 + c / 64 mod 64; 128 + c mod 64].

Definition encode (s : pystr) : bytes := concat (map utf8 s).

(** ** Lemmas *)

Definition ascii (s : pystr) : Prop := Forall (fun c => 0 <= c < 128) s.

(** A Unicode scalar value: a code point that is not a surrogate. *)
Definition scalar (c : Z) : Prop := 0 <= c < 55296 \/ 57344 <= c < 1114112.

Lemma encode_ascii (s : pystr) : ascii s -> encode s = s.
Proof.
  induction 1 as [|c s Hc _ IH]; [done |]. unfold encode in *. simpl. rewrite IH.
  unfold utf8. by destruct (Z.ltb_spec c 128); [| lia].
Qed.

(** Read one (possibly escaped) code point back. *)
Definition unhex (c : Z) : Z := if c <? 58 then c - 48 else c - 87.

Definition unhex4 (a b c d : Z) : Z :=
  ((unhex a * 16 + unhex b) * 16 + unhex c) * 16 + unhex d.

Definition unescape (s : pystr) : option (Z * pystr) :=
  match s with
  | 92 :: 117 :: a :: b :: c :: d :: r =>
      let n := unhex4 a b c d in
      if (55296 <=? n) && (n <=? 56319) then
        match r with
        | _ :: _ :: e :: f :: g :: h :: r' =>
            Some (65536 + (n - 55296) * 1024 + (unhex4 e f g h - 56320), r')
        | _ => None
        end
      else Some (n, r)
  | 92 :: c :: r =>
      Some (if c =? 110 then 10 else if c =? 114 then 13 else if c =? 116 then 9
            else if c =? 102 then 12 else if c =? 98 then 8 else c, r)
  | c :: r => Some (c, r)
  | [] => None
  end.

Lemma unhex_hex_digit (d : Z) : 0 <= d < 16 -> unhex (hex_digit d) = d.
Proof.
  intros Hd. unfold unhex, hex_digit. destruct (Z.ltb_spec d 10).
  - destruct (Z.ltb_spec (48 + d) 58); lia.
  - destruct (Z.ltb_spec (87 + d) 58); lia.
Qed.

Lemma unhex4_hex4 (n a b c d : Z) :
  0 <= n < 65536 -> hex4 n = [a; b; c; d] -> unhex4 a b c d = n.
Proof.
  intros Hn [= <- <- <- <-]. unfold unhex4.
  rewrite !unhex_hex_digit by (apply Z.mod_pos_bound; lia).
  change 4096 with (16 * 16 * 16). change 256 with (16 * 16).
  rewrite <-!Z.div_div by lia.
  assert (n / 16 / 16 / 16 mod 16 = n / 16 / 16 / 16) as ->.
  { apply Z.mod_small. rewrite !Z.div_div by lia.
    split; [apply Z.div_pos; lia | apply Z.div_lt_upper_bound; lia]. }
  rewrite !(Z.mul_comm _ 16), <-!Z.div_mod by lia. done.
Qed.

Lemma unescape_backslash_u (n : Z) (r : pystr) :
  0 <= n < 65536 -> ~ 55296 <= n <= 56319 -> unescape (backslash_u n ++ r) = Some (n, r).
Proof.
  intros Hn Hs. unfold backslash_u. destruct (hex4 n) as [|a [|b [|c [|d [|]]]]] eqn:E; try done.
  simpl. rewrite (unhex4_hex4 n a b c d) by done.
  destruct (Z.leb_spec 55296 n), (Z.leb_spec n 56319); simpl; [lia | done..].
Qed.

Lemma unescape_escape (c : Z) (r : pystr) : scalar c -> unescape (escape c ++ r) = Some (c, r).
Proof.
  intros Hc. unfold scalar in Hc. unfold escape.
  repeat match goal with
  | |- context [if ?a =? ?b then _ else _] => destruct (Z.eqb_spec a b); [subst; done |]
  end.
  destruct ((32 <=? c) && (c <=? 126)) eqn:E.
  { simpl. destruct c as [|p|p]; try done. do 7 (destruct p as [p|p|]; try done). }
  destruct (Z.ltb_spec c 65536) as [Hlt | Hge]; [apply unescape_backslash_u; lia |].
  pose proof (Z.div_mod (c - 65536) 1024 ltac:(lia)) as Hdm.
  pose proof (Z.mod_pos_bound (c - 65536) 1024 ltac:(lia)) as Hm.
  assert (0 <= (c - 65536) / 1024 < 1024) as Hq.
  { split; [apply Z.div_pos; lia | apply Z.div_lt_upper_bound; lia]. }
  set (q := (c - 65536) / 1024) in *. set (m := (c - 65536) mod 1024) in *.
  unfold backslash_u.
  destruct (hex4 (55296 + q)) as [|a [|b [|c0 [|d [|]]]]] eqn:E1; try done.
  destruct (hex4 (56320 + m)) as [|e [|f [|g [|h [|]]]]] eqn:E2; try done.
  simpl. rewrite (unhex4_hex4 (55296 + q) a b c0 d), (unhex4_hex4 (56320 + m) e f g h) by (done || lia).
  destruct (Z.leb_spec 55296 (55296 + q)), (Z.leb_spec (55296 + q) 56319); simpl; try lia.
  do 2 f_equal. lia.
Qed.

(** The escapes of the code points of a literal can be told apart, so a
    literal ends where its text says. *)
Lemma escape_prefix (c d : Z) (x y : pystr) :
  scalar c -> scalar d -> escape c ++ x = escape d ++ y -> c = d /\ x = y.
Proof.
  intros Hc Hd E. apply (f_equal unescape) in E.
  rewrite !unescape_escape in E by done. by simplify_eq.
Qed.

Lemma escape_not_quote (c : Z) (x y : pystr) : scalar c -> escape c ++ x <> 34 :: y.
Proof.
  intros Hc E. assert (scalar 34) as H34 by (left; lia).
  pose proof (unescape_escape c x Hc) as H. rewrite E in H. injection H as <- <-.
  done.
Qed.

Lemma quote_prefix (s t x y : pystr) :
  Forall scalar s -> Forall scalar t -> quote s ++ x = quote t ++ y -> s = t /\ x = y.
Proof.
  intros Hs Ht E. unfold quote in E. simpl in E. injection E as E. rewrite <-!app_assoc in E.
  revert t Ht E. induction Hs as [|c s Hc Hs IH]; intros t Ht E; destruct Ht as [|d t Hd Ht];
    simpl in E; rewrite <-?app_assoc in E.
  - by injection E as E.
  - symmetry in E. by apply escape_not_quote in E.
  - by apply escape_not_quote in E.
  - apply escape_prefix in E as [-> E]; [| done..]. apply IH in E as [-> ->]; done.
Qed.

Lemma escape_ascii (c : Z) : scalar c -> ascii (escape c).
Proof.
  assert (forall d, 0 <= d < 16 -> 0 <= hex_digit d < 128) as Hh.
  { intros d Hd. unfold hex_digit. destruct (Z.ltb_spec d 10); lia. }
  assert (forall n, ascii (backslash_u n)) as Hu.
  { intros n. unfold ascii. repeat constructor; try lia; apply Hh, Z.mod_pos_bound; lia. }
  intros _. unfold escape.
  repeat match goal with
  | |- context [if ?a =? ?b then _ else _] => destruct (Z.eqb_spec a b); [by repeat constructor |]
  end.
  destruct ((32 <=? c) && (c <=? 126)) eqn:E.
  { apply andb_true_iff in E as [?%Z.leb_le ?%Z.leb_le]. repeat constructor; lia. }
  destruct (c <? 65536); [apply Hu |]. apply Forall_app. split; apply Hu.
Qed.

Lemma quote_ascii (s : pystr) : Forall scalar s -> ascii (quote s).
Proof.
  intros Hs. unfold quote, ascii. constructor; [lia |]. rewrite Forall_app. split; [| by repeat constructor].
  induction Hs as [|c s Hc Hs IH]; simpl; [constructor |].
  apply Forall_app. split; [by apply escape_ascii | done].
Qed.

Lemma quote_head (s r : pystr) : exists t, quote s ++ r = 34 :: t.
Proof. unfold quote. eexists. reflexivity. Qed.

#[local] Opaque quote.

(** Text that is not continued by a digit. *)
Definition stops (r : pystr) : Prop := forall c, head r = Some c -> is_digit c = false.

Lemma decimal_prefix (m n : Z) (x y : pystr) :
  0 <= m -> 0 <= n -> stops x -> stops y -> decimal m ++ x = decimal n ++ y -> m = n /\ x = y.
Proof.
  intros Hm Hn Hx Hy E.
  destruct (while_split is_digit (decimal m) x (decimal_digits m Hm) Hx) as [T1 D1].
  destruct (while_split is_digit (decimal n) y (decimal_digits n Hn) Hy) as [T2 D2].
  rewrite E in T1, D1. split; [apply decimal_inj; congruence | congruence].
Qed.

Lemma str_of_int_prefix (m n : Z) (x y : pystr) :
  stops x -> stops y -> str_of_int m ++ x = str_of_int n ++ y -> m = n /\ x = y.
Proof.
  assert (forall k z r, 0 <= k -> decimal k ++ z <> 45 :: r) as Hneg.
  { intros k z r Hk E. pose proof (decimal_digits k Hk) as Hd. pose proof (decimal_nonempty k Hk).
    destruct (decimal k); [done |]. simpl in E. injection E as -> _.
    by apply Forall_cons in Hd as [? _]. }
  intros Hx Hy. unfold str_of_int. destruct (Z.ltb_spec m 0), (Z.ltb_spec n 0); simpl; intros E.
  - injection E as E. apply decimal_prefix in E as [E ->]; [| lia || done..]. split; [lia | done].
  - symmetry in E. by apply Hneg in E; [| lia].
  - by apply Hneg in E; [| lia].
  - by apply decimal_prefix in E; [| lia || done..].
Qed.

(** First code point of a rendering. *)
Inductive shape : Type := Word | Number | Literal | Array | Object.

Definition shape_of (j : jval) : shape :=
  match j with
  | JNull | JBool _ => Word
  | JInt _ | JFloat _ => Number
  | JStr _ => Literal
  | JList _ => Array
  | JObj _ => Object
  end.

Definition shape_head (sh : shape) (c : Z) : Prop :=
  match sh with
  | Word => c = 110 \/ c = 116 \/ c = 102
  | Number => c = 45 \/ 48 <= c <= 57
  | Literal => c = 34
  | Array => c = 91
  | Object => c = 123
  end.

(** A value the program renders: every string is Unicode text and no number is
    a float. *)
Fixpoint textual (j : jval) : Prop :=
  match j with
  | JFloat _ => False
  | JStr s => Forall scalar s
  | JList l => fold_right (fun x acc => textual x /\ acc) True l
  | JObj m => fold_right (fun kv acc => Forall scalar (fst kv) /\ textual (snd kv) /\ acc) True m
  | _ => True
  end.

Lemma render_head (j : jval) :
  textual j -> exists c r, render j = c :: r /\ shape_head (shape_of j) c.
Proof.
  destruct j as [| [] | z | r | s | l | m]; simpl; intros Hj; try (eexists _, _; split; [reflexivity | simpl; auto; fail]).
  - unfold str_of_int. destruct (Z.ltb_spec z 0); [eexists _, _; split; [reflexivity | by left] |].
    pose proof (decimal_digits z ltac:(lia)) as Hd. pose proof (decimal_nonempty z ltac:(lia)).
    destruct (decimal z) as [|c r]; [done |]. apply Forall_cons in Hd as [Hd%is_digit_spec _].
    eexists _, _. split; [reflexivity | by right].
  - done.
  - destruct (quote_head s []) as [t Ht]. rewrite app_nil_r in Ht. by exists 34, t.
Qed.

Lemma stops_sep (c : Z) (r : pystr) : is_digit c = false -> stops (c :: r).
Proof. intros Hc d Hd. simpl in Hd. by simplify_eq. Qed.

Section Join.
Context {A : Type} (f : A -> pystr) (P : A -> Prop) (close : Z).
Hypothesis Hclose : is_digit close = false /\ close <> 44.
Hypothesis Hhead : forall x, P x -> exists c r, f x = c :: r /\ c <> close.

(** Rendered one after the other with separators and a closing bracket, items
    that can be told apart can still be told apart. *)
Lemma join_prefix (xs ys : list A) (r1 r2 : pystr) :
  Forall (fun x => forall y u v, P x -> P y -> stops u -> stops v ->
                     f x ++ u = f y ++ v -> x = y /\ u = v) xs ->
  Forall P xs -> Forall P ys ->
  join [44] (map f xs) ++ close :: r1 = join [44] (map f ys) ++ close :: r2 ->
  xs = ys /\ r1 = r2.
Proof.
  destruct Hclose as [Hd Hne]. intros Hpre. revert ys.
  induction Hpre as [|x xs Hx Hpre IH]; intros ys Hxs Hys E.
  - destruct ys as [|y ys]; [by injection E |].
    apply Forall_cons in Hys as [Hy _]. destruct (Hhead y Hy) as (c & r & Hf & Hc).
    destruct ys; simpl in E; rewrite Hf in E; injection E; congruence.
  - apply Forall_cons in Hxs as [Px Hxs]. destruct ys as [|y ys].
    { destruct (Hhead x Px) as (c & r & Hf & Hc).
      destruct xs; simpl in E; rewrite Hf in E; injection E; congruence. }
    apply Forall_cons in Hys as [Py Hys].
    assert (exists u v, f x ++ u = f y ++ v /\ stops u /\ stops v /\
      (u = v -> xs = ys /\ r1 = r2)) as (u & v & Ef & Hu & Hv & Hrest).
    { destruct xs as [|x' xs], ys as [|y' ys]; simpl in E; rewrite <-?app_assoc in E;
        eexists _, _; (split; [exact E |]); repeat (split; [by apply stops_sep |]); intros [= E'].
      - done.
      - done.
      - done.
      - destruct (IH (y' :: ys) Hxs Hys E') as [-> ->]. done. }
    apply Hx in Ef as [-> ->]; [| done..]. destruct (Hrest eq_refl) as [-> ->]. done.
Qed.
End Join.

Lemma textual_list (l : list jval) : textual (JList l) <-> Forall textual l.
Proof. simpl. induction l as [|x l IH]; simpl; [done |]. rewrite IH, Forall_cons. done. Qed.

Lemma textual_obj (m : list (pystr * jval)) :
  textual (JObj m) <-> Forall (fun kv => Forall scalar (fst kv) /\ textual (snd kv)) m.
Proof. simpl. induction m as [|x l IH]; simpl; [done |]. rewrite IH, Forall_cons. tauto. Qed.

Lemma render_shape (j k : jval) (x y : pystr) :
  textual j -> textual k -> render j ++ x = render k ++ y -> shape_of j = shape_of k.
Proof.
  intros Hj Hk E. destruct (render_head j Hj) as (c & r & Ej & Hc).
  destruct (render_head k Hk) as (d & t & Ek & Hd).
  rewrite Ej, Ek in E. injection E as <- _.
  destruct (shape_of j), (shape_of k); simpl in Hc, Hd; done || lia.
Qed.

Lemma render_head_ne (j : jval) :
  textual j -> exists c r, render j = c :: r /\ c <> 93.
Proof.
  intros Hj. destruct (render_head j Hj) as (c & r & E & Hc). exists c, r. split; [done |].
  destruct (shape_of j); simpl in Hc; lia.
Qed.

Lemma render_prefix (j k : jval) (x y : pystr) :
  textual j -> textual k -> stops x -> stops y ->
  render j ++ x = render k ++ y -> j = k /\ x = y.
Proof.
  revert k x y.
  induction j as [| b | z | r | s | l IH | m IH] using jval_nested_ind;
    intros k x y Hj Hk Hx Hy E; pose proof (render_shape _ _ _ _ Hj Hk E) as Hsh;
    destruct k as [| b' | z' | r' | s' | l' | m']; try discriminate Hsh; try contradiction.
  - by simplify_eq/=.
  - by destruct b'.
  - by destruct b.
  - destruct b, b'; try discriminate E; by simplify_eq/=.
  - apply str_of_int_prefix in E as [-> ->]; done.
  - apply quote_prefix in E as [-> ->]; done.
  - rewrite textual_list in Hj, Hk. simpl in E. injection E as E. rewrite <-!app_assoc in E.
    apply (join_prefix render textual 93) in E as [-> ->]; auto using render_head_ne.
  - rewrite textual_obj in Hj, Hk. simpl in E. injection E as E. rewrite <-!app_assoc in E.
    eapply (join_prefix _ (fun kv => Forall scalar (fst kv) /\ textual (snd kv)) 125) in E
      as [-> ->]; [done | split; [done | lia] | | | exact Hj | exact Hk].
    { intros kv _. destruct (quote_head (fst kv) (58 :: render (snd kv))) as [t ->].
      exists 34, t. split; [done | lia]. }
    eapply Forall_impl; [exact IH |]. intros [k v] IHv [k' v'] u w [Hk1 Hv1] [Hk2 Hv2] Hu Hw Ekv.
    simpl in *. rewrite <-(app_assoc (quote k)), <-(app_assoc (quote k')) in Ekv. apply quote_prefix in Ekv as [-> Ekv]; [| done..].
    simpl in Ekv. injection Ekv as Ekv. apply IHv in Ekv as [-> ->]; done.
Qed.

(** ** Canonical text *)

Lemma textual_sort_keys (j : jval) : textual j -> textual (sort_keys j).
Proof.
  induction j as [| b | z | r | s | l IH | m IH] using jval_nested_ind; try done.
  - change (sort_keys (JList l)) with (JList (map sort_keys l)).
    rewrite !textual_list, Forall_fmap. intros Hl. rewrite Forall_forall in *. simpl. auto.
  - change (sort_keys (JObj m)) with
      (JObj (merge_sort key_le (map (fun kv => (fst kv, sort_keys (snd kv))) m))).
    rewrite !textual_obj, merge_sort_Permutation, Forall_fmap.
    intros Hm. rewrite Forall_forall in *. intros kv Hkv. simpl.
    destruct (Hm kv Hkv). auto.
Qed.

Lemma dumps_eq_sort_keys (j k : jval) :
  textual j -> textual k -> dumps j = dumps k -> sort_keys j = sort_keys k.
Proof.
  intros Hj Hk E. unfold dumps in E.
  assert (stops []) as Hs by done.
  apply textual_sort_keys in Hj, Hk.
  destruct (render_prefix _ _ [] [] Hj Hk Hs Hs); [by rewrite !app_nil_r | done].
Qed.

Lemma join_ascii (l : list pystr) : Forall ascii l -> ascii (join [44] l).
Proof.
  induction 1 as [|x l Hx Hl IH]; [constructor |]. destruct l as [|y l]; [exact Hx |].
  change (join [44] (x :: y :: l)) with (x ++ [44] ++ join [44] (y :: l)).
  unfold ascii in *. rewrite !Forall_app. repeat split; auto. by repeat constructor.
Qed.

Lemma str_of_int_ascii (z : Z) : ascii (str_of_int z).
Proof.
  assert (forall n, 0 <= n -> ascii (decimal n)) as Hd.
  { intros n Hn. eapply Forall_impl; [by apply decimal_digits |].
    intros c Hc%is_digit_spec. lia. }
  unfold str_of_int. destruct (Z.ltb_spec z 0); [constructor; [lia |] |]; apply Hd; lia.
Qed.

Lemma render_ascii (j : jval) : textual j -> ascii (render j).
Proof.
  induction j as [| b | z | r | s | l IH | m IH] using jval_nested_ind; simpl; intros Hj.
  - by repeat constructor.
  - destruct b; by repeat constructor.
  - apply str_of_int_ascii.
  - done.
  - by apply quote_ascii.
  - apply (proj1 (textual_list l)) in Hj. constructor; [lia |].
    apply Forall_app. split; [| by repeat constructor].
    apply join_ascii, Forall_fmap. rewrite Forall_forall in *. simpl; auto.
  - apply (proj1 (textual_obj m)) in Hj. constructor; [lia |].
    apply Forall_app. split; [| by repeat constructor].
    apply join_ascii, Forall_fmap. rewrite Forall_forall in *. intros kv Hkv. simpl.
    destruct (Hj kv Hkv) as [Hk Hv]. apply Forall_app. split; [by apply quote_ascii |].
    constructor; [lia | by apply IH].
Qed.

Lemma dumps_ascii (j : jval) : textual j -> ascii (dumps j).
Proof. intros Hj. by apply render_ascii, textual_sort_keys. Qed.

Lemma encode_dumps_inj (j k : jval) :
  textual j -> textual k -> encode (dumps j) = encode (dumps k) -> sort_keys j = sort_keys k.
Proof.
  intros Hj Hk E. rewrite !encode_ascii in E by auto using dumps_ascii.
  by apply dumps_eq_sort_keys.
Qed.
