(* ===== verification/Money.v ===== *)
(** * Amounts ([sluice/money.py])

    [to_units] parses a decimal string into integer minimal units, [to_human]
    prints units back.  Both are translated character by character; the
    regular expression is its deterministic reading.  The theorems: parsing is
    exact on the grammar it accepts and refuses everything else, it is a left
    inverse of printing, spelling variants of one amount agree, and text of
    more than 4300 digits escapes as the plain [ValueError] of [int]. *)
From Stdlib Require Import ZArith Lia.
From stdpp Require Import base list strings.
From S2P Require Import Prelude Text Json.

Local Open Scope Z_scope.

(** What the two functions raise: [AmountError], with the case that raised it,
    or the [ValueError] of an [int] conversion past the digit limit. *)
Inductive amount_error : Type :=
| not_a_string (type_name : pystr)
| malformed (amount : pystr)
| too_many_fractional_digits (amount : pystr) (got supported : nat)
| negative_units.

Inductive money_exn : Type :=
| AmountError (why : amount_error)
| IntDigitsError.

(** [type(amount).__name__]. *)
Definition type_name (j : jval) : pystr :=
  match j with
  | JNull => str "NoneType"
  | JBool _ => str "bool"
  | JInt _ => str "int"
  | JFloat _ => str "float"
  | JStr _ => str "str"
  | JList _ => str "list"
  | JObj _ => str "dict"
  end.

(** [$] without [re.MULTILINE]: the end, or just before a final newline. *)
Definition at_dollar (s : pystr) : bool :=
  match s with
  | [] => true
  | [c] => c =? 10
  | _ => false
  end.

(** [_AMOUNT_RE.match]: the groups [int] and [frac]. *)
Definition amount_re (s : pystr) : option (pystr * option pystr) :=
  let whole := take_while is_digit s in
  let rest := drop_while is_digit s in
  match whole, rest with
  | [], _ => None
  | _, c :: rest' =>
      let frac := take_while is_digit rest' in
      let rest'' := drop_while is_digit rest' in
      if (c =? 46) && negb (bool_decide (frac = [])) && at_dollar rest''
      then Some (whole, Some frac)
      else if at_dollar rest then Some (whole, None) else None
  | _, [] => Some (whole, None)
  end.

(** [int(s)] at the end of [to_units], on digits. *)
Definition to_int (s : pystr) : result money_exn Z :=
  match int_of_digits s with
  | Some z => Ok z
  | None => Err IntDigitsError
  end.

(** [x or d] on strings. *)
Definition str_or (s d : pystr) : pystr := match s with [] => d | _ => s end.

Local Open Scope sluice_scope.

Definition to_units (amount : jval) (decimals : nat) : result money_exn Z :=
  match amount with
  | JStr amount =>
      match amount_re (strip amount) with
      | None => Err (AmountError (malformed amount))
      | Some (whole, frac) =>
          let frac := default [] frac in
          if (decimals <? length frac)%nat
          then Err (AmountError (too_many_fractional_digits amount (length frac) decimals))
          else
            let? w := to_int whole in
            let? f := to_int (str_or (ljust decimals 48 frac) [48]) in
            Ok (w * 10 ^ Z.of_nat decimals + f)
      end
  | _ => Err (AmountError (not_a_string (type_name amount)))
  end.

(** [str(n)], which refuses more than 4300 digits. *)
Definition to_str (n : Z) : result money_exn pystr :=
  if (length (decimal n) <=? max_str_digits)%nat then Ok (decimal n) else Err IntDigitsError.

Definition to_human (units : Z) (decimals : nat) : result money_exn pystr :=
  if units <? 0 then Err (AmountError negative_units)
  else
    let whole := units / 10 ^ Z.of_nat decimals in
    let frac := units mod 10 ^ Z.of_nat decimals in
    let? w := to_str whole in
    if frac =? 0 then Ok w
    else
      let? f := to_str frac in
      Ok (w ++ [46] ++ rstrip_by (Z.eqb 48) (rjust decimals 48 f)).

Local Close Scope sluice_scope.

Example to_units_ex1 : to_units (JStr (str "12.5")) 6 = Ok 12500000.
Proof. vm_compute. reflexivity. Qed.
Example to_units_ex2 : to_units (JStr (str " 0.000001 ")) 6 = Ok 1.
Proof. vm_compute. reflexivity. Qed.
Example to_human_ex : to_human 12500000 6 = Ok (str "12.5").
Proof. vm_compute. reflexivity. Qed.

(** ** The accepted grammar *)

Definition digits (s : pystr) : Prop := Forall (fun c => is_digit c = true) s.

(** The text of whole part [w] and fractional digits [f]. *)
Definition amount_text (w f : pystr) : pystr :=
  match f with
  | [] => w
  | _ => w ++ 46 :: f
  end.

Lemma digits_stop_dot (f : pystr) (c : Z) : head (46 :: f) = Some c -> is_digit c = false.
Proof. intros [= <-]. done. Qed.

Lemma while_digits (w : pystr) :
  digits w -> take_while is_digit w = w /\ drop_while is_digit w = [].
Proof.
  intros Hw. rewrite <-(app_nil_r w) at 1 3. by apply while_split.
Qed.

Lemma amount_re_complete (w f : pystr) :
  digits w -> digits f -> w <> [] ->
  amount_re (amount_text w f) = Some (w, match f with [] => None | _ => Some f end).
Proof.
  intros Hw Hf Hne. unfold amount_re, amount_text. destruct f as [|c f].
  - destruct (while_digits w Hw) as [E1 E2]. rewrite E1, E2. by destruct w.
  - destruct (while_split is_digit w (46 :: c :: f) Hw (digits_stop_dot _)) as [E1 E2].
    destruct (while_digits (c :: f) Hf) as [E3 E4]. rewrite E1, E2, E3, E4. by destruct w.
Qed.

Lemma amount_re_sound (s w : pystr) (fo : option pystr) :
  amount_re s = Some (w, fo) -> last s <> Some 10 ->
  exists f, fo = match f with [] => None | _ => Some f end /\ s = amount_text w f /\
            w <> [] /\ digits w /\ digits f.
Proof.
  unfold amount_re. intros H Hlast.
  pose proof (take_drop_while is_digit s) as Es.
  pose proof (take_while_Forall is_digit s) as Hd.
  destruct (take_while is_digit s) as [|a w']; [done |].
  destruct (drop_while is_digit s) as [|c rest] eqn:Er.
  { rewrite app_nil_r in Es. injection H as <- <-. exists []. split_and!; (done || constructor). }
  pose proof (take_drop_while is_digit rest) as Erest.
  pose proof (take_while_Forall is_digit rest) as Hf.
  destruct (take_while is_digit rest) as [|b f'] eqn:Ef; case_bool_decide; try done.
  - rewrite andb_false_r in H. simpl in H. destruct rest; [| done].
    destruct (Z.eqb_spec c 10) as [-> |]; [| done].
    exfalso. apply Hlast. by rewrite <-Es, last_snoc.
  - destruct (Z.eqb_spec c 46) as [-> |]; simpl in H.
    + destruct (drop_while is_digit rest) as [|d [|]]; cbn [at_dollar andb negb] in H.
      * injection H as <- <-. exists (b :: f'). rewrite app_nil_r in Erest.
        by rewrite <-Es, <-Erest.
      * destruct (d =? 10) eqn:E10; [apply Z.eqb_eq in E10; subst d |].
        { exfalso. apply Hlast. by rewrite <-Es, <-Erest, app_comm_cons, app_assoc, last_snoc. }
        by destruct rest.
      * by destruct rest.
    + destruct rest; [by destruct f' | done].
Qed.

Lemma strip_last (s : pystr) (c : Z) : last (strip s) = Some c -> py_isspace c = false.
Proof.
  unfold strip, rstrip_by. intros H. apply (drop_while_head py_isspace (rev (lstrip_by py_isspace s))).
  destruct (drop_while _ _) as [|d t]; [done |]. simpl in *. rewrite last_snoc in H. done.
Qed.

Lemma digits_value_ljust (decimals : nat) (f : pystr) :
  (length f <= decimals)%nat ->
  digits_value (str_or (ljust decimals 48 f) [48]) =
  digits_value f * 10 ^ Z.of_nat (decimals - length f).
Proof.
  intros Hlen. unfold ljust.
  assert (digits_value (f ++ replicate (decimals - length f) 48) =
    digits_value f * 10 ^ Z.of_nat (decimals - length f)) as E.
  { rewrite digits_value_app, digits_value_zeros, length_replicate. lia. }
  destruct (f ++ _) as [|c t] eqn:Et; [| exact E]. rewrite <-E. done.
Qed.

Lemma length_str_or_ljust (decimals : nat) (f : pystr) :
  (length f <= decimals)%nat ->
  length (str_or (ljust decimals 48 f) [48]) = Nat.max 1 decimals.
Proof.
  intros Hlen. unfold ljust.
  assert (length (f ++ replicate (decimals - length f) 48) = decimals) as E.
  { rewrite length_app, length_replicate. lia. }
  destruct (f ++ _) as [|c t]; simpl in *; lia.
Qed.

Lemma to_units_iff (j : jval) (decimals : nat) (u : Z) :
  to_units j decimals = Ok u <->
  exists s w f, j = JStr s /\ strip s = amount_text w f /\ w <> [] /\ digits w /\ digits f /\
    (length f <= decimals)%nat /\ (length w <= max_str_digits)%nat /\
    (decimals <= max_str_digits)%nat /\
    u = digits_value w * 10 ^ Z.of_nat decimals +
        digits_value f * 10 ^ Z.of_nat (decimals - length f).
Proof.
  split.
  - destruct j as [| | | | s | |]; try done. simpl. intros H.
    destruct (amount_re (strip s)) as [[w fo] |] eqn:E; [| done].
    apply amount_re_sound in E as (f & -> & Es & Hne & Hw & Hf); [| by intros ?%strip_last].
    exists s, w, f.
    assert (default [] (match f with [] => None | _ => Some f end) = f) as Ef by by destruct f.
    rewrite Ef in H. destruct (Nat.ltb_spec decimals (length f)) as [|Hlen]; [done |].
    unfold to_int, int_of_digits in H.
    destruct (Nat.leb_spec (length w) max_str_digits); [| done]. cbn [result_bind] in H.
    rewrite length_str_or_ljust, digits_value_ljust in H by done.
    destruct (Nat.leb_spec (Nat.max 1 decimals) max_str_digits); [| done]. injection H as <-.
    repeat split; auto; lia.
  - intros (s & w & f & -> & Es & Hne & Hw & Hf & Hlen & Hlw & Hd & ->). simpl.
    rewrite Es, amount_re_complete by done.
    assert (default [] (match f with [] => None | _ => Some f end) = f) as -> by by destruct f.
    destruct (Nat.ltb_spec decimals (length f)); [lia |].
    unfold to_int, int_of_digits.
    destruct (Nat.leb_spec (length w) max_str_digits); [| lia]. cbn [result_bind].
    rewrite length_str_or_ljust, digits_value_ljust by done.
    assert (1 <= max_str_digits)%nat by (unfold max_str_digits; lia).
    destruct (Nat.leb_spec (Nat.max 1 decimals) max_str_digits); [done | lia].
Qed.

(** C36. [to_units] accepts exactly the decimal strings (whole digits, at most
    [decimals] fractional digits, surrounding white space ignored) and returns
    their exact value in minimal units; [decimals] and the number of whole
    digits are within the 4300-digit limit of [int]. *)
Theorem to_units_exact (j : jval) (decimals : nat) (u : Z) :
  to_units j decimals = Ok u <->
  exists s w f, j = JStr s /\ strip s = amount_text w f /\ w <> [] /\ digits w /\ digits f /\
    (length f <= decimals)%nat /\ (length w <= max_str_digits)%nat /\
    (decimals <= max_str_digits)%nat /\
    u = digits_value w * 10 ^ Z.of_nat decimals +
        digits_value f * 10 ^ Z.of_nat (decimals - length f).
Proof. apply to_units_iff. Qed.

Lemma amount_text_ends (w f : pystr) (c : Z) :
  digits w -> digits f -> w <> [] ->
  head (amount_text w f) = Some c \/ last (amount_text w f) = Some c -> is_digit c = true.
Proof.
  intros Hw Hf Hne [Hc | Hc].
  - destruct w as [|d w]; [done |]. apply Forall_cons in Hw as [Hd _].
    destruct f; simpl in Hc; by simplify_eq.
  - unfold amount_text in Hc. destruct f as [|d f].
    + apply last_Some_elem_of in Hc. by apply (proj1 (Forall_forall _ _) Hw).
    + rewrite last_app_cons, last_cons_cons in Hc.
      apply last_Some_elem_of in Hc. by apply (proj1 (Forall_forall _ _) Hf).
Qed.

Lemma strip_amount_text (w f : pystr) :
  digits w -> digits f -> w <> [] -> strip (amount_text w f) = amount_text w f.
Proof.
  intros Hw Hf Hne.
  apply strip_by_id; intros c Hc; apply is_digit_not_space, (amount_text_ends w f); auto.
Qed.

Lemma rstrip_zeros (s : pystr) :
  exists k, s = rstrip_by (Z.eqb 48) s ++ replicate k 48.
Proof.
  unfold rstrip_by. exists (length (take_while (Z.eqb 48) (rev s))).
  rewrite <-(rev_involutive s) at 1. rewrite <-(take_drop_while (Z.eqb 48) (rev s)) at 1.
  rewrite rev_app_distr. f_equal.
  pose proof (take_while_Forall (Z.eqb 48) (rev s)) as Hz.
  rewrite <-length_rev. symmetry. apply replicate_as_elem_of. split; [done |].
  intros c Hc. rewrite list_elem_of_In, <-in_rev, <-list_elem_of_In in Hc.
  apply (proj1 (Forall_forall _ _) Hz) in Hc. lia.
Qed.

Lemma digits_app (s t : pystr) : digits (s ++ t) <-> digits s /\ digits t.
Proof. apply Forall_app. Qed.

Lemma digits_zeros (k : nat) : digits (replicate k 48).
Proof. by apply Forall_replicate. Qed.

(** The fractional digits [to_human] prints carry the remainder exactly. *)
Lemma human_frac (r : Z) (decimals : nat) :
  0 < r < 10 ^ Z.of_nat decimals ->
  let f := rstrip_by (Z.eqb 48) (rjust decimals 48 (decimal r)) in
  digits f /\ f <> [] /\ (length f <= decimals)%nat /\
  digits_value f * 10 ^ Z.of_nat (decimals - length f) = r.
Proof.
  intros Hr f. set (g := rjust decimals 48 (decimal r)) in *.
  assert (length (decimal r) <= decimals)%nat as Hlen.
  { unfold decimal. destruct (Z.eqb_spec r 0); [lia |]. rewrite length_map.
    destruct (to_base_spec 10 r ltac:(lia) ltac:(lia)) as (Hv & Hd & Hh).
    destruct (to_base 10 r) as [|x xs] eqn:E; [simpl; lia |].
    simpl in Hh. pose proof (of_base_pos 10 x xs ltac:(lia) Hd ltac:(congruence)) as Hlo.
    rewrite Hv in Hlo. assert (10 ^ Z.of_nat (length xs) < 10 ^ Z.of_nat decimals) as Hlt by lia.
    apply Z.pow_lt_mono_r_iff in Hlt; simpl; lia. }
  assert (length g = decimals) as Hg.
  { unfold g, rjust. rewrite length_app, length_replicate. lia. }
  assert (digits_value g = r) as Hgv.
  { unfold g, rjust. rewrite digits_value_app, digits_value_zeros, decimal_value by lia. lia. }
  assert (digits g) as Hgd.
  { unfold g, rjust. apply digits_app. split; [apply digits_zeros | apply decimal_digits; lia]. }
  destruct (rstrip_zeros g) as [k Ek]. fold f in Ek.
  rewrite Ek in Hg, Hgv, Hgd. rewrite length_app, length_replicate in Hg.
  rewrite digits_value_app, digits_value_zeros, length_replicate in Hgv.
  apply digits_app in Hgd as [Hfd _]. replace (decimals - length f)%nat with k by lia.
  split_and!; [done | | lia | lia].
  intros Hf. rewrite Hf in Hgv. change (digits_value []) with 0 in Hgv. lia.
Qed.

(** C37. Printing and parsing are inverse: what [to_human] prints for a
    non-negative amount, [to_units] reads back as the same number of minimal
    units, for every number of decimals within [int]'s digit limit. *)
Theorem to_units_to_human (units : Z) (decimals : nat) (s : pystr) :
  (decimals <= max_str_digits)%nat ->
  to_human units decimals = Ok s -> to_units (JStr s) decimals = Ok units.
Proof.
  intros Hdec H. unfold to_human, to_str in H. destruct (Z.ltb_spec units 0); [done |].
  set (p := 10 ^ Z.of_nat decimals) in *.
  assert (0 < p) by (apply Z.pow_pos_nonneg; lia).
  pose proof (Z.div_mod units p ltac:(lia)) as Hdm.
  pose proof (Z.mod_pos_bound units p ltac:(lia)) as Hm.
  assert (0 <= units / p) as Hq by (apply Z.div_pos; lia).
  destruct (Nat.leb_spec (length (decimal (units / p))) max_str_digits); [| done].
  cbn [result_bind] in H.
  assert (exists f, s = amount_text (decimal (units / p)) f /\ digits f /\
    (length f <= decimals)%nat /\
    digits_value f * 10 ^ Z.of_nat (decimals - length f) = units mod p) as (f & Es & Hf & Hlf & Hv).
  { destruct (Z.eqb_spec (units mod p) 0) as [E0 | E0].
    - injection H as <-. exists []. split_and!; [done | constructor | simpl; lia |].
      rewrite E0. change (digits_value []) with 0. lia.
    - destruct (Nat.leb_spec (length (decimal (units mod p))) max_str_digits); [| done].
      cbn [result_bind] in H. injection H as <-.
      destruct (human_frac (units mod p) decimals) as (Hf & Hne & Hl & Hv); [fold p; lia |].
      eexists. split_and!; [| exact Hf | exact Hl | exact Hv].
      by destruct (rstrip_by _ _). }
  apply to_units_iff. exists s, (decimal (units / p)), f.
  pose proof (decimal_digits (units / p) Hq). pose proof (decimal_nonempty (units / p) Hq).
  split_and!; auto; [by rewrite Es, strip_amount_text |].
  rewrite decimal_value by done. fold p. lia.
Qed.

Lemma to_units_to_human_witness :
  to_human 1250750000 6 = Ok (str "1250.75") /\
  to_units (JStr (str "1250.75")) 6 = Ok 1250750000.
Proof.
  split; [vm_compute; reflexivity |].
  apply (to_units_to_human 1250750000 6 (str "1250.75")); [vm_compute; lia | vm_compute; reflexivity].
Defined.

(** An amount past the 4300-digit limit of [int] is not turned into an
    [AmountError]: for every digit string longer than that, [to_units] lets
    the [ValueError] of [int()] through. *)
Theorem to_units_digit_limit (w : pystr) (decimals : nat) :
  digits w -> (max_str_digits < length w)%nat ->
  to_units (JStr w) decimals = Err IntDigitsError.
Proof.
  intros Hw Hlen. assert (w <> []) as Hne by (intros ->; simpl in Hlen; lia).
  simpl. change w with (amount_text w []). assert (digits []) as Hnil by constructor.
  rewrite strip_amount_text, amount_re_complete by done. simpl.
  unfold to_int, int_of_digits. destruct (Nat.leb_spec (length w) max_str_digits); [lia |]. done.
Qed.

Lemma to_units_digit_limit_witness :
  to_units (JStr (replicate 4301 57)) 6 = Err IntDigitsError.
Proof.
  apply (to_units_digit_limit (replicate 4301 57) 6).
  - by apply Forall_replicate.
  - rewrite length_replicate. unfold max_str_digits. lia.
Defined.

(** Trailing fractional zeros carry no meaning: the spellings "1.5",
    "1.50", ... of one amount parse to the same number of units, as long as
    they stay within the token's decimals. *)
Theorem to_units_trailing_zeros (w f : pystr) (k decimals : nat) :
  digits w -> digits f -> w <> [] -> (length f + k <= decimals)%nat ->
  to_units (JStr (amount_text w (f ++ replicate k 48))) decimals =
  to_units (JStr (amount_text w f)) decimals.
Proof.
  intros Hw Hf Hne Hk. simpl.
  assert (digits (f ++ replicate k 48)) as Hg by (apply digits_app; auto using digits_zeros).
  rewrite !strip_amount_text, !amount_re_complete by done.
  assert (forall g : pystr, default [] (match g with [] => None | _ => Some g end) = g) as Hd
    by by intros [].
  rewrite !Hd, length_app, length_replicate.
  destruct (Nat.ltb_spec decimals (length f + k)), (Nat.ltb_spec decimals (length f)); try lia.
  assert (ljust decimals 48 (f ++ replicate k 48) = ljust decimals 48 f) as ->; [| done].
  unfold ljust. rewrite <-app_assoc, <-replicate_add, length_app, length_replicate.
  do 2 f_equal. lia.
Qed.

Lemma to_units_trailing_zeros_witness :
  to_units (JStr (str "1.5000")) 6 = to_units (JStr (str "1.5")) 6.
Proof.
  apply (to_units_trailing_zeros [49] [53] 3 6); [by repeat constructor.. | done | simpl; lia].
Defined.
