(* ===== verification/Hash.v ===== *)
(** * SHA-256 and HMAC

    The functions of Python's [hashlib] and [hmac] that the program calls,
    computed here by their specifications (FIPS 180-4, RFC 2104) so that
    addresses, request hashes, txids and signatures evaluate to the values the
    program computes.  Nothing is assumed about collisions: a theorem that
    needs two digests to differ has a concrete collision as its other
    conclusion. *)
From Stdlib Require Import ZArith Lia.
From stdpp Require Import base list strings.
From S2P Require Import Prelude Text Json.

Local Open Scope Z_scope.

Definition mask32 (x : Z) : Z := Z.land x 4294967295.
Definition add32 (x y : Z) : Z := mask32 (x + y).
Definition rotr (n x : Z) : Z :=
  Z.lor (Z.shiftr x n) (Z.shiftl (Z.land x (Z.ones n)) (32 - n)).

Definition Ch (x y z : Z) : Z := Z.lxor (Z.land x y) (Z.land (Z.lxor x 4294967295) z).
Definition Maj (x y z : Z) : Z := Z.lxor (Z.lxor (Z.land x y) (Z.land x z)) (Z.land y z).
Definition bsig0 (x : Z) : Z := Z.lxor (Z.lxor (rotr 2 x) (rotr 13 x)) (rotr 22 x).
Definition bsig1 (x : Z) : Z := Z.lxor (Z.lxor (rotr 6 x) (rotr 11 x)) (rotr 25 x).
Definition ssig0 (x : Z) : Z := Z.lxor (Z.lxor (rotr 7 x) (rotr 18 x)) (Z.shiftr x 3).
Definition ssig1 (x : Z) : Z := Z.lxor (Z.lxor (rotr 17 x) (rotr 19 x)) (Z.shiftr x 10).

(** The standard's constants: the first 32 bits of the fractional parts of the
    cube roots of the first 64 primes, and of the square roots of the first 8. *)
Definition is_prime (n : nat) : bool :=
  (2 <=? n)%nat && forallb (fun d => negb (n mod d =? 0)%nat) (seq 2 (n - 2)).

Definition primes (k : nat) : list Z := map Z.of_nat (take k (filter (fun n => is_prime n = true) (seq 0 320))).

(** Integer cube root below [2 ^ 40], bit by bit. *)
Definition icbrt (n : Z) : Z :=
  fold_left (fun r i => let r' := r + 2 ^ Z.of_nat i in if r' ^ 3 <=? n then r' else r) (rev (seq 0 40)) 0.

Definition K256 : list Z :=
  Eval vm_compute in map (fun p => icbrt (p * 2 ^ 96) mod 2 ^ 32) (primes 64).

(** The eight working words. *)
Record words := mkWords { wa : Z; wb : Z; wc : Z; wd : Z; we : Z; wf : Z; wg : Z; wh : Z }.

Definition H0 : words :=
  Eval vm_compute in
  match map (fun p => Z.sqrt (p * 2 ^ 64) mod 2 ^ 32) (primes 8) with
  | [a; b; c; d; e; f; g; h] => mkWords a b c d e f g h
  | _ => mkWords 0 0 0 0 0 0 0 0
  end.

Definition round (s : words) (k w : Z) : words :=
  let t1 := mask32 (wh s + bsig1 (we s) + Ch (we s) (wf s) (wg s) + k + w) in
  let t2 := mask32 (bsig0 (wa s) + Maj (wa s) (wb s) (wc s)) in
  mkWords (add32 t1 t2) (wa s) (wb s) (wc s) (add32 (wd s) t1) (we s) (wf s) (wg s).

(** The message schedule, latest word first. *)
Fixpoint expand (n : nat) (w : list Z) : list Z :=
  match n with
  | O => w
  | S n =>
      expand n
        (mask32 (ssig1 (nth 1 w 0) + nth 6 w 0 + ssig0 (nth 14 w 0) + nth 15 w 0) :: w)
  end.

Definition schedule (block : list Z) : list Z := rev (expand 48 (rev block)).

Definition compress (s : words) (block : list Z) : words :=
  let r := fold_left (fun s kw => round s (fst kw) (snd kw)) (combine K256 (schedule block)) s in
  mkWords (add32 (wa s) (wa r)) (add32 (wb s) (wb r)) (add32 (wc s) (wc r)) (add32 (wd s) (wd r))
          (add32 (we s) (we r)) (add32 (wf s) (wf r)) (add32 (wg s) (wg r)) (add32 (wh s) (wh r)).

(** Big-endian words and bytes. *)
Fixpoint words_of (b : bytes) : list Z :=
  match b with
  | w :: x :: y :: z :: r => (((w * 256 + x) * 256 + y) * 256 + z) :: words_of r
  | _ => []
  end.

Definition be_bytes (n : nat) (x : Z) : bytes :=
  map (fun i => Z.shiftr x (8 * Z.of_nat i) mod 256) (rev (seq 0 n)).

Definition pad (b : bytes) : bytes :=
  b ++ 128 :: replicate ((119 - length b mod 64) mod 64) 0 ++ be_bytes 8 (8 * Z.of_nat (length b)).

Fixpoint blocks (fuel : nat) (s : words) (w : list Z) : words :=
  match fuel with
  | O => s
  | S fuel => match w with
              | [] => s
              | _ => blocks fuel (compress s (take 16 w)) (drop 16 w)
              end
  end.

Definition digest_words (s : words) : list Z :=
  [wa s; wb s; wc s; wd s; we s; wf s; wg s; wh s].

(** [hashlib.sha256(b).digest()]. *)
Definition sha256 (b : bytes) : bytes :=
  let w := words_of (pad b) in
  concat (map (be_bytes 4) (digest_words (blocks (S (length w)) H0 w))).

(** [.hexdigest()]. *)
Definition hexdigest (b : bytes) : pystr :=
  concat (map (fun x => [hex_digit (x / 16); hex_digit (x mod 16)]) b).

(** [hmac.new(key, msg, hashlib.sha256).digest()]. *)
Definition hmac_key (key : bytes) : bytes :=
  let k := if (64 <? length key)%nat then sha256 key else key in
  k ++ replicate (64 - length k) 0.

Definition hmac_sha256 (key msg : bytes) : bytes :=
  sha256 (map (Z.lxor 0x5c) (hmac_key key) ++ sha256 (map (Z.lxor 0x36) (hmac_key key) ++ msg)).

Arguments sha256 : simpl never.
Arguments hmac_sha256 : simpl never.

Example sha256_abc :
  hexdigest (sha256 (str "abc")) =
  str "ba7816bf8f01cfea414140de5dae2223b00361a396177a9cb410ff61f20015ad".
Proof. vm_compute. reflexivity. Qed.

Example sha256_two_blocks :
  hexdigest (sha256 (str "abcdbcdecdefdefgefghfghighijhijkijkljklmklmnlmnomnopnopq")) =
  str "248d6a61d20638b8e5c026930c3e6039a33ce45964ff2167f6ecedd419db06c1".
Proof. vm_compute. reflexivity. Qed.

Example hmac_rfc4231 :
  hexdigest (hmac_sha256 (str "Jefe") (str "what do ya want for nothing?")) =
  str "5bdcc146bf60754e6a042426089575c75a003f089d2739839dec58b964ec3843".
Proof. vm_compute. reflexivity. Qed.

(** ** Lemmas *)

Definition is_bytes (b : bytes) : Prop := Forall (digit_of 256) b.

Lemma be_bytes_length (n : nat) (x : Z) : length (be_bytes n x) = n.
Proof. unfold be_bytes. by rewrite length_map, length_rev, length_seq. Qed.

Lemma be_bytes_is_bytes (n : nat) (x : Z) : is_bytes (be_bytes n x).
Proof.
  unfold be_bytes, is_bytes. apply Forall_fmap, Forall_true. intros i. apply Z.mod_pos_bound. lia.
Qed.

Lemma sha256_length (b : bytes) : length (sha256 b) = 32%nat.
Proof. unfold sha256. cbn [digest_words map concat]. rewrite !length_app, !be_bytes_length. done. Qed.

Lemma sha256_is_bytes (b : bytes) : is_bytes (sha256 b).
Proof.
  unfold sha256. cbn [digest_words map concat]. unfold is_bytes.
  rewrite !Forall_app. split_and!; try apply be_bytes_is_bytes. constructor.
Qed.

Lemma hexdigest_inj (a b : bytes) : is_bytes a -> is_bytes b -> hexdigest a = hexdigest b -> a = b.
Proof.
  intros Ha. revert b. induction Ha as [|x a Hx Ha IH]; intros b Hb; destruct Hb as [|y b Hy Hb];
    try done. unfold hexdigest. simpl. intros [= E1 E2 E3].
  apply (f_equal unhex) in E1, E2. unfold digit_of in *.
  rewrite !unhex_hex_digit in E1 by
    (split; [apply Z.div_pos; lia | apply Z.div_lt_upper_bound; lia]).
  rewrite !unhex_hex_digit in E2 by (apply Z.mod_pos_bound; lia).
  f_equal; [| by apply IH].
  rewrite (Z.div_mod x 16), (Z.div_mod y 16) by lia. congruence.
Qed.

Lemma hex_digit_ascii (d : Z) : 0 <= d < 16 -> 48 <= hex_digit d < 103.
Proof. intros Hd. unfold hex_digit. destruct (Z.ltb_spec d 10); lia. Qed.

Lemma hexdigest_ascii (b : bytes) : is_bytes b -> ascii (hexdigest b).
Proof.
  unfold ascii, hexdigest. induction 1 as [|x b Hx Hb IH]; simpl; [constructor |].
  unfold digit_of in Hx. repeat constructor; try done;
    match goal with
    | |- context [hex_digit ?d] =>
        assert (0 <= d < 16) as Hd;
          [ (split; [apply Z.div_pos; lia | apply Z.div_lt_upper_bound; lia]) || (apply Z.mod_pos_bound; lia)
          | apply hex_digit_ascii in Hd; lia ]
    end.
Qed.

(** A concrete SHA-256 collision: two different inputs with one digest. *)
Definition collision (a b : bytes) : Prop := a <> b /\ sha256 a = sha256 b.
