(* ===== verification/Address.v ===== *)
(** * TRON base58check addresses ([sluice/tron/address.py])

    Decoding, encoding, the double-SHA-256 checksum, validation and the minting
    helper.  The codec is a bijection between byte strings and base-58 text,
    and the valid addresses are exactly the ones [from_payload] mints from 20
    bytes. *)
From Stdlib Require Import ZArith Lia.
From stdpp Require Import base option strings list.
From S2P Require Import Prelude Text Json Hash.

Local Open Scope Z_scope.

Definition ALPHABET : pystr := str "123456789ABCDEFGHJKLMNPQRSTUVWXYZabcdefghijkmnopqrstuvwxyz".
Definition VERSION : Z := 0x41.

(** [_INDEX[c]]; [None] when [c not in _INDEX]. *)
Definition INDEX (c : Z) : option Z :=
  (fun r => Z.of_nat (fst r)) <$> list_find (fun x => x = c) ALPHABET.

Definition alphabet_at (d : Z) : Z := nth (Z.to_nat d) ALPHABET 0.

(** The accumulation loop of [_b58decode]; [None] is the [ValueError] of the
    first character outside the alphabet. *)
Fixpoint b58_num (num : Z) (s : pystr) : option Z :=
  match s with
  | [] => Some num
  | ch :: s' => i ← INDEX ch; b58_num (num * 58 + i) s'
  end.

(** Length of the run of [c] at the front: [len(s) - len(s.lstrip(c))]. *)
Definition leading (c : Z) (s : list Z) : nat := length s - length (lstrip_by (Z.eqb c) s).

Definition b58decode (s : pystr) : option bytes :=
  num ← b58_num 0 s;
  Some (replicate (leading 49 s) 0 ++ to_base 256 num).

Definition b58encode (raw : bytes) : pystr :=
  let num := of_base 256 raw in
  replicate (leading 0 raw) 49 ++ map alphabet_at (to_base 58 num).

Definition checksum (payload : bytes) : bytes := take 4 (sha256 (sha256 payload)).

Definition is_valid (address : jval) : bool :=
  match address with
  | JStr s =>
      if negb ((30 <=? length s)%nat && (length s <=? 40)%nat) then false
      else
        match b58decode s with
        | None => false
        | Some raw =>
            if negb (length raw =? 25)%nat || negb (nth 0 raw 0 =? VERSION) then false
            else bool_decide (checksum (take 21 raw) = drop 21 raw)
        end
  | _ => false
  end.

(** [None] is the [ValueError] "need exactly 20 bytes". *)
Definition from_payload (body20 : bytes) : option pystr :=
  if (length body20 =? 20)%nat then
    let payload := VERSION :: body20 in
    Some (b58encode (payload ++ checksum payload))
  else None.

Definition USDT_TRC20_CONTRACT : pystr := str "TR7NHqjeKQxGTCi8q8ZY4pL8otSzgjLj6t".

Example usdt_contract_valid : is_valid (JStr USDT_TRC20_CONTRACT) = true.
Proof. vm_compute. reflexivity. Qed.

Example typo_rejected : is_valid (JStr (str "TR7NHqjeKQxGTCi8q8ZY4pL8otSzgjLj6u")) = false.
Proof. vm_compute. reflexivity. Qed.

(** ** The alphabet *)

Lemma alphabet_index (d : Z) : 0 <= d < 58 -> INDEX (alphabet_at d) = Some d.
Proof.
  intros Hd. rewrite <-(Z2Nat.id d) by lia. assert (Z.to_nat d < 58)%nat as Hn by lia.
  assert (Forall (fun n => INDEX (alphabet_at (Z.of_nat n)) = Some (Z.of_nat n)) (seq 0 58)) as H.
  { apply (bool_decide_unpack _). vm_compute. exact I. }
  rewrite Forall_forall in H. apply H. apply elem_of_seq. lia.
Qed.

Lemma index_alphabet (c d : Z) : INDEX c = Some d -> 0 <= d < 58 /\ alphabet_at d = c.
Proof.
  unfold INDEX. rewrite fmap_Some. intros ([i x] & Hf & ->). simpl.
  apply list_find_Some in Hf as (Hl & -> & _).
  pose proof (lookup_lt_Some _ _ _ Hl) as Hlt. change (length ALPHABET) with 58%nat in Hlt.
  split; [lia |]. unfold alphabet_at. rewrite Nat2Z.id.
  rewrite nth_lookup. rewrite Hl. done.
Qed.

Lemma alphabet_one (d : Z) : 0 <= d < 58 -> alphabet_at d = 49 <-> d = 0.
Proof.
  intros Hd. split; [| intros ->; done]. intros E. apply alphabet_index in Hd.
  rewrite E in Hd. vm_compute in Hd. congruence.
Qed.

(** ** The codec *)

Lemma b58_num_digits (ds : list Z) (a : Z) :
  Forall (digit_of 58) ds ->
  b58_num a (map alphabet_at ds) = Some (fold_left (fun a d => a * 58 + d) ds a).
Proof.
  intros Hds. revert a. induction Hds as [|d ds Hd Hds IH]; intros a; [done |]. simpl.
  rewrite alphabet_index by exact Hd. simpl. apply IH.
Qed.

Lemma b58_num_inv (s : pystr) (a n : Z) :
  b58_num a s = Some n -> exists ds, s = map alphabet_at ds /\ Forall (digit_of 58) ds.
Proof.
  revert a. induction s as [|c s IH]; intros a H; [by exists [] |]. simpl in H.
  destruct (INDEX c) as [i|] eqn:Ei; [| done]. simpl in H.
  destruct (IH _ H) as (ds & -> & Hds). apply index_alphabet in Ei as [Hi <-].
  exists (i :: ds). split; [done |]. by constructor.
Qed.

(** Every digit list is a run of zeros and a part without a leading zero. *)
Lemma leading_split (c : Z) (s : list Z) :
  s = replicate (leading c s) c ++ lstrip_by (Z.eqb c) s /\
  head (lstrip_by (Z.eqb c) s) <> Some c.
Proof.
  unfold leading, lstrip_by. split.
  - rewrite <-(take_drop_while (Z.eqb c) s) at 1. f_equal.
    rewrite <-(take_drop_while (Z.eqb c) s) at 2. rewrite length_app, Nat.add_sub.
    symmetry. apply replicate_as_elem_of. split; [done |]. intros x Hx.
    pose proof (take_while_Forall (Z.eqb c) s) as Hz. rewrite Forall_forall in Hz.
    apply Hz in Hx. lia.
  - intros Hh. apply drop_while_head in Hh. lia.
Qed.

Lemma leading_replicate (c : Z) (k : nat) (s : list Z) :
  head s <> Some c -> leading c (replicate k c ++ s) = k /\ lstrip_by (Z.eqb c) (replicate k c ++ s) = s.
Proof.
  intros Hh. unfold leading, lstrip_by.
  destruct (while_split (Z.eqb c) (replicate k c) s) as [_ ->].
  - apply Forall_replicate. apply Z.eqb_refl.
  - intros d Hd. rewrite Hd in Hh. apply Z.eqb_neq. congruence.
  - rewrite length_app, length_replicate. split; [lia | done].
Qed.

Lemma of_base_leading (b : Z) (k : nat) (s : list Z) :
  of_base b (replicate k 0 ++ s) = of_base b s.
Proof. rewrite of_base_app, of_base_zeros. lia. Qed.

Lemma head_map_alphabet (ds : list Z) :
  Forall (digit_of 58) ds -> head ds <> Some 0 -> head (map alphabet_at ds) <> Some 49.
Proof.
  destruct ds as [|d ds]; [done |]. simpl. intros [Hd _]%Forall_cons Hne [= E].
  apply alphabet_one in E; [congruence | exact Hd].
Qed.

Lemma leading_cases (c : Z) (s : list Z) :
  exists k rest, s = replicate k c ++ rest /\ head rest <> Some c.
Proof. destruct (leading_split c s). eauto. Qed.

Lemma map_replicate_zero (k : nat) : map alphabet_at (replicate k 0) = replicate k 49.
Proof. induction k as [|k IH]; [done |]. simpl. rewrite IH. done. Qed.

Lemma decode_encode (raw : bytes) : is_bytes raw -> b58decode (b58encode raw) = Some raw.
Proof.
  destruct (leading_cases 0 raw) as (k & rest & -> & Hh). intros [_ Hrest]%Forall_app.
  unfold b58decode, b58encode. destruct (leading_replicate 0 k rest Hh) as [-> _].
  rewrite of_base_leading.
  pose proof (of_base_bounds 256 rest ltac:(lia) Hrest) as Hb.
  destruct (to_base_spec 58 (of_base 256 rest) ltac:(lia) ltac:(lia)) as (Hv & Hd & Hh58).
  destruct (leading_replicate 49 k (map alphabet_at (to_base 58 (of_base 256 rest))))
    as [-> _]; [by apply head_map_alphabet |].
  rewrite <-map_replicate_zero, <-map_app, b58_num_digits
    by (apply Forall_app; split; [by apply Forall_replicate | done]).
  simpl. change (fold_left (fun a d => a * 58 + d) ?l 0) with (of_base 58 l).
  by rewrite of_base_leading, Hv, to_of_base by (done || lia).
Qed.

Lemma encode_decode (s : pystr) (raw : bytes) :
  b58decode s = Some raw -> b58encode raw = s /\ is_bytes raw.
Proof.
  unfold b58decode. destruct (b58_num 0 s) as [n|] eqn:En; [| done]. simpl. intros [= <-].
  destruct (b58_num_inv s 0 n En) as (ds & -> & Hds).
  rewrite b58_num_digits in En by done. injection En as <-.
  change (fold_left (fun a d => a * 58 + d) ds 0) with (of_base 58 ds).
  destruct (leading_cases 0 ds) as (k & rest & -> & Hh). apply Forall_app in Hds as [_ Hrest].
  rewrite map_app, map_replicate_zero, of_base_leading.
  destruct (leading_replicate 49 k (map alphabet_at rest)) as [-> _]; [by apply head_map_alphabet |].
  pose proof (of_base_bounds 58 rest ltac:(lia) Hrest) as Hb.
  destruct (to_base_spec 256 (of_base 58 rest) ltac:(lia) ltac:(lia)) as (Hv & Hd & Hh256).
  split; [| apply Forall_app; split; [by apply Forall_replicate | done]].
  unfold b58encode. destruct (leading_replicate 0 k _ Hh256) as [-> _].
  by rewrite of_base_leading, Hv, to_of_base by (done || lia).
Qed.

(** ** Properties *)

(** Base-58 text and byte strings are in bijection: decoding inverts
    encoding for every byte string, and every text that decodes is the
    encoding of what it decodes to, so an address has a single spelling. *)
Theorem b58_bijection (s : pystr) (raw : bytes) :
  is_bytes raw -> (b58decode s = Some raw <-> b58encode raw = s).
Proof.
  intros Hraw. split; [by intros [? _]%encode_decode | intros <-; by apply decode_encode].
Qed.

Lemma b58_bijection_witness :
  b58encode [0; 0; 1; 255] = str "119p" /\ b58decode (str "119p") = Some [0; 0; 1; 255].
Proof.
  split; [vm_compute; reflexivity |].
  apply (b58_bijection (str "119p") [0; 0; 1; 255]); [by repeat constructor | vm_compute; reflexivity].
Defined.

Lemma length_address (body20 tail : bytes) :
  is_bytes body20 -> is_bytes tail -> length body20 = 20%nat -> length tail = 4%nat ->
  length (b58encode (VERSION :: body20 ++ tail)) = 34%nat.
Proof.
  intros Hb Ht Lb Lt. unfold b58encode, leading. simpl lstrip_by. rewrite length_app, length_map.
  simpl length. rewrite length_replicate.
  rewrite (to_base_length 58 _ 33); [lia | lia |].
  assert (is_bytes (body20 ++ tail)) as Hbt by (by apply Forall_app).
  pose proof (of_base_bounds 256 _ ltac:(lia) Hbt) as Hv. rewrite of_base_cons.
  rewrite length_app, Lb, Lt in Hv. rewrite length_app, Lb, Lt.
  change (256 ^ Z.of_nat (20 + 4)) with (256 ^ 24) in *. unfold VERSION.
  assert (58 ^ Z.of_nat 33 <= 65 * 256 ^ 24) by (vm_compute; discriminate).
  assert (66 * 256 ^ 24 <= 58 ^ (Z.of_nat 33 + 1)) by (vm_compute; discriminate). lia.
Qed.

Lemma checksum_length (p : bytes) : length (checksum p) = 4%nat.
Proof. unfold checksum. rewrite length_take, sha256_length. done. Qed.

Lemma checksum_is_bytes (p : bytes) : is_bytes (checksum p).
Proof. apply Forall_take, sha256_is_bytes. Qed.

(** C38. The addresses the validator accepts are exactly the ones minted from
    20 bytes: version byte 0x41, the payload, and its checksum, spelled in
    base 58. *)
Theorem is_valid_iff_minted (s : pystr) :
  is_valid (JStr s) = true <->
  exists body20, is_bytes body20 /\ from_payload body20 = Some s.
Proof.
  split.
  - unfold is_valid. destruct (negb _); [done |].
    destruct (b58decode s) as [raw|] eqn:E; [| done].
    apply encode_decode in E as [<- Hraw].
    destruct (Nat.eqb_spec (length raw) 25) as [Hlen|]; [| done].
    destruct raw as [|v rest]; [done |]. simpl nth.
    destruct (Z.eqb_spec v VERSION) as [->|]; [| done]. simpl negb. cbn [orb].
    rewrite bool_decide_eq_true. intros Hc. simpl in Hlen, Hc. apply Forall_cons in Hraw as [_ Hrest].
    exists (take 20 rest). split; [by apply Forall_take |]. unfold from_payload.
    rewrite length_take_le by lia. simpl. do 2 f_equal. rewrite Hc. by rewrite take_drop.
  - intros (body & Hb & Hf). unfold from_payload in Hf.
    destruct (Nat.eqb_spec (length body) 20) as [Hlen|]; [| done]. injection Hf as <-.
    unfold is_valid. cbn [app].
    rewrite length_address by auto using checksum_is_bytes, checksum_length. simpl negb. cbn iota.
    assert (is_bytes (VERSION :: body ++ checksum (VERSION :: body))) as Hr.
    { constructor; [unfold digit_of, VERSION; lia |]. apply Forall_app. split; [done | apply checksum_is_bytes]. }
    rewrite decode_encode by done. simpl length. rewrite length_app, checksum_length, Hlen. simpl.
    apply bool_decide_eq_true. rewrite take_app_length', drop_app_length' by lia. done.
Qed.
