(* ===== verification/Datetime.v ===== *)
(** * Instants, ISO text and float milliseconds

    Every [datetime] of the program is aware and in UTC ([sluice/config.py]);
    here it is the integer number of microseconds since the Unix epoch, so
    comparison and the addition of a [timedelta] are integer operations.  A
    [timedelta(seconds=...)] is its number of microseconds.

    The calendar appears where the code writes an instant as text
    ([isoformat]) and reads it back ([fromisoformat]); floating point appears
    in [int(t.timestamp() * 1000)], computed here with the rounding of IEEE
    doubles. *)
From Stdlib Require Import ZArith Lia.
From stdpp Require Import base option strings list.
From S2P Require Import Prelude Text.

Local Open Scope Z_scope.

Definition us_per_s : Z := 1000000.
Definition us_per_day : Z := 86400 * us_per_s.
Definition epoch_ordinal : Z := 719163.        (* date(1970, 1, 1).toordinal() *)

(** [datetime.min] and one past [datetime.max]. *)
Definition min_us : Z := (1 - epoch_ordinal) * us_per_day.
Definition end_us : Z := (3652060 - epoch_ordinal) * us_per_day.

Definition representable (t : Z) : Prop := min_us <= t < end_us.

#[export] Instance representable_dec (t : Z) : Decision (representable t).
Proof. unfold representable. apply _. Defined.

(** ** The proleptic Gregorian calendar (the algorithms of [datetime]) *)

Definition is_leap (y : Z) : bool :=
  (y mod 4 =? 0) && (negb (y mod 100 =? 0) || (y mod 400 =? 0)).

Definition days_before_year (y : Z) : Z :=
  let y := y - 1 in y * 365 + y / 4 - y / 100 + y / 400.

Definition DAYS_IN_MONTH : list Z := [-1; 31; 28; 31; 30; 31; 30; 31; 31; 30; 31; 30; 31].
Definition DAYS_BEFORE_MONTH : list Z := [-1; 0; 31; 59; 90; 120; 151; 181; 212; 243; 273; 304; 334].

Definition days_in_month (leap : bool) (m : Z) : Z :=
  nth (Z.to_nat m) DAYS_IN_MONTH 0 + (if (m =? 2) && leap then 1 else 0).

Definition days_before_month (leap : bool) (m : Z) : Z :=
  nth (Z.to_nat m) DAYS_BEFORE_MONTH 0 + (if (2 <? m) && leap then 1 else 0).

Definition ymd2ord (y m d : Z) : Z :=
  days_before_year y + days_before_month (is_leap y) m + d.

(** Month and day from the day of the year, counted from zero. *)
Definition month_day (leap : bool) (n : Z) : Z * Z :=
  let month := Z.shiftr (n + 50) 5 in
  let preceding := days_before_month leap month in
  if n <? preceding then
    let month := month - 1 in
    (month, n - (preceding - days_in_month leap month) + 1)
  else (month, n - preceding + 1).

Definition ord2ymd (n : Z) : Z * Z * Z :=
  let n := n - 1 in
  let n400 := n / 146097 in let n := n mod 146097 in
  let n100 := n / 36524 in let n := n mod 36524 in
  let n4 := n / 1461 in let n := n mod 1461 in
  let n1 := n / 365 in let n := n mod 365 in
  let year := n400 * 400 + 1 + n100 * 100 + n4 * 4 + n1 in
  if (n1 =? 4) || (n100 =? 4) then (year - 1, 12, 31)
  else
    let leapyear := (n1 =? 3) && (negb (n4 =? 24) || (n100 =? 3)) in
    let '(month, day) := month_day leapyear n in
    (year, month, day).

(** ** ISO text *)

Definition zfill (w : nat) (n : Z) : pystr := rjust w 48 (decimal n).

(** [t.isoformat()] for an aware UTC [datetime]. *)
Definition isoformat (t : Z) : pystr :=
  let '(y, m, d) := ord2ymd (t / us_per_day + epoch_ordinal) in
  let us := t mod us_per_day in
  zfill 4 y ++ 45 :: zfill 2 m ++ 45 :: zfill 2 d ++ 84 ::
  zfill 2 (us / (3600 * us_per_s)) ++ 58 ::
  zfill 2 (us / (60 * us_per_s) mod 60) ++ 58 ::
  zfill 2 (us / us_per_s mod 60) ++
  (if us mod us_per_s =? 0 then [] else 46 :: zfill 6 (us mod us_per_s)) ++
  str "+00:00".

(** Read [w] digits; the number and the rest. *)
Definition read_digits (w : nat) (s : pystr) : option (Z * pystr) :=
  let ds := take w s in
  if (length ds =? w)%nat && forallb is_digit ds then Some (digits_value ds, drop w s) else None.

Definition read_char (c : Z) (s : pystr) : option pystr :=
  match s with
  | x :: s' => if x =? c then Some s' else None
  | [] => None
  end.

(** The optional [.ffffff]. *)
Definition read_fraction (s : pystr) : option (Z * pystr) :=
  match read_char 46 s with
  | Some s' => read_digits 6 s'
  | None => Some (0, s)
  end.

(** [datetime.fromisoformat] on the two shapes [isoformat] emits; [None] is the
    [ValueError]. *)
Definition fromisoformat (s : pystr) : option Z :=
  '(y, s) ← read_digits 4 s; s ← read_char 45 s;
  '(m, s) ← read_digits 2 s; s ← read_char 45 s;
  '(d, s) ← read_digits 2 s; s ← read_char 84 s;
  '(hh, s) ← read_digits 2 s; s ← read_char 58 s;
  '(mm, s) ← read_digits 2 s; s ← read_char 58 s;
  '(ss, s) ← read_digits 2 s;
  '(us, s) ← read_fraction s;
  if bool_decide (s = str "+00:00") &&
     (1 <=? y) && (1 <=? m) && (m <=? 12) && (1 <=? d) && (d <=? days_in_month (is_leap y) m) &&
     (hh <? 24) && (mm <? 60) && (ss <? 60)
  then Some ((ymd2ord y m d - epoch_ordinal) * us_per_day +
             ((hh * 60 + mm) * 60 + ss) * us_per_s + us)
  else None.

Example isoformat_ex : isoformat 1767225600000000 = str "2026-01-01T00:00:00+00:00".
Proof. vm_compute. reflexivity. Qed.
Example isoformat_ex_us : isoformat 1709210096000789 = str "2024-02-29T12:34:56.000789+00:00".
Proof. vm_compute. reflexivity. Qed.
Example fromisoformat_ex :
  fromisoformat (str "2024-02-29T12:34:56.000789+00:00") = Some 1709210096000789.
Proof. vm_compute. reflexivity. Qed.

(** ** The calendar round trip *)

Lemma month_day_spec (leap : bool) (n : Z) :
  0 <= n < 365 + Z.b2z leap ->
  let '(m, d) := month_day leap n in
  1 <= m <= 12 /\ 1 <= d <= days_in_month leap m /\ days_before_month leap m + d = n + 1.
Proof.
  intros Hn. rewrite <-(Z2Nat.id n) by lia.
  assert (Z.to_nat n < 366)%nat as Hlt by (destruct leap; simpl in Hn; lia).
  assert (Forall (fun k => Z.of_nat k < 365 + Z.b2z leap ->
    let '(m, d) := month_day leap (Z.of_nat k) in
    1 <= m <= 12 /\ 1 <= d <= days_in_month leap m /\ days_before_month leap m + d = Z.of_nat k + 1)
    (seq 0 366)) as H.
  { eapply Forall_impl with (P := fun k => (if Z.of_nat k <? 365 + Z.b2z leap then
      let '(m, d) := month_day leap (Z.of_nat k) in
      (1 <=? m) && (m <=? 12) && (1 <=? d) && (d <=? days_in_month leap m) &&
      (days_before_month leap m + d =? Z.of_nat k + 1) else true) = true).
    - apply (bool_decide_unpack _). destruct leap; vm_compute; exact I.
    - intros k Hk Hlt'. destruct (Z.ltb_spec (Z.of_nat k) (365 + Z.b2z leap)); [| lia].
      destruct (month_day leap (Z.of_nat k)). rewrite !andb_true_iff in Hk. lia. }
  rewrite Forall_forall in H. apply H; [apply elem_of_seq; lia | lia].
Qed.

(** A year as 400-, 100-, 4- and 1-year parts. *)
Lemma year_parts (a b c e : Z) :
  0 <= b < 4 -> 0 <= c < 25 -> 0 <= e < 4 ->
  let y := 400 * a + 1 + 100 * b + 4 * c + e in
  days_before_year y = 146097 * a + 36524 * b + 1461 * c + 365 * e /\
  is_leap y = (e =? 3) && (negb (c =? 24) || (b =? 3)).
Proof.
  intros Hb Hc He y. split.
  - unfold days_before_year.
    assert ((y - 1) / 4 = 100 * a + 25 * b + c) as ->
      by (symmetry; apply (Z.div_unique_pos _ _ _ e); lia).
    assert ((y - 1) / 100 = 4 * a + b) as ->
      by (symmetry; apply (Z.div_unique_pos _ _ _ (4 * c + e)); lia).
    assert ((y - 1) / 400 = a) as ->
      by (symmetry; apply (Z.div_unique_pos _ _ _ (100 * b + 4 * c + e)); lia). lia.
  - unfold is_leap.
    pose proof (Z.div_mod y 4 ltac:(lia)). pose proof (Z.mod_pos_bound y 4 ltac:(lia)).
    pose proof (Z.div_mod y 100 ltac:(lia)). pose proof (Z.mod_pos_bound y 100 ltac:(lia)).
    pose proof (Z.div_mod y 400 ltac:(lia)). pose proof (Z.mod_pos_bound y 400 ltac:(lia)).
    destruct (Z.eqb_spec (y mod 4) 0), (Z.eqb_spec (y mod 100) 0), (Z.eqb_spec (y mod 400) 0),
      (Z.eqb_spec e 3), (Z.eqb_spec c 24), (Z.eqb_spec b 3); simpl; try reflexivity; exfalso; lia.
Qed.

Lemma ord2ymd_spec (n : Z) :
  let '(y, m, d) := ord2ymd n in
  1 <= m <= 12 /\ 1 <= d <= days_in_month (is_leap y) m /\ ymd2ord y m d = n.
Proof.
  unfold ord2ymd, ymd2ord. cbv zeta.
  set (n0 := n - 1). set (n2 := n0 mod 146097). set (n3 := n2 mod 36524). set (n4 := n3 mod 1461).
  set (a := n0 / 146097). set (b := n2 / 36524). set (c := n3 / 1461). set (e := n4 / 365).
  set (r := n4 mod 365).
  assert (n0 = 146097 * a + n2 /\ 0 <= n2 < 146097) as [E0 B0].
  { split; [apply Z.div_mod | apply Z.mod_pos_bound]; lia. }
  assert (n2 = 36524 * b + n3 /\ 0 <= n3 < 36524) as [E1 B1].
  { split; [apply Z.div_mod | apply Z.mod_pos_bound]; lia. }
  assert (n3 = 1461 * c + n4 /\ 0 <= n4 < 1461) as [E2 B2].
  { split; [apply Z.div_mod | apply Z.mod_pos_bound]; lia. }
  assert (n4 = 365 * e + r /\ 0 <= r < 365) as [E3 B3].
  { split; [apply Z.div_mod | apply Z.mod_pos_bound]; lia. }
  clearbody n2 n3 n4 a b c e r. subst n0.
  destruct ((e =? 4) || (b =? 4)) eqn:Elast.
  - (* the last day of a 4- or 400-year cycle *)
    assert (exists b' c', 0 <= b' < 4 /\ 0 <= c' < 25 /\ (c' <> 24 \/ b' = 3) /\
      a * 400 + 1 + b * 100 + c * 4 + e - 1 = 400 * a + 1 + 100 * b' + 4 * c' + 3 /\
      n = 146097 * a + 36524 * b' + 1461 * c' + 1461) as (b' & c' & Hb & Hc & Hl & Ey & En).
    { apply orb_true_iff in Elast as [->%Z.eqb_eq | ->%Z.eqb_eq]; [exists b, c | exists 3, 24]; lia. }
    rewrite Ey. destruct (year_parts a b' c' 3) as [-> ->]; [lia.. |].
    assert (negb (c' =? 24) || (b' =? 3) = true) as ->.
    { destruct (Z.eqb_spec c' 24), (Z.eqb_spec b' 3); simpl; lia. }
    vm_compute days_in_month. vm_compute days_before_month. lia.
  - apply orb_false_iff in Elast as [?%Z.eqb_neq ?%Z.eqb_neq].
    set (leap := (e =? 3) && (negb (c =? 24) || (b =? 3))).
    assert (0 <= r < 365 + Z.b2z leap) as Hr by (destruct leap; simpl; lia).
    pose proof (month_day_spec leap r Hr) as Hmd. destruct (month_day leap r) as [m d].
    replace (a * 400 + 1 + b * 100 + c * 4 + e) with (400 * a + 1 + 100 * b + 4 * c + e) by lia.
    destruct (year_parts a b c e) as [-> ->]; [lia.. |]. fold leap. lia.
Qed.

Lemma day_of_year_bounds (leap : bool) (m d : Z) :
  1 <= m <= 12 -> 1 <= d <= days_in_month leap m ->
  1 <= days_before_month leap m + d <= 366 /\ days_in_month leap m <= 31.
Proof.
  intros Hm Hd.
  assert (m = 1 \/ m = 2 \/ m = 3 \/ m = 4 \/ m = 5 \/ m = 6 \/ m = 7 \/ m = 8 \/ m = 9 \/
    m = 10 \/ m = 11 \/ m = 12) as Hcases by lia.
  repeat destruct Hcases as [-> | Hcases]; [.. | subst m]; destruct leap;
    vm_compute days_in_month in *; vm_compute days_before_month; lia.
Qed.

Lemma year_bounds (y m d : Z) :
  1 <= m <= 12 -> 1 <= d <= days_in_month (is_leap y) m ->
  1 <= ymd2ord y m d <= 3652059 -> 1 <= y <= 9999.
Proof.
  intros Hm Hd Hord. destruct (day_of_year_bounds _ _ _ Hm Hd) as [Hb _].
  unfold ymd2ord, days_before_year in Hord.
  pose proof (Z.div_mod (y - 1) 4 ltac:(lia)). pose proof (Z.mod_pos_bound (y - 1) 4 ltac:(lia)).
  pose proof (Z.div_mod (y - 1) 100 ltac:(lia)). pose proof (Z.mod_pos_bound (y - 1) 100 ltac:(lia)).
  pose proof (Z.div_mod (y - 1) 400 ltac:(lia)). pose proof (Z.mod_pos_bound (y - 1) 400 ltac:(lia)).
  lia.
Qed.

Lemma decimal_length (n : Z) (w : nat) :
  (0 < w)%nat -> 0 <= n < 10 ^ Z.of_nat w -> (length (decimal n) <= w)%nat.
Proof.
  intros Hw Hn. unfold decimal. destruct (Z.eqb_spec n 0); [simpl; lia |]. rewrite length_map.
  destruct (to_base_spec 10 n ltac:(lia) ltac:(lia)) as (Hv & Hd & Hh).
  destruct (to_base 10 n) as [|x xs] eqn:E; [simpl; lia |].
  simpl in Hh. pose proof (of_base_pos 10 x xs ltac:(lia) Hd ltac:(congruence)) as Hlo.
  rewrite Hv in Hlo. assert (10 ^ Z.of_nat (length xs) < 10 ^ Z.of_nat w) as Hlt by lia.
  apply Z.pow_lt_mono_r_iff in Hlt; simpl; lia.
Qed.

Lemma read_zfill (w : nat) (n : Z) (r : pystr) :
  (0 < w)%nat -> 0 <= n < 10 ^ Z.of_nat w -> read_digits w (zfill w n ++ r) = Some (n, r).
Proof.
  intros Hw Hn. pose proof (decimal_length n w Hw Hn) as Hlen.
  assert (length (zfill w n) = w) as Hz.
  { unfold zfill, rjust. rewrite length_app, length_replicate. lia. }
  unfold read_digits. rewrite take_app_length', drop_app_length' by done.
  rewrite Hz, Nat.eqb_refl. simpl.
  assert (forallb is_digit (zfill w n) = true) as ->.
  { apply Is_true_true, forallb_True, Forall_app. split.
    - by apply Forall_replicate.
    - eapply Forall_impl; [apply decimal_digits; lia |]. simpl. intros c Hc. by rewrite Hc. }
  unfold zfill, rjust. rewrite digits_value_app, digits_value_zeros, decimal_value by lia.
  done.
Qed.

Lemma bind_zfill {B : Type} (w : nat) (n : Z) (r : pystr) (f : Z * pystr -> option B) :
  (0 < w)%nat -> 0 <= n < 10 ^ Z.of_nat w -> read_digits w (zfill w n ++ r) ≫= f = f (n, r).
Proof. intros Hw Hn. by rewrite read_zfill. Qed.

Lemma bind_char {B : Type} (c : Z) (s : pystr) (f : pystr -> option B) :
  read_char c (c :: s) ≫= f = f s.
Proof. simpl. by rewrite Z.eqb_refl. Qed.

Lemma fromisoformat_isoformat (t : Z) : representable t -> fromisoformat (isoformat t) = Some t.
Proof.
  intros Ht. unfold representable, min_us, end_us in Ht. unfold isoformat.
  pose proof (ord2ymd_spec (t / us_per_day + epoch_ordinal)) as Hymd.
  destruct (ord2ymd _) as [[y m] d]. destruct Hymd as (Hm & Hd & Hord).
  assert (0 < us_per_day) as Hpos by done.
  pose proof (Z.div_mod t us_per_day ltac:(lia)) as Hdm.
  pose proof (Z.mod_pos_bound t us_per_day ltac:(lia)) as Hus.
  assert (1 <= y <= 9999) as Hy.
  { apply (year_bounds y m d Hm Hd). rewrite Hord. unfold epoch_ordinal in *.
    change us_per_day with 86400000000 in *. lia. }
  destruct (day_of_year_bounds _ _ _ Hm Hd) as [_ Hd31].
  set (us := t mod us_per_day) in *. set (day := t / us_per_day) in *.
  change us_per_day with 86400000000 in *. change (60 * us_per_s) with 60000000.
  change (3600 * us_per_s) with 3600000000. change us_per_s with 1000000 in *.
  pose proof (Z.div_mod us 3600000000 ltac:(lia)). pose proof (Z.mod_pos_bound us 3600000000 ltac:(lia)).
  pose proof (Z.div_mod us 60000000 ltac:(lia)). pose proof (Z.mod_pos_bound us 60000000 ltac:(lia)).
  pose proof (Z.div_mod us 1000000 ltac:(lia)). pose proof (Z.mod_pos_bound us 1000000 ltac:(lia)).
  pose proof (Z.div_mod (us / 60000000) 60 ltac:(lia)). pose proof (Z.mod_pos_bound (us / 60000000) 60 ltac:(lia)).
  pose proof (Z.div_mod (us / 1000000) 60 ltac:(lia)). pose proof (Z.mod_pos_bound (us / 1000000) 60 ltac:(lia)).
  unfold fromisoformat.
  do 5 (rewrite bind_zfill by (simpl Z.of_nat; lia); cbv beta iota; rewrite bind_char).
  rewrite bind_zfill by (simpl Z.of_nat; lia). cbv beta iota.
  assert (read_fraction ((if us mod 1000000 =? 0 then [] else 46 :: zfill 6 (us mod 1000000)) ++
    str "+00:00") = Some (us mod 1000000, str "+00:00")) as Hfrac.
  { destruct (Z.eqb_spec (us mod 1000000) 0) as [-> |]; [done |].
    apply read_zfill; simpl Z.of_nat; lia. }
  rewrite Hfrac. clear Hfrac. cbn [mbind option_bind].
  rewrite bool_decide_eq_true_2 by done. rewrite Hord.
  repeat match goal with |- context [?a <=? ?b] => destruct (Z.leb_spec a b); [| lia] end.
  repeat match goal with |- context [?a <? ?b] => destruct (Z.ltb_spec a b); [| lia] end.
  cbn [andb]. f_equal. unfold us_per_day, us_per_s. lia.
Qed.

(** The ISO text of an expiration loses nothing: every instant a
    [datetime] can hold is read back from its [isoformat] unchanged, to the
    microsecond. *)
Theorem iso_roundtrip (t : Z) : representable t -> fromisoformat (isoformat t) = Some t.
Proof. apply fromisoformat_isoformat. Qed.

Lemma iso_roundtrip_witness :
  fromisoformat (isoformat 1767225660000001) = Some 1767225660000001.
Proof. apply (iso_roundtrip 1767225660000001). vm_compute. split; [discriminate | reflexivity]. Defined.

(** ** [int(t.timestamp() * 1000)] *)

(** The integer nearest to [a / b], ties to even. *)
Definition round_div (a b : Z) : Z :=
  let q := a / b in
  let r := a mod b in
  if 2 * r <? b then q
  else if b <? 2 * r then q + 1
  else if Z.even q then q else q + 1.

(** A positive double: [m * 2 ^ e]. *)
Record float := mkFloat { fl_m : Z; fl_e : Z }.

(** [floor (log2 (a / b))]. *)
Definition floor_log2 (a b : Z) : Z :=
  let l := Z.log2 a - Z.log2 b in
  if (if 0 <=? l then b * 2 ^ l <=? a else b <=? a * 2 ^ (- l)) then l else l - 1.

(** The double nearest to the positive rational [a / b]: 53 significant bits. *)
Definition float_of (a b : Z) : float :=
  let e := floor_log2 a b - 52 in
  mkFloat (if 0 <=? e then round_div a (b * 2 ^ e) else round_div (a * 2 ^ (- e)) b) e.

(** Multiplication by an integer, and truncation. *)
Definition float_mul (f : float) (k : Z) : float :=
  if 0 <=? fl_e f then float_of (fl_m f * k * 2 ^ fl_e f) 1
  else float_of (fl_m f * k) (2 ^ (- fl_e f)).

Definition float_trunc (f : float) : Z :=
  if 0 <=? fl_e f then fl_m f * 2 ^ fl_e f else fl_m f / 2 ^ (- fl_e f).

(** [timestamp()] is the true division of the microseconds by [10 ** 6]. *)
Definition to_ms (t : Z) : Z :=
  if t =? 0 then 0
  else Z.sgn t * float_trunc (float_mul (float_of (Z.abs t) us_per_s) 1000).

Lemma round_div_spec (a b : Z) :
  0 < b -> - b <= 2 * (b * round_div a b - a) <= b.
Proof.
  intros Hb. unfold round_div.
  pose proof (Z.div_mod a b ltac:(lia)). pose proof (Z.mod_pos_bound a b ltac:(lia)).
  destruct (Z.ltb_spec (2 * (a mod b)) b); [lia |].
  destruct (Z.ltb_spec b (2 * (a mod b))); [lia |]. destruct (Z.even _); lia.
Qed.

Lemma floor_log2_unique (a b l : Z) :
  0 < a -> 0 < b -> 0 <= l -> b * 2 ^ l <= a < b * 2 ^ (l + 1) -> floor_log2 a b = l.
Proof.
  intros Ha Hb Hl Hab. unfold floor_log2.
  pose proof (Z.log2_spec a Ha) as La. pose proof (Z.log2_spec b Hb) as Lb.
  pose proof (Z.log2_nonneg a). pose proof (Z.log2_nonneg b).
  set (x := Z.log2 a) in *. set (y := Z.log2 b) in *.
  assert (y + l < x + 1) as Hlo.
  { apply (Z.pow_lt_mono_r_iff 2); [lia | lia |]. rewrite Z.pow_add_r by lia. nia. }
  assert (x < y + 1 + (l + 1)) as Hhi.
  { apply (Z.pow_lt_mono_r_iff 2); [lia | lia |]. rewrite Z.pow_add_r by lia.
    assert (b * 2 ^ (l + 1) <= 2 ^ (y + 1) * 2 ^ (l + 1)); [| lia].
    apply Z.mul_le_mono_nonneg_r; [apply Z.pow_nonneg |]; lia. }
  destruct (Z.leb_spec 0 (x - y)); [| lia].
  assert (x - y = l \/ x - y = l + 1) as [-> | ->] by lia.
  - destruct (Z.leb_spec (b * 2 ^ l) a); lia.
  - destruct (Z.leb_spec (b * 2 ^ (l + 1)) a); lia.
Qed.

Lemma floor_log2_below (a b : Z) :
  0 < a -> 0 < b ->
  let l := floor_log2 a b in (0 <= l -> b * 2 ^ l <= a) /\ (l < 0 -> b <= a * 2 ^ (- l)).
Proof.
  intros Ha Hb. unfold floor_log2.
  pose proof (Z.log2_spec a Ha) as La. pose proof (Z.log2_spec b Hb) as Lb.
  pose proof (Z.log2_nonneg a). pose proof (Z.log2_nonneg b).
  set (x := Z.log2 a) in *. set (y := Z.log2 b) in *. rewrite Z.pow_succ_r in La, Lb by lia. cbv zeta.
  destruct (Z.leb_spec 0 (x - y)).
  - destruct (Z.leb_spec (b * 2 ^ (x - y)) a); [split; lia |]. split; intros Hl.
    + replace x with (y + 1 + (x - y - 1)) in La by lia. rewrite !Z.pow_add_r in La by lia.
      pose proof (Z.pow_pos_nonneg 2 (x - y - 1) ltac:(lia) ltac:(lia)). nia.
    + replace x with y in * by lia. rewrite Z.sub_diag in *. change (- (0 - 1)) with 1. lia.
  - destruct (Z.leb_spec b (a * 2 ^ (- (x - y)))); (split; [lia |]); intros _; [done |].
    replace (- (x - y - 1)) with (1 + (y - x)) by lia. rewrite Z.pow_add_r by lia.
    replace y with (x + (y - x)) in Lb at 2 by lia. rewrite Z.pow_add_r in Lb by lia.
    pose proof (Z.pow_pos_nonneg 2 (y - x) ltac:(lia) ltac:(lia)). nia.
Qed.

(** A conversion keeps the relative error below [2 ^ -53]. *)
Lemma float_of_close (a b : Z) :
  0 < a -> 0 < b -> a < b * 2 ^ 52 ->
  exists m s, 0 < s /\ float_of a b = mkFloat m (- s) /\ 2 ^ 53 * Z.abs (m * b - a * 2 ^ s) <= a * 2 ^ s.
Proof.
  intros Ha Hb Hab. destruct (floor_log2_below a b Ha Hb) as [H1 H2]. unfold float_of.
  set (l := floor_log2 a b) in *.
  assert (l < 52) as Hl.
  { destruct (Z_lt_le_dec l 52) as [| Hge]; [done | exfalso]. specialize (H1 ltac:(lia)).
    pose proof (Z.pow_le_mono_r 2 52 l ltac:(lia) Hge). nia. }
  exists (round_div (a * 2 ^ (52 - l)) b), (52 - l). split; [lia |].
  rewrite (proj2 (Z.leb_gt 0 (l - 52))) by lia. replace (- (l - 52)) with (52 - l) by lia.
  replace (- (52 - l)) with (l - 52) by lia. split; [done |].
  pose proof (round_div_spec (a * 2 ^ (52 - l)) b Hb) as Hr.
  set (m := round_div _ _) in *. set (A := a * 2 ^ (52 - l)) in *.
  assert (2 ^ 52 * b <= A) as HA.
  { unfold A. destruct (Z_lt_le_dec l 0) as [Hn | Hp].
    - specialize (H2 Hn). replace (52 - l) with (52 + - l) by lia. rewrite Z.pow_add_r by lia. nia.
    - specialize (H1 Hp). replace (2 ^ 52) with (2 ^ l * 2 ^ (52 - l)) by (rewrite <- Z.pow_add_r by lia; f_equal; lia).
      pose proof (Z.pow_pos_nonneg 2 (52 - l) ltac:(lia) ltac:(lia)). nia. }
  change (2 ^ 53) with (2 * 2 ^ 52). lia.
Qed.

(** Milliseconds of a positive time, up to the error of the floats. *)
Lemma to_ms_close (t : Z) :
  0 < t < 2 ^ 58 -> exists x y, 0 < y /\ to_ms t = x / y /\ 2 ^ 50 * Z.abs (1000 * x - t * y) <= t * y.
Proof.
  intros Ht. unfold to_ms, us_per_s. rewrite (proj2 (Z.eqb_neq t 0)) by lia. rewrite Z.sgn_pos, Z.abs_eq, Z.mul_1_l by lia.
  destruct (float_of_close t 1000000) as (m & s & Hs & -> & Hm); [lia | lia | |].
  { change (2 ^ 52) with 4503599627370496. change (2 ^ 58) with 288230376151711744 in Ht. lia. }
  unfold float_mul. cbn [fl_e fl_m]. rewrite (proj2 (Z.leb_gt 0 (- s))) by lia. rewrite Z.opp_involutive.
  pose proof (Z.pow_pos_nonneg 2 s ltac:(lia) ltac:(lia)) as HA. set (A := 2 ^ s) in *.
  change (2 ^ 53) with 9007199254740992 in *. change (2 ^ 58) with 288230376151711744 in Ht.
  assert (0 < t * A) as Ht0 by nia. assert (t * A < 288230376151711744 * A) as Ht1 by nia.
  destruct (float_of_close (m * 1000) A) as (n & r & Hr & -> & Hn); [lia | lia | |].
  { change (2 ^ 52) with 4503599627370496. lia. }
  unfold float_trunc. cbn [fl_e fl_m]. rewrite (proj2 (Z.leb_gt 0 (- r))) by lia. rewrite Z.opp_involutive.
  pose proof (Z.pow_pos_nonneg 2 r ltac:(lia) ltac:(lia)) as HB. set (B := 2 ^ r) in *.
  exists n, B. split_and!; [done | done |]. change (2 ^ 53) with 9007199254740992 in *.
  change (2 ^ 50) with 1125899906842624.
  assert (9007199254740992 * Z.abs (m * B * 1000000 - t * A * B) <= t * A * B) as Hm'.
  { replace (m * B * 1000000 - t * A * B) with ((m * 1000000 - t * A) * B) by ring. rewrite Z.abs_mul, (Z.abs_eq B) by lia. nia. }
  assert (A * (1125899906842624 * Z.abs (1000 * n - t * B)) <= A * (t * B)) as H; [| by apply Z.mul_le_mono_pos_l in H].
  replace (A * (1125899906842624 * Z.abs (1000 * n - t * B)))
    with (1125899906842624 * Z.abs (1000 * (n * A) - t * A * B)).
  2:{ replace (1000 * (n * A) - t * A * B) with (A * (1000 * n - t * B)) by ring. rewrite Z.abs_mul, (Z.abs_eq A) by lia. ring. }
  replace (A * (t * B)) with (t * A * B) by ring. replace (m * 1000 * B) with (1000 * (m * B)) in Hn by ring.
  assert (0 < t * A * B) by nia. generalize dependent (t * A * B). generalize dependent (m * B). generalize dependent (n * A).
  intros. lia.
Qed.

Lemma to_ms_opp (t : Z) : to_ms (- t) = - to_ms t.
Proof.
  unfold to_ms. rewrite Z.sgn_opp, Z.abs_opp. destruct (Z.eqb_spec t 0) as [-> |]; [done |].
  rewrite (proj2 (Z.eqb_neq (- t) 0)) by lia. ring.
Qed.

Lemma to_ms_zero : to_ms 0 = 0.
Proof. done. Qed.

Lemma to_ms_nonneg (t : Z) : 0 <= t < 2 ^ 58 -> 0 <= to_ms t /\ (1001 <= t -> 0 < to_ms t).
Proof.
  intros Ht. destruct (Z.eq_dec t 0) as [-> |]; [by rewrite to_ms_zero |].
  destruct (to_ms_close t ltac:(lia)) as (x & y & Hy & -> & Hx). change (2 ^ 50) with 1125899906842624 in Hx.
  assert (0 < t * y) by nia. split; [apply Z.div_pos; lia |]. intros Hl. apply Z.div_str_pos. nia.
Qed.

Lemma to_ms_apart_pos (a b : Z) : 0 <= a -> a + 2001 <= b -> b < 2 ^ 58 -> to_ms a < to_ms b.
Proof.
  intros Ha Hab Hb. destruct (Z.eq_dec a 0) as [-> |].
  { rewrite to_ms_zero. apply (to_ms_nonneg b); lia. }
  destruct (to_ms_close a ltac:(lia)) as (x & y & Hy & -> & Hx).
  destruct (to_ms_close b ltac:(lia)) as (x' & y' & Hy' & -> & Hx').
  change (2 ^ 50) with 1125899906842624 in *. change (2 ^ 58) with 288230376151711744 in Hb.
  pose proof (Z.div_mod x y ltac:(lia)) as E. pose proof (Z.mod_pos_bound x y Hy).
  set (q := x / y) in *. apply Z.lt_le_trans with (q + 1); [lia |]. apply Z.div_le_lower_bound; [lia |].
  assert (1000 * q <= a + 256) as Hq by nia. assert (b * y' <= 288230376151711744 * y') by nia.
  assert (1000 * x' >= (b - 256) * y') by nia. nia.
Qed.

(** Instants more than two milliseconds apart stay apart, over the whole calendar. *)
Lemma to_ms_apart (a b : Z) : representable a -> representable b -> a + 2001 <= b -> to_ms a < to_ms b.
Proof.
  intros Ra Rb Hab. assert (- 2 ^ 58 < a /\ b < 2 ^ 58) as [Ha Hb].
  { assert (- 2 ^ 58 < min_us /\ end_us < 2 ^ 58) as [H1 H2] by (split; reflexivity).
    unfold representable in *. lia. }
  destruct (Z_le_gt_dec 0 a); [by apply to_ms_apart_pos |].
  destruct (Z_le_gt_dec b 0).
  - pose proof (to_ms_apart_pos (- b) (- a) ltac:(lia) ltac:(lia) ltac:(lia)) as H. rewrite !to_ms_opp in H. lia.
  - pose proof (to_ms_nonneg b ltac:(lia)) as [H1 H2]. pose proof (to_ms_nonneg (- a) ltac:(lia)) as [H3 H4].
    rewrite to_ms_opp in *. destruct (Z_le_gt_dec 1001 b); [specialize (H2 ltac:(lia)) | specialize (H4 ltac:(lia))]; lia.
Qed.

(** C40. The float arithmetic that stamps an envelope is exact in practice:
    between November 2004 and January 2038, [int(t.timestamp() * 1000)] is the
    number of whole milliseconds of [t], for every microsecond [t]. *)
Theorem to_ms_exact (t : Z) :
  1100000000 * us_per_s <= t < 2 ^ 31 * us_per_s -> to_ms t = t / 1000.
Proof.
  intros Ht. unfold us_per_s in Ht. change (2 ^ 31) with 2147483648 in Ht.
  unfold to_ms, us_per_s. destruct (Z.eqb_spec t 0); [lia |].
  rewrite Z.sgn_pos, Z.abs_eq, Z.mul_1_l by lia.
  assert (float_of t 1000000 = mkFloat (round_div (t * 2 ^ 22) 1000000) (-22)) as ->.
  { unfold float_of. rewrite (floor_log2_unique t 1000000 30) by lia. done. }
  set (m := round_div (t * 2 ^ 22) 1000000).
  pose proof (round_div_spec (t * 2 ^ 22) 1000000 ltac:(lia)) as Hm. fold m in Hm.
  unfold float_mul. cbn [fl_e fl_m Z.leb Z.compare]. change (- (-22)) with 22.
  assert (float_of (m * 1000) (2 ^ 22) = mkFloat (round_div (m * 1000 * 2 ^ 12) (2 ^ 22)) (-12)) as ->.
  { unfold float_of. rewrite (floor_log2_unique (m * 1000) (2 ^ 22) 40) by lia. done. }
  set (m' := round_div (m * 1000 * 2 ^ 12) (2 ^ 22)).
  pose proof (round_div_spec (m * 1000 * 2 ^ 12) (2 ^ 22) ltac:(lia)) as Hm'. fold m' in Hm'.
  unfold float_trunc. cbn [fl_e fl_m Z.leb Z.compare]. change (- (-12)) with 12.
  pose proof (Z.div_mod t 1000 ltac:(lia)) as Hdm. pose proof (Z.mod_pos_bound t 1000 ltac:(lia)) as Hk.
  set (N := t / 1000) in *. set (k := t mod 1000) in *.
  change (2 ^ 12) with 4096 in *. change (2 ^ 22) with 4194304 in *.
  symmetry. apply (Z.div_unique_pos _ _ _ (m' - 4096 * N)); [| lia].
  destruct (Z.eq_dec k 0); lia.
Qed.

Lemma to_ms_exact_witness : to_ms 1767225600001999 = 1767225600001.
Proof. apply (to_ms_exact 1767225600001999). unfold us_per_s. lia. Defined.
