(* ===== verification/Number.v ===== *)
(** * Numbers read from text

    [int(s)], [float(s)] and [timedelta(seconds=x)], as [Config.from_env] of
    [sluice/config.py] and its clients use them.  A float is an IEEE double: a
    53-bit integer times a power of two, an infinity or a NaN. *)
From Stdlib Require Import ZArith Lia.
From stdpp Require Import base option strings list.
From S2P Require Import Prelude Text Json Money Datetime.

Local Open Scope Z_scope.

(** ** Doubles *)

Inductive pyfloat : Type :=
| Finite (neg : bool) (m e : Z)      (* [m * 2 ^ e] with its sign *)
| Infinite (neg : bool)
| NaN.

(** The double nearest to [a / b], ties to even, gradual underflow and
    overflow to infinity included. *)
Definition nearest (neg : bool) (a b : Z) : pyfloat :=
  if a =? 0 then Finite neg 0 0
  else
    let e := Z.max (floor_log2 a b - 52) (-1074) in
    let m := if 0 <=? e then round_div a (b * 2 ^ e) else round_div (a * 2 ^ (- e)) b in
    if (971 <? e) || ((e =? 971) && (m =? 2 ^ 53)) then Infinite neg else Finite neg m e.

(** The double nearest to [d * 10 ^ x].  Out of [1e-324, 1e309) the answer is
    known without computing the power. *)
Definition of_decimal (neg : bool) (d x : Z) : pyfloat :=
  let n := Z.of_nat (length (decimal d)) in
  if d =? 0 then Finite neg 0 0
  else if 309 <=? n - 1 + x then Infinite neg
  else if n + x <=? -324 then Finite neg 0 0
  else if 0 <=? x then nearest neg (d * 10 ^ x) 1
  else nearest neg d (10 ^ (- x)).

(** ** Text *)

(** [_Py_string_to_number_with_underscores]: an underscore stands between two
    digits; [prev] is the character before [s]. *)
Fixpoint drop_underscores (prev : Z) (s : pystr) : option pystr :=
  match s with
  | [] => if prev =? 95 then None else Some []
  | c :: s' =>
      if c =? 95 then (if is_digit prev then drop_underscores c s' else None)
      else if (prev =? 95) && negb (is_digit c) then None
      else cons c <$> drop_underscores c s'
  end.

Definition read_sign (s : pystr) : bool * pystr :=
  match s with
  | c :: s' => if c =? 45 then (true, s') else if c =? 43 then (false, s') else (false, s)
  | [] => (false, s)
  end.

Definition lower (c : Z) : Z := if (65 <=? c) && (c <=? 90) then c + 32 else c.

(** The exponent that ends a number, or nothing. *)
Definition read_exponent (s : pystr) : option Z :=
  match s with
  | [] => Some 0
  | c :: s' =>
      if lower c =? 101 then
        let '(neg, ds) := read_sign s' in
        if bool_decide (ds <> []) && forallb is_digit ds
        then Some (if (neg : bool) then - digits_value ds else digits_value ds)
        else None
      else None
  end.

(** The fraction that follows the whole part. *)
Definition read_point (s : pystr) : pystr * pystr :=
  match s with
  | c :: s' => if c =? 46 then (take_while is_digit s', drop_while is_digit s') else ([], s)
  | [] => ([], s)
  end.

(** A number without blanks and underscores. *)
Definition read_float (s : pystr) : option pyfloat :=
  let '(neg, s) := read_sign s in
  let word := map lower s in
  if bool_decide (word = str "inf") || bool_decide (word = str "infinity") then Some (Infinite neg)
  else if bool_decide (word = str "nan") then Some NaN
  else
    let w := take_while is_digit s in
    let '(f, rest) := read_point (drop_while is_digit s) in
    if bool_decide (w ++ f = []) then None
    else (fun x => of_decimal neg (digits_value (w ++ f)) (x - Z.of_nat (length f))) <$> read_exponent rest.

Section unicode.
Context (ucd : Z -> option Z).

(** [float(s)]; [None] is its [ValueError]. *)
Definition py_float (s : pystr) : option pyfloat :=
  let s := rstrip_by ascii_space (lstrip_by ascii_space (map (to_ascii ucd) s)) in
  drop_underscores 0 s ≫= read_float.

(** [int(s)]; [None] is its [ValueError]. *)
Definition py_int (s : pystr) : option Z :=
  let '(neg, s) := read_sign (lstrip_by ascii_space (map (to_ascii ucd) s)) in
  let part c := is_digit c || (c =? 95) in
  let ds := take_while part s in
  if bool_decide (ds = []) || negb (forallb ascii_space (drop_while part s)) then None
  else (fun n => if (neg : bool) then - n else n) <$> (drop_underscores 0 ds ≫= int_of_digits).

End unicode.

(** ** [timedelta(seconds=x)] *)

Inductive number_error : Type := ValueError | OverflowError.

(** The integer nearest to a finite double, ties to even. *)
Definition round_float (x : pyfloat) : Z :=
  match x with
  | Finite neg m e =>
      let n := if 0 <=? e then m * 2 ^ e else round_div m (2 ^ (- e)) in
      if (neg : bool) then - n else n
  | _ => 0
  end.

(** Whole seconds are exact; the fraction is multiplied as a double and then
    rounded to the nearest microsecond. *)
Definition timedelta_seconds (x : pyfloat) : result number_error Z :=
  match x with
  | NaN => Err ValueError
  | Infinite _ => Err OverflowError
  | Finite neg m e =>
      let us := if 0 <=? e then m * 2 ^ e * us_per_s
                else m / 2 ^ (- e) * us_per_s +
                     round_float (nearest false (m mod 2 ^ (- e) * us_per_s) (2 ^ (- e))) in
      let us := if (neg : bool) then - us else us in
      if (- 999999999 * us_per_day <=? us) && (us <? 1000000000 * us_per_day) then Ok us
      else Err OverflowError
  end.

Definition no_ucd (_ : Z) : option Z := None.

Example py_float_half : py_float no_ucd (str " 1_0.5e0 ") = Some (Finite false 5910974510923776 (-49)).
Proof. vm_compute. reflexivity. Qed.
Example py_float_tiny : py_float no_ucd (str "-1e-400") = Some (Finite true 0 0).
Proof. vm_compute. reflexivity. Qed.
Example py_float_huge : py_float no_ucd (str "1e400") = Some (Infinite false).
Proof. vm_compute. reflexivity. Qed.
Example py_float_min : py_float no_ucd (str "5e-324") = Some (Finite false 1 (-1074)).
Proof. vm_compute. reflexivity. Qed.
Example py_float_max : py_float no_ucd (str "1.7976931348623157e308") = Some (Finite false (2 ^ 53 - 1) 971).
Proof. vm_compute. reflexivity. Qed.
Example py_float_over : py_float no_ucd (str "1.7976931348623159e308") = Some (Infinite false).
Proof. vm_compute. reflexivity. Qed.
Example py_float_words :
  map (py_float no_ucd) [str "+iNf"; str "-Infinity"; str "nan"; str ""; str "."; str "1_"; str "1e"] =
  [Some (Infinite false); Some (Infinite true); Some NaN; None; None; None; None].
Proof. vm_compute. reflexivity. Qed.
Example py_int_ex :
  map (py_int no_ucd) [str " -1_0 "; str "+7"; str "_1"; str "1__0"; str "1.0"; str ""] =
  [Some (-10); Some 7; None; None; None; None].
Proof. vm_compute. reflexivity. Qed.
Example timedelta_ex :
  timedelta_seconds <$> py_float no_ucd (str "0.0000005") = Some (Ok 0) /\
  timedelta_seconds <$> py_float no_ucd (str "-1.9999995") = Some (Ok (-1999999)).
Proof. vm_compute. done. Qed.

(** ** Rounding *)

Lemma floor_log2_bounds (a b k : Z) :
  0 < a -> 0 < b -> 0 <= k -> a < b * 2 ^ k ->
  - Z.log2 b - 1 <= floor_log2 a b < k.
Proof.
  intros Ha Hb Hk Hlt. unfold floor_log2.
  pose proof (Z.log2_spec a Ha) as La. pose proof (Z.log2_spec b Hb) as Lb.
  pose proof (Z.log2_nonneg a). pose proof (Z.log2_nonneg b).
  set (x := Z.log2 a) in *. set (y := Z.log2 b) in *.
  assert (x < y + 1 + k) as Hx.
  { apply (Z.pow_lt_mono_r_iff 2); [lia | lia |]. rewrite Z.pow_add_r by lia.
    assert (b * 2 ^ k <= 2 ^ (y + 1) * 2 ^ k); [| lia].
    apply Z.mul_le_mono_nonneg_r; [apply Z.pow_nonneg |]; lia. }
  destruct (if 0 <=? x - y then _ else _) eqn:E; [| lia]. split; [lia |].
  destruct (Z.eq_dec (x - y) k) as [Ek | Hne]; [| lia]. rewrite Ek in E.
  destruct (Z.leb_spec 0 k); [apply Z.leb_le in E; lia | lia].
Qed.

(** Below [2 ^ 32] a rational is rounded to a multiple of [2 ^ -s], with [s] at
    least 21. *)
Lemma nearest_spec (neg : bool) (a b k : Z) :
  0 < a -> 0 < b -> 0 <= k <= 32 -> a < b * 2 ^ k -> Z.log2 b <= 1000 ->
  exists m s, nearest neg a b = Finite neg m (- s) /\ 53 - k <= s <= 53 + Z.log2 b /\
    - b <= 2 * (b * m - a * 2 ^ s) <= b.
Proof.
  intros Ha Hb Hk Hlt Hl. unfold nearest.
  pose proof (floor_log2_bounds a b k Ha Hb ltac:(lia) Hlt) as Hf.
  destruct (Z.eqb_spec a 0); [lia |]. rewrite Z.max_l by lia.
  set (s := 52 - floor_log2 a b). replace (floor_log2 a b - 52) with (- s) by lia.
  destruct (Z.leb_spec 0 (- s)); [lia |]. rewrite Z.opp_involutive.
  destruct (Z.ltb_spec 971 (- s)); [lia |]. destruct (Z.eqb_spec (- s) 971); [lia |].
  eexists _, s. split; [done |]. split; [lia |]. by apply round_div_spec.
Qed.

Lemma round_unique (m b u : Z) : 0 < b -> - b < 2 * (m - b * u) < b -> round_div m b = u.
Proof. intros Hb Hu. pose proof (round_div_spec m b Hb). nia. Qed.

(** From a decimal with up to six fractional digits to a [timedelta]: no
    microsecond is lost below [2 ^ 32] seconds. *)
Lemma timedelta_nearest (d b c : Z) :
  0 < d -> 0 < b -> b * c = us_per_s -> 0 < c -> d < b * 2 ^ 32 ->
  timedelta_seconds (nearest false d b) = Ok (d * c).
Proof.
  intros Hd Hb Hbc Hc Hlt.
  assert (b <= 1000000) as Hb6 by (unfold us_per_s in Hbc; nia).
  assert (Z.log2 b <= 19) as Hl.
  { pose proof (Z.log2_le_mono b 1000000 Hb6). change (Z.log2 1000000) with 19 in *. lia. }
  destruct (nearest_spec false d b 32) as (m & s & -> & Hs & Hm); [lia.. |].
  unfold timedelta_seconds. destruct (Z.leb_spec 0 (- s)); [lia |]. rewrite Z.opp_involutive.
  pose proof (Z.div_mod m (2 ^ s) ltac:(lia)) as Hdm. pose proof (Z.mod_pos_bound m (2 ^ s) ltac:(lia)) as Hr.
  set (q := m / 2 ^ s) in *. set (r := m mod 2 ^ s) in *.
  assert (2 ^ 21 <= 2 ^ s) as Hp by (apply Z.pow_le_mono_r; lia).
  change (2 ^ 21) with 2097152 in Hp. change (2 ^ 32) with 4294967296 in Hlt.
  assert (round_float (nearest false (r * us_per_s) (2 ^ s)) = d * c - q * us_per_s) as ->.
  2: { replace (q * us_per_s + (d * c - q * us_per_s)) with (d * c) by lia.
       unfold us_per_day, us_per_s in *.
       destruct (Z.leb_spec (- 999999999 * (86400 * 1000000)) (d * c)); [| nia].
       destruct (Z.ltb_spec (d * c) (1000000000 * (86400 * 1000000))); [done | nia]. }
  unfold us_per_s in *. set (p := 2 ^ s) in *.
  assert (- p < 4 * (r * 1000000 - p * (d * c - q * 1000000)) < p) as Hv by nia.
  destruct (Z.eq_dec r 0) as [Er | Hne].
  - rewrite Er in *. simpl. nia.
  - destruct (nearest_spec false (r * 1000000) p 20) as (m' & s' & -> & Hs' & Hm').
    1-5: (unfold p; try rewrite Z.log2_pow2; lia).
    unfold round_float. destruct (Z.leb_spec 0 (- s')); [lia |]. rewrite Z.opp_involutive.
    assert (2 ^ 33 <= 2 ^ s') as Hp' by (apply Z.pow_le_mono_r; lia). change (2 ^ 33) with 8589934592 in Hp'.
    apply round_unique; [lia |]. set (p' := 2 ^ s') in *. set (t := d * c - q * 1000000) in *. nia.
Qed.

(** ** Reading plain decimals *)

Lemma is_digit_plain (c : Z) :
  is_digit c = true -> ascii_space c = false /\ lower c = c /\ (c =? 95) = false /\ (c =? 45) = false /\
                       (c =? 43) = false.
Proof.
  rewrite is_digit_spec. intros Hc. unfold ascii_space, lower.
  rewrite !orb_false_iff, !andb_false_iff, !Z.leb_gt, !Z.eqb_neq.
  destruct (Z.leb_spec 65 c); [lia |]. split_and!; try done; lia.
Qed.

(** A character of a plain decimal. *)
Definition decimal_char (c : Z) : Prop := is_digit c = true \/ c = 46.

Lemma amount_text_chars (w f : pystr) : digits w -> digits f -> Forall decimal_char (amount_text w f).
Proof.
  intros Hw Hf. assert (forall s, digits s -> Forall decimal_char s) as Hd.
  { intros s Hs. eapply Forall_impl; [exact Hs |]. by left. }
  destruct f as [|c f]; [by apply Hd |]. apply Forall_app. split; [by apply Hd |].
  constructor; [by right | by apply Hd].
Qed.

Lemma decimal_ascii (ucd : Z -> option Z) (s : pystr) :
  Forall decimal_char s -> map (to_ascii ucd) s = s.
Proof.
  intros Hs. rewrite <-(map_id s) at 2. apply map_ext_in. intros c Hc%list_elem_of_In.
  pose proof (proj1 (Forall_forall _ _) Hs c Hc) as H. unfold to_ascii.
  destruct (Z.ltb_spec c 127); [done |]. destruct H as [H | ->]; [| done]. apply is_digit_spec in H. lia.
Qed.

Lemma drop_underscores_none (s : pystr) (prev : Z) :
  prev <> 95 -> Forall decimal_char s -> drop_underscores prev s = Some s.
Proof.
  intros Hp Hs. revert prev Hp. induction Hs as [|c s Hc Hs IH]; intros prev Hp; simpl.
  - by destruct (Z.eqb_spec prev 95).
  - assert (c <> 95) as Hne by (destruct Hc as [Hc%is_digit_spec | ->]; lia).
    destruct (Z.eqb_spec c 95); [done |]. destruct (Z.eqb_spec prev 95); [done |]. simpl. by rewrite IH.
Qed.

Lemma read_float_decimal (w f : pystr) :
  digits w -> digits f -> w <> [] ->
  read_float (amount_text w f) =
  Some (of_decimal false (digits_value (w ++ f)) (- Z.of_nat (length f))).
Proof.
  intros Hw Hf Hne. destruct w as [|c w]; [done |].
  pose proof (proj1 (proj1 (Forall_cons _ _ _) Hw)) as Hc.
  destruct (is_digit_plain c Hc) as (_ & Hlow & _ & H45 & H43).
  assert (exists t, amount_text (c :: w) f = c :: t) as [t Et] by (destruct f; by eexists).
  assert (take_while is_digit (c :: t) = c :: w /\
          read_point (drop_while is_digit (c :: t)) = (f, [])) as [E1 E2].
  { rewrite <-Et. unfold amount_text. destruct f as [|d f].
    - destruct (while_digits (c :: w) Hw) as [-> ->]. done.
    - destruct (while_split is_digit (c :: w) (46 :: d :: f) Hw (digits_stop_dot _)) as [-> ->].
      unfold read_point. destruct (while_digits (d :: f) Hf) as [-> ->]. done. }
  rewrite Et. unfold read_float, read_sign. rewrite H45, H43. cbv zeta iota beta. rewrite E1, E2.
  change (str "inf") with (105 :: str "nf"). change (str "infinity") with (105 :: str "nfinity").
  change (str "nan") with (110 :: str "an").
  assert (forall x y, lower c <> x -> bool_decide (map lower (c :: t) = x :: y) = false) as Hword.
  { intros x y Hx. apply bool_decide_eq_false. simpl. congruence. }
  apply is_digit_spec in Hc. rewrite !Hword by (rewrite Hlow; lia). done.
Qed.

Lemma py_float_decimal (ucd : Z -> option Z) (w f : pystr) :
  digits w -> digits f -> w <> [] ->
  py_float ucd (amount_text w f) =
  Some (of_decimal false (digits_value (w ++ f)) (- Z.of_nat (length f))).
Proof.
  intros Hw Hf Hne. unfold py_float. pose proof (amount_text_chars w f Hw Hf) as Hc.
  rewrite decimal_ascii by done.
  rewrite strip_by_id.
  - rewrite drop_underscores_none by done. by apply read_float_decimal.
  - intros c H. by apply is_digit_plain, (amount_text_ends w f c Hw Hf Hne); left.
  - intros c H. by apply is_digit_plain, (amount_text_ends w f c Hw Hf Hne); right.
Qed.

Lemma py_int_digits (ucd : Z -> option Z) (ds : pystr) :
  digits ds -> ds <> [] -> (length ds <= max_str_digits)%nat -> py_int ucd ds = Some (digits_value ds).
Proof.
  intros Hd Hne Hlen. unfold py_int. pose proof (amount_text_chars ds [] Hd ltac:(constructor)) as Hc.
  cbn [amount_text] in Hc. rewrite decimal_ascii by done. destruct ds as [|c ds]; [done |].
  destruct (is_digit_plain c (proj1 (proj1 (Forall_cons _ _ _) Hd))) as (Hsp & _ & _ & H45 & H43).
  unfold lstrip_by. rewrite drop_while_none by (intros ? [= <-]; done). unfold read_sign. rewrite H45, H43.
  destruct (while_split (fun c => is_digit c || (c =? 95)) (c :: ds) []) as [E1 E2];
    [eapply Forall_impl; [exact Hd |]; intros x Hx; simpl in *; by rewrite Hx | done |].
  rewrite app_nil_r in E1, E2. rewrite E1, E2, drop_underscores_none by done.
  assert (int_of_digits (c :: ds) = Some (digits_value (c :: ds))) as Hi; [| by simpl; rewrite Hi].
  unfold int_of_digits. destruct (Nat.leb_spec (length (c :: ds)) max_str_digits); [done | lia].
Qed.

(** A decimal with up to six fractional digits, in microseconds. *)
Definition microseconds (w f : pystr) : Z := digits_value (w ++ f) * 10 ^ (6 - Z.of_nat (length f)).

Lemma timedelta_decimal (w f : pystr) :
  digits w -> digits f -> (length f <= 6)%nat -> microseconds w f < 2 ^ 32 * us_per_s ->
  timedelta_seconds (of_decimal false (digits_value (w ++ f)) (- Z.of_nat (length f))) =
  Ok (microseconds w f).
Proof.
  intros Hw Hf Hlen Hu. unfold microseconds in *. set (k := Z.of_nat (length f)) in *.
  assert (10 ^ k * 10 ^ (6 - k) = us_per_s) as Hk.
  { rewrite <-Z.pow_add_r by lia. replace (k + (6 - k)) with 6 by lia. done. }
  assert (0 < 10 ^ (6 - k)) by (apply Z.pow_pos_nonneg; lia).
  assert (0 < 10 ^ k) by (apply Z.pow_pos_nonneg; lia).
  pose proof (digits_value_bounds (w ++ f) ltac:(by apply Forall_app)) as [Hd _].
  set (d := digits_value (w ++ f)) in *.
  assert (d < 10 ^ k * 2 ^ 32) as Hd32 by nia.
  unfold of_decimal. destruct (Z.eqb_spec d 0) as [-> | Hne]; [done |].
  assert (length (decimal d) <= 30)%nat as Hn.
  { apply (decimal_length d 30); [lia |]. assert (10 ^ k <= us_per_s) by nia.
    unfold us_per_s in *. lia. }
  destruct (Z.leb_spec 309 (Z.of_nat (length (decimal d)) - 1 + - k)); [lia |].
  destruct (Z.leb_spec (Z.of_nat (length (decimal d)) + - k) (-324)); [lia |].
  destruct (Z.leb_spec 0 (- k)).
  - replace k with 0 in * by lia. rewrite Z.mul_1_r. apply timedelta_nearest; lia.
  - rewrite Z.opp_involutive. apply timedelta_nearest; lia.
Qed.
