(* ===== verification/Wire.v ===== *)
(** * Request hashes, wire types and the signer

    [sluice/canonical.py] (the request hash), [sluice/tron/types.py] (broadcast
    codes and their classification, transaction queries, the txid, signed and
    unsigned transactions with their JSON form) and [sluice/tron/signer.py]
    (the HMAC signer and its verifier). *)
From Stdlib Require Import ZArith Lia.
From stdpp Require Import base option strings sorting list.
From S2P Require Import Prelude Text Json Hash Datetime States.

Local Open Scope Z_scope.

(** ** Exceptions of the processing core

    [StoreFailure] is what the database driver raises when a call to the store
    fails; the in-memory store never raises it. *)

Inductive exn : Type :=
| LostClaim
| NodeTimeout
| SimulatedCrash (point : pystr)
| EIllegalTransition (e : IllegalTransition)
| ValueError
| TypeError
| KeyError
| OverflowError
| StoreFailure.

#[export] Instance exn_eq_dec : EqDecision exn.
Proof. unfold EqDecision, Decision. repeat decide equality; apply _. Defined.

(** [except Exception]: everything but the [BaseException] of a crash point. *)
Definition is_Exception (e : exn) : bool :=
  match e with
  | SimulatedCrash _ => false
  | _ => true
  end.

(** [t + timedelta(...)]: an instant past [datetime.max] is an [OverflowError], and
    so is a [timedelta] too large to be one, which is farther away than that. *)
Definition plus_timedelta (t d : Z) : result exn Z :=
  if decide (representable (t + d)) then Ok (t + d) else Err OverflowError.

(** ** [canonical.request_hash] *)

Definition request_payload (to_address : pystr) (amount_units : Z) (asset : pystr) : jval :=
  JObj [(str "amount_units", JInt amount_units);
        (str "asset", JStr asset);
        (str "to_address", JStr to_address)].

Definition request_hash (to_address : pystr) (amount_units : Z) (asset : pystr) : bytes :=
  sha256 (encode (dumps (request_payload to_address amount_units asset))).

(** ** [tron/types.py] *)

Inductive BroadcastCode : Type :=
| SUCCESS
| DUP_TRANSACTION
| SIGERROR
| CONTRACT_VALIDATE_ERROR
| TAPOS_ERROR
| TRANSACTION_EXPIRATION_ERROR
| SERVER_BUSY.

(** [StrEnum]: a code is its string, which is what [in] compares. *)
Definition BroadcastCode_value (c : BroadcastCode) : pystr :=
  match c with
  | SUCCESS => str "SUCCESS"
  | DUP_TRANSACTION => str "DUP_TRANSACTION"
  | SIGERROR => str "SIGERROR"
  | CONTRACT_VALIDATE_ERROR => str "CONTRACT_VALIDATE_ERROR"
  | TAPOS_ERROR => str "TAPOS_ERROR"
  | TRANSACTION_EXPIRATION_ERROR => str "TRANSACTION_EXPIRATION_ERROR"
  | SERVER_BUSY => str "SERVER_BUSY"
  end.

Definition RETRY_SAME_BYTES : list pystr := map BroadcastCode_value [SERVER_BUSY].
Definition ACCEPTED : list pystr := map BroadcastCode_value [SUCCESS; DUP_TRANSACTION].
Definition HARD_REJECT : list pystr := map BroadcastCode_value [SIGERROR; CONTRACT_VALIDATE_ERROR].
Definition STALE_ENVELOPE : list pystr :=
  map BroadcastCode_value [TAPOS_ERROR; TRANSACTION_EXPIRATION_ERROR].

Record BroadcastResult : Type := mkBroadcastResult {
  br_code : pystr;
  br_message : pystr
}.

Inductive TxQuery : Type := UNKNOWN | PENDING | INCLUDED.

#[export] Instance TxQuery_eq_dec : EqDecision TxQuery.
Proof. solve_decision. Defined.

Definition TxQuery_value (q : TxQuery) : pystr :=
  match q with
  | UNKNOWN => str "unknown"
  | PENDING => str "pending"
  | INCLUDED => str "included"
  end.

Record TxStatus : Type := mkTxStatus {
  st_result : TxQuery;
  st_block : option Z;
  st_solid : bool;
  st_receipt : option pystr
}.

Definition compute_txid (raw_data : jval) : pystr :=
  hexdigest (sha256 (encode (dumps raw_data))).

Record UnsignedTx : Type := mkUnsignedTx {
  utx_raw_data : jval;
  utx_txid : pystr;
  utx_expiration : Z
}.

Record SignedTx : Type := mkSignedTx {
  stx_raw_data : jval;
  stx_txid : pystr;
  stx_expiration : Z;
  stx_signature : pystr
}.

Definition to_json (tx : SignedTx) : jval :=
  JObj [(str "raw_data", stx_raw_data tx);
        (str "txid", JStr (stx_txid tx));
        (str "expiration", JStr (isoformat (stx_expiration tx)));
        (str "signature", JStr (stx_signature tx))].

(** [d[k]] on a JSON value that must be a dict, and a string in it. *)
Definition get_item (k : pystr) (d : jval) : result exn jval :=
  match d with
  | JObj m => match assoc k m with Some v => Ok v | None => Err KeyError end
  | _ => Err TypeError
  end.

Definition get_str (k : pystr) (d : jval) : result exn pystr :=
  match get_item k d with
  | Ok (JStr s) => Ok s
  | Ok _ => Err TypeError
  | Err e => Err e
  end.

Local Open Scope sluice_scope.

(** [SignedTx.from_json(op.signed_tx)]; subscripting [None] is a [TypeError]. *)
Definition from_json (d : option jval) : result exn SignedTx :=
  match d with
  | None => Err TypeError
  | Some d =>
      let? raw_data := get_item (str "raw_data") d in
      let? txid := get_str (str "txid") d in
      let? iso := get_str (str "expiration") d in
      let? expiration := match fromisoformat iso with Some t => Ok t | None => Err ValueError end in
      let? signature := get_str (str "signature") d in
      Ok (mkSignedTx raw_data txid expiration signature)
  end.

Local Close Scope sluice_scope.

(** ** [tron/signer.py] *)

Record MockSigner : Type := mkMockSigner {
  key_id : pystr;
  secret : bytes
}.

Definition default_signer : MockSigner := mkMockSigner (str "hotwallet-1") (str "not-a-real-key").

Definition mac (s : MockSigner) (txid : pystr) : pystr :=
  hexdigest (hmac_sha256 (secret s) (encode txid)).

Definition sign (s : MockSigner) (tx : UnsignedTx) : SignedTx :=
  mkSignedTx (utx_raw_data tx) (utx_txid tx) (utx_expiration tx)
             (key_id s ++ 58 :: mac s (utx_txid tx)).

(** [signature.split(":", 1)]; [None] when there is no colon. *)
Fixpoint split_colon (s : pystr) : option (pystr * pystr) :=
  match s with
  | [] => None
  | c :: s' => if c =? 58 then Some ([], s')
               else match split_colon s' with
                    | Some (a, b) => Some (c :: a, b)
                    | None => None
                    end
  end.

(** [verify]; the comparison is [hmac.compare_digest], equality on the ASCII
    texts that signatures are (it raises [TypeError] on other text). *)
Definition verify (s : MockSigner) (tx : SignedTx) : bool :=
  match split_colon (stx_signature tx) with
  | None => false
  | Some (kid, sig) =>
      bool_decide (kid = key_id s) && bool_decide (sig = mac s (stx_txid tx))
  end.

(** ** Lemmas *)

Lemma from_json_to_json (tx : SignedTx) :
  representable (stx_expiration tx) -> from_json (Some (to_json tx)) = Ok tx.
Proof.
  intros Hr. unfold from_json, get_str.
  rewrite (eq_refl : get_item (str "raw_data") (to_json tx) = Ok (stx_raw_data tx)).
  rewrite (eq_refl : get_item (str "txid") (to_json tx) = Ok (JStr (stx_txid tx))).
  rewrite (eq_refl : get_item (str "expiration") (to_json tx) = Ok (JStr (isoformat (stx_expiration tx)))).
  rewrite (eq_refl : get_item (str "signature") (to_json tx) = Ok (JStr (stx_signature tx))).
  cbn [result_bind]. rewrite (fromisoformat_isoformat _ Hr). by destruct tx.
Qed.

Lemma split_colon_app (a b : pystr) : 58 ∉ a -> split_colon (a ++ 58 :: b) = Some (a, b).
Proof.
  induction a as [|c a IH]; intros Ha; [done |]. apply not_elem_of_cons in Ha as [Hc Ha].
  simpl. destruct (Z.eqb_spec c 58) as [-> |]; [done |]. by rewrite IH.
Qed.

Lemma split_colon_first (s a b : pystr) : split_colon s = Some (a, b) -> 58 ∉ a.
Proof.
  revert a. induction s as [|c s IH]; intros a; simpl; [done |].
  destruct (Z.eqb_spec c 58); [intros [= <- <-]; apply not_elem_of_nil |].
  destruct (split_colon s) as [[a' b'] |]; [| done]. intros [= <- <-].
  apply not_elem_of_cons. split; [done | by apply IH].
Qed.

Lemma compute_txid_ascii (rd : jval) : ascii (compute_txid rd).
Proof. apply hexdigest_ascii, sha256_is_bytes. Qed.

Lemma compute_txid_inj (rd1 rd2 : jval) :
  textual rd1 -> textual rd2 -> compute_txid rd1 = compute_txid rd2 ->
  sort_keys rd1 = sort_keys rd2 \/ collision (encode (dumps rd1)) (encode (dumps rd2)).
Proof.
  intros H1 H2 E. apply hexdigest_inj in E; [| apply sha256_is_bytes..].
  destruct (decide (encode (dumps rd1) = encode (dumps rd2))) as [Ee | Hne].
  - left. by apply encode_dumps_inj.
  - right. done.
Qed.

Lemma request_hash_inj (to1 to2 asset1 asset2 : pystr) (amount1 amount2 : Z) :
  Forall scalar to1 -> Forall scalar to2 -> Forall scalar asset1 -> Forall scalar asset2 ->
  request_hash to1 amount1 asset1 = request_hash to2 amount2 asset2 ->
  (to1 = to2 /\ amount1 = amount2 /\ asset1 = asset2) \/
  collision (encode (dumps (request_payload to1 amount1 asset1)))
            (encode (dumps (request_payload to2 amount2 asset2))).
Proof.
  intros Ht1 Ht2 Ha1 Ha2 E.
  assert (forall to n asset, Forall scalar to -> Forall scalar asset ->
    textual (request_payload to n asset)) as Htext.
  { intros to n asset Ht Ha. assert (forall c, 0 <= c < 128 -> scalar c) by (intros; left; lia).
    repeat split; auto; repeat constructor; lia. }
  unfold collision. set (a := encode _). set (b := encode _).
  destruct (decide (a = b)) as [Ee | Hne]; [left | by right].
  apply encode_dumps_inj in Ee; auto. vm_compute in Ee. injection Ee as E1 E2 E3. auto.
Qed.

Lemma sign_verifies (s : MockSigner) (tx : UnsignedTx) : 58 ∉ key_id s -> verify s (sign s tx) = true.
Proof.
  intros Hk. unfold verify, sign. cbn [stx_signature stx_txid]. rewrite split_colon_app by done.
  by rewrite !bool_decide_eq_true_2.
Qed.

(** ** Properties *)

(** Two withdrawals with the same request hash mean the same thing: equal
    hashes force the same destination, the same amount and the same asset, or
    exhibit a SHA-256 collision. *)
Theorem request_hash_faithful (to1 to2 asset1 asset2 : pystr) (amount1 amount2 : Z) :
  Forall scalar to1 -> Forall scalar to2 -> Forall scalar asset1 -> Forall scalar asset2 ->
  request_hash to1 amount1 asset1 = request_hash to2 amount2 asset2 ->
  (to1 = to2 /\ amount1 = amount2 /\ asset1 = asset2) \/
  collision (encode (dumps (request_payload to1 amount1 asset1)))
            (encode (dumps (request_payload to2 amount2 asset2))).
Proof. apply request_hash_inj. Qed.

Lemma request_hash_faithful_witness :
  (str "Ta" = str "Ta" /\ 1500000 = 1500000 /\ str "USDT-TRC20" = str "USDT-TRC20") \/
  collision (encode (dumps (request_payload (str "Ta") 1500000 (str "USDT-TRC20"))))
            (encode (dumps (request_payload (str "Ta") 1500000 (str "USDT-TRC20")))).
Proof.
  apply (request_hash_faithful (str "Ta") (str "Ta") (str "USDT-TRC20") (str "USDT-TRC20") 1500000 1500000);
    try reflexivity; (apply (bool_decide_unpack _) || idtac);
    repeat constructor; unfold scalar; lia.
Defined.

(** The signer and the node's verifier agree exactly when the key id holds
    no colon: a signature over any envelope verifies under the same key, and a
    key id with a colon makes every signature of that key fail. *)
Theorem sign_verify (s : MockSigner) (tx : UnsignedTx) :
  verify s (sign s tx) = true <-> 58 ∉ key_id s.
Proof.
  split; [| apply sign_verifies]. unfold verify, sign. cbn [stx_signature stx_txid].
  destruct (split_colon _) as [[kid sig] |] eqn:E; [| done].
  rewrite andb_true_iff, !bool_decide_eq_true. intros [-> _]. by apply split_colon_first in E.
Qed.
