(* ===== verification/Model.v ===== *)
(** * Data shapes and configuration

    [sluice/model.py] (one [Operation] row per withdrawal, append-only [Event]s),
    the column whitelist of [sluice/store/__init__.py], and [Config] of
    [sluice/config.py].  A UUID is its 128-bit integer; durations and instants
    are microseconds (see [Datetime]). *)
From Stdlib Require Import ZArith Lia.
From stdpp Require Import base option strings list.
From S2P Require Import Prelude Text Json Datetime Number States Address.

Local Open Scope Z_scope.

(** ** [model.Operation] *)

Record Operation : Type := mkOperation {
  op_operation_id : Z;
  op_request_hash : bytes;
  op_state : OpState;
  op_to_address : pystr;
  op_asset : pystr;
  op_amount_units : Z;
  op_unsigned_tx : option jval;
  op_txid : option pystr;
  op_tx_expiration : option Z;
  op_signed_tx : option jval;
  op_attempts : Z;
  op_claimed_by : option pystr;
  op_lease_expires_at : option Z;
  op_fencing_token : Z;
  op_last_error : option pystr;
  op_failure_reason : option pystr;
  op_broadcast_at : option Z;
  op_included_block : option Z;
  op_confirmed_at : option Z;
  op_created_at : option Z;
  op_updated_at : option Z
}.

(** Attribute assignment [op.field = v], one per field the stores write. *)

Definition set_state (v : OpState) (op : Operation) : Operation :=
  mkOperation (op_operation_id op) (op_request_hash op) v (op_to_address op) (op_asset op)
    (op_amount_units op) (op_unsigned_tx op) (op_txid op) (op_tx_expiration op) (op_signed_tx
    op) (op_attempts op) (op_claimed_by op) (op_lease_expires_at op) (op_fencing_token op)
    (op_last_error op) (op_failure_reason op) (op_broadcast_at op) (op_included_block op)
    (op_confirmed_at op) (op_created_at op) (op_updated_at op).

Definition set_unsigned_tx (v : option jval) (op : Operation) : Operation :=
  mkOperation (op_operation_id op) (op_request_hash op) (op_state op) (op_to_address op)
    (op_asset op) (op_amount_units op) v (op_txid op) (op_tx_expiration op) (op_signed_tx op)
    (op_attempts op) (op_claimed_by op) (op_lease_expires_at op) (op_fencing_token op)
    (op_last_error op) (op_failure_reason op) (op_broadcast_at op) (op_included_block op)
    (op_confirmed_at op) (op_created_at op) (op_updated_at op).

Definition set_txid (v : option pystr) (op : Operation) : Operation :=
  mkOperation (op_operation_id op) (op_request_hash op) (op_state op) (op_to_address op)
    (op_asset op) (op_amount_units op) (op_unsigned_tx op) v (op_tx_expiration op)
    (op_signed_tx op) (op_attempts op) (op_claimed_by op) (op_lease_expires_at op)
    (op_fencing_token op) (op_last_error op) (op_failure_reason op) (op_broadcast_at op)
    (op_included_block op) (op_confirmed_at op) (op_created_at op) (op_updated_at op).

Definition set_tx_expiration (v : option Z) (op : Operation) : Operation :=
  mkOperation (op_operation_id op) (op_request_hash op) (op_state op) (op_to_address op)
    (op_asset op) (op_amount_units op) (op_unsigned_tx op) (op_txid op) v (op_signed_tx op)
    (op_attempts op) (op_claimed_by op) (op_lease_expires_at op) (op_fencing_token op)
    (op_last_error op) (op_failure_reason op) (op_broadcast_at op) (op_included_block op)
    (op_confirmed_at op) (op_created_at op) (op_updated_at op).

Definition set_signed_tx (v : option jval) (op : Operation) : Operation :=
  mkOperation (op_operation_id op) (op_request_hash op) (op_state op) (op_to_address op)
    (op_asset op) (op_amount_units op) (op_unsigned_tx op) (op_txid op) (op_tx_expiration op)
    v (op_attempts op) (op_claimed_by op) (op_lease_expires_at op) (op_fencing_token op)
    (op_last_error op) (op_failure_reason op) (op_broadcast_at op) (op_included_block op)
    (op_confirmed_at op) (op_created_at op) (op_updated_at op).

Definition set_attempts (v : Z) (op : Operation) : Operation :=
  mkOperation (op_operation_id op) (op_request_hash op) (op_state op) (op_to_address op)
    (op_asset op) (op_amount_units op) (op_unsigned_tx op) (op_txid op) (op_tx_expiration op)
    (op_signed_tx op) v (op_claimed_by op) (op_lease_expires_at op) (op_fencing_token op)
    (op_last_error op) (op_failure_reason op) (op_broadcast_at op) (op_included_block op)
    (op_confirmed_at op) (op_created_at op) (op_updated_at op).

Definition set_last_error (v : option pystr) (op : Operation) : Operation :=
  mkOperation (op_operation_id op) (op_request_hash op) (op_state op) (op_to_address op)
    (op_asset op) (op_amount_units op) (op_unsigned_tx op) (op_txid op) (op_tx_expiration op)
    (op_signed_tx op) (op_attempts op) (op_claimed_by op) (op_lease_expires_at op)
    (op_fencing_token op) v (op_failure_reason op) (op_broadcast_at op) (op_included_block op)
    (op_confirmed_at op) (op_created_at op) (op_updated_at op).

Definition set_failure_reason (v : option pystr) (op : Operation) : Operation :=
  mkOperation (op_operation_id op) (op_request_hash op) (op_state op) (op_to_address op)
    (op_asset op) (op_amount_units op) (op_unsigned_tx op) (op_txid op) (op_tx_expiration op)
    (op_signed_tx op) (op_attempts op) (op_claimed_by op) (op_lease_expires_at op)
    (op_fencing_token op) (op_last_error op) v (op_broadcast_at op) (op_included_block op)
    (op_confirmed_at op) (op_created_at op) (op_updated_at op).

Definition set_broadcast_at (v : option Z) (op : Operation) : Operation :=
  mkOperation (op_operation_id op) (op_request_hash op) (op_state op) (op_to_address op)
    (op_asset op) (op_amount_units op) (op_unsigned_tx op) (op_txid op) (op_tx_expiration op)
    (op_signed_tx op) (op_attempts op) (op_claimed_by op) (op_lease_expires_at op)
    (op_fencing_token op) (op_last_error op) (op_failure_reason op) v (op_included_block op)
    (op_confirmed_at op) (op_created_at op) (op_updated_at op).

Definition set_included_block (v : option Z) (op : Operation) : Operation :=
  mkOperation (op_operation_id op) (op_request_hash op) (op_state op) (op_to_address op)
    (op_asset op) (op_amount_units op) (op_unsigned_tx op) (op_txid op) (op_tx_expiration op)
    (op_signed_tx op) (op_attempts op) (op_claimed_by op) (op_lease_expires_at op)
    (op_fencing_token op) (op_last_error op) (op_failure_reason op) (op_broadcast_at op) v
    (op_confirmed_at op) (op_created_at op) (op_updated_at op).

Definition set_confirmed_at (v : option Z) (op : Operation) : Operation :=
  mkOperation (op_operation_id op) (op_request_hash op) (op_state op) (op_to_address op)
    (op_asset op) (op_amount_units op) (op_unsigned_tx op) (op_txid op) (op_tx_expiration op)
    (op_signed_tx op) (op_attempts op) (op_claimed_by op) (op_lease_expires_at op)
    (op_fencing_token op) (op_last_error op) (op_failure_reason op) (op_broadcast_at op)
    (op_included_block op) v (op_created_at op) (op_updated_at op).

Definition set_claimed_by (v : option pystr) (op : Operation) : Operation :=
  mkOperation (op_operation_id op) (op_request_hash op) (op_state op) (op_to_address op)
    (op_asset op) (op_amount_units op) (op_unsigned_tx op) (op_txid op) (op_tx_expiration op)
    (op_signed_tx op) (op_attempts op) v (op_lease_expires_at op) (op_fencing_token op)
    (op_last_error op) (op_failure_reason op) (op_broadcast_at op) (op_included_block op)
    (op_confirmed_at op) (op_created_at op) (op_updated_at op).

Definition set_lease_expires_at (v : option Z) (op : Operation) : Operation :=
  mkOperation (op_operation_id op) (op_request_hash op) (op_state op) (op_to_address op)
    (op_asset op) (op_amount_units op) (op_unsigned_tx op) (op_txid op) (op_tx_expiration op)
    (op_signed_tx op) (op_attempts op) (op_claimed_by op) v (op_fencing_token op)
    (op_last_error op) (op_failure_reason op) (op_broadcast_at op) (op_included_block op)
    (op_confirmed_at op) (op_created_at op) (op_updated_at op).

Definition set_fencing_token (v : Z) (op : Operation) : Operation :=
  mkOperation (op_operation_id op) (op_request_hash op) (op_state op) (op_to_address op)
    (op_asset op) (op_amount_units op) (op_unsigned_tx op) (op_txid op) (op_tx_expiration op)
    (op_signed_tx op) (op_attempts op) (op_claimed_by op) (op_lease_expires_at op) v
    (op_last_error op) (op_failure_reason op) (op_broadcast_at op) (op_included_block op)
    (op_confirmed_at op) (op_created_at op) (op_updated_at op).

Definition set_created_at (v : option Z) (op : Operation) : Operation :=
  mkOperation (op_operation_id op) (op_request_hash op) (op_state op) (op_to_address op)
    (op_asset op) (op_amount_units op) (op_unsigned_tx op) (op_txid op) (op_tx_expiration op)
    (op_signed_tx op) (op_attempts op) (op_claimed_by op) (op_lease_expires_at op)
    (op_fencing_token op) (op_last_error op) (op_failure_reason op) (op_broadcast_at op)
    (op_included_block op) (op_confirmed_at op) v (op_updated_at op).

Definition set_updated_at (v : option Z) (op : Operation) : Operation :=
  mkOperation (op_operation_id op) (op_request_hash op) (op_state op) (op_to_address op)
    (op_asset op) (op_amount_units op) (op_unsigned_tx op) (op_txid op) (op_tx_expiration op)
    (op_signed_tx op) (op_attempts op) (op_claimed_by op) (op_lease_expires_at op)
    (op_fencing_token op) (op_last_error op) (op_failure_reason op) (op_broadcast_at op)
    (op_included_block op) (op_confirmed_at op) (op_created_at op) v.

(** The row [service.submit_withdrawal] builds: defaults for everything else. *)
Definition new_operation (id : Z) (request_hash : bytes) (state : OpState)
    (to_address asset : pystr) (amount_units : Z) : Operation :=
  mkOperation id request_hash state to_address asset amount_units
    None None None None 0 None None 0 None None None None None None None.

(** ** Column writes

    [sets] of [cas()]: a dict from column names to values.  A key outside the
    columns of the table, or a column [cas()] may not touch, is [Forbidden]. *)
Inductive FieldSet : Type :=
| Set_unsigned_tx (v : option jval)
| Set_txid (v : option pystr)
| Set_tx_expiration (v : option Z)
| Set_signed_tx (v : option jval)
| Set_attempts (v : Z)
| Set_last_error (v : option pystr)
| Set_failure_reason (v : option pystr)
| Set_broadcast_at (v : option Z)
| Set_included_block (v : option Z)
| Set_confirmed_at (v : option Z)
| Forbidden (column : pystr).

Definition column (f : FieldSet) : pystr :=
  match f with
  | Set_unsigned_tx _ => str "unsigned_tx"
  | Set_txid _ => str "txid"
  | Set_tx_expiration _ => str "tx_expiration"
  | Set_signed_tx _ => str "signed_tx"
  | Set_attempts _ => str "attempts"
  | Set_last_error _ => str "last_error"
  | Set_failure_reason _ => str "failure_reason"
  | Set_broadcast_at _ => str "broadcast_at"
  | Set_included_block _ => str "included_block"
  | Set_confirmed_at _ => str "confirmed_at"
  | Forbidden c => c
  end.

Definition MUTABLE_FIELDS : list pystr :=
  [str "unsigned_tx";
   str "txid";
   str "tx_expiration";
   str "signed_tx";
   str "attempts";
   str "last_error";
   str "failure_reason";
   str "broadcast_at";
   str "included_block";
   str "confirmed_at"].

(** [setattr(op, k, v)]. *)
Definition setattr (op : Operation) (f : FieldSet) : Operation :=
  match f with
  | Set_unsigned_tx v => set_unsigned_tx v op
  | Set_txid v => set_txid v op
  | Set_tx_expiration v => set_tx_expiration v op
  | Set_signed_tx v => set_signed_tx v op
  | Set_attempts v => set_attempts v op
  | Set_last_error v => set_last_error v op
  | Set_failure_reason v => set_failure_reason v op
  | Set_broadcast_at v => set_broadcast_at v op
  | Set_included_block v => set_included_block v op
  | Set_confirmed_at v => set_confirmed_at v op
  | Forbidden _ => op
  end.

(** [for k, v in sets.items(): setattr(op, k, v)]. *)
Definition setattrs (op : Operation) (sets : list FieldSet) : Operation := fold_left setattr sets op.

(** ** [model.Event] *)

Record Event : Type := mkEvent {
  ev_operation_id : Z;
  ev_from_state : option OpState;
  ev_to_state : OpState;
  ev_worker_id : option pystr;
  ev_fencing_token : Z;
  ev_detail : list (pystr * jval);
  ev_at : Z;
  ev_seq : Z
}.

#[export] Instance Event_eq_dec : EqDecision Event.
Proof. solve_decision. Defined.

(** ** [Operation.public_view] *)

(** [str(uuid)]: 8-4-4-4-12 lower-case hexadecimal. *)
Definition uuid_hex (id : Z) : pystr :=
  map (fun i => hex_digit (Z.shiftr id (4 * Z.of_nat i) mod 16)) (rev (seq 0 32)).

Definition uuid_str (id : Z) : pystr :=
  let h := uuid_hex id in
  take 8 h ++ 45 :: take 4 (drop 8 h) ++ 45 :: take 4 (drop 12 h) ++ 45 ::
  take 4 (drop 16 h) ++ 45 :: drop 20 h.

Definition JOptStr (o : option pystr) : jval := match o with Some s => JStr s | None => JNull end.
Definition JOptInt (o : option Z) : jval := match o with Some z => JInt z | None => JNull end.
Definition JOptTime (o : option Z) : jval :=
  match o with Some t => JStr (isoformat t) | None => JNull end.

Definition public_view (op : Operation) : jval :=
  JObj [(str "operation_id", JStr (uuid_str (op_operation_id op)));
        (str "state", JStr (OpState_value (op_state op)));
        (str "to_address", JStr (op_to_address op));
        (str "asset", JStr (op_asset op));
        (str "amount_units", JStr (str_of_int (op_amount_units op)));
        (str "txid", JOptStr (op_txid op));
        (str "attempts", JInt (op_attempts op));
        (str "failure_reason", JOptStr (op_failure_reason op));
        (str "included_block", JOptInt (op_included_block op));
        (str "created_at", JOptTime (op_created_at op));
        (str "confirmed_at", JOptTime (op_confirmed_at op))].

(** ** [config.Config]

    The clock is not a field here: it is part of the world the operations
    run in.  Seconds given as floats are kept as the [timedelta] they denote,
    but for the poll interval, which only a sleep uses. *)
Record Config : Type := mkConfig {
  cfg_asset : pystr;
  cfg_token_decimals : nat;
  cfg_min_amount_units : Z;
  cfg_max_amount_units : Z;
  cfg_lease : Z;
  cfg_claim_batch : nat;
  cfg_poll_interval : pyfloat;
  cfg_tx_ttl : Z;
  cfg_expiration_safety : Z;
  cfg_max_build_attempts : Z;
  cfg_usdt_contract : pystr;
  cfg_expiration_safety_repr : pystr   (* the float as JSON text, for the evidence *)
}.

Definition seconds (s : Z) : Z := s * us_per_s.

Definition default_config : Config :=
  mkConfig (str "USDT-TRC20") 6 1 (1000000 * 10 ^ 6) (seconds 30) 10 (nearest false 1 2)
           (seconds 60) (seconds 30) 5 USDT_TRC20_CONTRACT (str "30.0").

(** ** Lemmas *)

(** The identity and the terms of a withdrawal: what no write may change. *)
Definition terms (op : Operation) : Z * bytes * pystr * pystr * Z :=
  (op_operation_id op, op_request_hash op, op_to_address op, op_asset op, op_amount_units op).

Lemma setattr_frame (op : Operation) (f : FieldSet) :
  terms (setattr op f) = terms op /\ op_state (setattr op f) = op_state op /\
  op_fencing_token (setattr op f) = op_fencing_token op /\
  op_claimed_by (setattr op f) = op_claimed_by op /\
  op_lease_expires_at (setattr op f) = op_lease_expires_at op /\
  op_created_at (setattr op f) = op_created_at op.
Proof. by destruct f. Qed.

Lemma setattrs_frame (sets : list FieldSet) (op : Operation) :
  terms (setattrs op sets) = terms op /\ op_state (setattrs op sets) = op_state op /\
  op_fencing_token (setattrs op sets) = op_fencing_token op /\
  op_claimed_by (setattrs op sets) = op_claimed_by op /\
  op_lease_expires_at (setattrs op sets) = op_lease_expires_at op /\
  op_created_at (setattrs op sets) = op_created_at op.
Proof.
  unfold setattrs. revert op. induction sets as [|f sets IH]; intros op; [done |]. simpl.
  destruct (IH (setattr op f)) as (-> & -> & -> & -> & -> & ->). apply setattr_frame.
Qed.
