(* ===== verification/Environ.v ===== *)
(** * Configuration from the environment ([Config.from_env] of [sluice/config.py])

    [RawConfig] holds the settings [from_env] can change as the source has
    them: seconds as floats and the batch size as an unbounded integer.
    [config_of] is the [Config] the stores, the pipeline and the workers run
    with, once each number of seconds has become a [timedelta]. *)
From Stdlib Require Import ZArith Lia.
From stdpp Require Import base option strings list.
From S2P Require Import Prelude Text Json Money Datetime Number Model.

Local Open Scope Z_scope.

Record RawConfig : Type := mkRawConfig {
  lease_seconds : pyfloat;
  claim_batch : Z;
  poll_interval : pyfloat;
  tx_ttl_seconds : pyfloat
}.

(** [cls()]. *)
Definition default_raw : RawConfig :=
  mkRawConfig (nearest false 30 1) 10 (nearest false 1 2) (nearest false 60 1).

Local Open Scope sluice_scope.

Section environ.
Context (ucd : Z -> option Z).
Context (environ : pystr -> option pystr).

(** [if v := os.environ.get(name): ... = read(v)]: an unset or empty variable
    leaves the default. *)
Definition setting {A : Type} (read : pystr -> option A) (name : pystr) (d : A) : result number_error A :=
  match environ name with
  | Some (c :: v) => match read (c :: v) with Some x => Ok x | None => Err ValueError end
  | _ => Ok d
  end.

Definition from_env : result number_error RawConfig :=
  let cfg := default_raw in
  let? lease := setting (py_float ucd) (str "SLUICE_LEASE_SECONDS") (lease_seconds cfg) in
  let? ttl := setting (py_float ucd) (str "SLUICE_TX_TTL_SECONDS") (tx_ttl_seconds cfg) in
  let? batch := setting (py_int ucd) (str "SLUICE_CLAIM_BATCH") (claim_batch cfg) in
  let? poll := setting (py_float ucd) (str "SLUICE_POLL_INTERVAL") (poll_interval cfg) in
  Ok (mkRawConfig lease batch poll ttl).

End environ.

(** The configuration in use.  A batch below zero stops a claim at once, as
    zero does ([len(out) >= limit]). *)
Definition config_of (raw : RawConfig) : result number_error Config :=
  let? lease := timedelta_seconds (lease_seconds raw) in
  let? ttl := timedelta_seconds (tx_ttl_seconds raw) in
  Ok (mkConfig (cfg_asset default_config) (cfg_token_decimals default_config)
    (cfg_min_amount_units default_config) (cfg_max_amount_units default_config)
    lease (Z.to_nat (claim_batch raw)) (poll_interval raw) ttl
    (cfg_expiration_safety default_config) (cfg_max_build_attempts default_config)
    (cfg_usdt_contract default_config) (cfg_expiration_safety_repr default_config)).

Local Close Scope sluice_scope.

Definition no_env (_ : pystr) : option pystr := None.

Definition one_env (name value : pystr) (k : pystr) : option pystr :=
  if bool_decide (k = name) then Some value else None.

(** A lease that is not a number is accepted here and fails at the first claim. *)
Example nan_accepted :
  exists raw, from_env no_ucd (one_env (str "SLUICE_LEASE_SECONDS") (str "nan")) = Ok raw /\
  config_of raw = Err ValueError.
Proof. eexists. split; [vm_compute; reflexivity |]. vm_compute. reflexivity. Qed.

Example bad_batch : from_env no_ucd (one_env (str "SLUICE_CLAIM_BATCH") (str "10.0")) = Err ValueError.
Proof. vm_compute. reflexivity. Qed.

(** ** Settings written as decimals *)

(** The variable is unset or empty and [us] is the default, or it holds a
    decimal of [us] microseconds. *)
Definition seconds_setting (o : option pystr) (d us : Z) : Prop :=
  (default [] o = [] /\ us = d) \/
  exists w f, o = Some (amount_text w f) /\ digits w /\ digits f /\ w <> [] /\ (length f <= 6)%nat /\
    us = microseconds w f.

Definition count_setting (o : option pystr) (d n : Z) : Prop :=
  (default [] o = [] /\ n = d) \/
  exists ds, o = Some ds /\ digits ds /\ ds <> [] /\ (length ds <= max_str_digits)%nat /\
    n = digits_value ds.

Section lemmas.
Context (ucd : Z -> option Z) (environ : pystr -> option pystr).

Lemma setting_unset {A : Type} (read : pystr -> option A) (name : pystr) (d : A) :
  default [] (environ name) = [] -> setting environ read name d = Ok d.
Proof. unfold setting. destruct (environ name) as [[|c v]|]; done. Qed.

Lemma setting_set {A : Type} (read : pystr -> option A) (name v : pystr) (d x : A) :
  environ name = Some v -> v <> [] -> read v = Some x -> setting environ read name d = Ok x.
Proof. unfold setting. intros -> Hne Hr. destruct v as [|c v]; [done |]. by rewrite Hr. Qed.

Lemma setting_seconds (name : pystr) (d : pyfloat) (dus us : Z) :
  seconds_setting (environ name) dus us -> timedelta_seconds d = Ok dus -> us < 2 ^ 32 * us_per_s ->
  exists x, setting environ (py_float ucd) name d = Ok x /\ timedelta_seconds x = Ok us.
Proof.
  intros [[Hu ->] | (w & f & Eo & Hw & Hf & Hne & Hl & ->)] Hd Hlt.
  - exists d. by rewrite setting_unset.
  - eexists. split; [| by apply timedelta_decimal].
    apply (setting_set _ _ (amount_text w f)); [done | | by apply py_float_decimal].
    destruct w; [done |]. by destruct f.
Qed.

Lemma setting_count (d n : Z) (name : pystr) :
  count_setting (environ name) d n -> setting environ (py_int ucd) name d = Ok n.
Proof.
  intros [[Hu ->] | (ds & Eo & Hd & Hne & Hl & ->)].
  - by apply setting_unset.
  - apply (setting_set _ _ ds); [done | done |]. by apply py_int_digits.
Qed.

End lemmas.


