(* ===== verification/Store.v ===== *)
(** * The in-memory store ([sluice/store/memory.py])

    The state of [MemoryStore] and its operations, each one atomic for its
    callers (the source runs it under one lock).  The clock is passed in as
    [now].  Rows go in and out as deep copies in the source, so plain values are
    faithful here.  A lease that ends past [datetime.max] is an [OverflowError]
    in the middle of [claim] and [cas]: what they wrote before it stays. *)
From Stdlib Require Import ZArith Lia.
From stdpp Require Import base option strings gmap sorting list.
From S2P Require Import Prelude Text Json Datetime States Wire Model.

Local Open Scope Z_scope.

Record MemoryStore : Type := mkStore {
  ms_ops : gmap Z Operation;
  ms_events : list Event;
  ms_order : Z;                  (* next value of [itertools.count()] *)
  ms_arrival : gmap Z Z;
  ms_event_seq : Z               (* next value of [itertools.count(1)] *)
}.

Definition empty_store : MemoryStore := mkStore ∅ [] 0 ∅ 1.

Definition append_event (now : Z) (id : Z) (from_state : option OpState) (to_state : OpState)
    (worker_id : option pystr) (token : Z) (detail : list (pystr * jval)) (st : MemoryStore)
    : MemoryStore :=
  mkStore (ms_ops st)
    (ms_events st ++ [mkEvent id from_state to_state worker_id token detail now (ms_event_seq st)])
    (ms_order st) (ms_arrival st) (ms_event_seq st + 1).

(** ** Intake *)

Definition insert_new (now : Z) (op : Operation) (st : MemoryStore)
    : (Operation * bool) * MemoryStore :=
  match ms_ops st !! op_operation_id op with
  | Some existing => ((existing, false), st)
  | None =>
      let row := set_updated_at (Some now) (set_created_at (Some now) op) in
      let id := op_operation_id op in
      let st := mkStore (<[id := row]> (ms_ops st)) (ms_events st) (ms_order st + 1)
                        (<[id := ms_order st]> (ms_arrival st)) (ms_event_seq st) in
      ((row, true), append_event now id None (op_state row) None 0 [(str "intake", JBool true)] st)
  end.

Definition get (id : Z) (st : MemoryStore) : option Operation := ms_ops st !! id.

(** ** Claiming *)

Definition arrival_of (st : MemoryStore) (op : Operation) : Z :=
  default 0 (ms_arrival st !! op_operation_id op).

Definition arrival_le (st : MemoryStore) (a b : Operation) : Prop :=
  arrival_of st a <= arrival_of st b.

#[export] Instance arrival_le_dec (st : MemoryStore) : RelDecision (arrival_le st).
Proof. intros a b. unfold arrival_le. apply _. Defined.

Definition candidates (wanted : list OpState) (st : MemoryStore) : list Operation :=
  merge_sort (arrival_le st)
    (filter (fun op => op_state op ∈ wanted) (snd <$> map_to_list (ms_ops st))).

(** Somebody holds the row: [lease_expires_at is not None and lease > now]. *)
Definition held (now : Z) (op : Operation) : bool :=
  match op_lease_expires_at op with
  | Some lease => now <? lease
  | None => false
  end.

Definition take_claim (now lease : Z) (worker_id : pystr) (op : Operation) : Operation :=
  set_updated_at (Some now)
    (set_fencing_token (op_fencing_token op + 1)
      (set_lease_expires_at (Some (now + lease))
        (set_claimed_by (Some worker_id) op))).

(** A lease past [datetime.max] raises when the claimer is already written. *)
Fixpoint claim_loop (now lease : Z) (worker_id : pystr) (limit : nat) (cands : list Operation)
    (ops : gmap Z Operation) : result exn (list Operation) * gmap Z Operation :=
  match cands, limit with
  | [], _ => (Ok [], ops)
  | _, O => (Ok [], ops)
  | op :: cands, S limit' =>
      if held now op then claim_loop now lease worker_id limit cands ops
      else
        match plus_timedelta now lease with
        | Err e => (Err e, <[op_operation_id op := set_claimed_by (Some worker_id) op]> ops)
        | Ok _ =>
            let row := take_claim now lease worker_id op in
            let '(r, ops) :=
              claim_loop now lease worker_id limit' cands (<[op_operation_id op := row]> ops) in
            (match r with Ok out => Ok (row :: out) | Err e => Err e end, ops)
        end
  end.

(** The locked part of [claim]; the source reads [now] before taking the lock. *)
Definition claim (wanted : list OpState) (limit : nat) (worker_id : pystr) (lease now : Z)
    (st : MemoryStore) : result exn (list Operation) * MemoryStore :=
  let '(r, ops) :=
    claim_loop now lease worker_id limit (candidates wanted st) (ms_ops st) in
  (r, mkStore ops (ms_events st) (ms_order st) (ms_arrival st) (ms_event_seq st)).

(** ** The one true write path *)

(** What [cas] writes before it computes the new lease. *)
Definition cas_half (now : Z) (to_state : OpState) (sets : list FieldSet) (op : Operation) : Operation :=
  set_updated_at (Some now) (set_state to_state (setattrs op sets)).

(** The row a successful [cas] leaves behind. *)
Definition cas_row (now : Z) (to_state : OpState) (sets : list FieldSet) (renew : option Z)
    (op : Operation) : Operation :=
  let op := cas_half now to_state sets op in
  let op := match renew with
            | Some lease => set_lease_expires_at (Some (now + lease)) op
            | None => op
            end in
  if bool_decide (to_state ∈ TERMINAL)
  then set_lease_expires_at None (set_claimed_by None op)
  else op.

(** [now + timedelta(seconds=renew_lease_seconds)], if there is a lease to renew. *)
Definition renewed_lease (now : Z) (renew : option Z) : result exn (option Z) :=
  match renew with
  | None => Ok None
  | Some lease => match plus_timedelta now lease with Ok t => Ok (Some t) | Err e => Err e end
  end.

(** A lease past [datetime.max] raises when the state and the columns are
    already written, before the event. *)
Definition cas (now : Z) (id token : Z) (from_state to_state : OpState) (sets : list FieldSet)
    (detail : list (pystr * jval)) (renew : option Z) (worker_id : option pystr)
    (st : MemoryStore) : result exn (option Operation) * MemoryStore :=
  if negb (forallb (fun f => bool_decide (column f ∈ MUTABLE_FIELDS)) sets) then (Err ValueError, st)
  else if negb (can_transition from_state to_state) then
    (Err (EIllegalTransition (mkIllegalTransition from_state to_state)), st)
  else
    match ms_ops st !! id with
    | None => (Ok None, st)
    | Some op =>
        if negb (op_fencing_token op =? token) || negb (bool_decide (op_state op = from_state))
        then (Ok None, st)
        else if bool_decide (op_state op ∈ TERMINAL) then (Ok None, st)
        else
          let write row := mkStore (<[id := row]> (ms_ops st)) (ms_events st) (ms_order st)
                                   (ms_arrival st) (ms_event_seq st) in
          match renewed_lease now renew with
          | Err e => (Err e, write (cas_half now to_state sets op))
          | Ok _ =>
              let row := cas_row now to_state sets renew op in
              (Ok (Some row),
               append_event now id (Some from_state) to_state worker_id token detail (write row))
          end
    end.

Definition release (now : Z) (id token : Z) (st : MemoryStore) : MemoryStore :=
  match ms_ops st !! id with
  | None => st
  | Some op =>
      if negb (op_fencing_token op =? token) then st
      else
        let row := set_updated_at (Some now)
                     (set_lease_expires_at None (set_claimed_by None op)) in
        mkStore (<[id := row]> (ms_ops st)) (ms_events st) (ms_order st)
                (ms_arrival st) (ms_event_seq st)
  end.

(** ** Event log *)

Definition events (id : Z) (st : MemoryStore) : list Event :=
  filter (fun e => ev_operation_id e = id) (ms_events st).

(** [e.detail["txid"]], if the event carries one. *)
Definition event_txid (e : Event) : option pystr :=
  match assoc (str "txid") (ev_detail e) with
  | Some (JStr t) => Some t
  | _ => None
  end.

Definition all_txids (id : Z) (st : MemoryStore) : list pystr := omap event_txid (events id st).

Definition all_operations (st : MemoryStore) : list Operation := snd <$> map_to_list (ms_ops st).

(** ** Lemmas on single operations *)

(** [claim_loop] in closed form: the first [limit] rows nobody holds. *)
Definition picked (now : Z) (limit : nat) (cands : list Operation) : list Operation :=
  take limit (filter (fun op => held now op = false) cands).

Definition keyed (l : list Operation) : list (Z * Operation) :=
  (fun op => (op_operation_id op, op)) <$> l.

Lemma keyed_fst (l : list Operation) : (keyed l).*1 = op_operation_id <$> l.
Proof. unfold keyed. rewrite <- list_fmap_compose. done. Qed.

Lemma take_claim_frame (now lease : Z) (worker_id : pystr) (op : Operation) :
  terms (take_claim now lease worker_id op) = terms op /\
  op_state (take_claim now lease worker_id op) = op_state op /\
  op_fencing_token (take_claim now lease worker_id op) = op_fencing_token op + 1.
Proof. done. Qed.

Lemma picked_ids (now lease : Z) (worker_id : pystr) (limit : nat) (cands : list Operation) :
  op_operation_id <$> (take_claim now lease worker_id <$> picked now limit cands) =
  op_operation_id <$> picked now limit cands.
Proof. rewrite <- list_fmap_compose. done. Qed.

Lemma picked_sublist (now : Z) (limit : nat) (cands : list Operation) :
  sublist (picked now limit cands) cands.
Proof.
  unfold picked. etrans; [apply sublist_take | apply sublist_filter].
Qed.

Lemma plus_timedelta_fits (t d : Z) : representable (t + d) -> plus_timedelta t d = Ok (t + d).
Proof. intros H. unfold plus_timedelta. by rewrite decide_True. Qed.

Lemma plus_timedelta_late (t d : Z) : ~ representable (t + d) -> plus_timedelta t d = Err OverflowError.
Proof. intros H. unfold plus_timedelta. by rewrite decide_False. Qed.

Lemma claim_loop_spec (now lease : Z) (worker_id : pystr) (cands : list Operation) (limit : nat)
    (ops : gmap Z Operation) :
  representable (now + lease) -> NoDup (op_operation_id <$> cands) ->
  claim_loop now lease worker_id limit cands ops =
  (Ok (take_claim now lease worker_id <$> picked now limit cands),
   list_to_map (keyed (take_claim now lease worker_id <$> picked now limit cands)) ∪ ops).
Proof.
  intros Hfit. revert limit ops. induction cands as [|op cands IH]; intros limit ops Hnd.
  - destruct limit; simpl; by rewrite (left_id_L ∅ (∪)).
  - apply NoDup_cons in Hnd as [Hop Hnd]. destruct limit as [|limit].
    { simpl. by rewrite (left_id_L ∅ (∪)). }
    unfold picked. rewrite filter_cons. simpl. destruct (held now op) eqn:Eh; [apply IH, Hnd |].
    rewrite plus_timedelta_fits, IH by done. simpl. f_equal.
    rewrite <- insert_union_r, <- insert_union_l; [done |].
    apply not_elem_of_list_to_map_1. rewrite keyed_fst, picked_ids. intros Hin. apply Hop.
    eapply elem_of_sublist; [exact Hin | apply fmap_sublist, picked_sublist].
Qed.

(** A lease past the calendar stops at the first row, with the claimer written. *)
Lemma claim_loop_late (now lease : Z) (worker_id : pystr) (cands : list Operation) (limit : nat)
    (ops : gmap Z Operation) :
  ~ representable (now + lease) ->
  claim_loop now lease worker_id limit cands ops =
  match picked now limit cands with
  | [] => (Ok [], ops)
  | op :: _ => (Err OverflowError, <[op_operation_id op := set_claimed_by (Some worker_id) op]> ops)
  end.
Proof.
  intros Hlate. revert limit ops. induction cands as [|op cands IH]; intros [|limit] ops; try done.
  unfold picked. rewrite filter_cons. simpl. destruct (held now op) eqn:Eh; [apply IH |].
  by rewrite plus_timedelta_late.
Qed.

(** ** The store invariant *)

(** The history of one operation: an intake event, then writes that chain from
    state to state along the table, each with a token no older than those
    before it, ending in state [s]. *)
Inductive audit_trail : list Event -> OpState -> Prop :=
| trail_intake (e : Event) :
    ev_from_state e = None -> audit_trail [e] (ev_to_state e)
| trail_write (l : list Event) (s : OpState) (e : Event) :
    audit_trail l s -> ev_from_state e = Some s ->
    can_transition s (ev_to_state e) = true -> s ∉ TERMINAL ->
    Forall (fun e' => ev_fencing_token e' <= ev_fencing_token e) l ->
    audit_trail (l ++ [e]) (ev_to_state e).

Record store_wf (st : MemoryStore) : Prop := {
  wf_key : forall id op, ms_ops st !! id = Some op -> op_operation_id op = id;
  wf_arrived : forall id op, ms_ops st !! id = Some op -> is_Some (ms_arrival st !! id);
  wf_arrival : forall id a, ms_arrival st !! id = Some a -> a < ms_order st /\ is_Some (ms_ops st !! id);
  wf_fifo : forall i j a, ms_arrival st !! i = Some a -> ms_arrival st !! j = Some a -> i = j;
  wf_log : forall e, e ∈ ms_events st -> exists op,
    ms_ops st !! ev_operation_id e = Some op /\ ev_fencing_token e <= op_fencing_token op;
  wf_seq : ev_seq <$> ms_events st = seqZ 1 (Z.of_nat (length (ms_events st)));
  wf_next_seq : ms_event_seq st = 1 + Z.of_nat (length (ms_events st))
}.

(** The log tells the history of every row. *)
Definition audited (st : MemoryStore) : Prop :=
  forall id op, ms_ops st !! id = Some op -> audit_trail (events id st) (op_state op).

(** Any store operation, with any arguments. *)
Inductive store_step (st : MemoryStore) : MemoryStore -> Prop :=
| step_insert_new (now : Z) (op : Operation) :
    0 <= op_fencing_token op -> store_step st (snd (insert_new now op st))
| step_claim (wanted : list OpState) (limit : nat) (worker_id : pystr) (lease now : Z) :
    store_step st (snd (claim wanted limit worker_id lease now st))
| step_cas (now id token : Z) (from_state to_state : OpState) (sets : list FieldSet)
    (detail : list (pystr * jval)) (renew : option Z) (worker_id : option pystr) :
    store_step st (snd (cas now id token from_state to_state sets detail renew worker_id st))
| step_release (now id token : Z) : store_step st (release now id token st).

(** The same where every lease a write renews ends within the calendar. *)
Inductive dated_step (st : MemoryStore) : MemoryStore -> Prop :=
| dated_insert_new (now : Z) (op : Operation) :
    0 <= op_fencing_token op -> dated_step st (snd (insert_new now op st))
| dated_claim (wanted : list OpState) (limit : nat) (worker_id : pystr) (lease now : Z) :
    dated_step st (snd (claim wanted limit worker_id lease now st))
| dated_cas (now id token : Z) (from_state to_state : OpState) (sets : list FieldSet)
    (detail : list (pystr * jval)) (renew : option Z) (worker_id : option pystr) :
    (forall lease, renew = Some lease -> representable (now + lease)) ->
    dated_step st (snd (cas now id token from_state to_state sets detail renew worker_id st))
| dated_release (now id token : Z) : dated_step st (release now id token st).

Lemma dated_store_step (st st' : MemoryStore) : dated_step st st' -> store_step st st'.
Proof. intros []; by constructor. Qed.

Lemma candidates_elem (wanted : list OpState) (st : MemoryStore) (op : Operation) :
  op ∈ candidates wanted st <->
  op_state op ∈ wanted /\ exists id, ms_ops st !! id = Some op.
Proof.
  unfold candidates. rewrite merge_sort_Permutation, list_elem_of_filter, list_elem_of_fmap.
  split.
  - intros [Hw [[id op'] [-> Hin]]]. apply elem_of_map_to_list in Hin. eauto.
  - intros [Hw [id Hid]]. split; [done |]. exists (id, op).
    split; [done | by apply elem_of_map_to_list].
Qed.

Lemma candidates_NoDup (wanted : list OpState) (st : MemoryStore) :
  store_wf st -> NoDup (op_operation_id <$> candidates wanted st).
Proof.
  intros Hwf. unfold candidates. rewrite merge_sort_Permutation.
  eapply sublist_NoDup; [| apply fmap_sublist, sublist_filter].
  rewrite <- list_fmap_compose.
  assert ((op_operation_id ∘ snd) <$> map_to_list (ms_ops st) = (map_to_list (ms_ops st)).*1) as ->.
  { apply list_fmap_ext. intros i [id op] Hi. apply list_elem_of_lookup_2, elem_of_map_to_list in Hi.
    apply (wf_key _ Hwf _ _ Hi). }
  apply NoDup_fst_map_to_list.
Qed.

(** What [claim] returns and leaves behind, in closed form. *)
Lemma claim_cases (wanted : list OpState) (limit : nat) (worker_id : pystr) (lease now : Z)
    (st : MemoryStore) :
  store_wf st ->
  let rows := picked now limit (candidates wanted st) in
  let out := take_claim now lease worker_id <$> rows in
  let with_ops ops := mkStore ops (ms_events st) (ms_order st) (ms_arrival st) (ms_event_seq st) in
  claim wanted limit worker_id lease now st =
    (Ok out, with_ops (list_to_map (keyed out) ∪ ms_ops st)) /\ (representable (now + lease) \/ rows = []) \/
  exists op rest, ~ representable (now + lease) /\ rows = op :: rest /\
    claim wanted limit worker_id lease now st =
    (Err OverflowError, with_ops (<[op_operation_id op := set_claimed_by (Some worker_id) op]> (ms_ops st))).
Proof.
  intros Hwf rows out with_ops. unfold claim. destruct (decide (representable (now + lease))) as [Hfit | Hlate].
  - left. rewrite claim_loop_spec by (done || by apply candidates_NoDup). auto.
  - rewrite claim_loop_late by done. fold rows. unfold out. destruct rows as [|op rest]; [left | right; by exists op, rest].
    split; [| by right]. cbn. by rewrite (left_id_L ∅ (∪)).
Qed.

Lemma claim_fits (wanted : list OpState) (limit : nat) (worker_id : pystr) (lease now : Z) (st : MemoryStore) :
  store_wf st -> representable (now + lease) ->
  fst (claim wanted limit worker_id lease now st) =
  Ok (take_claim now lease worker_id <$> picked now limit (candidates wanted st)).
Proof.
  intros Hwf Hfit. destruct (claim_cases wanted limit worker_id lease now st Hwf) as [[-> _] | (? & ? & ? & _)]; done.
Qed.

Lemma claim_taken (wanted : list OpState) (limit : nat) (worker_id : pystr) (lease now : Z)
    (st : MemoryStore) (out : list Operation) :
  store_wf st -> fst (claim wanted limit worker_id lease now st) = Ok out ->
  out = take_claim now lease worker_id <$> picked now limit (candidates wanted st) /\
  snd (claim wanted limit worker_id lease now st) =
  mkStore (list_to_map (keyed out) ∪ ms_ops st) (ms_events st) (ms_order st) (ms_arrival st) (ms_event_seq st).
Proof.
  intros Hwf. destruct (claim_cases wanted limit worker_id lease now st Hwf) as [[-> _] | (? & ? & _ & _ & ->)]; [| done].
  cbn [fst snd]. by intros [= <-].
Qed.

Lemma claim_out (wanted : list OpState) (limit : nat) (worker_id : pystr) (lease now : Z)
    (st : MemoryStore) (out : list Operation) (row : Operation) :
  store_wf st -> fst (claim wanted limit worker_id lease now st) = Ok out -> row ∈ out -> exists op,
  row = take_claim now lease worker_id op /\ ms_ops st !! op_operation_id op = Some op /\
  op_state op ∈ wanted /\ held now op = false /\
  ms_ops (snd (claim wanted limit worker_id lease now st)) !! op_operation_id op = Some row.
Proof.
  intros Hwf Hout. destruct (claim_taken _ _ _ _ _ _ _ Hwf Hout) as [-> ->]. simpl. intros Hrow.
  pose proof Hrow as (op & -> & Hop)%list_elem_of_fmap.
  exists op. split; [done |]. pose proof (elem_of_sublist _ _ _ Hop (picked_sublist _ _ _)) as Hc.
  apply candidates_elem in Hc as [Hw [id Hid]]. pose proof (wf_key _ Hwf _ _ Hid) as <-.
  split_and!; [done | done | |].
  - unfold picked in Hop. pose proof (elem_of_sublist _ _ _ Hop (sublist_take _ _)) as Hf.
    by apply list_elem_of_filter in Hf as [Hf _].
  - apply lookup_union_Some_l, elem_of_list_to_map.
    + rewrite keyed_fst, picked_ids. eapply sublist_NoDup; [apply candidates_NoDup, Hwf |].
      apply fmap_sublist, picked_sublist.
    + unfold keyed. apply list_elem_of_fmap. by exists (take_claim now lease worker_id op).
Qed.

Lemma claim_NoDup (wanted : list OpState) (limit : nat) (worker_id : pystr) (lease now : Z)
    (st : MemoryStore) (out : list Operation) :
  store_wf st -> fst (claim wanted limit worker_id lease now st) = Ok out -> NoDup (op_operation_id <$> out).
Proof.
  intros Hwf [-> _]%claim_taken; [| done]. rewrite picked_ids.
  eapply sublist_NoDup; [apply candidates_NoDup, Hwf | apply fmap_sublist, picked_sublist].
Qed.

Lemma picked_elem (wanted : list OpState) (limit : nat) (now : Z) (st : MemoryStore) (op : Operation) :
  store_wf st -> op ∈ picked now limit (candidates wanted st) ->
  ms_ops st !! op_operation_id op = Some op /\ op_state op ∈ wanted /\ held now op = false.
Proof.
  intros Hwf Hop. pose proof (elem_of_sublist _ _ _ Hop (picked_sublist _ _ _)) as [Hw [k Hk]]%candidates_elem.
  pose proof (elem_of_sublist _ _ _ Hop (sublist_take _ _)) as [Hh _]%list_elem_of_filter.
  by rewrite (wf_key _ Hwf _ _ Hk).
Qed.

(** A claim that failed wrote the claimer into one eligible row and nothing else. *)
Lemma claim_late (wanted : list OpState) (limit : nat) (worker_id : pystr) (lease now : Z)
    (st : MemoryStore) (e : exn) :
  store_wf st -> fst (claim wanted limit worker_id lease now st) = Err e ->
  e = OverflowError /\ ~ representable (now + lease) /\ exists op rest,
  picked now limit (candidates wanted st) = op :: rest /\
  snd (claim wanted limit worker_id lease now st) =
  mkStore (<[op_operation_id op := set_claimed_by (Some worker_id) op]> (ms_ops st))
    (ms_events st) (ms_order st) (ms_arrival st) (ms_event_seq st).
Proof.
  intros Hwf. destruct (claim_cases wanted limit worker_id lease now st Hwf) as [[-> _] | (op & rest & Hl & Hp & ->)]; [done |].
  cbn [fst snd]. intros [= <-]. split_and!; [done | done |]. by exists op, rest.
Qed.

Lemma claim_row (wanted : list OpState) (limit : nat) (worker_id : pystr) (lease now : Z)
    (st : MemoryStore) (id : Z) :
  store_wf st ->
  let '(r, st') := claim wanted limit worker_id lease now st in
  ms_ops st' !! id = ms_ops st !! id \/
  exists op, ms_ops st !! id = Some op /\ op_state op ∈ wanted /\ held now op = false /\
  ((exists out, r = Ok out /\ ms_ops st' !! id = Some (take_claim now lease worker_id op) /\
    take_claim now lease worker_id op ∈ out) \/
   (r = Err OverflowError /\ ~ representable (now + lease) /\
    ms_ops st' !! id = Some (set_claimed_by (Some worker_id) op))).
Proof.
  intros Hwf. pose proof (claim_out wanted limit worker_id lease now st) as Hout.
  pose proof (claim_taken wanted limit worker_id lease now st) as Hok.
  pose proof (claim_late wanted limit worker_id lease now st) as Herr. revert Hout Hok Herr.
  destruct (claim wanted limit worker_id lease now st) as [[out | e] st']; cbn [fst snd]; intros Hout Hok Herr.
  - destruct (Hok out Hwf eq_refl) as [_ ->]. cbn in *. rewrite lookup_union in *.
    destruct (list_to_map (keyed out) !! id) as [row |] eqn:E;
      [right | left; apply (left_id_L None (∪))].
    apply elem_of_list_to_map_2 in E. apply list_elem_of_fmap in E as (row' & [= -> <-] & Hrow).
    destruct (Hout out row Hwf eq_refl Hrow) as (op & -> & H1 & H2 & H3 & H4).
    exists op. split_and!; try done. left. exists out. by rewrite union_Some_l.
  - destruct (Herr e Hwf eq_refl) as (-> & Hl & op & rest & Hp & ->). cbn.
    assert (op ∈ picked now limit (candidates wanted st)) as Hop by (rewrite Hp; left).
    destruct (picked_elem _ _ _ _ _ Hwf Hop) as (H1 & H2 & H3).
    destruct (decide (op_operation_id op = id)) as [<- |];
      [rewrite lookup_insert_eq; right; exists op; eauto 10 | left; by apply lookup_insert_ne].
Qed.

(** [cas] refuses and changes nothing, or writes one row and one event, or, when
    the lease it renews would end past the calendar, half of the row. *)
Lemma cas_cases (now id token : Z) (from_state to_state : OpState) (sets : list FieldSet)
    (detail : list (pystr * jval)) (renew : option Z) (worker_id : option pystr)
    (st : MemoryStore) :
  let '(r, st') := cas now id token from_state to_state sets detail renew worker_id st in
  let write row := mkStore (<[id := row]> (ms_ops st)) (ms_events st) (ms_order st)
                           (ms_arrival st) (ms_event_seq st) in
  (st' = st /\ (forall row, r <> Ok (Some row)) /\ r <> Err OverflowError) \/
  (exists op,
    ms_ops st !! id = Some op /\ op_fencing_token op = token /\ op_state op = from_state /\
    (from_state ∉ TERMINAL) /\ can_transition from_state to_state = true /\
    (let row := cas_row now to_state sets renew op in
     (forall lease, renew = Some lease -> representable (now + lease)) /\ r = Ok (Some row) /\
     st' = append_event now id (Some from_state) to_state worker_id token detail (write row) \/
     exists lease, renew = Some lease /\ ~ representable (now + lease) /\ r = Err OverflowError /\
     st' = write (cas_half now to_state sets op))).
Proof.
  unfold cas. destruct (forallb _ _); simpl; [| by left].
  destruct (can_transition _ _) eqn:Ec; simpl; [| by left].
  destruct (ms_ops st !! id) as [op |] eqn:E; [| by left].
  destruct (Z.eqb_spec (op_fencing_token op) token) as [Et |]; simpl; [| by left].
  destruct (bool_decide_reflect (op_state op = from_state)) as [Es |]; simpl; [| by left].
  destruct (bool_decide_reflect (op_state op ∈ TERMINAL)); [by left |].
  destruct (renewed_lease now renew) as [l | e] eqn:El; unfold renewed_lease, plus_timedelta in El;
    (right; exists op; split_and!; [done | done | done | by subst | done |]).
  - left. split; [| done]. intros lease ->. by destruct (decide _).
  - right. destruct renew as [lease |]; [| done]. exists lease. destruct (decide _); [done |].
    by injection El as <-.
Qed.

Lemma cas_half_frame (now : Z) (to_state : OpState) (sets : list FieldSet) (op : Operation) :
  terms (cas_half now to_state sets op) = terms op /\
  op_state (cas_half now to_state sets op) = to_state /\
  op_fencing_token (cas_half now to_state sets op) = op_fencing_token op.
Proof.
  destruct (setattrs_frame sets op) as (Ht & _ & Hf & _). unfold cas_half, terms in *. simpl. auto.
Qed.

Lemma cas_row_frame (now : Z) (to_state : OpState) (sets : list FieldSet) (renew : option Z)
    (op : Operation) :
  terms (cas_row now to_state sets renew op) = terms op /\
  op_state (cas_row now to_state sets renew op) = to_state /\
  op_fencing_token (cas_row now to_state sets renew op) = op_fencing_token op.
Proof.
  destruct (cas_half_frame now to_state sets op) as (Ht & Hs & Hf). unfold cas_row, terms in *.
  destruct renew; case_bool_decide; simpl; auto.
Qed.

Lemma terms_id (op op' : Operation) : terms op = terms op' -> op_operation_id op = op_operation_id op'.
Proof. by intros [=]. Qed.

Lemma cas_row_id (now : Z) (to_state : OpState) (sets : list FieldSet) (renew : option Z) (op : Operation) :
  op_operation_id (cas_row now to_state sets renew op) = op_operation_id op.
Proof. apply terms_id, cas_row_frame. Qed.

Lemma events_append (now id id' token : Z) (from_state : option OpState) (to_state : OpState)
    (worker_id : option pystr) (detail : list (pystr * jval)) (st : MemoryStore) :
  events id' (append_event now id from_state to_state worker_id token detail st) =
  events id' st ++
  (if decide (id = id')
   then [mkEvent id from_state to_state worker_id token detail now (ms_event_seq st)] else []).
Proof.
  unfold events, append_event. simpl. rewrite filter_app, filter_cons, filter_nil. simpl.
  by destruct (decide (id = id')).
Qed.

(** Two row tables of the same operations, tokens not lowered. *)
Definition same_rows (ops ops' : gmap Z Operation) : Prop :=
  forall id, match ops !! id, ops' !! id with
             | Some op, Some op' => terms op' = terms op /\ op_fencing_token op <= op_fencing_token op'
             | None, None => True
             | _, _ => False
             end.

Lemma wf_same_rows (st : MemoryStore) (ops : gmap Z Operation) :
  store_wf st -> same_rows (ms_ops st) ops ->
  store_wf (mkStore ops (ms_events st) (ms_order st) (ms_arrival st) (ms_event_seq st)).
Proof.
  intros Hwf Hs. split; simpl; try apply Hwf.
  - intros id op' Hid. specialize (Hs id). rewrite Hid in Hs.
    destruct (ms_ops st !! id) as [op |] eqn:E; [| done]. destruct Hs as [->%terms_id _].
    by apply (wf_key _ Hwf).
  - intros id op' Hid. specialize (Hs id). rewrite Hid in Hs.
    destruct (ms_ops st !! id) as [op |] eqn:E; [| done]. by apply (wf_arrived _ Hwf _ _ E).
  - intros id a Ha. destruct (wf_arrival _ Hwf _ _ Ha) as [Hlt [op Hop]]. split; [done |].
    specialize (Hs id). rewrite Hop in Hs. by destruct (ops !! id); [eexists | done].
  - intros e He. destruct (wf_log _ Hwf _ He) as (op & Hop & Hle). specialize (Hs (ev_operation_id e)).
    rewrite Hop in Hs. destruct (ops !! _) as [op' |]; [| done]. exists op'. split; [done | lia].
Qed.

Lemma same_rows_refl (ops : gmap Z Operation) : same_rows ops ops.
Proof. intros i. destruct (ops !! i); [split; done || lia | done]. Qed.

Lemma same_rows_insert (ops : gmap Z Operation) (id : Z) (op row : Operation) :
  ops !! id = Some op -> terms row = terms op ->
  op_fencing_token op <= op_fencing_token row -> same_rows ops (<[id := row]> ops).
Proof.
  intros Hid H1 H3 i. destruct (decide (i = id)) as [-> | Hne].
  - rewrite lookup_insert_eq, Hid. done.
  - rewrite lookup_insert_ne by done. apply same_rows_refl.
Qed.

(** The states behind the same log. *)
Lemma audited_same_states (st : MemoryStore) (ops : gmap Z Operation) :
  audited st ->
  (forall id op', ops !! id = Some op' -> exists op, ms_ops st !! id = Some op /\ op_state op' = op_state op) ->
  audited (mkStore ops (ms_events st) (ms_order st) (ms_arrival st) (ms_event_seq st)).
Proof. intros Ha Hs id op' Hop'. destruct (Hs id op' Hop') as (op & Hop & ->). exact (Ha id op Hop). Qed.

Lemma release_row (now id token i : Z) (st : MemoryStore) :
  ms_ops (release now id token st) !! i = ms_ops st !! i \/
  exists op, i = id /\ ms_ops st !! id = Some op /\ op_fencing_token op = token /\
  ms_ops (release now id token st) !! i =
    Some (set_updated_at (Some now) (set_lease_expires_at None (set_claimed_by None op))).
Proof.
  unfold release. destruct (ms_ops st !! id) as [op |] eqn:E; [| by left].
  destruct (Z.eqb_spec (op_fencing_token op) token); [| by left]. simpl.
  destruct (decide (i = id)) as [-> |]; [right; exists op; by rewrite lookup_insert_eq | left; by apply lookup_insert_ne].
Qed.

Lemma release_rows (now id token : Z) (st : MemoryStore) :
  same_rows (ms_ops st) (ms_ops (release now id token st)).
Proof.
  intros i. destruct (release_row now id token i st) as [-> | (op & -> & Hop & _ & ->)]; [apply same_rows_refl |].
  rewrite Hop. split; [done | simpl; lia].
Qed.

Lemma claim_rows (wanted : list OpState) (limit : nat) (worker_id : pystr) (lease now : Z)
    (st : MemoryStore) :
  store_wf st -> same_rows (ms_ops st) (ms_ops (snd (claim wanted limit worker_id lease now st))).
Proof.
  intros Hwf id. pose proof (claim_row wanted limit worker_id lease now st id Hwf) as H.
  destruct (claim _ _ _ _ _ _) as [r st']. simpl.
  destruct H as [-> | (op & -> & _ & _ & [(out & _ & -> & _) | (_ & _ & ->)])];
    [apply same_rows_refl | split; [done | simpl; lia]..].
Qed.

Lemma claim_store (wanted : list OpState) (limit : nat) (worker_id : pystr) (lease now : Z)
    (st : MemoryStore) :
  let st' := snd (claim wanted limit worker_id lease now st) in
  st' = mkStore (ms_ops st') (ms_events st) (ms_order st) (ms_arrival st) (ms_event_seq st).
Proof. unfold claim. by destruct (claim_loop _ _ _ _ _ _). Qed.

Lemma release_store (now id token : Z) (st : MemoryStore) :
  let st' := release now id token st in
  st' = mkStore (ms_ops st') (ms_events st) (ms_order st) (ms_arrival st) (ms_event_seq st).
Proof.
  unfold release. destruct (ms_ops st !! id) as [op |]; [| by destruct st].
  destruct (negb _); by destruct st.
Qed.

Lemma append_event_seqs (now id token : Z) (from_state : option OpState) (to_state : OpState)
    (worker_id : option pystr) (detail : list (pystr * jval)) (st : MemoryStore) :
  let st' := append_event now id from_state to_state worker_id token detail st in
  ev_seq <$> ms_events st = seqZ 1 (Z.of_nat (length (ms_events st))) ->
  ms_event_seq st = 1 + Z.of_nat (length (ms_events st)) ->
  ev_seq <$> ms_events st' = seqZ 1 (Z.of_nat (length (ms_events st'))) /\
  ms_event_seq st' = 1 + Z.of_nat (length (ms_events st')).
Proof.
  simpl. intros H1 H2. rewrite length_app. simpl. split; [| lia].
  rewrite fmap_app, H1. simpl. rewrite H2.
  replace (Z.of_nat (length (ms_events st) + 1)) with (Z.of_nat (length (ms_events st)) + 1) by lia.
  by rewrite seqZ_app by lia.
Qed.

Lemma events_fresh (st : MemoryStore) (id : Z) :
  store_wf st -> ms_ops st !! id = None -> events id st = [].
Proof.
  intros Hwf Hid. destruct (events id st) as [|e l] eqn:E; [done | exfalso].
  assert (e ∈ events id st) as He by (rewrite E; apply list_elem_of_here).
  unfold events in He. apply list_elem_of_filter in He as [<- He].
  destruct (wf_log _ Hwf _ He) as (op & Hop & _). congruence.
Qed.

Lemma insert_new_wf (now : Z) (op : Operation) (st : MemoryStore) :
  0 <= op_fencing_token op -> store_wf st -> store_wf (snd (insert_new now op st)).
Proof.
  intros H0 Hwf. unfold insert_new. destruct (ms_ops st !! op_operation_id op) eqn:E; [done |].
  set (id := op_operation_id op) in *.
  assert (ms_arrival st !! id = None) as Ha.
  { destruct (ms_arrival st !! id) eqn:Ea; [| done].
    apply (wf_arrival _ Hwf) in Ea as [_ [? ?]]. congruence. }
  cbn [snd]. set (st1 := mkStore _ _ _ _ _).
  destruct (append_event_seqs now id 0 None (op_state op) None [(str "intake", JBool true)] st1
              (wf_seq _ Hwf) (wf_next_seq _ Hwf)) as [Hs1 Hs2].
  split; try done; simpl.
  - intros i o. rewrite lookup_insert_Some. intros [[<- <-] | [_ H]]; [done | by apply (wf_key _ Hwf)].
  - intros i o. rewrite lookup_insert_Some. intros [[<- _] | [Hne H]].
    + rewrite lookup_insert_eq. by eexists.
    + rewrite lookup_insert_ne by done. by apply (wf_arrived _ Hwf _ _ H).
  - intros i a. rewrite lookup_insert_Some. intros [[<- <-] | [Hne H]].
    + rewrite lookup_insert_eq. split; [lia | by eexists].
    + rewrite lookup_insert_ne by done. apply (wf_arrival _ Hwf) in H as [? ?]. split; [lia | done].
  - intros i j a. rewrite !lookup_insert_Some.
    intros [[<- <-] | [_ Hi]] [[<- Hj] | [_ Hj]]; try done.
    + apply (wf_arrival _ Hwf) in Hj. lia.
    + apply (wf_arrival _ Hwf) in Hi. lia.
    + by apply (wf_fifo _ Hwf _ _ _ Hi).
  - intros e. rewrite elem_of_app, list_elem_of_singleton. intros [He | ->].
    + destruct (wf_log _ Hwf _ He) as (o & Ho & Hle). exists o. split; [| done].
      rewrite lookup_insert_ne; congruence.
    + simpl. rewrite lookup_insert_eq. eexists. split; [done | simpl; lia].
Qed.

Lemma insert_new_audited (now : Z) (op : Operation) (st : MemoryStore) :
  store_wf st -> audited st -> audited (snd (insert_new now op st)).
Proof.
  intros Hwf Ha. unfold insert_new. destruct (ms_ops st !! op_operation_id op) eqn:E; [done |].
  cbn [snd]. set (st1 := mkStore _ _ _ _ _). intros i o. rewrite events_append. simpl. rewrite lookup_insert_Some.
  assert (forall j, events j st1 = events j st) as -> by done.
  intros [[<- <-] | [Hne H]].
  - rewrite events_fresh, decide_True by done. by apply (trail_intake (mkEvent _ _ _ _ _ _ _ _)).
  - rewrite decide_False, app_nil_r by done. by apply Ha.
Qed.

Lemma cas_wf (now id token : Z) (from_state to_state : OpState) (sets : list FieldSet)
    (detail : list (pystr * jval)) (renew : option Z) (worker_id : option pystr) (st : MemoryStore) :
  store_wf st ->
  store_wf (snd (cas now id token from_state to_state sets detail renew worker_id st)).
Proof.
  intros Hwf.
  pose proof (cas_cases now id token from_state to_state sets detail renew worker_id st) as H.
  destruct (cas _ _ _ _ _ _ _ _ _ _) as [r st']. simpl.
  destruct H as [(-> & _) | (op & Hid & Ht & Hf & Hterm & Hc & H)]; [done |].
  destruct H as [(_ & _ & ->) | (lease & _ & _ & _ & ->)].
  2:{ destruct (cas_half_frame now to_state sets op) as (Hrt & _ & Hrf).
      apply wf_same_rows, (same_rows_insert _ _ op); try done. lia. }
  destruct (cas_row_frame now to_state sets renew op) as (Hrt & _ & Hrf).
  set (row := cas_row _ _ _ _ _) in *. set (st1 := mkStore _ _ _ _ _).
  assert (store_wf st1) as Hwf1 by (apply wf_same_rows, (same_rows_insert _ _ op); try done; lia).
  destruct (append_event_seqs now id token (Some from_state) to_state worker_id detail st1
              (wf_seq _ Hwf1) (wf_next_seq _ Hwf1)) as [Hs1 Hs2].
  split; try apply Hwf1; try done.
  intros e. simpl. rewrite elem_of_app, list_elem_of_singleton. intros [He | ->].
  - exact (wf_log _ Hwf1 e He).
  - simpl. rewrite lookup_insert_eq. exists row. split; [done | lia].
Qed.

Lemma cas_audited (now id token : Z) (from_state to_state : OpState) (sets : list FieldSet)
    (detail : list (pystr * jval)) (renew : option Z) (worker_id : option pystr) (st : MemoryStore) :
  store_wf st -> audited st -> (forall lease, renew = Some lease -> representable (now + lease)) ->
  audited (snd (cas now id token from_state to_state sets detail renew worker_id st)).
Proof.
  intros Hwf Ha Hfit.
  pose proof (cas_cases now id token from_state to_state sets detail renew worker_id st) as H.
  destruct (cas _ _ _ _ _ _ _ _ _ _) as [r st']. simpl.
  destruct H as [(-> & _) | (op & Hid & Ht & Hf & Hterm & Hc & H)]; [done |].
  destruct H as [(_ & _ & ->) | (lease & E & Hl & _)]; [| by destruct (Hl (Hfit _ E))].
  destruct (cas_row_frame now to_state sets renew op) as (_ & Hrs & _).
  set (row := cas_row _ _ _ _ _) in *. set (st1 := mkStore _ _ _ _ _).
  intros i o. rewrite events_append. simpl. rewrite lookup_insert_Some.
  assert (forall j, events j st1 = events j st) as -> by done.
  intros [[<- <-] | [Hne H]].
  - rewrite decide_True, Hrs by done.
    apply (trail_write (events id st) from_state (mkEvent _ _ _ _ _ _ _ _)); try done.
    + rewrite <- Hf. by apply Ha.
    + apply Forall_forall. intros e. unfold events. rewrite list_elem_of_filter. intros [<- He].
      destruct (wf_log _ Hwf _ He) as (o & Ho & Hle). simpl. congruence.
  - rewrite decide_False, app_nil_r by done. by apply Ha.
Qed.

Lemma store_step_wf (st st' : MemoryStore) : store_step st st' -> store_wf st -> store_wf st'.
Proof.
  intros [now op H0 | wanted limit worker_id lease now | now id token f t sets detail renew w
         | now id token] Hwf.
  - by apply insert_new_wf.
  - rewrite claim_store. by apply wf_same_rows, claim_rows.
  - by apply cas_wf.
  - rewrite release_store. apply wf_same_rows, release_rows. done.
Qed.

Lemma dated_step_audited (st st' : MemoryStore) :
  dated_step st st' -> store_wf st -> audited st -> audited st'.
Proof.
  intros [now op H0 | wanted limit worker_id lease now | now id token f t sets detail renew w Hfit
         | now id token] Hwf Ha.
  - by apply insert_new_audited.
  - rewrite claim_store. apply audited_same_states; [done |]. intros id op' Hop'.
    pose proof (claim_row wanted limit worker_id lease now st id Hwf) as H.
    destruct (claim _ _ _ _ _ _) as [r st1]. cbn [snd] in *.
    destruct H as [E | (op & Hop & _ & _ & [(out & _ & E & _) | (_ & _ & E)])]; rewrite Hop' in E;
      [by exists op' | injection E as ->; by exists op..].
  - by apply cas_audited.
  - rewrite release_store. apply audited_same_states; [done |]. intros i op' Hop'.
    destruct (release_row now id token i st) as [E | (op & -> & Hop & _ & E)]; rewrite Hop' in E;
      [by exists op' | injection E as ->; by exists op].
Qed.

Lemma empty_store_wf : store_wf empty_store.
Proof.
  split; simpl; try done; intros; try (by rewrite lookup_empty in *); by apply elem_of_nil in H.
Qed.

Lemma empty_store_audited : audited empty_store.
Proof. intros id op Hop. cbn in Hop. by rewrite lookup_empty in Hop. Qed.

Lemma store_steps_wf (st st' : MemoryStore) : rtc store_step st st' -> store_wf st -> store_wf st'.
Proof. induction 1; eauto using store_step_wf. Qed.

Lemma dated_steps_audited (st st' : MemoryStore) :
  rtc dated_step st st' -> store_wf st -> audited st -> audited st'.
Proof. induction 1; eauto using dated_step_audited, store_step_wf, dated_store_step. Qed.

(** ** How one row evolves *)

(** The outcome columns of a row. *)
Definition outcome (op : Operation) : option jval * option pystr * option jval * Z *
    option pystr * option pystr * option Z * option Z * option Z :=
  (op_unsigned_tx op, op_txid op, op_signed_tx op, op_attempts op, op_last_error op,
   op_failure_reason op, op_broadcast_at op, op_included_block op, op_confirmed_at op).

Definition evolves (op op' : Operation) : Prop :=
  terms op' = terms op /\ op_fencing_token op <= op_fencing_token op' /\
  (op_state op ∈ TERMINAL -> op_state op' = op_state op /\ outcome op' = outcome op).

#[export] Instance evolves_preorder : PreOrder evolves.
Proof.
  split.
  - intros op. split_and!; [done | lia | done].
  - intros a b c (H1 & H2 & H3) (H4 & H5 & H6). split_and!; [congruence | lia |].
    intros Ha. destruct (H3 Ha) as [E1 E2]. rewrite <- E1 in Ha. destruct (H6 Ha). split; congruence.
Qed.

Lemma cas_row_evolves (now : Z) (to_state : OpState) (sets : list FieldSet) (renew : option Z)
    (op : Operation) :
  op_state op ∉ TERMINAL -> evolves op (cas_row now to_state sets renew op).
Proof.
  intros Ht. destruct (cas_row_frame now to_state sets renew op) as (H1 & _ & H3).
  split_and!; [done | lia | done].
Qed.

Lemma cas_half_evolves (now : Z) (to_state : OpState) (sets : list FieldSet) (op : Operation) :
  op_state op ∉ TERMINAL -> evolves op (cas_half now to_state sets op).
Proof.
  intros Ht. destruct (cas_half_frame now to_state sets op) as (H1 & _ & H3).
  split_and!; [done | lia | done].
Qed.

Lemma store_step_row (st st' : MemoryStore) (id : Z) (op : Operation) :
  store_wf st -> store_step st st' -> ms_ops st !! id = Some op ->
  exists op', ms_ops st' !! id = Some op' /\ evolves op op'.
Proof.
  intros Hwf Hstep Hid.
  destruct Hstep as [now op0 H0 | wanted limit worker_id lease now | now k token f t sets detail renew w
         | now k token].
  - exists op. split; [| done]. unfold insert_new.
    destruct (ms_ops st !! op_operation_id op0) eqn:E; [done |]. simpl.
    rewrite lookup_insert_ne; congruence.
  - pose proof (claim_row wanted limit worker_id lease now st id Hwf) as H.
    destruct (claim _ _ _ _ _ _) as [r st']. simpl.
    destruct H as [-> | (op' & Hop' & _ & _ & [(out & _ & -> & _) | (_ & _ & ->)])]; [by exists op | |];
      assert (op' = op) as -> by congruence; eexists; (split; [done | split_and!; [done | simpl; lia | done]]).
  - pose proof (cas_cases now k token f t sets detail renew w st) as H.
    destruct (cas _ _ _ _ _ _ _ _ _ _) as [r st']. simpl.
    destruct H as [(-> & _) | (o & Ho & _ & Hf & Hterm & _ & H)]; [by exists op |].
    destruct (decide (k = id)) as [-> |].
    + assert (o = op) as -> by congruence.
      destruct H as [(_ & _ & ->) | (lease & _ & _ & _ & ->)]; simpl; rewrite lookup_insert_eq; eexists;
        (split; [done |]); [apply cas_row_evolves | apply cas_half_evolves]; by rewrite Hf.
    + destruct H as [(_ & _ & ->) | (lease & _ & _ & _ & ->)]; simpl; rewrite lookup_insert_ne by done; by exists op.
  - destruct (release_row now k token id st) as [-> | (o & -> & Ho & _ & ->)]; [by exists op |].
    assert (o = op) as -> by congruence. eexists. split; [done |]. split_and!; [done | simpl; lia | done].
Qed.

Lemma store_steps_row (st st' : MemoryStore) (id : Z) (op : Operation) :
  store_wf st -> rtc store_step st st' -> ms_ops st !! id = Some op ->
  exists op', ms_ops st' !! id = Some op' /\ evolves op op'.
Proof.
  intros Hwf Hsteps. revert op. induction Hsteps as [st | st st1 st' Hs Hss IH]; intros op Hid;
    [by exists op |].
  destruct (store_step_row _ _ _ _ Hwf Hs Hid) as (op1 & Hid1 & He1).
  destruct (IH (store_step_wf _ _ Hs Hwf) op1 Hid1) as (op' & Hid' & He'). exists op'.
  split; [done | by etrans].
Qed.

(** A write or a release with a token that is not the row's changes nothing. *)
Lemma stale_token_noop (now id token : Z) (from_state to_state : OpState) (sets : list FieldSet)
    (detail : list (pystr * jval)) (renew : option Z) (worker_id : option pystr)
    (st : MemoryStore) (op : Operation) :
  ms_ops st !! id = Some op -> op_fencing_token op <> token ->
  (let '(r, st') := cas now id token from_state to_state sets detail renew worker_id st in
   st' = st /\ forall row, r <> Ok (Some row)) /\
  release now id token st = st.
Proof.
  intros Hid Ht. split.
  - pose proof (cas_cases now id token from_state to_state sets detail renew worker_id st) as H.
    destruct (cas _ _ _ _ _ _ _ _ _ _) as [r st'].
    destruct H as [(H1 & H2 & _) | (o & Ho & Hto & _)]; [done | congruence].
  - unfold release. rewrite Hid. destruct (Z.eqb_spec (op_fencing_token op) token); done.
Qed.

#[export] Instance arrival_le_total (st : MemoryStore) : Total (arrival_le st).
Proof. intros a b. unfold arrival_le. lia. Qed.

#[export] Instance arrival_le_trans (st : MemoryStore) : Transitive (arrival_le st).
Proof. intros a b c. unfold arrival_le. lia. Qed.

Lemma StronglySorted_app_le {A : Type} (R : A -> A -> Prop) (l1 l2 : list A) (a b : A) :
  StronglySorted R (l1 ++ l2) -> a ∈ l1 -> b ∈ l2 -> R a b.
Proof.
  induction l1 as [|x l1 IH]; intros Hs Ha Hb; [by apply elem_of_nil in Ha |].
  apply StronglySorted_inv in Hs as [Hs Hx]. apply elem_of_cons in Ha as [-> | Ha]; [| by apply IH].
  rewrite Forall_forall in Hx. apply Hx, elem_of_app. by right.
Qed.

Lemma StronglySorted_filter {A : Type} (R : A -> A -> Prop) (P : A -> Prop) `{!forall x, Decision (P x)}
    (l : list A) : StronglySorted R l -> StronglySorted R (filter P l).
Proof.
  induction 1 as [|x l Hs IH Hx]; [constructor |]. rewrite filter_cons.
  destruct (decide (P x)); [| done]. constructor; [done |].
  rewrite Forall_forall in *. intros y [_ Hy]%list_elem_of_filter. auto.
Qed.

(** First come, first served: an eligible row left behind arrived later than
    every row taken, and the batch was full. *)
Lemma picked_fifo (wanted : list OpState) (limit : nat) (now : Z) (st : MemoryStore) (op : Operation) :
  op ∈ candidates wanted st -> held now op = false ->
  op ∈ picked now limit (candidates wanted st) \/
  (length (picked now limit (candidates wanted st)) = limit /\
   forall o, o ∈ picked now limit (candidates wanted st) -> arrival_le st o op).
Proof.
  intros Hc Hh. unfold picked. set (l := filter _ _).
  assert (op ∈ l) as Hl by (apply list_elem_of_filter; done).
  rewrite <- (take_drop limit l) in Hl. apply elem_of_app in Hl as [Hl | Hl]; [by left | right].
  split.
  - apply length_take_le. destruct (decide (limit <= length l)%nat); [done |].
    rewrite drop_ge in Hl by lia. by apply elem_of_nil in Hl.
  - intros o Ho. eapply (StronglySorted_app_le _ (take limit l) (drop limit l)); [| done..].
    rewrite take_drop. apply StronglySorted_filter, StronglySorted_merge_sort; apply _.
Qed.

Lemma picked_row (wanted : list OpState) (limit : nat) (now : Z) (st : MemoryStore) (o : Operation) :
  store_wf st -> o ∈ picked now limit (candidates wanted st) ->
  ms_ops st !! op_operation_id o = Some o.
Proof. intros Hwf Ho. by apply (picked_elem wanted limit now). Qed.

(** The first row taken arrived first. *)
Lemma picked_head (wanted : list OpState) (limit : nat) (now : Z) (st : MemoryStore) (op : Operation)
    (rest : list Operation) (o : Operation) :
  picked now limit (candidates wanted st) = op :: rest ->
  o ∈ candidates wanted st -> held now o = false -> arrival_le st op o.
Proof.
  intros Hp Hc Hh. destruct (picked_fifo wanted limit now st o Hc Hh) as [Ho | [_ Ho]].
  2:{ apply Ho. rewrite Hp. left. }
  rewrite Hp in Ho. apply elem_of_cons in Ho as [-> | Ho]; [unfold arrival_le; lia |].
  assert (StronglySorted (arrival_le st) (filter (fun op => held now op = false) (candidates wanted st))) as Hs
    by (apply StronglySorted_filter, StronglySorted_merge_sort; apply _).
  rewrite <- (take_drop limit (filter _ _)) in Hs. unfold picked in Hp. rewrite Hp in Hs.
  eapply (StronglySorted_app_le _ [op] (rest ++ drop limit _)); [exact Hs | left |].
  apply elem_of_app. by left.
Qed.

Lemma picked_row_inj (wanted : list OpState) (limit : nat) (now : Z) (st : MemoryStore)
    (op o : Operation) (id : Z) :
  store_wf st -> ms_ops st !! id = Some op -> o ∈ picked now limit (candidates wanted st) ->
  op_operation_id o = op_operation_id op -> o = op.
Proof.
  intros Hwf Hid Ho Eid. apply picked_row in Ho; [| done].
  rewrite Eid, (wf_key _ Hwf _ _ Hid) in Ho. congruence.
Qed.

Lemma arrival_inj (wanted : list OpState) (limit : nat) (now : Z) (st : MemoryStore)
    (op o : Operation) (id : Z) :
  store_wf st -> ms_ops st !! id = Some op -> o ∈ picked now limit (candidates wanted st) ->
  arrival_of st o = arrival_of st op -> op_operation_id o = op_operation_id op.
Proof.
  intros Hwf Hid Ho. apply picked_row in Ho; [| done]. rewrite <- (wf_key _ Hwf _ _ Hid) in Hid.
  destruct (wf_arrived _ Hwf _ _ Hid) as [a Ha], (wf_arrived _ Hwf _ _ Ho) as [b Hb].
  unfold arrival_of. rewrite Ha, Hb. simpl. intros ->. exact (wf_fifo _ Hwf _ _ _ Hb Ha).
Qed.

Lemma claim_fair (wanted : list OpState) (limit : nat) (worker_id : pystr) (lease now : Z)
    (st : MemoryStore) (id : Z) (op : Operation) :
  store_wf st -> ms_ops st !! id = Some op -> op_state op ∈ wanted -> held now op = false ->
  let out := take_claim now lease worker_id <$> picked now limit (candidates wanted st) in
  take_claim now lease worker_id op ∈ out \/
  (length out = limit /\ forall row, row ∈ out -> arrival_of st row < arrival_of st op).
Proof.
  intros Hwf Hid Hw Hh out.
  assert (op ∈ candidates wanted st) as Hc by (apply candidates_elem; eauto).
  destruct (picked_fifo wanted limit now st op Hc Hh) as [Hp | [Hlen Hle]].
  { left. apply list_elem_of_fmap. by exists op. }
  destruct (decide (op_operation_id op ∈ op_operation_id <$> picked now limit (candidates wanted st)))
    as [(o & Eo & Ho)%list_elem_of_fmap | Hno].
  - left. apply list_elem_of_fmap. exists o. split; [| done]. f_equal.
    symmetry. exact (picked_row_inj _ _ _ _ _ _ _ Hwf Hid Ho (eq_sym Eo)).
  - right. split; [by unfold out; rewrite length_fmap |]. intros row (o & -> & Ho)%list_elem_of_fmap.
    apply Z.le_neq. split; [exact (Hle o Ho) |]. intros Heq.
    apply Hno, list_elem_of_fmap. exists o. split; [| done]. symmetry.
    exact (arrival_inj _ _ _ _ _ _ _ Hwf Hid Ho Heq).
Qed.

(** The log of a row tells its state. *)
Lemma audit_trail_state (l : list Event) (s s' : OpState) : audit_trail l s -> audit_trail l s' -> s = s'.
Proof.
  intros H H'. destruct H as [e He | l s e Hl He _ _ _]; inversion H' as [e' He' El | l' s0 e' Hl' He' _ _ _ El]; subst; try done.
  - destruct l' as [|x l']; [by inversion Hl'; destruct l; simplify_list_eq | by destruct l'; simplify_list_eq].
  - destruct l as [|x l]; [by inversion Hl; destruct l; simplify_list_eq | by destruct l; simplify_list_eq].
  - apply app_inj_tail in El as [_ ->]. done.
Qed.

(** ** Properties *)

(** C17. The store invariant.  Every sequence of store operations, whatever their
    arguments, keeps the store well formed: rows sit under their own id, arrival
    numbers are distinct and below the counter, every event is of a stored row
    with a token no newer than the row's, and the log is numbered without gaps.
    As long as every lease a write renews ends within the calendar, the log also
    tells the history of every row: one intake, then writes that chain along
    the transition table with fencing tokens that never go back, ending in the
    row's state. *)
Theorem store_invariant (st : MemoryStore) :
  (rtc store_step empty_store st -> store_wf st) /\
  (rtc dated_step empty_store st -> store_wf st /\ audited st).
Proof.
  split; intros H.
  - exact (store_steps_wf _ _ H empty_store_wf).
  - split; [| exact (dated_steps_audited _ _ H empty_store_wf empty_store_audited)].
    refine (store_steps_wf _ _ _ empty_store_wf). by eapply rtc_subrel; [apply dated_store_step |].
Qed.

Definition demo_row : Operation :=
  new_operation 7 [] REQUESTED (str "Tdest") (str "USDT-TRC20") 1500000.
Definition demo_st : MemoryStore := snd (insert_new 100 demo_row empty_store).
Definition demo_claimed : MemoryStore := snd (claim CLAIMABLE 10 (str "w1") 30 100 demo_st).
Definition demo_inserted : Operation := set_updated_at (Some 100) (set_created_at (Some 100) demo_row).
Definition demo_row1 : Operation := take_claim 100 30 (str "w1") demo_inserted.

Lemma demo_st_wf : store_wf demo_st.
Proof. apply insert_new_wf; [done | apply empty_store_wf]. Qed.

Lemma demo_claimed_wf : store_wf demo_claimed.
Proof. exact (store_step_wf _ _ (step_claim _ CLAIMABLE 10 (str "w1") 30 100) demo_st_wf). Qed.

Lemma store_invariant_witness : store_wf demo_claimed /\ audited demo_claimed.
Proof.
  apply (store_invariant demo_claimed).
  eapply rtc_l; [exact (dated_insert_new empty_store 100 demo_row (Z.le_refl 0)) |].
  eapply rtc_l; [exact (dated_claim _ CLAIMABLE 10 (str "w1") 30 100) | apply rtc_refl].
Defined.

(** C33. A lease past the calendar breaks the write in half.  A write that passes
    every check (columns, transition, row, token, state) but renews the lease
    to an instant past [datetime.max] raises [OverflowError] when the new state
    and the columns are already stored: the lease is the old one, the event is
    never appended, and if the log told the history of the rows before and the
    state changed, it does not any more. *)
Theorem late_lease_half_writes (now id token : Z) (from_state to_state : OpState)
    (sets : list FieldSet) (detail : list (pystr * jval)) (lease : Z) (worker_id : option pystr)
    (st : MemoryStore) (op : Operation) :
  forallb (fun f => bool_decide (column f ∈ MUTABLE_FIELDS)) sets = true ->
  can_transition from_state to_state = true ->
  get id st = Some op -> op_fencing_token op = token -> op_state op = from_state ->
  (from_state ∉ TERMINAL) -> ~ representable (now + lease) ->
  let '(r, st') := cas now id token from_state to_state sets detail (Some lease) worker_id st in
  r = Err OverflowError /\
  (exists row, get id st' = Some row /\ op_state row = to_state /\ outcome row = outcome (setattrs op sets) /\
   op_lease_expires_at row = op_lease_expires_at op /\ op_claimed_by row = op_claimed_by op) /\
  (forall k, k <> id -> get k st' = get k st) /\ (forall k, events k st' = events k st) /\
  (audited st -> to_state <> from_state -> ~ audited st').
Proof.
  intros Hm Hc Hid Ht Hs Hl Hlate. unfold get in *.
  assert (exists row st', cas now id token from_state to_state sets detail (Some lease) worker_id st =
    (Err OverflowError, st') /\ row = cas_half now to_state sets op /\
    st' = mkStore (<[id := row]> (ms_ops st)) (ms_events st) (ms_order st) (ms_arrival st) (ms_event_seq st))
    as (row & st' & -> & Erow & ->).
  { unfold cas. rewrite Hm, Hc, Hid, Ht, Z.eqb_refl, Hs, !bool_decide_eq_true_2 by done. cbn [negb orb].
    rewrite bool_decide_eq_false_2 by done. unfold renewed_lease. rewrite plus_timedelta_late by done. by do 2 eexists. }
  destruct (setattrs_frame sets op) as (_ & _ & _ & Hcl & Hle & _). cbn [ms_ops].
  assert (op_state row = to_state) as Hrow by by subst row.
  split_and!; [done | exists row | | done |].
  - rewrite lookup_insert_eq. subst row. done.
  - intros k Hk. by apply lookup_insert_ne.
  - intros Ha Hne Ha'. specialize (Ha id op Hid). specialize (Ha' id row). cbn [ms_ops] in Ha'.
    rewrite lookup_insert_eq in Ha'. specialize (Ha' eq_refl). apply Hne.
    rewrite <- Hrow, <- Hs. exact (audit_trail_state _ _ _ Ha' Ha).
Qed.

Lemma late_lease_half_writes_witness :
  let st' := snd (cas 200 7 1 REQUESTED VALIDATED [] [] (Some end_us) None demo_claimed) in
  (op_state <$> get 7 st') = Some VALIDATED /\ events 7 st' = events 7 demo_claimed /\
  ~ audited st'.
Proof.
  pose proof (late_lease_half_writes 200 7 1 REQUESTED VALIDATED [] [] end_us None demo_claimed demo_row1
    eq_refl eq_refl eq_refl eq_refl eq_refl
    ltac:(rewrite elem_of_TERMINAL; intros [E | [E | E]]; discriminate E)
    ltac:(intros [_ H]; revert H; unfold end_us; vm_compute; discriminate)) as H.
  assert (audited demo_claimed) as Ha by apply store_invariant_witness.
  destruct (cas 200 7 1 REQUESTED VALIDATED [] [] (Some end_us) None demo_claimed) as [r st'].
  cbn [snd]. destruct H as (_ & (row & H1 & H2 & _) & _ & H3 & H4). split; [| split].
  - rewrite H1. cbn. by rewrite H2.
  - apply H3.
  - apply H4; [exact Ha | discriminate].
Defined.

(** C18. One claim.  With a lease that ends within the calendar: the batch holds at most
    [limit] rows, no row twice; each was claimable and its lease was free, and
    the store now holds it under the claimer with a token one higher; an
    eligible row that was left behind arrived after every row taken, and only
    because the batch was full; rows that are not in the batch stay as they
    are.  With a later one the claim fails as soon as there is a row to take,
    and leaves nothing but the claimer's name in the first of them. *)
Theorem claim_batch (wanted : list OpState) (limit : nat) (worker_id : pystr) (lease now : Z)
    (st : MemoryStore) :
  store_wf st ->
  let '(r, st') := claim wanted limit worker_id lease now st in
  match r with
  | Ok out =>
      (length out <= limit)%nat /\ NoDup (op_operation_id <$> out) /\
      (forall row, row ∈ out -> exists op,
         ms_ops st !! op_operation_id row = Some op /\ op_state op ∈ wanted /\ held now op = false /\
         row = take_claim now lease worker_id op /\ ms_ops st' !! op_operation_id row = Some row) /\
      (forall id op, ms_ops st !! id = Some op -> op_state op ∈ wanted -> held now op = false ->
         take_claim now lease worker_id op ∈ out \/
         (length out = limit /\ forall row, row ∈ out -> arrival_of st row < arrival_of st op)) /\
      (forall id, id ∉ (op_operation_id <$> out) -> ms_ops st' !! id = ms_ops st !! id)
  | Err e =>
      e = OverflowError /\ ~ representable (now + lease) /\ limit <> 0%nat /\ exists op,
      ms_ops st !! op_operation_id op = Some op /\ op_state op ∈ wanted /\ held now op = false /\
      (forall id o, ms_ops st !! id = Some o -> op_state o ∈ wanted -> held now o = false ->
         arrival_of st op <= arrival_of st o) /\
      ms_ops st' = <[op_operation_id op := set_claimed_by (Some worker_id) op]> (ms_ops st)
  end.
Proof.
  intros Hwf. pose proof (fun out => claim_out wanted limit worker_id lease now st out) as Hout.
  pose proof (fun out => claim_NoDup wanted limit worker_id lease now st out Hwf) as Hnd.
  pose proof (fun out => claim_taken wanted limit worker_id lease now st out Hwf) as Hok.
  pose proof (fun e => claim_late wanted limit worker_id lease now st e Hwf) as Herr.
  destruct (claim wanted limit worker_id lease now st) as [[out | e] st']; cbn [fst snd] in *.
  - destruct (Hok out eq_refl) as [Eout ->]. split_and!.
    + subst out. rewrite length_fmap. unfold picked. rewrite length_take. lia.
    + by apply Hnd.
    + intros row Hrow. destruct (Hout out row Hwf eq_refl Hrow) as (op & -> & H1 & H2 & H3 & H4).
      exists op. split_and!; done.
    + intros id op Hid Hw Hh. subst out. exact (claim_fair wanted limit worker_id lease now st id op Hwf Hid Hw Hh).
    + intros id Hni. cbn. rewrite lookup_union_r; [done |].
      apply not_elem_of_list_to_map_1. by rewrite keyed_fst.
  - destruct (Herr e eq_refl) as (-> & Hl & op & rest & Hp & ->).
    assert (op ∈ picked now limit (candidates wanted st)) as Hop by (rewrite Hp; left).
    destruct (picked_elem _ _ _ _ _ Hwf Hop) as (H1 & H2 & H3).
    split_and!; [done | done | by intros -> |]. exists op. split_and!; try done.
    intros id o Ho Hw Hh. exact (picked_head wanted limit now st op rest o Hp ltac:(apply candidates_elem; eauto) Hh).
Qed.

Lemma claim_batch_witness :
  match fst (claim CLAIMABLE 10 (str "w1") 30 100 demo_st) with
  | Ok out => (length out <= 10)%nat /\ length out = 1%nat
  | Err _ => False
  end.
Proof.
  pose proof (claim_batch CLAIMABLE 10 (str "w1") 30 100 demo_st demo_st_wf) as H.
  assert (length <$> (match fst (claim CLAIMABLE 10 (str "w1") 30 100 demo_st) with
                      | Ok out => Some out | Err _ => None end) = Some 1%nat) as E by (vm_compute; reflexivity).
  destruct (claim CLAIMABLE 10 (str "w1") 30 100 demo_st) as [[out | e] st']; cbn in E |- *; [| discriminate E].
  split; [apply H | by injection E].
Defined.

(** C16. Fencing: once a second worker has claimed an operation, the first one is
    a zombie for good.  Whatever store operations ran before and after, no
    write and no release with the first claim's token ever changes the store
    again. *)
Theorem zombie_is_fenced (st1 st2 st3 st4 : MemoryStore) (row1 row2 : Operation)
    (wanted1 wanted2 : list OpState) (limit1 limit2 : nat) (worker1 worker2 : pystr)
    (out1 out2 : list Operation) (lease1 lease2 now1 now2 : Z) :
  rtc store_step empty_store st1 ->
  fst (claim wanted1 limit1 worker1 lease1 now1 st1) = Ok out1 -> row1 ∈ out1 ->
  rtc store_step (snd (claim wanted1 limit1 worker1 lease1 now1 st1)) st2 ->
  fst (claim wanted2 limit2 worker2 lease2 now2 st2) = Ok out2 -> row2 ∈ out2 ->
  op_operation_id row2 = op_operation_id row1 ->
  st3 = snd (claim wanted2 limit2 worker2 lease2 now2 st2) ->
  rtc store_step st3 st4 ->
  forall now from_state to_state sets detail renew worker_id,
  (let '(r, st') := cas now (op_operation_id row1) (op_fencing_token row1) from_state to_state
                        sets detail renew worker_id st4 in
   st' = st4 /\ forall row, r <> Ok (Some row)) /\
  release now (op_operation_id row1) (op_fencing_token row1) st4 = st4.
Proof.
  intros H1 Ho1 Hr1 H2 Ho2 Hr2 Hid -> H4 now f t sets detail renew w.
  pose proof (store_steps_wf _ _ H1 empty_store_wf) as Hwf1.
  pose proof (store_step_wf _ _ (step_claim st1 wanted1 limit1 worker1 lease1 now1) Hwf1) as Hwf1'.
  pose proof (store_steps_wf _ _ H2 Hwf1') as Hwf2.
  pose proof (store_step_wf _ _ (step_claim st2 wanted2 limit2 worker2 lease2 now2) Hwf2) as Hwf3.
  destruct (claim_out _ _ _ _ _ _ _ _ Hwf1 Ho1 Hr1) as (op1 & E1 & _ & _ & _ & Hin1).
  destruct (claim_out _ _ _ _ _ _ _ _ Hwf2 Ho2 Hr2) as (op2 & E2 & Hop2 & _ & _ & Hin2).
  destruct (store_steps_row _ _ _ _ Hwf1' H2 Hin1) as (op2' & Hop2' & _ & Hle1 & _).
  destruct (store_steps_row _ _ _ _ Hwf3 H4 Hin2) as (op4 & Hop4 & _ & Hle2 & _).
  assert (op_operation_id op1 = op_operation_id op2) as Eid by (subst; done).
  rewrite Eid, Hop2 in Hop2'. injection Hop2' as <-. rewrite <- Hid.
  replace (op_operation_id row2) with (op_operation_id op2) by (subst; done).
  apply stale_token_noop with op4; [done |]. subst row1 row2. simpl in *. lia.
Qed.

Definition demo_row2 : Operation := take_claim 140 30 (str "w2") demo_row1.
Definition demo_reclaimed : MemoryStore := snd (claim CLAIMABLE 10 (str "w2") 30 140 demo_claimed).

Lemma zombie_is_fenced_witness :
  (let '(r, st') := cas 200 (op_operation_id demo_row1) (op_fencing_token demo_row1)
                        REQUESTED VALIDATED [] [] None None demo_reclaimed in
   st' = demo_reclaimed /\ forall row, r <> Ok (Some row)) /\
  release 200 (op_operation_id demo_row1) (op_fencing_token demo_row1) demo_reclaimed = demo_reclaimed.
Proof.
  apply (zombie_is_fenced demo_st demo_claimed demo_reclaimed demo_reclaimed demo_row1 demo_row2
    CLAIMABLE CLAIMABLE 10 10 (str "w1") (str "w2") [demo_row1] [demo_row2] 30 30 100 140).
  - apply rtc_once. exact (step_insert_new empty_store 100 demo_row (Z.le_refl 0)).
  - vm_compute. reflexivity.
  - left.
  - apply rtc_refl.
  - vm_compute. reflexivity.
  - left.
  - reflexivity.
  - reflexivity.
  - apply rtc_refl.
Defined.

(** What no store operation can change: the id, request hash, destination,
    asset and amount of an operation; its token never goes down; and once it is
    in a terminal state, that state and every outcome column (envelope, txid,
    attempts, reasons, block, confirmation time) stay as they are. *)
Theorem rows_only_evolve (st st' : MemoryStore) (id : Z) (op : Operation) :
  rtc store_step empty_store st -> rtc store_step st st' -> ms_ops st !! id = Some op ->
  exists op', ms_ops st' !! id = Some op' /\ terms op' = terms op /\
  op_fencing_token op <= op_fencing_token op' /\
  (op_state op ∈ TERMINAL -> op_state op' = op_state op /\ outcome op' = outcome op).
Proof.
  intros H1 H2 Hid. exact (store_steps_row _ _ _ _ (store_steps_wf _ _ H1 empty_store_wf) H2 Hid).
Qed.

Lemma rows_only_evolve_witness :
  exists op', ms_ops demo_claimed !! 7 = Some op' /\ op_amount_units op' = 1500000.
Proof.
  destruct (rows_only_evolve demo_st demo_claimed 7 demo_inserted
    (rtc_once _ _ (step_insert_new empty_store 100 demo_row (Z.le_refl 0)))
    (rtc_once _ _ (step_claim demo_st CLAIMABLE 10 (str "w1") 30 100)) eq_refl)
    as (op' & H1 & H2 & _).
  exists op'. split; [exact H1 | by injection H2].
Defined.

(** Intake is idempotent: after an operation was inserted, a second insert
    under the same id, after any store operations and with any content, creates
    nothing, leaves the store as it is and answers with the row that keeps the
    first request's terms. *)
Theorem insert_idempotent (st st' : MemoryStore) (now now' : Z) (op op' : Operation) :
  rtc store_step empty_store st -> 0 <= op_fencing_token op ->
  rtc store_step (snd (insert_new now op st)) st' -> op_operation_id op' = op_operation_id op ->
  exists row, insert_new now' op' st' = ((row, false), st') /\
  terms row = terms (fst (fst (insert_new now op st))).
Proof.
  intros H1 H0 H2 Hid.
  assert (ms_ops (snd (insert_new now op st)) !! op_operation_id op =
          Some (fst (fst (insert_new now op st)))) as Hrow.
  { unfold insert_new. destruct (ms_ops st !! op_operation_id op) eqn:E; [done |].
    simpl. by rewrite lookup_insert_eq. }
  pose proof (insert_new_wf now op st H0 (store_steps_wf _ _ H1 empty_store_wf)) as Hwf.
  destruct (store_steps_row _ _ _ _ Hwf H2 Hrow) as (row & Hin & Ht & _).
  exists row. unfold insert_new at 1. by rewrite Hid, Hin.
Qed.

Lemma insert_idempotent_witness :
  exists row, insert_new 300 (set_attempts 9 demo_row) demo_claimed = ((row, false), demo_claimed) /\
  terms row = terms demo_row.
Proof.
  apply (insert_idempotent empty_store demo_claimed 100 300 demo_row (set_attempts 9 demo_row));
    [apply rtc_refl | vm_compute; discriminate | | reflexivity].
  apply rtc_once, step_claim.
Defined.
