(* ===== verification/Protocol.v ===== *)
(** * The [Store] protocol ([sluice/store/__init__.py])

    The operations of the protocol as a class, so that code written against
    [Store] (the intake service) is one definition for both stores, and the
    rules of the module's docstring as laws over them.  Fencing and the life of
    a row follow from the laws alone.  [now] is the store's clock; what a
    method raises is a value of [store_exn].  [claim] is a relation: a database
    leaves open which of several equally old rows it meets first.  Errors change
    nothing, with one exception the rules name: a lease past the end of the
    calendar, which the in-memory store notices in the middle of a write. *)
From Stdlib Require Import ZArith Lia.
From stdpp Require Import base option strings gmap relations list.
From S2P Require Import Prelude Text Json Datetime States Wire Model Store.

Local Open Scope Z_scope.

Class StoreProtocol (St : Type) : Type := {
  store_exn : Type;
  store_insert_new (now : Z) (op : Operation) : St -> result store_exn (Operation * bool) * St;
  store_get (id : Z) : St -> option Operation;
  store_claim (wanted : list OpState) (limit : nat) (worker_id : pystr) (lease now : Z) :
    St -> result store_exn (list Operation) -> St -> Prop;
  store_cas (now id token : Z) (from_state to_state : OpState) (sets : list FieldSet)
    (detail : list (pystr * jval)) (renew : option Z) (worker_id : option pystr) :
    St -> result store_exn (option Operation) * St;
  store_release (now id token : Z) : St -> result store_exn unit * St;
  store_events (id : Z) : St -> list Event;
  store_all_txids (id : Z) : St -> list pystr
}.

(** Any call, with any arguments Python lets through: the keys of a dict differ. *)
Inductive protocol_step {St : Type} `{!StoreProtocol St} (st : St) : St -> Prop :=
| call_insert_new (now : Z) (op : Operation) :
    0 <= op_fencing_token op -> protocol_step st (snd (store_insert_new now op st))
| call_claim (wanted : list OpState) (limit : nat) (worker_id : pystr) (lease now : Z)
    (r : result store_exn (list Operation)) (st' : St) :
    store_claim wanted limit worker_id lease now st r st' -> protocol_step st st'
| call_cas (now id token : Z) (from_state to_state : OpState) (sets : list FieldSet)
    (detail : list (pystr * jval)) (renew : option Z) (worker_id : option pystr) :
    NoDup (column <$> sets) ->
    protocol_step st (snd (store_cas now id token from_state to_state sets detail renew worker_id st))
| call_release (now id token : Z) : protocol_step st (snd (store_release now id token st)).

(** Every operation but [id] is as it was. *)
Definition only_touches {St : Type} `{!StoreProtocol St} (id : Z) (st st' : St) : Prop :=
  forall k, k <> id -> store_get k st' = store_get k st.

(** ** The rules *)

(** "Insert iff operation_id is unseen.  Returns (row, created).  On conflict
    returns the EXISTING row untouched." *)
Definition insert_rule {St : Type} `{!StoreProtocol St} (op : Operation)
    (st : St) (r : result store_exn (Operation * bool)) (st' : St) : Prop :=
  match r with
  | Err _ => st' = st
  | Ok (row, true) =>
      store_get (op_operation_id op) st = None /\ store_get (op_operation_id op) st' = Some row /\
      only_touches (op_operation_id op) st st' /\ terms row = terms op /\ op_state row = op_state op
  | Ok (row, false) => store_get (op_operation_id op) st = Some row /\ st' = st
  end.

(** "[claim()] atomically takes ownership: sets claimed_by + lease and increments
    the operation's fencing_token.  The returned snapshot carries the token."
    Not atomic when the lease ends past the calendar: then the name of the
    claimer may stay behind in a row nobody holds. *)
Definition claim_rule {St : Type} `{!StoreProtocol St} (wanted : list OpState) (limit : nat)
    (worker_id : pystr) (lease now : Z) (st : St) (r : result store_exn (list Operation)) (st' : St) : Prop :=
  match r with
  | Err _ => st' = st \/
      ~ representable (now + lease) /\ (exists op, store_get (op_operation_id op) st = Some op /\
         op_state op ∈ wanted /\ held now op = false /\ only_touches (op_operation_id op) st st' /\
         store_get (op_operation_id op) st' = Some (set_claimed_by (Some worker_id) op)) /\
      (forall k, store_events k st' = store_events k st)
  | Ok out =>
      (length out <= limit)%nat /\ NoDup (op_operation_id <$> out) /\
      (forall row, row ∈ out -> exists op,
         store_get (op_operation_id row) st = Some op /\ op_state op ∈ wanted /\ held now op = false /\
         row = take_claim now lease worker_id op /\ store_get (op_operation_id row) st' = Some row) /\
      (forall k, k ∉ op_operation_id <$> out -> store_get k st' = store_get k st) /\
      (forall k, store_events k st' = store_events k st)
  end.

(** "[cas()] applies iff (operation_id, fencing_token, state) all still match,
    and it appends an Event in the same atomic step.  Illegal transitions raise.
    Terminal states are immutable.  [cas()] into a terminal state clears the
    lease as part of the same write."  Not in the same step when the renewed
    lease ends past the calendar: then the row may be written and its event
    not, still only if id, token and state match a live row. *)
Definition cas_rule {St : Type} `{!StoreProtocol St} (now id token : Z) (from_state to_state : OpState)
    (renew : option Z) (worker_id : option pystr) (st : St) (r : result store_exn (option Operation)) (st' : St) : Prop :=
  match r with
  | Ok (Some row) => exists op e,
      store_get id st = Some op /\ op_fencing_token op = token /\ op_state op = from_state /\
      (from_state ∉ TERMINAL) /\ can_transition from_state to_state = true /\
      store_get id st' = Some row /\ only_touches id st st' /\
      terms row = terms op /\ op_fencing_token row = token /\ op_state row = to_state /\
      (to_state ∈ TERMINAL -> op_claimed_by row = None /\ op_lease_expires_at row = None) /\
      store_events id st' = store_events id st ++ [e] /\
      (ev_from_state e, ev_to_state e, ev_worker_id e, ev_fencing_token e) =
        (Some from_state, to_state, worker_id, token)
  | Ok None => st' = st
  | Err _ => st' = st \/
      (exists lease, renew = Some lease /\ ~ representable (now + lease)) /\
      (exists op row, store_get id st = Some op /\ op_fencing_token op = token /\ op_state op = from_state /\
         (from_state ∉ TERMINAL) /\ can_transition from_state to_state = true /\
         store_get id st' = Some row /\ only_touches id st st' /\
         terms row = terms op /\ op_fencing_token row = token /\ op_state row = to_state /\
         op_claimed_by row = op_claimed_by op /\ op_lease_expires_at row = op_lease_expires_at op) /\
      (forall k, store_events k st' = store_events k st)
  end.

(** "Give up a claim early": no other effect, and none without the token. *)
Definition release_rule {St : Type} `{!StoreProtocol St} (now id token : Z) (st st' : St) : Prop :=
  st' = st \/
  exists op, store_get id st = Some op /\ op_fencing_token op = token /\ only_touches id st st' /\
  store_get id st' = Some (set_updated_at (Some now) (set_lease_expires_at None (set_claimed_by None op))).

Class StoreContract (St : Type) `{!StoreProtocol St} (well_formed : St -> Prop) : Prop := {
  step_well_formed (st st' : St) : protocol_step st st' -> well_formed st -> well_formed st';
  get_key (st : St) (id : Z) (op : Operation) :
    well_formed st -> store_get id st = Some op -> op_operation_id op = id;
  insert_ok (st : St) (now : Z) (op : Operation) :
    well_formed st -> let '(r, st') := store_insert_new now op st in insert_rule op st r st';
  claim_ok (st st' : St) (wanted : list OpState) (limit : nat) (worker_id : pystr) (lease now : Z)
    (r : result store_exn (list Operation)) :
    well_formed st -> store_claim wanted limit worker_id lease now st r st' ->
    claim_rule wanted limit worker_id lease now st r st';
  cas_ok (st : St) (now id token : Z) (from_state to_state : OpState) (sets : list FieldSet)
    (detail : list (pystr * jval)) (renew : option Z) (worker_id : option pystr) :
    well_formed st -> NoDup (column <$> sets) ->
    let '(r, st') := store_cas now id token from_state to_state sets detail renew worker_id st in
    cas_rule now id token from_state to_state renew worker_id st r st';
  cas_illegal (st : St) (now id token : Z) (from_state to_state : OpState) (sets : list FieldSet)
    (detail : list (pystr * jval)) (renew : option Z) (worker_id : option pystr) :
    can_transition from_state to_state = false ->
    exists e, fst (store_cas now id token from_state to_state sets detail renew worker_id st) = Err e;
  release_ok (st : St) (now id token : Z) :
    well_formed st -> release_rule now id token st (snd (store_release now id token st));
  txids_ok (st : St) (id : Z) (e : Event) (txid : pystr) :
    e ∈ store_events id st -> assoc (str "txid") (ev_detail e) = Some (JStr txid) -> txid <> [] ->
    txid ∈ store_all_txids id st
}.

(** ** What follows from the rules *)

Section contract.
Context {St : Type} `{!StoreProtocol St} {well_formed : St -> Prop} `{!StoreContract St well_formed}.

Lemma step_evolves (st st' : St) (id : Z) (op : Operation) :
  well_formed st -> protocol_step st st' -> store_get id st = Some op ->
  exists op', store_get id st' = Some op' /\ evolves op op'.
Proof.
  intros Hwf Hs Hid. assert (st' = st -> exists op', store_get id st' = Some op' /\ evolves op op') as Hsame
    by (intros ->; by exists op).
  destruct Hs as [now o _ | wanted limit w lease now r st' Hc | now k token f t sets d renew w Hnd | now k token].
  - pose proof (insert_ok st now o Hwf) as H. destruct (store_insert_new now o st) as [r st1]. cbn [snd] in *.
    destruct r as [[row []] | e]; cbn [insert_rule] in H; [| by apply Hsame, H | by apply Hsame].
    destruct H as (Hn & _ & Ho & _). exists op. split; [rewrite Ho; congruence | done].
  - apply claim_ok in Hc; [| done]. destruct r as [out | e]; cbn [claim_rule] in Hc.
    2:{ destruct Hc as [E | (_ & (o & Ho & _ & _ & Honly & Hst) & _)]; [by apply Hsame |].
      destruct (decide (id = op_operation_id o)) as [-> |]; [| exists op; by rewrite Honly].
      assert (o = op) as -> by congruence. eexists. split; [done |]. split_and!; [done | simpl; lia | done]. }
    destruct Hc as (_ & _ & Hin & Hout & _).
    destruct (decide (id ∈ op_operation_id <$> out)) as [(row & -> & Hr)%list_elem_of_fmap | Hn];
      [| exists op; by rewrite Hout].
    destruct (Hin row Hr) as (o & Ho & _ & _ & E & Hst). exists row. split; [done |].
    assert (o = op) as -> by congruence. rewrite E. split_and!; [done | simpl; lia | done].
  - pose proof (cas_ok st now k token f t sets d renew w Hwf Hnd) as H.
    destruct (store_cas _ _ _ _ _ _ _ _ _ _) as [r st1]. cbn [snd] in *.
    assert (r = Ok None \/ st1 = st \/ exists o row, store_get k st = Some o /\ op_fencing_token o = token /\
      op_state o = f /\ (f ∉ TERMINAL) /\ store_get k st1 = Some row /\ only_touches k st st1 /\
      terms row = terms o /\ op_fencing_token row = token) as [-> | [E | H']];
      [| by apply Hsame.. |].
    { destruct r as [[row |] | e]; cbn [cas_rule] in H; [right; right | by left | right].
      - destruct H as (o & e & H1 & H2 & H3 & H4 & _ & H5 & H6 & H7 & H8 & _). by exists o, row.
      - destruct H as [H | (_ & (o & row & H1 & H2 & H3 & H4 & _ & H5 & H6 & H7 & H8 & _) & _)]; [by left |].
        right. by exists o, row. }
    clear H. destruct H' as (o & row & Ho & Et & Es & Hn & Hst & Honly & Ht & Et').
    destruct (decide (id = k)) as [-> |]; [| exists op; by rewrite Honly].
    exists row. split; [done |]. assert (o = op) as -> by congruence.
    split_and!; [done | lia | by rewrite Es].
  - destruct (release_ok st now k token Hwf) as [E | (o & Ho & Et & Honly & Hst)]; [by apply Hsame |].
    destruct (decide (id = k)) as [-> |]; [| exists op; by rewrite Honly].
    eexists. split; [done |]. assert (o = op) as -> by congruence. split_and!; [done | simpl; lia | done].
Qed.

Lemma steps_well_formed (st st' : St) : rtc protocol_step st st' -> well_formed st -> well_formed st'.
Proof. induction 1 as [| st st1 st' Hs _ IH]; intros Hwf; [done |]. by apply IH, (step_well_formed _ _ Hs). Qed.

Lemma steps_evolve (st st' : St) (id : Z) (op : Operation) :
  well_formed st -> rtc protocol_step st st' -> store_get id st = Some op ->
  exists op', store_get id st' = Some op' /\ evolves op op'.
Proof.
  intros Hwf Hs. revert op. induction Hs as [st | st st1 st' H1 Hs IH]; intros op Hid; [by exists op |].
  destruct (step_evolves _ _ _ _ Hwf H1 Hid) as (op1 & Hid1 & He1).
  destruct (IH (step_well_formed _ _ H1 Hwf) op1 Hid1) as (op' & Hid' & He'). exists op'.
  split; [done | by etrans].
Qed.

(** A [cas] or a [release] of this operation with this token. *)
Inductive writes (id token : Z) (st : St) : St -> Prop :=
| writes_cas (now : Z) (from_state to_state : OpState) (sets : list FieldSet)
    (detail : list (pystr * jval)) (renew : option Z) (worker_id : option pystr) :
    NoDup (column <$> sets) ->
    writes id token st (snd (store_cas now id token from_state to_state sets detail renew worker_id st))
| writes_release (now : Z) : writes id token st (snd (store_release now id token st)).

Lemma stale_write (st st' : St) (id token : Z) (op : Operation) :
  well_formed st -> store_get id st = Some op -> op_fencing_token op <> token -> writes id token st st' -> st' = st.
Proof.
  intros Hwf Hid Ht [now f t sets d renew w Hnd | now].
  - pose proof (cas_ok st now id token f t sets d renew w Hwf Hnd) as H.
    destruct (store_cas _ _ _ _ _ _ _ _ _ _) as [r st1]. destruct r as [[row |] | e]; cbn in *; try done.
    + destruct H as (o & _ & Ho & Et & _). congruence.
    + destruct H as [H | (_ & (o & _ & Ho & Et & _) & _)]; [done | congruence].
  - destruct (release_ok st now id token Hwf) as [E | (o & Ho & Et & _)]; [done | congruence].
Qed.

(** A claim that hands out this row. *)
Definition hands_out (st : St) (row : Operation) (st' : St) : Prop :=
  exists wanted limit worker_id lease now out,
  store_claim wanted limit worker_id lease now st (Ok out) st' /\ row ∈ out.

Lemma hands_out_bumps (st st' : St) (row : Operation) :
  well_formed st -> hands_out st row st' ->
  protocol_step st st' /\ store_get (op_operation_id row) st' = Some row /\
  exists op, store_get (op_operation_id row) st = Some op /\ op_fencing_token row = op_fencing_token op + 1.
Proof.
  intros Hwf (wanted & limit & w & lease & now & out & Hc & Hrow). split; [by econstructor |].
  apply claim_ok in Hc as (_ & _ & Hin & _); [| done]. destruct (Hin row Hrow) as (op & Hop & _ & _ & E & Hst).
  split; [done |]. exists op. split; [done |]. by rewrite E.
Qed.

(** The worker whose row was claimed again can never write. *)
Lemma fenced_for_good (st1 st1' st2 st3 st4 st5 : St) (row1 row2 : Operation) :
  well_formed st1 -> hands_out st1 row1 st1' -> rtc protocol_step st1' st2 ->
  hands_out st2 row2 st3 -> op_operation_id row2 = op_operation_id row1 ->
  rtc protocol_step st3 st4 ->
  writes (op_operation_id row1) (op_fencing_token row1) st4 st5 -> st5 = st4.
Proof.
  intros Hwf1 Hc1 H12 Hc2 Hid H34 Hw.
  destruct (hands_out_bumps _ _ _ Hwf1 Hc1) as (Hs1 & Hin1 & _).
  pose proof (step_well_formed _ _ Hs1 Hwf1) as Hwf1'.
  pose proof (steps_well_formed _ _ H12 Hwf1') as Hwf2.
  destruct (hands_out_bumps _ _ _ Hwf2 Hc2) as (Hs2 & Hin2 & op2 & Hop2 & Ht2).
  pose proof (step_well_formed _ _ Hs2 Hwf2) as Hwf3.
  destruct (steps_evolve _ _ _ _ Hwf1' H12 Hin1) as (o2 & Ho2 & _ & Hle1 & _).
  destruct (steps_evolve _ _ _ _ Hwf3 H34 Hin2) as (o4 & Ho4 & _ & Hle2 & _).
  rewrite Hid in *. rewrite Hop2 in Ho2. injection Ho2 as <-.
  refine (stale_write _ _ _ _ o4 (steps_well_formed _ _ H34 Hwf3) Ho4 _ Hw). lia.
Qed.

End contract.

(** ** The in-memory store *)

#[export] Instance MemoryStore_protocol : StoreProtocol MemoryStore := {|
  store_exn := exn;
  store_insert_new now op st := let '(answer, st') := insert_new now op st in (Ok answer, st');
  store_get := get;
  store_claim wanted limit worker_id lease now st r st' :=
    claim wanted limit worker_id lease now st = (r, st');
  store_cas := cas;
  store_release now id token st := (Ok tt, release now id token st);
  store_events := events;
  store_all_txids := all_txids
|}.

Lemma memory_step (st st' : MemoryStore) : protocol_step st st' -> store_step st st'.
Proof.
  intros [now op H0 | wanted limit w lease now r st1 Hc | now k token f t sets d renew w Hnd | now k token].
  - cbn [store_insert_new MemoryStore_protocol]. pose proof (step_insert_new st now op H0) as H.
    by destruct (insert_new now op st).
  - cbn in Hc. pose proof (step_claim st wanted limit w lease now) as H.
    by rewrite Hc in H.
  - apply step_cas.
  - apply step_release.
Qed.

Lemma memory_insert (st : MemoryStore) (now : Z) (op : Operation) :
  let '(r, st') := store_insert_new now op st in insert_rule op st r st'.
Proof.
  cbn [store_insert_new MemoryStore_protocol]. unfold insert_new.
  destruct (ms_ops st !! op_operation_id op) as [row |] eqn:E; cbn [insert_rule]; [by split |].
  split_and!; try done.
  - unfold store_get. cbn. apply lookup_insert_eq.
  - intros k Hk. unfold store_get. cbn. unfold get. cbn. by rewrite lookup_insert_ne.
Qed.

Lemma memory_cas (st : MemoryStore) (now id token : Z) (from_state to_state : OpState) (sets : list FieldSet)
    (detail : list (pystr * jval)) (renew : option Z) (worker_id : option pystr) :
  let '(r, st') := store_cas now id token from_state to_state sets detail renew worker_id st in
  cas_rule now id token from_state to_state renew worker_id st r st'.
Proof.
  pose proof (cas_cases now id token from_state to_state sets detail renew worker_id st) as H.
  cbn [store_cas MemoryStore_protocol]. destruct (cas _ _ _ _ _ _ _ _ _ _) as [r st'].
  destruct H as [(-> & Hr & _) | (op & H1 & H2 & H3 & H4 & H5 & H)].
  { destruct r as [[row |] |]; cbn [cas_rule]; [by destruct (Hr row) | done | by left]. }
  assert (forall row, only_touches id st (mkStore (<[id := row]> (ms_ops st)) (ms_events st) (ms_order st)
    (ms_arrival st) (ms_event_seq st))) as Honly.
  { intros row k Hk. cbn. unfold get. cbn. by rewrite lookup_insert_ne. }
  destruct H as [(_ & -> & ->) | (lease & -> & Hl & -> & ->)]; cbn [cas_rule].
  2:{ right. destruct (cas_half_frame now to_state sets op) as (F1 & F2 & F3).
    destruct (setattrs_frame sets op) as (_ & _ & _ & F4 & F5 & _).
    split_and!; [by exists lease | | done]. exists op, (cas_half now to_state sets op).
    split_and!; try done; [cbn; apply lookup_insert_eq | congruence]. }
  destruct (cas_row_frame now to_state sets renew op) as (F1 & F2 & F3).
  eexists op, (mkEvent id (Some from_state) to_state worker_id token detail now (ms_event_seq st)).
  split_and!; try done.
  - cbn. apply lookup_insert_eq.
  - apply Honly.
  - congruence.
  - intros Ht. unfold cas_row. by rewrite bool_decide_eq_true_2.
  - cbn. unfold events. cbn. by rewrite filter_app, filter_cons, decide_True, filter_nil.
Qed.

Lemma memory_claim (st st' : MemoryStore) (wanted : list OpState) (limit : nat) (worker_id : pystr)
    (lease now : Z) (r : result exn (list Operation)) :
  store_wf st -> store_claim wanted limit worker_id lease now st r st' ->
  claim_rule wanted limit worker_id lease now st r st'.
Proof.
  intros Hwf. cbn [store_claim MemoryStore_protocol].
  pose proof (fun out => claim_NoDup wanted limit worker_id lease now st out Hwf) as Hnd.
  pose proof (fun out row => claim_out wanted limit worker_id lease now st out row Hwf) as Hout.
  pose proof (fun id => claim_row wanted limit worker_id lease now st id Hwf) as Hrow.
  pose proof (claim_store wanted limit worker_id lease now st) as Hst.
  pose proof (fun out => claim_taken wanted limit worker_id lease now st out Hwf) as Hok.
  pose proof (fun e => claim_late wanted limit worker_id lease now st e Hwf) as Herr.
  intros E. rewrite E in *. cbn [fst snd] in *. destruct r as [out | e]; cbn [claim_rule].
  - split_and!; [| by apply Hnd | | |].
    + destruct (Hok out eq_refl) as [-> _]. rewrite length_fmap. unfold picked. rewrite length_take. lia.
    + intros row Hin. destruct (Hout out row eq_refl Hin) as (op & -> & H1 & H2 & H3 & H4). by exists op.
    + intros k Hk. destruct (Hrow k) as [E' | (op & Hop & _ & _ & [(out' & [= <-] & _ & Ho) | (? & _)])];
        [exact E' | | done]. exfalso. apply Hk.
      apply list_elem_of_fmap. eexists. split; [| exact Ho]. symmetry. exact (wf_key _ Hwf _ _ Hop).
    + intros k. cbn. unfold events. by rewrite Hst.
  - right. destruct (Herr e eq_refl) as (-> & Hl & op & rest & Hp & Est).
    assert (op ∈ picked now limit (candidates wanted st)) as Hop by (rewrite Hp; left).
    destruct (picked_elem _ _ _ _ _ Hwf Hop) as (H1 & H2 & H3). rewrite Est. split_and!; [done | | done].
    exists op. split_and!; try done; [intros k Hk; cbn; unfold get; cbn; by rewrite lookup_insert_ne |].
    cbn. apply lookup_insert_eq.
Qed.

#[export] Instance MemoryStore_contract : StoreContract MemoryStore store_wf.
Proof.
  split.
  - intros st st' H. eapply store_step_wf. by apply memory_step.
  - intros st id op Hwf. apply (wf_key _ Hwf).
  - intros st now op _. apply memory_insert.
  - intros. by apply memory_claim.
  - intros. by apply memory_cas.
  - intros st now id token f t sets d renew w Hc. cbn. unfold cas. rewrite Hc.
    destruct (negb (forallb _ _)); by eexists.
  - intros st now id token _. cbn [store_release MemoryStore_protocol snd]. unfold release_rule, release.
    cbn [store_get MemoryStore_protocol]. unfold get. destruct (ms_ops st !! id) as [op |] eqn:E; [| by left].
    destruct (Z.eqb_spec (op_fencing_token op) token) as [Et |]; [right | by left]. exists op. cbn [negb].
    split_and!; try done; [intros k Hk; cbn; unfold get; cbn; by rewrite lookup_insert_ne | cbn; apply lookup_insert_eq].
  - intros st id e t He Ht _. cbn in *. unfold all_txids. apply list_elem_of_omap. exists e. split; [done |].
    unfold event_txid. by rewrite Ht.
Qed.
