(* ===== verification/Node.v ===== *)
(** * The mock TRON node ([sluice/tron/mocknet.py])

    Chain geometry, block production with the expiration rule, scripted faults,
    broadcast and lookup.  Each operation runs under the node's lock, so it is
    one step here; [now] is the node's clock at that step. *)
From Stdlib Require Import ZArith Lia.
From stdpp Require Import base option strings gmap sorting list.
From S2P Require Import Prelude Text Json Hash Datetime States Wire.

Local Open Scope Z_scope.

Inductive Fault : Type :=
| TIMEOUT_DROPPED
| TIMEOUT_ACCEPTED
| BUSY
| UNKNOWN_CODE
| REVERT_RECEIPT
| QUERY_TIMEOUT.

#[export] Instance Fault_eq_dec : EqDecision Fault.
Proof. solve_decision. Defined.

Record TxRecord : Type := mkTxRecord {
  tr_tx : SignedTx;
  tr_accepted_at_block : Z;
  tr_included_block : option Z;
  tr_receipt : option pystr
}.

Record BroadcastLogEntry : Type := mkLogEntry {
  bl_txid : pystr;
  bl_outcome : pystr;
  bl_at_block : Z;
  bl_worker : option pystr
}.

Record MockTronNode : Type := mkNode {
  nd_solidity_lag : Z;
  nd_inclusion_delay : Z;
  nd_signer : MockSigner;
  nd_head : Z;
  nd_block_time : list (Z * Z);            (* latest block first *)
  nd_txs : list (pystr * TxRecord);        (* in order of acceptance *)
  nd_faults : gmap pystr (list Fault);
  nd_broadcast_log : list BroadcastLogEntry
}.

Definition new_node (now lag delay : Z) (signer : MockSigner) : MockTronNode :=
  mkNode lag delay signer 1000 [(1000, now)] []
    (<[str "broadcast" := []]> (<[str "query" := []]> ∅)) [].

Definition with_chain (head : Z) (bt : list (Z * Z)) (txs : list (pystr * TxRecord))
    (faults : gmap pystr (list Fault)) (nd : MockTronNode) : MockTronNode :=
  mkNode (nd_solidity_lag nd) (nd_inclusion_delay nd) (nd_signer nd) head bt txs faults
    (nd_broadcast_log nd).

Definition with_faults (faults : gmap pystr (list Fault)) (nd : MockTronNode) : MockTronNode :=
  mkNode (nd_solidity_lag nd) (nd_inclusion_delay nd) (nd_signer nd) (nd_head nd)
    (nd_block_time nd) (nd_txs nd) faults (nd_broadcast_log nd).

Definition with_txs (txs : list (pystr * TxRecord)) (nd : MockTronNode) : MockTronNode :=
  mkNode (nd_solidity_lag nd) (nd_inclusion_delay nd) (nd_signer nd) (nd_head nd)
    (nd_block_time nd) txs (nd_faults nd) (nd_broadcast_log nd).

Definition logit (txid outcome : pystr) (worker : option pystr) (nd : MockTronNode) : MockTronNode :=
  mkNode (nd_solidity_lag nd) (nd_inclusion_delay nd) (nd_signer nd) (nd_head nd)
    (nd_block_time nd) (nd_txs nd) (nd_faults nd)
    (nd_broadcast_log nd ++ [mkLogEntry txid outcome (nd_head nd) worker]).

(** ** Fault scripting *)

Definition script (channel : pystr) (faults : list Fault) (nd : MockTronNode) : MockTronNode :=
  with_faults (<[channel := default [] (nd_faults nd !! channel) ++ faults]> (nd_faults nd)) nd.

(** [_take_fault]: [self._faults[channel]] raises [KeyError] when missing. *)
Definition take_fault (channel : pystr) (nd : MockTronNode)
    : result exn (option Fault) * MockTronNode :=
  match nd_faults nd !! channel with
  | None => (Err KeyError, nd)
  | Some [] => (Ok None, nd)
  | Some (f :: q) => (Ok (Some f), with_faults (<[channel := q]> (nd_faults nd)) nd)
  end.

(** [_pop_revert]. *)
Definition pop_revert (faults : gmap pystr (list Fault)) : bool * gmap pystr (list Fault) :=
  match default [] (faults !! str "receipt") with
  | REVERT_RECEIPT :: q => (true, <[str "receipt" := q]> faults)
  | q => (false, <[str "receipt" := q]> faults)
  end.

(** ** Chain geometry *)

Definition solid_block (nd : MockTronNode) : Z := nd_head nd - nd_solidity_lag nd.

Fixpoint block_time_at (h : Z) (bt : list (Z * Z)) : option Z :=
  match bt with
  | [] => None
  | (h', t) :: bt => if h' =? h then Some t else block_time_at h bt
  end.

Fixpoint zmax (l : list Z) : option Z :=
  match l with
  | [] => None
  | x :: l => Some (match zmax l with Some y => Z.max x y | None => x end)
  end.

Fixpoint zmin (l : list Z) : option Z :=
  match l with
  | [] => None
  | x :: l => Some (match zmin l with Some y => Z.min x y | None => x end)
  end.

Definition heights (nd : MockTronNode) : list Z := map fst (nd_block_time nd).

(** ["%016x"]. *)
Definition hex16 (n : Z) : pystr :=
  map (fun i => hex_digit (Z.shiftr n (4 * Z.of_nat i) mod 16)) (rev (seq 0 16)).

(** [ref_block()]: the number and the hash; [min] of nothing is a [ValueError]. *)
Definition ref_block (nd : MockTronNode) : result exn (Z * pystr) :=
  match zmin (heights nd) with
  | None => Err ValueError
  | Some lo => let n := Z.max (solid_block nd) lo in Ok (n, str "blk" ++ hex16 n)
  end.

(** [solid_now()]: the time of the highest block at or below the solid height,
    or of the first block of a chain younger than the lag. *)
Definition solid_height (nd : MockTronNode) : option Z :=
  match zmax (filter (fun h => h <= solid_block nd) (heights nd)) with
  | Some h => Some h
  | None => zmin (heights nd)
  end.

Definition solid_now (nd : MockTronNode) : result exn Z :=
  match solid_height nd with
  | None => Err ValueError
  | Some h => match block_time_at h (nd_block_time nd) with
              | Some t => Ok t
              | None => Err KeyError
              end
  end.

(** ** Block production *)

(** The body of the loop over [self._txs.values()] for one record. *)
Definition include_one (head t delay : Z) (rec : TxRecord) (faults : gmap pystr (list Fault))
    : TxRecord * gmap pystr (list Fault) :=
  match tr_included_block rec with
  | Some _ => (rec, faults)
  | None =>
      if stx_expiration (tr_tx rec) <=? t then (rec, faults)
      else if delay <=? head - tr_accepted_at_block rec then
        let '(revert, faults) := pop_revert faults in
        (mkTxRecord (tr_tx rec) (tr_accepted_at_block rec) (Some head)
           (Some (if revert then str "REVERTED" else str "SUCCESS")), faults)
      else (rec, faults)
  end.

Fixpoint include_all (head t delay : Z) (txs : list (pystr * TxRecord))
    (faults : gmap pystr (list Fault)) : list (pystr * TxRecord) * gmap pystr (list Fault) :=
  match txs with
  | [] => ([], faults)
  | (txid, rec) :: txs =>
      let '(rec, faults) := include_one head t delay rec faults in
      let '(txs, faults) := include_all head t delay txs faults in
      ((txid, rec) :: txs, faults)
  end.

(** One iteration of [produce_blocks]. *)
Definition produce_block (now : Z) (nd : MockTronNode) : result exn MockTronNode :=
  match block_time_at (nd_head nd) (nd_block_time nd) with
  | None => Err KeyError
  | Some prev =>
      let t := if now <=? prev then prev + 1000 else now in
      let head := nd_head nd + 1 in
      let '(txs, faults) := include_all head t (nd_inclusion_delay nd) (nd_txs nd) (nd_faults nd) in
      Ok (with_chain head ((head, t) :: nd_block_time nd) txs faults nd)
  end.

Fixpoint produce_blocks (n : nat) (now : Z) (nd : MockTronNode) : result exn MockTronNode :=
  match n with
  | O => Ok nd
  | S n => result_bind (produce_block now nd) (produce_blocks n now)
  end.

Definition solidify (now : Z) (nd : MockTronNode) : result exn MockTronNode :=
  produce_blocks (Z.to_nat (nd_solidity_lag nd + nd_inclusion_delay nd + 1)) now nd.

(** ** Node API *)

Definition find_rec (txid : pystr) (nd : MockTronNode) : option TxRecord := assoc txid (nd_txs nd).

(** [broadcast] after the fault was taken. *)
Definition broadcast_body (now : Z) (tx : SignedTx) (worker_id : option pystr)
    (fault : option Fault) (nd : MockTronNode) : result exn BroadcastResult * MockTronNode :=
  let log outcome nd := logit (stx_txid tx) outcome worker_id nd in
  let answer code message := Ok (mkBroadcastResult (BroadcastCode_value code) message) in
  if bool_decide (fault = Some TIMEOUT_DROPPED) then
    (Err NodeTimeout, log (str "timeout-dropped") nd)
  else if bool_decide (fault = Some BUSY) then
    (answer SERVER_BUSY (str "try later"), log (str "busy") nd)
  else if bool_decide (fault = Some UNKNOWN_CODE) then
    (Ok (mkBroadcastResult (str "PLEASE_INSERT_COIN") (str "novel failure mode")),
     log (str "unknown-code") nd)
  else if negb (verify (nd_signer nd) tx) then
    (answer SIGERROR (str "bad signature"), log (str "rejected:SIGERROR") nd)
  else if stx_expiration tx <=? now then
    (answer TRANSACTION_EXPIRATION_ERROR (str "expired"), log (str "rejected:EXPIRED") nd)
  else if bool_decide (is_Some (find_rec (stx_txid tx) nd)) then
    (answer DUP_TRANSACTION (str "already known"), log (str "dup") nd)
  else
    let nd := with_txs (nd_txs nd ++ [(stx_txid tx, mkTxRecord tx (nd_head nd) None None)]) nd in
    if bool_decide (fault = Some TIMEOUT_ACCEPTED) then
      (Err NodeTimeout, log (str "timeout-accepted") nd)
    else (answer SUCCESS [], log (str "accepted") nd).

Definition broadcast (now : Z) (tx : SignedTx) (worker_id : option pystr) (nd : MockTronNode)
    : result exn BroadcastResult * MockTronNode :=
  match take_fault (str "broadcast") nd with
  | (Err e, nd) => (Err e, nd)
  | (Ok fault, nd) => broadcast_body now tx worker_id fault nd
  end.

(** [find_tx] after the fault was taken. *)
Definition tx_status (now : Z) (txid : pystr) (nd : MockTronNode) : TxStatus :=
  match find_rec txid nd with
  | None => mkTxStatus UNKNOWN None false None
  | Some rec =>
      match tr_included_block rec with
      | None => if stx_expiration (tr_tx rec) <=? now then mkTxStatus UNKNOWN None false None
                else mkTxStatus PENDING None false None
      | Some b => mkTxStatus INCLUDED (Some b) (b <=? solid_block nd) (tr_receipt rec)
      end
  end.

Definition find_tx (now : Z) (txid : pystr) (nd : MockTronNode)
    : result exn TxStatus * MockTronNode :=
  match take_fault (str "query") nd with
  | (Err e, nd) => (Err e, nd)
  | (Ok fault, nd) =>
      if bool_decide (fault = Some QUERY_TIMEOUT) then (Err NodeTimeout, nd)
      else (Ok (tx_status now txid nd), nd)
  end.

(** ** Forensics *)

Definition is_included (rec : TxRecord) : bool := bool_decide (is_Some (tr_included_block rec)).

Definition is_success (rec : TxRecord) : bool :=
  is_included rec && bool_decide (tr_receipt rec = Some (str "SUCCESS")).

Definition included_txids (nd : MockTronNode) : list pystr :=
  map fst (filter (fun tr => is_included (snd tr) = true) (nd_txs nd)).

Definition successful_txids (nd : MockTronNode) : list pystr :=
  map fst (filter (fun tr => is_success (snd tr) = true) (nd_txs nd)).

Definition accepted_count (txid : pystr) (nd : MockTronNode) : nat :=
  length (filter (fun e => bl_txid e = txid /\
                           bl_outcome e ∈ [str "accepted"; str "timeout-accepted"])
                 (nd_broadcast_log nd)).

(** [int(s)] of a string [str(int)] printed. *)
Definition int_of_str (s : pystr) : option Z :=
  match s with
  | c :: s' =>
      if c =? 45 then (if bool_decide (s' <> []) && forallb is_digit s'
                       then Z.opp <$> int_of_digits s' else None)
      else if forallb is_digit s then int_of_digits s else None
  | [] => None
  end.

Definition tx_amount (txid : pystr) (nd : MockTronNode) : result exn Z :=
  match find_rec txid nd with
  | None => Err KeyError
  | Some rec =>
      match get_item (str "contract") (stx_raw_data (tr_tx rec)) with
      | Err e => Err e
      | Ok contract =>
          match get_str (str "amount_units") contract with
          | Err e => Err e
          | Ok s => match int_of_str s with Some z => Ok z | None => Err ValueError end
          end
      end
  end.

(** ** Lemmas on the transaction table *)

Lemma assoc_elem {A : Type} (k : pystr) (m : list (pystr * A)) (v : A) :
  assoc k m = Some v -> (k, v) ∈ m.
Proof.
  induction m as [|[k' v'] m IH]; simpl; [done |].
  destruct (decide (k' = k)) as [-> |]; [intros [= ->]; left | intros H; right; auto].
Qed.

Lemma assoc_elem_NoDup {A : Type} (k : pystr) (m : list (pystr * A)) (v : A) :
  NoDup m.*1 -> (k, v) ∈ m -> assoc k m = Some v.
Proof.
  induction m as [|[k' v'] m IH]; simpl; intros Hnd Hin; [by apply elem_of_nil in Hin |].
  apply NoDup_cons in Hnd as [Hk Hnd]. apply elem_of_cons in Hin as [[= <- <-] | Hin].
  - by rewrite decide_True.
  - rewrite decide_False; [by apply IH |]. intros ->. apply Hk, list_elem_of_fmap. by exists (k, v).
Qed.

Lemma assoc_None {A : Type} (k : pystr) (m : list (pystr * A)) : assoc k m = None <-> k ∉ m.*1.
Proof.
  induction m as [|[k' v'] m IH]; simpl; [split; [intros _; apply not_elem_of_nil | done] |].
  rewrite not_elem_of_cons. destruct (decide (k' = k)); [split; [done | intros []; congruence] |].
  rewrite IH. split; [intros H; split; [congruence | done] | by intros []].
Qed.

Lemma assoc_app {A : Type} (k : pystr) (m1 m2 : list (pystr * A)) :
  assoc k (m1 ++ m2) = match assoc k m1 with Some v => Some v | None => assoc k m2 end.
Proof.
  induction m1 as [|[k' v'] m1 IH]; simpl; [done |]. by destruct (decide (k' = k)).
Qed.

(** One record before and after a block at height [head] and time [t]. *)
Inductive mined (head t delay : Z) (rec : TxRecord) : TxRecord -> Prop :=
| not_mined : mined head t delay rec rec
| now_mined (receipt : pystr) :
    tr_included_block rec = None -> t < stx_expiration (tr_tx rec) ->
    delay <= head - tr_accepted_at_block rec ->
    mined head t delay rec
      (mkTxRecord (tr_tx rec) (tr_accepted_at_block rec) (Some head) (Some receipt)).

Lemma include_one_mined (head t delay : Z) (rec : TxRecord) (faults : gmap pystr (list Fault)) :
  mined head t delay rec (fst (include_one head t delay rec faults)).
Proof.
  unfold include_one. destruct (tr_included_block rec) eqn:E; [constructor |].
  destruct (Z.leb_spec (stx_expiration (tr_tx rec)) t); [constructor |].
  destruct (Z.leb_spec delay (head - tr_accepted_at_block rec)); [| constructor].
  destruct (pop_revert faults) as [revert faults']. by constructor.
Qed.

Lemma include_all_mined (head t delay : Z) (txs : list (pystr * TxRecord))
    (faults : gmap pystr (list Fault)) :
  Forall2 (fun a b => fst b = fst a /\ mined head t delay (snd a) (snd b))
          txs (fst (include_all head t delay txs faults)).
Proof.
  revert faults. induction txs as [|[txid rec] txs IH]; intros faults; simpl; [constructor |].
  pose proof (include_one_mined head t delay rec faults) as Hone.
  destruct (include_one head t delay rec faults) as [rec' faults'].
  specialize (IH faults'). destruct (include_all head t delay txs faults') as [txs' faults''].
  by constructor.
Qed.

Lemma Forall2_keys {A : Type} (R : A -> A -> Prop) (m m' : list (pystr * A)) :
  Forall2 (fun a b => fst b = fst a /\ R (snd a) (snd b)) m m' -> m'.*1 = m.*1.
Proof. induction 1 as [|a b ? ? [E _] ? IH]; [done |]. rewrite !fmap_cons, IH. by rewrite E. Qed.

Lemma assoc_Forall2 {A : Type} (R : A -> A -> Prop) (m m' : list (pystr * A)) (k : pystr) :
  Forall2 (fun a b => fst b = fst a /\ R (snd a) (snd b)) m m' ->
  match assoc k m, assoc k m' with
  | Some a, Some b => R a b
  | None, None => True
  | _, _ => False
  end.
Proof.
  induction 1 as [|[k1 a] [k2 b] ? ? [E HR] ? IH]; simpl in *; [done |]. subst k2.
  by destruct (decide (k1 = k)).
Qed.

(** ** The node invariant *)

(** Heights without gaps, block times strictly rising, latest block first. *)
Fixpoint chain_ok (bt : list (Z * Z)) : Prop :=
  match bt with
  | [] => False
  | [_] => True
  | (h, t) :: (((h', t') :: _) as rest) => h = h' + 1 /\ t' < t /\ chain_ok rest
  end.

Definition head_time (nd : MockTronNode) : Z :=
  match nd_block_time nd with
  | [] => 0
  | (_, t) :: _ => t
  end.

Record rec_wf (nd : MockTronNode) (txid : pystr) (rec : TxRecord) : Prop := {
  rec_txid : stx_txid (tr_tx rec) = txid;
  rec_verified : verify (nd_signer nd) (tr_tx rec) = true;
  rec_accepted : tr_accepted_at_block rec <= nd_head nd;
  rec_mined : forall b, tr_included_block rec = Some b ->
    tr_accepted_at_block rec < b <= nd_head nd /\ is_Some (tr_receipt rec) /\
    exists t, block_time_at b (nd_block_time nd) = Some t /\ t < stx_expiration (tr_tx rec);
  rec_pending : tr_included_block rec = None -> tr_receipt rec = None
}.

Record node_wf (nd : MockTronNode) : Prop := {
  nw_chain : chain_ok (nd_block_time nd);
  nw_head : fst <$> head (nd_block_time nd) = Some (nd_head nd);
  nw_keys : NoDup (nd_txs nd).*1;
  nw_recs : forall txid rec, find_rec txid nd = Some rec -> rec_wf nd txid rec;
  nw_once : forall txid, accepted_count txid nd = if decide (is_Some (find_rec txid nd)) then 1%nat else 0%nat;
  nw_channels : is_Some (nd_faults nd !! str "broadcast") /\ is_Some (nd_faults nd !! str "query")
}.

(** Any node operation, at any time and with any argument. *)
Inductive node_step (nd : MockTronNode) : MockTronNode -> Prop :=
| step_script (channel : pystr) (faults : list Fault) : node_step nd (script channel faults nd)
| step_produce (now : Z) (nd' : MockTronNode) : produce_block now nd = Ok nd' -> node_step nd nd'
| step_broadcast (now : Z) (tx : SignedTx) (worker_id : option pystr) :
    node_step nd (snd (broadcast now tx worker_id nd))
| step_find (now : Z) (txid : pystr) : node_step nd (snd (find_tx now txid nd)).

Lemma chain_ok_bounds (h0 t0 : Z) (bt : list (Z * Z)) (h t : Z) :
  chain_ok ((h0, t0) :: bt) -> (h, t) ∈ (h0, t0) :: bt -> h <= h0 /\ t <= t0.
Proof.
  revert h0 t0. induction bt as [|[h1 t1] bt IH]; intros h0 t0 Hc Hin.
  - apply list_elem_of_singleton in Hin as [= -> ->]. lia.
  - destruct Hc as (-> & Ht & Hc). apply elem_of_cons in Hin as [[= -> ->] | Hin]; [lia |].
    specialize (IH _ _ Hc Hin). lia.
Qed.

Lemma block_time_at_elem (h t : Z) (bt : list (Z * Z)) : block_time_at h bt = Some t -> (h, t) ∈ bt.
Proof.
  induction bt as [|[h' t'] bt IH]; simpl; [done |].
  destruct (Z.eqb_spec h' h) as [-> |]; [intros [= ->]; left | intros H; right; auto].
Qed.

Lemma head_time_max (nd : MockTronNode) (h t : Z) :
  node_wf nd -> block_time_at h (nd_block_time nd) = Some t -> h <= nd_head nd /\ t <= head_time nd.
Proof.
  intros Hwf H%block_time_at_elem. pose proof (nw_chain _ Hwf) as Hc. pose proof (nw_head _ Hwf) as Hh.
  unfold head_time. destruct (nd_block_time nd) as [|[h0 t0] bt]; [done |].
  injection Hh as <-. by apply (chain_ok_bounds h0 t0 bt).
Qed.

Lemma head_time_at (nd : MockTronNode) :
  node_wf nd -> block_time_at (nd_head nd) (nd_block_time nd) = Some (head_time nd).
Proof.
  intros Hwf. pose proof (nw_head _ Hwf) as Hh. pose proof (nw_chain _ Hwf) as Hc. unfold head_time.
  destruct (nd_block_time nd) as [|[h0 t0] bt]; [done |]. injection Hh as <-. simpl.
  by rewrite Z.eqb_refl.
Qed.

(** The solid time is some block's time, so never past the head's. *)
Lemma solid_now_le (nd : MockTronNode) (t : Z) :
  node_wf nd -> solid_now nd = Ok t -> t <= head_time nd.
Proof.
  intros Hwf. unfold solid_now. destruct (solid_height nd) as [h |]; [| done].
  destruct (block_time_at h (nd_block_time nd)) as [t' |] eqn:E; [| done]. intros [= <-].
  by apply head_time_max in E as [_ ?].
Qed.

(** ** How the operations change the node *)

Definition same_chain (nd nd' : MockTronNode) : Prop :=
  nd_head nd' = nd_head nd /\ nd_block_time nd' = nd_block_time nd /\ nd_signer nd' = nd_signer nd /\
  nd_solidity_lag nd' = nd_solidity_lag nd /\ nd_inclusion_delay nd' = nd_inclusion_delay nd.

Definition channels_kept (nd nd' : MockTronNode) : Prop :=
  forall c, is_Some (nd_faults nd !! c) -> is_Some (nd_faults nd' !! c).

(** The node keeps its table and logs at most an attempt it did not accept. *)
Definition not_accepting (nd nd' : MockTronNode) : Prop :=
  same_chain nd nd' /\ channels_kept nd nd' /\ nd_txs nd' = nd_txs nd /\
  (forall txid, accepted_count txid nd' = accepted_count txid nd).

(** The node takes [tx] in, once. *)
Definition accepting (now : Z) (tx : SignedTx) (nd nd' : MockTronNode) : Prop :=
  same_chain nd nd' /\ channels_kept nd nd' /\ find_rec (stx_txid tx) nd = None /\
  verify (nd_signer nd) tx = true /\ now < stx_expiration tx /\
  nd_txs nd' = nd_txs nd ++ [(stx_txid tx, mkTxRecord tx (nd_head nd) None None)] /\
  (forall txid, accepted_count txid nd' =
     (accepted_count txid nd + if decide (txid = stx_txid tx) then 1 else 0)%nat).

Lemma accepted_count_logit (txid txid' outcome : pystr) (worker : option pystr) (nd : MockTronNode) :
  accepted_count txid (logit txid' outcome worker nd) =
  (accepted_count txid nd +
   if decide (txid' = txid /\ outcome ∈ [str "accepted"; str "timeout-accepted"]) then 1 else 0)%nat.
Proof.
  unfold accepted_count, logit. simpl. rewrite filter_app, length_app, filter_cons, filter_nil. simpl.
  destruct (decide _); reflexivity.
Qed.

Lemma refusing_logit (txid outcome : pystr) (worker : option pystr) (nd : MockTronNode) :
  bool_decide (outcome ∈ [str "accepted"; str "timeout-accepted"]) = false ->
  not_accepting nd (logit txid outcome worker nd).
Proof.
  intros Ho%bool_decide_eq_false. split_and!; try done; [by intros c Hc |].
  intros txid'. rewrite accepted_count_logit, decide_False; [lia | by intros []].
Qed.

Lemma accepting_logit (now : Z) (tx : SignedTx) (outcome : pystr) (worker : option pystr)
    (nd : MockTronNode) :
  bool_decide (outcome ∈ [str "accepted"; str "timeout-accepted"]) = true ->
  find_rec (stx_txid tx) nd = None -> verify (nd_signer nd) tx = true -> now < stx_expiration tx ->
  accepting now tx nd (logit (stx_txid tx) outcome worker
    (with_txs (nd_txs nd ++ [(stx_txid tx, mkTxRecord tx (nd_head nd) None None)]) nd)).
Proof.
  intros Ho%bool_decide_eq_true ? ? ?. split_and!; try done; [by intros c Hc |].
  intros txid'. rewrite accepted_count_logit. f_equal.
  destruct (decide (txid' = stx_txid tx)); [rewrite decide_True by done | rewrite decide_False by (intros []; congruence)]; done.
Qed.

Lemma take_fault_nd (channel : pystr) (nd : MockTronNode) :
  not_accepting nd (snd (take_fault channel nd)).
Proof.
  unfold take_fault. destruct (nd_faults nd !! channel) as [[|f q] |] eqn:E; simpl;
    (split_and!; try done; try by intros c Hc). intros c Hc. simpl.
  destruct (decide (c = channel)) as [-> |]; [rewrite lookup_insert_eq; by eexists |].
  by rewrite lookup_insert_ne.
Qed.

Lemma not_accepting_trans (nd1 nd2 nd3 : MockTronNode) :
  not_accepting nd1 nd2 -> not_accepting nd2 nd3 -> not_accepting nd1 nd3.
Proof.
  intros (Hs1 & Hc1 & Ht1 & Hn1) (Hs2 & Hc2 & Ht2 & Hn2).
  unfold not_accepting, same_chain, channels_kept in *. destruct_and!.
  split_and!; try congruence; auto.
Qed.

Lemma accepting_after (now : Z) (tx : SignedTx) (nd1 nd2 nd3 : MockTronNode) :
  not_accepting nd1 nd2 -> accepting now tx nd2 nd3 -> accepting now tx nd1 nd3.
Proof.
  intros (Hs1 & Hc1 & Ht1 & Hn1) (Hs2 & Hc2 & Hf & Hv & He & Ht2 & Hn2).
  unfold accepting, same_chain, channels_kept, find_rec in *. destruct_and!.
  rewrite Ht1 in *. split_and!; try congruence; auto. intros txid. by rewrite Hn2, Hn1.
Qed.

(** Every outcome of a broadcast; a hard reject means a signature that does
    not verify, and an accepted answer means the node holds the txid. *)
Lemma broadcast_cases (now : Z) (tx : SignedTx) (worker_id : option pystr) (nd : MockTronNode) :
  let '(r, nd') := broadcast now tx worker_id nd in
  (not_accepting nd nd' \/ accepting now tx nd nd') /\
  (forall res, r = Ok res -> br_code res ∈ HARD_REJECT -> verify (nd_signer nd) tx = false).
Proof.
  unfold broadcast. pose proof (take_fault_nd (str "broadcast") nd) as Ht.
  destruct (take_fault (str "broadcast") nd) as [[fault | e] nd1]; simpl in Ht; [| split; [by left | done]].
  pose proof Ht as ((_ & _ & Esig & _) & _ & Etxs & _).
  unfold broadcast_body.
  assert (forall outcome, bool_decide (outcome ∈ [str "accepted"; str "timeout-accepted"]) = false ->
    not_accepting nd (logit (stx_txid tx) outcome worker_id nd1)) as Hno.
  { intros outcome Ho. eapply not_accepting_trans; [exact Ht | by apply refusing_logit]. }
  assert (forall (res : BroadcastResult) code msg, Ok (mkBroadcastResult code msg) = Ok (E := exn) res ->
    br_code res ∈ HARD_REJECT -> bool_decide (code ∈ HARD_REJECT) = true) as Hhard.
  { intros res code msg [= <-] H. by apply bool_decide_eq_true. }
  do 3 (case_bool_decide; [split; [left; by apply Hno | intros res E Hr; by (done || specialize (Hhard _ _ _ E Hr))] |]).
  destruct (verify (nd_signer nd1) tx) eqn:Ev; simpl.
  2:{ split; [left; by apply Hno | intros; congruence]. }
  destruct (Z.leb_spec (stx_expiration tx) now).
  { split; [left; by apply Hno | intros res E Hr; by specialize (Hhard _ _ _ E Hr)]. }
  case_bool_decide as Hf.
  { split; [left; by apply Hno | intros res E Hr; by specialize (Hhard _ _ _ E Hr)]. }
  assert (find_rec (stx_txid tx) nd1 = None) as Hn by (by apply eq_None_not_Some).
  case_bool_decide; (split; [right; eapply accepting_after; [exact Ht | by apply accepting_logit] |]).
  - done.
  - intros res E Hr. by specialize (Hhard _ _ _ E Hr).
Qed.

Lemma find_tx_nd (now : Z) (txid : pystr) (nd : MockTronNode) :
  not_accepting nd (snd (find_tx now txid nd)) /\
  forall st, fst (find_tx now txid nd) = Ok st -> st = tx_status now txid (snd (find_tx now txid nd)).
Proof.
  unfold find_tx. pose proof (take_fault_nd (str "query") nd) as Ht.
  destruct (take_fault (str "query") nd) as [[fault | e] nd1]; simpl in *; [| by split].
  case_bool_decide; simpl; (split; [done |]); [done | by intros st [= <-]].
Qed.

(** A new block: one height up, strictly later, never before the clock. *)
Definition new_block (now t : Z) (nd nd' : MockTronNode) : Prop :=
  nd_head nd' = nd_head nd + 1 /\ nd_block_time nd' = (nd_head nd + 1, t) :: nd_block_time nd /\
  head_time nd < t /\ now <= t /\ nd_signer nd' = nd_signer nd /\
  nd_broadcast_log nd' = nd_broadcast_log nd /\
  Forall2 (fun a b => fst b = fst a /\ mined (nd_head nd + 1) t (nd_inclusion_delay nd) (snd a) (snd b))
          (nd_txs nd) (nd_txs nd') /\
  channels_kept nd nd'.

Lemma include_all_channels (head t delay : Z) (txs : list (pystr * TxRecord))
    (faults : gmap pystr (list Fault)) (c : pystr) :
  is_Some (faults !! c) -> is_Some (snd (include_all head t delay txs faults) !! c).
Proof.
  revert faults. induction txs as [|[txid rec] txs IH]; intros faults Hc; simpl; [done |].
  assert (is_Some (snd (include_one head t delay rec faults) !! c)) as Hone.
  { unfold include_one. destruct (tr_included_block rec); [done |]. destruct (_ <=? t); [done |].
    destruct (delay <=? _); [| done]. unfold pop_revert.
    assert (forall q : list Fault, is_Some (<[str "receipt" := q]> faults !! c)) as Hq.
    { intros q. destruct (decide (str "receipt" = c)) as [-> |];
        [rewrite lookup_insert_eq; by eexists | by rewrite lookup_insert_ne]. }
    destruct (default [] _) as [|[] ?]; apply Hq. }
  destruct (include_one head t delay rec faults) as [rec' faults']. specialize (IH faults' Hone).
  by destruct (include_all head t delay txs faults').
Qed.

Lemma produce_block_spec (now : Z) (nd : MockTronNode) :
  node_wf nd -> exists nd' t, produce_block now nd = Ok nd' /\ new_block now t nd nd'.
Proof.
  intros Hwf. unfold produce_block. rewrite (head_time_at _ Hwf).
  set (t := if now <=? head_time nd then _ else _).
  assert (head_time nd < t /\ now <= t) as [Ht1 Ht2] by (unfold t; destruct (Z.leb_spec now (head_time nd)); lia).
  pose proof (include_all_mined (nd_head nd + 1) t (nd_inclusion_delay nd) (nd_txs nd) (nd_faults nd)) as Hm.
  pose proof (include_all_channels (nd_head nd + 1) t (nd_inclusion_delay nd) (nd_txs nd) (nd_faults nd)) as Hc.
  destruct (include_all _ _ _ _ _) as [txs faults]. simpl in *.
  eexists _, t. split; [done |]. split_and!; try done.
Qed.

Lemma new_block_wf (now t : Z) (nd nd' : MockTronNode) :
  new_block now t nd nd' -> node_wf nd -> node_wf nd'.
Proof.
  intros (Hh & Hb & Ht & _ & Hs & Hl & Htx & Hc) Hwf. split.
  - rewrite Hb. pose proof (nw_chain _ Hwf) as Hch. pose proof (nw_head _ Hwf) as Hhd.
    unfold head_time in Ht. destruct (nd_block_time nd) as [|[h0 t0] bt]; [done |].
    injection Hhd as <-. done.
  - by rewrite Hb, Hh.
  - rewrite (Forall2_keys _ _ _ Htx). apply Hwf.
  - intros txid rec' Hr. pose proof (assoc_Forall2 _ _ _ txid Htx) as Ha. unfold find_rec in Hr.
    rewrite Hr in Ha. destruct (assoc txid (nd_txs nd)) as [rec |] eqn:E; [| done].
    destruct (nw_recs _ Hwf _ _ E) as [H1 H2 H3 H4 H5].
    assert (forall b, nd_head nd < b -> block_time_at b (nd_block_time nd) = None) as Hfresh.
    { intros b Hlt. destruct (block_time_at b _) eqn:Eb; [| done].
      apply head_time_max in Eb as [? _]; [lia | done]. }
    destruct Ha as [| receipt Hi Hexp Hd]; (split; simpl; rewrite ?Hs, ?Hh, ?Hb; try done; try lia).
    + intros b Hib. destruct (H4 b Hib) as (? & ? & tb & Htb & Hlt). split_and!; [lia.. | done |].
      exists tb. split; [| done]. simpl. destruct (Z.eqb_spec (nd_head nd + 1) b); [lia | done].
    + intros b [= <-]. split_and!; [lia.. | by eexists |]. exists t. simpl. by rewrite Z.eqb_refl.
  - intros txid. pose proof (nw_once _ Hwf txid) as Ho. unfold accepted_count in *. rewrite Hl, Ho.
    pose proof (assoc_Forall2 _ _ _ txid Htx) as Ha. unfold find_rec.
    by destruct (assoc txid (nd_txs nd)), (assoc txid (nd_txs nd')).
  - destruct (nw_channels _ Hwf). split; by apply Hc.
Qed.

Lemma rec_wf_chain (nd nd' : MockTronNode) (txid : pystr) (rec : TxRecord) :
  same_chain nd nd' -> rec_wf nd txid rec -> rec_wf nd' txid rec.
Proof.
  intros (E1 & E2 & E3 & _) [H1 H2 H3 H4 H5]. split; rewrite ?E1, ?E2, ?E3; done.
Qed.

Lemma not_accepting_wf (nd nd' : MockTronNode) : not_accepting nd nd' -> node_wf nd -> node_wf nd'.
Proof.
  intros (Hs & Hc & Ht & Ha) Hwf. pose proof Hs as (E1 & E2 & _). split; rewrite ?E1, ?E2, ?Ht; try apply Hwf.
  - intros txid rec. unfold find_rec. rewrite Ht. intros Hr.
    by eapply rec_wf_chain, (nw_recs _ Hwf).
  - intros txid. unfold find_rec. rewrite Ha, Ht. apply (nw_once _ Hwf).
  - destruct (nw_channels _ Hwf). split; by apply Hc.
Qed.

Lemma accepting_find (now : Z) (tx : SignedTx) (nd nd' : MockTronNode) (txid : pystr) :
  accepting now tx nd nd' ->
  find_rec txid nd' = if decide (stx_txid tx = txid) then Some (mkTxRecord tx (nd_head nd) None None)
                      else find_rec txid nd.
Proof.
  intros (_ & _ & Hn & _ & _ & Ht & _). unfold find_rec in *. rewrite Ht, assoc_app. simpl.
  destruct (decide (stx_txid tx = txid)) as [<- |]; [by rewrite Hn |]. by destruct (assoc txid (nd_txs nd)).
Qed.

Lemma accepting_wf (now : Z) (tx : SignedTx) (nd nd' : MockTronNode) :
  accepting now tx nd nd' -> node_wf nd -> node_wf nd'.
Proof.
  intros Hacc Hwf. pose proof (fun t => accepting_find now tx nd nd' t Hacc) as Hfind.
  destruct Hacc as (Hs & Hc & Hn & Hv & _ & Ht & Ha). pose proof Hs as (E1 & E2 & E3 & _).
  split; rewrite ?E1, ?E2; try apply Hwf.
  - rewrite Ht, fmap_app. apply NoDup_app. split_and!; [apply Hwf | | apply NoDup_singleton].
    intros t Hin Hin'. apply list_elem_of_singleton in Hin'. simpl in Hin'. subst t.
    by apply assoc_None in Hn.
  - intros txid rec. rewrite Hfind. destruct (decide (stx_txid tx = txid)) as [<- |].
    + intros [= <-]. split; simpl; rewrite ?E1, ?E3; done || lia.
    + intros Hr. by eapply rec_wf_chain, (nw_recs _ Hwf).
  - intros txid. rewrite Ha, (nw_once _ Hwf), Hfind.
    destruct (decide (stx_txid tx = txid)) as [<- |].
    + rewrite Hn, decide_False, !decide_True by (done || by eexists || by intros []). done.
    + rewrite (decide_False (P := txid = _)) by congruence. lia.
  - destruct (nw_channels _ Hwf). split; by apply Hc.
Qed.

Lemma script_nd (channel : pystr) (faults : list Fault) (nd : MockTronNode) :
  not_accepting nd (script channel faults nd).
Proof.
  split_and!; try done. intros c Hc. simpl.
  destruct (decide (channel = c)) as [-> |]; [rewrite lookup_insert_eq; by eexists | by rewrite lookup_insert_ne].
Qed.

Lemma node_step_wf (nd nd' : MockTronNode) : node_step nd nd' -> node_wf nd -> node_wf nd'.
Proof.
  intros [channel faults | now nd1 Hp | now tx worker | now txid] Hwf.
  - eapply not_accepting_wf, Hwf. apply script_nd.
  - destruct (produce_block_spec now nd Hwf) as (nd2 & t & E & Hb). rewrite E in Hp.
    injection Hp as <-. by eapply new_block_wf.
  - pose proof (broadcast_cases now tx worker nd) as H. destruct (broadcast _ _ _ _) as [r nd1].
    destruct H as [[H | H] _]; eauto using not_accepting_wf, accepting_wf.
  - eapply not_accepting_wf, Hwf. apply find_tx_nd.
Qed.

Lemma new_node_wf (now lag delay : Z) (signer : MockSigner) : node_wf (new_node now lag delay signer).
Proof.
  split; simpl; try done; apply NoDup_nil_2.
Qed.

Lemma node_steps_wf (nd nd' : MockTronNode) : rtc node_step nd nd' -> node_wf nd -> node_wf nd'.
Proof. induction 1; eauto using node_step_wf. Qed.

(** How one record evolves: kept as it is, or mined before its expiration. *)
Lemma node_step_head (nd nd' : MockTronNode) :
  node_wf nd -> node_step nd nd' -> head_time nd <= head_time nd'.
Proof.
  assert (forall nd', same_chain nd nd' -> head_time nd <= head_time nd') as Hsame.
  { intros nd2 (_ & E & _). unfold head_time. rewrite E. lia. }
  intros Hwf [channel faults | now nd1 Hp | now tx worker | now txid].
  - apply Hsame, script_nd.
  - destruct (produce_block_spec now nd Hwf) as (nd2 & t & E & _ & Hb & Ht & _). rewrite E in Hp.
    injection Hp as <-. unfold head_time in *. rewrite Hb. simpl. lia.
  - pose proof (broadcast_cases now tx worker nd) as H. destruct (broadcast _ _ _ _) as [r nd1].
    destruct H as [[H | H] _]; apply Hsame, H.
  - apply Hsame, find_tx_nd.
Qed.

Lemma node_step_rec (nd nd' : MockTronNode) (txid : pystr) (rec : TxRecord) :
  node_wf nd -> node_step nd nd' -> find_rec txid nd' = Some rec -> is_included rec = true ->
  stx_expiration (tr_tx rec) <= head_time nd -> find_rec txid nd = Some rec.
Proof.
  intros Hwf Hstep Hr Hi Hexp.
  assert (not_accepting nd nd' -> find_rec txid nd = Some rec) as Hsame.
  { intros (_ & _ & Ht & _). unfold find_rec in *. by rewrite <- Ht. }
  destruct Hstep as [channel faults | now nd1 Hp | now tx worker | now txid'].
  - apply Hsame, script_nd.
  - destruct (produce_block_spec now nd Hwf) as (nd2 & t & E & _ & _ & Ht & _ & _ & _ & Htx & _).
    rewrite E in Hp. injection Hp as <-. pose proof (assoc_Forall2 _ _ _ txid Htx) as Ha.
    unfold find_rec in *. rewrite Hr in Ha. destruct (assoc txid (nd_txs nd)); [| done].
    destruct Ha as [| receipt ? ? ?]; [done | simpl in *; lia].
  - pose proof (broadcast_cases now tx worker nd) as H. destruct (broadcast _ _ _ _) as [r nd1].
    destruct H as [[H | H] _]; [by apply Hsame |]. simpl in Hr.
    rewrite (accepting_find _ _ _ _ txid H) in Hr. destruct (decide _); [| done].
    injection Hr as <-. done.
  - apply Hsame, find_tx_nd.
Qed.

Lemma node_steps_rec (nd nd' : MockTronNode) (txid : pystr) (rec : TxRecord) :
  node_wf nd -> rtc node_step nd nd' -> find_rec txid nd' = Some rec -> is_included rec = true ->
  stx_expiration (tr_tx rec) <= head_time nd -> find_rec txid nd = Some rec.
Proof.
  intros Hwf Hsteps Hr Hi. induction Hsteps as [nd | nd nd1 nd' Hs Hss IH]; intros Hexp; [done |].
  pose proof (node_step_head _ _ Hwf Hs). apply (node_step_rec nd nd1); try done.
  apply IH; [by eapply node_step_wf | done | lia].
Qed.

(** ** Properties *)



(** C19. The rebuild proof rests on this: once the solid chain time has reached
    a transaction's expiration, no future of the node includes it.  Any
    transaction with that expiration that is on chain later was on chain,
    with the same block and receipt, when the solid time was read. *)
Theorem death_is_final (now lag delay t : Z) (signer : MockSigner) (nd nd' : MockTronNode)
    (txid : pystr) (rec : TxRecord) :
  rtc node_step (new_node now lag delay signer) nd -> solid_now nd = Ok t ->
  rtc node_step nd nd' -> find_rec txid nd' = Some rec ->
  stx_expiration (tr_tx rec) <= t -> is_included rec = true ->
  find_rec txid nd = Some rec.
Proof.
  intros H Ht Hs Hr Hexp Hi. pose proof (node_steps_wf _ _ H (new_node_wf now lag delay signer)) as Hwf.
  pose proof (solid_now_le _ _ Hwf Ht). apply (node_steps_rec nd nd'); try done. lia.
Qed.

(** A chain with one mined transfer, its solid time past the expiration. *)
Definition demo_tx : SignedTx :=
  sign default_signer (mkUnsignedTx JNull (compute_txid JNull) 5000).
Definition demo_block (now : Z) (nd : MockTronNode) : MockTronNode :=
  match produce_block now nd with Ok nd' => nd' | Err _ => nd end.

Lemma demo_block_steps (now : Z) (nd : MockTronNode) : rtc node_step nd (demo_block now nd).
Proof.
  unfold demo_block. destruct (produce_block now nd) eqn:E; [| apply rtc_refl].
  by eapply rtc_once, step_produce.
Qed.

Definition demo_sent : MockTronNode := snd (broadcast 0 demo_tx None (new_node 0 2 1 default_signer)).
Definition demo_mined : MockTronNode := demo_block 1000 demo_sent.
Definition demo_solid : MockTronNode :=
  demo_block 9000 (demo_block 8000 (demo_block 7000 (demo_block 6000 demo_mined))).

Lemma death_is_final_witness :
  find_rec (stx_txid demo_tx) demo_solid =
  Some (mkTxRecord demo_tx 1000 (Some 1001) (Some (str "SUCCESS"))).
Proof.
  apply (death_is_final 0 2 1 7000 default_signer demo_solid demo_solid).
  - eapply rtc_l; [exact (step_broadcast _ 0 demo_tx None) |].
    unfold demo_solid. do 5 (eapply rtc_trans; [| apply demo_block_steps]). apply rtc_refl.
  - vm_compute. reflexivity.
  - apply rtc_refl.
  - vm_compute. reflexivity.
  - vm_compute. discriminate.
  - vm_compute. reflexivity.
Defined.
