(* ===== verification/Chain.v ===== *)
(** * Runs of blocks

    What [produce_blocks] and [solidify] do to a well-formed node: the head and
    its time, the blocks in between, the solid time afterwards, and what becomes
    of every record: mined or expired ones stay as they are, and one whose
    expiration is after the last new block is on chain once its delay is over. *)
From Stdlib Require Import ZArith Lia.
From stdpp Require Import base option strings gmap list.
From S2P Require Import Prelude Text Json Hash Datetime States Wire Node.

Local Open Scope Z_scope.

(** ** One block *)

(** [mined], as an equation. *)
Definition block_for (head t delay : Z) (rec : TxRecord) : option Z :=
  match tr_included_block rec with
  | Some b => Some b
  | None => if stx_expiration (tr_tx rec) <=? t then None
            else if delay <=? head - tr_accepted_at_block rec then Some head else None
  end.

Definition passed (head t delay : Z) (rec rec' : TxRecord) : Prop :=
  tr_tx rec' = tr_tx rec /\ tr_accepted_at_block rec' = tr_accepted_at_block rec /\
  tr_included_block rec' = block_for head t delay rec /\
  (is_Some (tr_included_block rec) \/ stx_expiration (tr_tx rec) <= t -> rec' = rec).

Lemma include_all_passed (head t delay : Z) (txs : list (pystr * TxRecord)) (faults : gmap pystr (list Fault)) :
  Forall2 (fun a b => fst b = fst a /\ passed head t delay (snd a) (snd b))
          txs (fst (include_all head t delay txs faults)).
Proof.
  revert faults. induction txs as [|[txid rec] txs IH]; intros faults; simpl; [constructor |].
  assert (passed head t delay rec (fst (include_one head t delay rec faults))) as Hone.
  { unfold include_one, passed, block_for. destruct (tr_included_block rec) as [b |] eqn:Eb; [cbn; by rewrite ?Eb |].
    destruct (Z.leb_spec (stx_expiration (tr_tx rec)) t); [cbn; by rewrite ?Eb |].
    destruct (delay <=? _); [| cbn; by rewrite ?Eb]. destruct (pop_revert faults). cbn.
    split_and!; try done. intros [[? ?] | ?]; [done | lia]. }
  destruct (include_one head t delay rec faults) as [rec' faults']. specialize (IH faults').
  destruct (include_all head t delay txs faults'). by constructor.
Qed.

Lemma include_all_faults (head t delay : Z) (txs : list (pystr * TxRecord)) (faults : gmap pystr (list Fault))
    (c : pystr) :
  c <> str "receipt" -> snd (include_all head t delay txs faults) !! c = faults !! c.
Proof.
  intros Hc. revert faults. induction txs as [|[txid rec] txs IH]; intros faults; simpl; [done |].
  assert (snd (include_one head t delay rec faults) !! c = faults !! c) as Hone.
  { unfold include_one. destruct (tr_included_block rec); [done |]. destruct (_ <=? t); [done |].
    destruct (delay <=? _); [| done]. unfold pop_revert.
    destruct (default [] _) as [|[] ?]; cbn; by rewrite lookup_insert_ne. }
  destruct (include_one head t delay rec faults) as [rec' faults']. specialize (IH faults').
  cbn in Hone. rewrite Hone in IH. by destruct (include_all head t delay txs faults').
Qed.

(** ** Many blocks *)

(** No later than this, [n] blocks on. *)
Definition by_then (n : nat) (now : Z) (nd : MockTronNode) : Z :=
  Z.max now (head_time nd) + 1000 * Z.of_nat n.

(** What [n] blocks make of one record. *)
Definition waited (n : nat) (now : Z) (nd : MockTronNode) (rec rec' : TxRecord) : Prop :=
  tr_tx rec' = tr_tx rec /\
  (is_Some (tr_included_block rec) \/ stx_expiration (tr_tx rec) <= now -> rec' = rec) /\
  (tr_included_block rec = None -> by_then n now nd < stx_expiration (tr_tx rec) ->
   match tr_included_block rec' with
   | Some b => b <= Z.max (nd_head nd + 1) (tr_accepted_at_block rec + nd_inclusion_delay nd)
   | None => n = 0%nat \/ nd_head nd + Z.of_nat n < tr_accepted_at_block rec + nd_inclusion_delay nd
   end).

Record grew (n : nat) (now : Z) (nd nd' : MockTronNode) : Prop := {
  gw_wf : node_wf nd';
  gw_head : nd_head nd' = nd_head nd + Z.of_nat n;
  gw_lag : nd_solidity_lag nd' = nd_solidity_lag nd;
  gw_delay : nd_inclusion_delay nd' = nd_inclusion_delay nd;
  gw_faults : forall c, c <> str "receipt" -> nd_faults nd' !! c = nd_faults nd !! c;
  gw_time : head_time nd' <= by_then n now nd;
  gw_kept : forall k t, block_time_at k (nd_block_time nd) = Some t -> block_time_at k (nd_block_time nd') = Some t;
  gw_blocks : forall k, nd_head nd < k <= nd_head nd' ->
    exists t, block_time_at k (nd_block_time nd') = Some t /\ now <= t;
  gw_recs : forall txid rec, find_rec txid nd = Some rec ->
    exists rec', find_rec txid nd' = Some rec' /\ waited n now nd rec rec';
  gw_none : forall txid, find_rec txid nd = None -> find_rec txid nd' = None
}.

Lemma grew_0 (now : Z) (nd : MockTronNode) : node_wf nd -> grew 0 now nd nd.
Proof.
  intros Hwf. split; try done; [lia | unfold by_then; lia | intros k Hk; lia |].
  intros txid rec Hr. exists rec. split; [done |]. split_and!; try done. intros -> _. by left.
Qed.

Lemma grew_1 (now : Z) (nd : MockTronNode) :
  node_wf nd -> exists nd' t, produce_block now nd = Ok nd' /\ grew 1 now nd nd' /\
  (now <= t <= by_then 1 now nd) /\
  forall txid rec rec', find_rec txid nd = Some rec -> find_rec txid nd' = Some rec' ->
    passed (nd_head nd + 1) t (nd_inclusion_delay nd) rec rec'.
Proof.
  intros Hwf. destruct (produce_block_spec now nd Hwf) as (nd' & t & E & Hb). exists nd'.
  pose proof (new_block_wf _ _ _ _ Hb Hwf) as Hwf'. destruct Hb as (H1 & H2 & H3 & H4 & H5 & _). exists t.
  split; [exact E |]. unfold produce_block in E. rewrite (head_time_at _ Hwf) in E.
  set (t' := if now <=? head_time nd then _ else _) in E.
  assert (t' <= by_then 1 now nd) as Ht by (unfold t', by_then; destruct (Z.leb_spec now (head_time nd)); lia).
  pose proof (include_all_passed (nd_head nd + 1) t' (nd_inclusion_delay nd) (nd_txs nd) (nd_faults nd)) as Hp.
  pose proof (include_all_faults (nd_head nd + 1) t' (nd_inclusion_delay nd) (nd_txs nd) (nd_faults nd)) as Hf.
  destruct (include_all _ _ _ _ _) as [txs faults]. cbn [fst snd] in *. injection E as <-.
  cbn [with_chain nd_block_time] in H2. clearbody t'. injection H2 as ->.
  assert (forall txid rec rec', find_rec txid nd = Some rec -> assoc txid txs = Some rec' ->
    passed (nd_head nd + 1) t (nd_inclusion_delay nd) rec rec') as Hrec.
  { intros txid rec rec' Hr Hr'. pose proof (assoc_Forall2 _ _ _ txid Hp) as Ha. unfold find_rec in Hr.
    by rewrite Hr, Hr' in Ha. }
  split; [| split; [lia | exact Hrec]]. split; try done; cbn [with_chain nd_head nd_block_time block_time_at head_time].
  - intros k tk Hk. destruct (Z.eqb_spec (nd_head nd + 1) k) as [<- |]; [| done].
    apply head_time_max in Hk as [? _]; [lia | done].
  - intros k Hk. exists t. rewrite (proj2 (Z.eqb_eq _ _)) by lia. by split.
  - intros txid rec Hr. pose proof (assoc_Forall2 _ _ _ txid Hp) as Ha. unfold find_rec in Hr. rewrite Hr in Ha.
    unfold find_rec. cbn [with_chain nd_txs]. destruct (assoc txid txs) as [rec' |] eqn:Er; [| done].
    exists rec'. split; [done |]. destruct Ha as (P1 & P2 & P3 & P4). split_and!; [done | |].
    + intros [? | ?]; apply P4; [by left | right; lia].
    + intros Hi Hlt. rewrite P3. unfold block_for. rewrite Hi, (proj2 (Z.leb_gt _ _)) by lia.
      destruct (Z.leb_spec (nd_inclusion_delay nd) (nd_head nd + 1 - tr_accepted_at_block rec)); [lia | right; lia].
  - intros txid Hr. pose proof (assoc_Forall2 _ _ _ txid Hp) as Ha. unfold find_rec in *. rewrite Hr in Ha.
    cbn [with_chain nd_txs]. by destruct (assoc txid txs).
Qed.

Lemma by_then_step (n : nat) (now : Z) (nd nd1 : MockTronNode) :
  grew 1 now nd nd1 -> by_then n now nd1 <= by_then (S n) now nd.
Proof. intros H. pose proof (gw_time _ _ _ _ H). unfold by_then in *. lia. Qed.

Lemma waited_step (n : nat) (now t : Z) (nd nd1 : MockTronNode) (rec rec1 rec2 : TxRecord) :
  grew 1 now nd nd1 -> now <= t <= by_then 1 now nd ->
  passed (nd_head nd + 1) t (nd_inclusion_delay nd) rec rec1 -> waited n now nd1 rec1 rec2 ->
  waited (S n) now nd rec rec2.
Proof.
  intros Hg Ht (P1 & P2 & P3 & P4) (W1 & W2 & W3). pose proof (by_then_step n _ _ _ Hg) as Hb.
  pose proof (gw_head _ _ _ _ Hg) as Hh. pose proof (gw_delay _ _ _ _ Hg) as Hd.
  split_and!; [congruence | |].
  - intros H. assert (rec1 = rec) as -> by (apply P4; destruct H; [by left | right; lia]). by apply W2.
  - intros Hi Hlt. assert (by_then 1 now nd <= by_then (S n) now nd) by (unfold by_then; lia).
    unfold block_for in P3. rewrite Hi, (proj2 (Z.leb_gt _ _)) in P3 by lia.
    destruct (Z.leb_spec (nd_inclusion_delay nd) (nd_head nd + 1 - tr_accepted_at_block rec)).
    + rewrite W2 by (left; by eexists). rewrite P3. lia.
    + rewrite P1, P2, Hh, Hd in W3. specialize (W3 P3 ltac:(lia)).
      destruct (tr_included_block rec2); [lia |]. right. destruct W3 as [-> | W3]; lia.
Qed.

Lemma produce_blocks_grew (n : nat) (now : Z) (nd : MockTronNode) :
  node_wf nd -> exists nd', produce_blocks n now nd = Ok nd' /\ grew n now nd nd'.
Proof.
  revert nd. induction n as [|n IH]; intros nd Hwf; [exists nd; split; [done | by apply grew_0] |].
  destruct (grew_1 now nd Hwf) as (nd1 & t & E1 & G1 & Ht & Hp).
  destruct (IH nd1 (gw_wf _ _ _ _ G1)) as (nd2 & E2 & G2). exists nd2. cbn [produce_blocks]. rewrite E1.
  split; [done |]. pose proof (by_then_step n _ _ _ G1) as Hb. destruct G1, G2.
  split; try congruence; try lia; auto.
  - intros c Hc. rewrite gw_faults1 by done. auto.
  - intros k Hk. destruct (Z_le_gt_dec k (nd_head nd1)) as [Hle |]; [| apply gw_blocks1; lia].
    destruct (gw_blocks0 k) as (tk & Htk & Hle'); [lia |]. exists tk. auto.
  - intros txid rec Hr. destruct (gw_recs0 _ _ Hr) as (rec1 & Hr1 & _).
    destruct (gw_recs1 _ _ Hr1) as (rec2 & Hr2 & W2). exists rec2. split; [done |].
    eapply (waited_step n now t nd nd1 rec rec1); [by split | done | by eapply Hp | done].
Qed.

(** ** The solid time *)

Lemma zmax_spec (l : list Z) :
  match zmax l with
  | Some m => m ∈ l /\ forall x, x ∈ l -> x <= m
  | None => l = []
  end.
Proof.
  induction l as [|y l IH]; cbn [zmax]; [done |]. destruct (zmax l) as [m |].
  - destruct IH as [Hm Hle]. split; [destruct (Z.max_spec y m) as [[_ ->] | [_ ->]]; [by right | left] |].
    intros x [-> | Hx]%elem_of_cons; [lia |]. specialize (Hle x Hx). lia.
  - subst l. split; [left |]. intros x ->%list_elem_of_singleton. lia.
Qed.

(** With all of the lag produced, the solid block is one of the new ones. *)
Lemma grew_solid (n : nat) (now : Z) (nd nd' : MockTronNode) :
  grew n now nd nd' -> 0 <= nd_solidity_lag nd < Z.of_nat n ->
  exists t, solid_now nd' = Ok t /\ now <= t <= by_then n now nd.
Proof.
  intros G Hn. pose proof (gw_head _ _ _ _ G) as Hh. pose proof (gw_lag _ _ _ _ G) as Hl.
  destruct (gw_blocks _ _ _ _ G (solid_block nd')) as (t & Ht & Hle); [unfold solid_block; lia |].
  assert (solid_height nd' = Some (solid_block nd')) as Hs.
  { unfold solid_height. pose proof (zmax_spec (filter (fun h => h <= solid_block nd') (heights nd'))) as Hz.
    assert (solid_block nd' ∈ filter (fun h => h <= solid_block nd') (heights nd')) as Hin.
    { apply list_elem_of_filter. split; [lia |]. unfold heights. apply block_time_at_elem in Ht.
      apply list_elem_of_fmap. by exists (solid_block nd', t). }
    destruct (zmax _) as [m |]; [| rewrite Hz in Hin; by apply elem_of_nil in Hin].
    destruct Hz as [Hm Hmax]. apply list_elem_of_filter in Hm as [Hm _]. specialize (Hmax _ Hin). f_equal. lia. }
  exists t. unfold solid_now. rewrite Hs, Ht. split; [done |]. split; [done |].
  apply head_time_max in Ht as [_ ?]; [| apply G]. pose proof (gw_time _ _ _ _ G). lia.
Qed.

Lemma wf_ref_block (nd : MockTronNode) : node_wf nd -> exists ref, ref_block nd = Ok ref.
Proof.
  intros Hwf. pose proof (nw_chain _ Hwf) as Hc. unfold ref_block, heights.
  destruct (nd_block_time nd) as [|[h t] bt]; [done |]. by eexists.
Qed.
