(* ===== verification/Effects.v ===== *)
(** * The world and atomic calls

    A worker touches shared state only through calls that the source makes
    atomic with a lock: the store's operations, the node's operations, a clock
    reading and a crash point.  Worker code is a program over these calls; the
    same program runs alone ([run]) or interleaved with other workers call by
    call ([System]).  [sluice/crashpoints.py] is modelled here. *)
From Stdlib Require Import ZArith Lia.
From stdpp Require Import base option strings gmap list.
From S2P Require Import Prelude Text Json Datetime States Wire Model Store Node.

Local Open Scope Z_scope.

(** ** Crash points *)

Record CrashSwitch : Type := mkCrash {
  cs_armed : gmap pystr Z;
  cs_tripped : list pystr
}.

Definition no_crash : CrashSwitch := mkCrash ∅ [].

Definition arm (point : pystr) (times : Z) (c : CrashSwitch) : CrashSwitch :=
  mkCrash (<[point := default 0 (cs_armed c !! point) + times]> (cs_armed c)) (cs_tripped c).

Definition here (point : pystr) (c : CrashSwitch) : result exn unit * CrashSwitch :=
  let n := default 0 (cs_armed c !! point) in
  if 0 <? n then
    (Err (SimulatedCrash point), mkCrash (<[point := n - 1]> (cs_armed c)) (cs_tripped c ++ [point]))
  else (Ok tt, c).

Definition SIGN_MID : pystr := str "sign.between_build_and_sign".
Definition BROADCAST_PRE_SEND : pystr := str "broadcast.pre_send".
Definition BROADCAST_POST_SEND : pystr := str "broadcast.post_send".
Definition CONFIRM_PRE_WRITE : pystr := str "confirm.pre_write".

(** ** The world *)

Record World : Type := mkWorld {
  w_now : Z;
  w_store : MemoryStore;
  w_node : MockTronNode;
  w_crash : CrashSwitch
}.

Definition with_store (st : MemoryStore) (w : World) : World :=
  mkWorld (w_now w) st (w_node w) (w_crash w).
Definition with_node (nd : MockTronNode) (w : World) : World :=
  mkWorld (w_now w) (w_store w) nd (w_crash w).
Definition with_crash (c : CrashSwitch) (w : World) : World :=
  mkWorld (w_now w) (w_store w) (w_node w) c.
Definition with_now (now : Z) (w : World) : World :=
  mkWorld now (w_store w) (w_node w) (w_crash w).

(** ** Calls *)

Inductive call : Type -> Type :=
| CNow : call Z
| CCas (id token : Z) (from_state to_state : OpState) (sets : list FieldSet)
       (detail : list (pystr * jval)) (renew : option Z) (worker_id : option pystr)
    : call (option Operation)
| CClaim (wanted : list OpState) (limit : nat) (worker_id : pystr) (lease now : Z)
    : call (list Operation)
| CRelease (id token : Z) : call unit
| CRefBlock : call (Z * pystr)
| CFindTx (txid : pystr) : call TxStatus
| CBroadcast (tx : SignedTx) (worker_id : option pystr) : call BroadcastResult
| CSolidNow : call Z
| CSolidBlock : call Z
| CCrash (point : pystr) : call unit.

Definition exec {X : Type} (c : call X) (w : World) : result exn X * World :=
  match c in call X return result exn X * World with
  | CNow => (Ok (w_now w), w)
  | CCas id token from_state to_state sets detail renew worker_id =>
      let '(r, st) := cas (w_now w) id token from_state to_state sets detail renew worker_id
                          (w_store w) in
      (r, with_store st w)
  | CClaim wanted limit worker_id lease now =>
      let '(r, st) := claim wanted limit worker_id lease now (w_store w) in
      (r, with_store st w)
  | CRelease id token => (Ok tt, with_store (release (w_now w) id token (w_store w)) w)
  | CRefBlock => (ref_block (w_node w), w)
  | CFindTx txid => let '(r, nd) := find_tx (w_now w) txid (w_node w) in (r, with_node nd w)
  | CBroadcast tx worker_id =>
      let '(r, nd) := broadcast (w_now w) tx worker_id (w_node w) in (r, with_node nd w)
  | CSolidNow => (solid_now (w_node w), w)
  | CSolidBlock => (Ok (solid_block (w_node w)), w)
  | CCrash point => let '(r, c) := here point (w_crash w) in (r, with_crash c w)
  end.

(** The calls that go to the store. *)
Definition store_call {X : Type} (c : call X) : bool :=
  match c with
  | CCas _ _ _ _ _ _ _ _ | CClaim _ _ _ _ _ | CRelease _ _ => true
  | _ => false
  end.

(** ** Programs *)

Inductive prog (A : Type) : Type :=
| Done (r : result exn A)
| Vis (X : Type) (c : call X) (k : result exn X -> prog A).
Arguments Done {A} r.
Arguments Vis {A X} c k.

Definition ret {A : Type} (a : A) : prog A := Done (Ok a).
Definition raise {A : Type} (e : exn) : prog A := Done (Err e).

Fixpoint bind {A B : Type} (p : prog A) (f : A -> prog B) : prog B :=
  match p with
  | Done (Ok a) => f a
  | Done (Err e) => Done (Err e)
  | Vis c k => Vis c (fun r => bind (k r) f)
  end.

(** The result of [p], exceptions included: what a [try] statement inspects. *)
Fixpoint attempt {A : Type} (p : prog A) : prog (result exn A) :=
  match p with
  | Done r => Done (Ok r)
  | Vis c k => Vis c (fun r => attempt (k r))
  end.

(** A call whose exception propagates. *)
Definition perform {X : Type} (c : call X) : prog X := Vis c (fun r => Done r).

(** A computed result inside a program. *)
Definition lift {A : Type} (r : result exn A) : prog A := Done r.

Fixpoint run {A : Type} (p : prog A) (w : World) : result exn A * World :=
  match p with
  | Done r => (r, w)
  | Vis c k => let '(r, w') := exec c w in run (k r) w'
  end.

Declare Scope prog_scope.
Delimit Scope prog_scope with prog.
Notation "x ← p ; q" := (bind p (fun x => q))
  (at level 20, p at level 100, q at level 200, only parsing) : prog_scope.
Notation "p ;; q" := (bind p (fun _ => q))
  (at level 100, q at level 200, right associativity, only parsing) : prog_scope.

Lemma run_bind {A B : Type} (p : prog A) (f : A -> prog B) (w : World) :
  run (bind p f) w =
  match run p w with
  | (Ok a, w') => run (f a) w'
  | (Err e, w') => (Err e, w')
  end.
Proof.
  revert w. induction p as [[a | e] | X c k IH]; intros w; simpl; try done.
  destruct (exec c w) as [r w']. apply IH.
Qed.

Lemma run_attempt {A : Type} (p : prog A) (w : World) :
  run (attempt p) w = let '(r, w') := run p w in (Ok r, w').
Proof.
  revert w. induction p as [r | X c k IH]; intros w; simpl; [done |].
  destruct (exec c w) as [r w']. apply IH.
Qed.
