(* ===== verification/Pipeline.v ===== *)
(** * The per-state handlers ([sluice/pipeline.py])

    Every handler of [Pipeline] as a program over the atomic calls of
    [Effects]: each call to the store, the node, the clock and the crash
    switch is one [Vis] node, in the order the source makes it, so another
    worker can act between any two of them.  Logging is left out. *)
From Stdlib Require Import ZArith Lia.
From stdpp Require Import base option strings gmap list.
From S2P Require Import Prelude Text Json Datetime States Address Wire Model Store Node Effects.

Local Open Scope Z_scope.
Local Open Scope prog_scope.

Section pipeline.
Context (cfg : Config) (signer : MockSigner).

(** [_cas]: a fenced write that renews the lease, or [LostClaim]. *)
Definition _cas (op : Operation) (to_state : OpState) (worker_id : pystr)
    (sets : list FieldSet) (detail : list (pystr * jval)) : prog Operation :=
  updated ← perform (CCas (op_operation_id op) (op_fencing_token op) (op_state op) to_state
                          sets detail (Some (cfg_lease cfg)) (Some worker_id));
  match updated with
  | None => raise LostClaim
  | Some row => ret row
  end.

Definition _validate (op : Operation) (worker_id : pystr) : prog Operation :=
  if negb (is_valid (JStr (op_to_address op))) then
    _cas op REJECTED worker_id
      [Set_failure_reason (Some (str "invalid destination address"))] []
  else if negb (bool_decide (op_asset op = cfg_asset cfg)) then
    _cas op REJECTED worker_id
      [Set_failure_reason (Some (str "unsupported asset " ++ op_asset op))] []
  else if negb ((cfg_min_amount_units cfg <=? op_amount_units op) &&
                (op_amount_units op <=? cfg_max_amount_units cfg)) then
    _cas op REJECTED worker_id [Set_failure_reason (Some (str "amount out of bounds"))] []
  else _cas op VALIDATED worker_id [] [].

(** The dict literals of [_build_and_sign]. *)
Definition contract_of (op : Operation) : jval :=
  JObj [(str "type", JStr (str "TriggerSmartContract"));
        (str "contract_address", JStr (cfg_usdt_contract cfg));
        (str "call", JStr (str "transfer(address,uint256)"));
        (str "to", JStr (op_to_address op));
        (str "amount_units", JStr (str_of_int (op_amount_units op)))].

Definition raw_data_of (op : Operation) (ref : Z * pystr) (now expiration : Z) : jval :=
  JObj [(str "contract", contract_of op);
        (str "ref_block_num", JInt (fst ref));
        (str "ref_block_hash", JStr (snd ref));
        (str "timestamp_ms", JInt (to_ms now));
        (str "expiration_ms", JInt (to_ms expiration))].

Definition unsigned_of (op : Operation) (ref : Z * pystr) (now expiration : Z) : UnsignedTx :=
  let raw_data := raw_data_of op ref now expiration in
  mkUnsignedTx raw_data (compute_txid raw_data) expiration.

(** [_build_and_sign] from the attempts check on. *)
Definition build_envelope (op : Operation) (worker_id : pystr) : prog Operation :=
  if cfg_max_build_attempts cfg <=? op_attempts op then
    _cas op FAILED worker_id
      [Set_failure_reason
         (Some (str "gave up after " ++ str_of_int (op_attempts op) ++ str " build attempts"))] []
  else
    ref ← perform CRefBlock;
    now ← perform CNow;
    expiration ← lift (plus_timedelta now (cfg_tx_ttl cfg));
    let unsigned := unsigned_of op ref now expiration in
    op ← _cas op SIGNING worker_id
           [Set_unsigned_tx (Some (utx_raw_data unsigned));
            Set_txid (Some (utx_txid unsigned));
            Set_tx_expiration (Some (utx_expiration unsigned));
            Set_signed_tx None]
           [(str "txid", JStr (utx_txid unsigned)); (str "reason", JStr (str "envelope built"))];
    perform (CCrash SIGN_MID) ;;
    _cas op SIGNED worker_id [Set_signed_tx (Some (to_json (sign signer unsigned)))] [].

Definition _build_and_sign (op : Operation) (worker_id : pystr) : prog Operation :=
  if bool_decide (op_state op = VALIDATED) then
    op ← _cas op SIGNING worker_id [] [];
    build_envelope op worker_id
  else build_envelope op worker_id.

(** [_rebuild]; an empty or missing [evidence] is recorded as [{}]. *)
Definition _rebuild (op : Operation) (worker_id : pystr) (reason : pystr)
    (evidence : list (pystr * jval)) : prog Operation :=
  _cas op SIGNING worker_id
    [Set_attempts (op_attempts op + 1); Set_last_error (Some reason);
     Set_signed_tx None; Set_unsigned_tx None; Set_txid None; Set_tx_expiration None]
    [(str "retired_txid", JOptStr (op_txid op)); (str "reason", JStr reason);
     (str "expiry_evidence", JObj evidence)].

Definition _settle_broadcast_result (op : Operation) (worker_id : pystr) (signed : SignedTx)
    (result : BroadcastResult) : prog Operation :=
  let code := br_code result in
  let sent := [(str "txid", JStr (stx_txid signed)); (str "code", JStr code)] in
  if bool_decide (code ∈ ACCEPTED) then
    now ← perform CNow;
    _cas op BROADCAST worker_id [Set_broadcast_at (Some now)] sent
  else if bool_decide (code ∈ HARD_REJECT) then
    _cas op FAILED worker_id [Set_failure_reason (Some (str "node rejected: " ++ code))] sent
  else if bool_decide (code ∈ STALE_ENVELOPE) then
    _cas op BROADCASTING worker_id
      [Set_last_error (Some (str "node says " ++ code ++ str "; awaiting proof"))] sent
  else if bool_decide (code ∈ RETRY_SAME_BYTES) then ret op
  else
    _cas op BROADCASTING worker_id
      [Set_last_error (Some (str "unclassified node response: " ++ code))]
      (sent ++ [(str "classified", JStr (str "ambiguous"))]).

(** [try: r = call except NodeTimeout: return op]; other exceptions propagate. *)
Definition or_timeout {X : Type} (c : call X) (op : Operation) (k : X -> prog Operation)
    : prog Operation :=
  r ← attempt (perform c);
  match r with
  | Ok x => k x
  | Err NodeTimeout => ret op
  | Err e => raise e
  end.

Definition _broadcast (op : Operation) (worker_id : pystr) : prog Operation :=
  signed ← lift (from_json (op_signed_tx op));
  now ← perform CNow;
  if stx_expiration signed <=? now then
    _rebuild op worker_id (str "expired before first send")
      [(str "rule", JStr (str "never-broadcast envelope; local expiry check"))]
  else
    op ← _cas op BROADCASTING worker_id []
           [(str "txid", JStr (stx_txid signed)); (str "reason", JStr (str "write-ahead"))];
    perform (CCrash BROADCAST_PRE_SEND) ;;
    or_timeout (CBroadcast signed (Some worker_id)) op (fun result =>
      perform (CCrash BROADCAST_POST_SEND) ;;
      _settle_broadcast_result op worker_id signed result).

Definition _proof_of_death (signed : SignedTx) : prog (bool * list (pystr * jval)) :=
  solid_time ← perform CSolidNow;
  deadline ← lift (plus_timedelta (stx_expiration signed) (cfg_expiration_safety cfg));
  solid ← perform CSolidBlock;
  ret (deadline <=? solid_time,
       [(str "solid_chain_time", JStr (isoformat solid_time));
        (str "solid_block", JInt solid);
        (str "tx_expiration", JStr (isoformat (stx_expiration signed)));
        (str "safety_margin_s", JFloat (cfg_expiration_safety_repr cfg));
        (str "node_lookup", JStr (str "unknown"))]).

(** [op.broadcast_at or self.cfg.clock.now()]. *)
Definition broadcast_at_or_now (op : Operation) : prog Z :=
  match op_broadcast_at op with
  | Some t => ret t
  | None => perform CNow
  end.

Definition _reconcile_broadcast (op : Operation) (worker_id : pystr) : prog Operation :=
  signed ← lift (from_json (op_signed_tx op));
  or_timeout (CFindTx (stx_txid signed)) op (fun status =>
    if bool_decide (st_result status ∈ [INCLUDED; PENDING]) then
      at_ ← broadcast_at_or_now op;
      _cas op BROADCAST worker_id [Set_broadcast_at (Some at_)]
        [(str "txid", JStr (stx_txid signed)); (str "via", JStr (str "reconcile"));
         (str "found", JStr (TxQuery_value (st_result status)))]
    else
      death ← _proof_of_death signed;
      if negb (fst death) then
        or_timeout (CBroadcast signed (Some worker_id)) op
          (_settle_broadcast_result op worker_id signed)
      else _rebuild op worker_id (str "expired unseen; provably dead") (snd death)).

Definition _await_confirmation (op : Operation) (worker_id : pystr) : prog Operation :=
  signed ← lift (from_json (op_signed_tx op));
  or_timeout (CFindTx (stx_txid signed)) op (fun status =>
    match st_result status with
    | INCLUDED =>
        if negb (st_solid status) then ret op
        else
          perform (CCrash CONFIRM_PRE_WRITE) ;;
          if bool_decide (st_receipt status = Some (str "SUCCESS")) then
            now ← perform CNow;
            _cas op CONFIRMED worker_id
              [Set_included_block (st_block status); Set_confirmed_at (Some now)]
              [(str "txid", JStr (stx_txid signed)); (str "block", JOptInt (st_block status))]
          else
            _cas op FAILED worker_id
              [Set_included_block (st_block status);
               Set_failure_reason (Some (str "transaction reverted on chain"))]
              [(str "txid", JStr (stx_txid signed)); (str "receipt", JOptStr (st_receipt status))]
    | PENDING => ret op
    | UNKNOWN =>
        death ← _proof_of_death signed;
        if (fst death : bool) then
          _rebuild op worker_id (str "accepted but never mined; expired") (snd death)
        else ret op
    end).

(** [step]: dispatch by state; a terminal state is not in the dict. *)
Definition step (op : Operation) (worker_id : pystr) : prog Operation :=
  match op_state op with
  | REQUESTED => _validate op worker_id
  | VALIDATED | SIGNING => _build_and_sign op worker_id
  | SIGNED => _broadcast op worker_id
  | BROADCASTING => _reconcile_broadcast op worker_id
  | BROADCAST => _await_confirmation op worker_id
  | CONFIRMED | FAILED | REJECTED => raise KeyError
  end.

End pipeline.
