(* ===== verification/Worker.v ===== *)
(** * The worker loop ([sluice/worker.py])

    [run_once], [_drive], [run_forever] and [drain] as programs over the atomic
    calls.  The wait of an idle [run_forever] touches nothing shared: time passes
    between any two calls in [System] anyway. *)
From Stdlib Require Import ZArith Lia.
From stdpp Require Import base option strings gmap list.
From S2P Require Import Prelude Text Json Datetime States Wire Model Store Node Effects Pipeline.

Local Open Scope Z_scope.
Local Open Scope prog_scope.

Definition MAX_STEPS_PER_CLAIM : nat := 8.

Section worker.
Context (cfg : Config) (signer : MockSigner).

(** What [_drive] does after the loop. *)
Definition release_after (op : Operation) (advanced : Z) : prog Z :=
  perform (CRelease (op_operation_id op) (op_fencing_token op)) ;;
  ret advanced.

(** The [except Exception] branch: a best-effort breadcrumb, then the release. *)
Definition breadcrumb (op : Operation) (worker_id : pystr) (advanced : Z) : prog Z :=
  perform (CCas (op_operation_id op) (op_fencing_token op) (op_state op) (op_state op)
                [Set_last_error (Some (str "handler exception (see logs)"))] [] None
                (Some worker_id)) ;;
  release_after op advanced.

(** The [for] loop of [_drive] with [n] iterations left, inside its [try]. *)
Fixpoint drive_loop (n : nat) (op : Operation) (worker_id : pystr) (advanced : Z) : prog Z :=
  match n with
  | O => release_after op advanced
  | S n =>
      r ← attempt (step cfg signer op worker_id);
      match r with
      | Ok op' =>
          let moved := negb (bool_decide (op_state op' = op_state op)) in
          let advanced := if moved then 1 else advanced in
          if bool_decide (op_state op' ∈ TERMINAL) then ret 1
          else if negb moved then release_after op' advanced
          else drive_loop n op' worker_id advanced
      | Err LostClaim => ret advanced
      | Err e => if is_Exception e then breadcrumb op worker_id advanced else raise e
      end
  end.

Definition _drive (op : Operation) (worker_id : pystr) : prog Z :=
  drive_loop MAX_STEPS_PER_CLAIM op worker_id 0.

(** [sum(self._drive(op) for op in ops)]. *)
Fixpoint drive_all (ops : list Operation) (worker_id : pystr) : prog Z :=
  match ops with
  | [] => ret 0
  | op :: ops =>
      a ← _drive op worker_id;
      b ← drive_all ops worker_id;
      ret (a + b)
  end.

(** [claim] reads the clock before it takes the store's lock. *)
Definition run_once (worker_id : pystr) : prog Z :=
  now ← perform CNow;
  ops ← perform (CClaim CLAIMABLE (cfg_claim_batch cfg) worker_id (cfg_lease cfg) now);
  drive_all ops worker_id.

(** One turn of [run_forever]: an exception of the pass counts as an idle turn. *)
Definition turn (worker_id : pystr) : prog Z :=
  r ← attempt (run_once worker_id);
  match r with
  | Ok touched => ret touched
  | Err e => if is_Exception e then ret 0 else raise e
  end.

(** [run_forever] when [stop()] is seen after [n] turns. *)
Fixpoint run_forever (n : nat) (worker_id : pystr) : prog unit :=
  match n with
  | O => ret tt
  | S n => turn worker_id ;; run_forever n worker_id
  end.

(** [drain]: [false] is its [RuntimeError]. *)
Fixpoint drain_cycles (n : nat) (worker_id : pystr) : prog bool :=
  match n with
  | O => ret false
  | S n =>
      touched ← run_once worker_id;
      if touched =? 0 then ret true else drain_cycles n worker_id
  end.

Definition drain (worker_id : pystr) : prog bool := drain_cycles 1000 worker_id.

End worker.
