(* ===== verification/Discipline.v ===== *)
(** * What a worker writes

    Every call the programs of [Pipeline] and [Worker] can make, whatever other
    workers, the node and the clock do.  The answers are arbitrary but
    [honest]: a store hands back a row in the state it was asked to write, or
    in one of the states a claim asked for.  Under such answers every write is
    [disciplined]: it names each column once and only columns a write may name,
    it follows the transition table, it renews the lease by the configured time
    unless it stays in its state, and when it retires an envelope it says why. *)
From Stdlib Require Import ZArith Lia.
From stdpp Require Import base option strings gmap relations list.
From S2P Require Import Prelude Text Json Datetime States Address Wire Model Store Node Effects Pipeline Worker.

Local Open Scope Z_scope.

Definition honest {X : Type} (c : call X) : result exn X -> Prop :=
  match c in call X return result exn X -> Prop with
  | CCas _ _ _ to_state _ _ _ _ => fun r =>
      match r with
      | Ok (Some row) => op_state row = to_state
      | _ => True
      end
  | CClaim wanted _ _ _ _ => fun r =>
      match r with
      | Ok out => Forall (fun row => op_state row ∈ wanted) out
      | Err _ => True
      end
  | _ => fun _ => True
  end.

(** [p] reaches the call [c] under some honest answers to the calls before it. *)
Inductive makes {A : Type} : prog A -> forall X : Type, call X -> Prop :=
| makes_now (X : Type) (c : call X) (k : result exn X -> prog A) : makes (Vis c k) X c
| makes_later (X Y : Type) (c : call X) (d : call Y) (k : result exn X -> prog A) (r : result exn X) :
    honest c r -> makes (k r) Y d -> makes (Vis c k) Y d.

(** ** Every call of a program *)

Section all_calls.
Context (P : forall X : Type, call X -> Prop).

(** Every call of [p] satisfies [P], and what it returns satisfies [Q]. *)
Fixpoint all_calls {A : Type} (p : prog A) (Q : A -> Prop) : Prop :=
  match p with
  | Done (Ok a) => Q a
  | Done (Err _) => True
  | Vis c k => P _ c /\ forall r, honest c r -> all_calls (k r) Q
  end.

Lemma makes_all_calls {A : Type} (p : prog A) (Q : A -> Prop) (X : Type) (c : call X) :
  makes p X c -> all_calls p Q -> P X c.
Proof. induction 1 as [| X Y c d k r Hh H IH]; intros [H1 H2]; [done | by apply IH, H2]. Qed.

Lemma all_calls_weaken {A : Type} (p : prog A) (Q Q' : A -> Prop) :
  (forall a, Q a -> Q' a) -> all_calls p Q -> all_calls p Q'.
Proof.
  intros HQ. induction p as [[a | e] | X c k IH]; simpl; [apply HQ | done |].
  intros [Hc Hk]. split; [done |]. intros r Hr. by apply IH, Hk.
Qed.

Lemma all_calls_bind {A B : Type} (p : prog A) (f : A -> prog B) (Q : A -> Prop) (R : B -> Prop) :
  all_calls p Q -> (forall a, Q a -> all_calls (f a) R) -> all_calls (bind p f) R.
Proof.
  intros Hp Hf. induction p as [[a | e] | X c k IH]; simpl in *; [by apply Hf | done |].
  destruct Hp as [Hc Hk]. split; [done |]. intros r Hr. by apply IH, Hk.
Qed.

Lemma all_calls_attempt {A : Type} (p : prog A) (Q : A -> Prop) :
  all_calls p Q ->
  all_calls (attempt p) (fun r => match r with Ok a => Q a | Err _ => True end).
Proof.
  intros Hp. induction p as [[a | e] | X c k IH]; simpl in *; [done | done |]. destruct Hp as [Hc Hk].
  split; [done |]. intros r Hr. by apply IH, Hk.
Qed.

Lemma all_calls_perform {X : Type} (c : call X) (Q : X -> Prop) :
  P X c -> (forall x, honest c (Ok x) -> Q x) -> all_calls (perform c) Q.
Proof. intros Hc HQ. split; [done |]. intros [x | e] Hx; [by apply HQ | done]. Qed.

Lemma all_calls_then {X B : Type} (c : call X) (f : X -> prog B) (R : B -> Prop) :
  P X c -> (forall x, all_calls (f x) R) -> all_calls (bind (perform c) f) R.
Proof.
  intros Hc Hf. apply (all_calls_bind _ _ (fun _ => True)); [by apply all_calls_perform |]. auto.
Qed.

Lemma all_calls_lift {A B : Type} (r : result exn A) (f : A -> prog B) (R : B -> Prop) :
  (forall a, r = Ok a -> all_calls (f a) R) -> all_calls (bind (lift r) f) R.
Proof. destruct r as [a | e]; simpl; auto. Qed.

Lemma all_calls_or_timeout {X : Type} (c : call X) (op : Operation) (k : X -> prog Operation)
    (Q : Operation -> Prop) :
  P X c -> Q op -> (forall x, all_calls (k x) Q) -> all_calls (or_timeout c op k) Q.
Proof.
  intros Hc HQ Hk. apply (all_calls_bind _ _ (fun _ => True)).
  - apply (all_calls_weaken _ (fun r => match r with Ok _ => True | Err _ => True end)); [done |].
    by apply all_calls_attempt, all_calls_perform.
  - intros [x | []] _; done || apply Hk.
Qed.

End all_calls.

(** ** The discipline *)

(** A rebuild is a write from a signed state back into [SIGNING]. *)
Definition SIGNED_STATES : list OpState := [SIGNED; BROADCASTING; BROADCAST].

(** The evidence of a rebuild: an envelope that was never sent is retired by the
    local clock; one that may have been sent only by a solid chain time past
    its expiration and the safety margin, after a lookup that found nothing. *)
Definition evidence_for (margin : Z) (from_state : OpState) (evidence : list (pystr * jval)) : Prop :=
  (from_state = SIGNED /\
   assoc (str "rule") evidence = Some (JStr (str "never-broadcast envelope; local expiry check"))) \/
  (from_state ∈ [BROADCASTING; BROADCAST] /\
   assoc (str "node_lookup") evidence = Some (JStr (str "unknown")) /\
   exists solid_time expiration,
     assoc (str "solid_chain_time") evidence = Some (JStr (isoformat solid_time)) /\
     assoc (str "tx_expiration") evidence = Some (JStr (isoformat expiration)) /\
     expiration + margin <= solid_time).

(** The event of a write: it retires a txid exactly when it is a rebuild, and
    then carries the evidence. *)
Definition accounted (margin : Z) (from_state to_state : OpState) (detail : list (pystr * jval)) : Prop :=
  if bool_decide (from_state ∈ SIGNED_STATES /\ to_state = SIGNING) then
    is_Some (assoc (str "retired_txid") detail) /\
    exists evidence, assoc (str "expiry_evidence") detail = Some (JObj evidence) /\
    evidence_for margin from_state evidence
  else assoc (str "retired_txid") detail = None.

Definition disciplined (cfg : Config) (X : Type) (c : call X) : Prop :=
  match c with
  | CCas _ _ from_state to_state sets detail renew _ =>
      NoDup (column <$> sets) /\
      (renew = Some (cfg_lease cfg) \/ renew = None /\ to_state = from_state) /\
      forallb (fun f => bool_decide (column f ∈ MUTABLE_FIELDS)) sets = true /\
      can_transition from_state to_state = true /\
      accounted (cfg_expiration_safety cfg) from_state to_state detail
  | CClaim wanted _ _ _ _ => wanted = CLAIMABLE
  | _ => True
  end.

Section worker.
Context (cfg : Config) (signer : MockSigner).

Local Abbreviation calls := (all_calls (disciplined cfg)).

(** A write that is not a rebuild, from a known state. *)
Lemma calls_cas (op : Operation) (from_state to_state : OpState) (worker_id : pystr)
    (sets : list FieldSet) (detail : list (pystr * jval)) (Q : Operation -> Prop) :
  op_state op = from_state -> bool_decide (NoDup (column <$> sets)) = true ->
  forallb (fun f => bool_decide (column f ∈ MUTABLE_FIELDS)) sets = true ->
  can_transition from_state to_state = true ->
  bool_decide (from_state ∈ SIGNED_STATES /\ to_state = SIGNING) = false ->
  assoc (str "retired_txid") detail = None ->
  (forall row, op_state row = to_state -> Q row) ->
  calls (_cas cfg op to_state worker_id sets detail) Q.
Proof.
  intros Hs Hnd%bool_decide_eq_true Hm Ht Hr Hd HQ.
  apply (all_calls_bind _ _ _ (fun o => match o with Some row => op_state row = to_state | None => True end)).
  - apply all_calls_perform.
    + rewrite Hs. split_and!; try done; [by left |]. unfold accounted. by rewrite Hr.
    + by intros [row |].
  - intros [row |] Hrow; [by apply HQ | exact I].
Qed.

(** Any state. *)
Local Abbreviation any := (fun _ : Operation => True).

Ltac write Hs := apply (calls_cas _ _ _ _ _ _ _ Hs); [vm_compute; reflexivity.. | try done].

Lemma calls_rebuild (op : Operation) (worker_id reason : pystr) (evidence : list (pystr * jval)) :
  op_state op ∈ SIGNED_STATES -> evidence_for (cfg_expiration_safety cfg) (op_state op) evidence ->
  calls (_rebuild cfg op worker_id reason evidence) any.
Proof.
  intros Hs He. apply all_calls_then; [| by intros [row |]].
  split_and!; [apply (bool_decide_unpack _); vm_compute; exact I | by left | vm_compute; reflexivity | |].
  - apply can_transition_spec. right. unfold SIGNED_STATES in Hs. in_list Hs; rewrite Hs; simpl;
      rewrite ?elem_of_cons; auto.
  - unfold accounted. rewrite bool_decide_eq_true_2 by done. split; [by eexists |].
    exists evidence. split; [vm_compute; reflexivity | done].
Qed.

Lemma calls_validate (op : Operation) (worker_id : pystr) :
  op_state op = REQUESTED -> calls (_validate cfg op worker_id) any.
Proof. intros Hs. unfold _validate. repeat (destruct (negb _); [write Hs |]). write Hs. Qed.

Lemma calls_build_envelope (op : Operation) (worker_id : pystr) :
  op_state op = SIGNING -> calls (build_envelope cfg signer op worker_id) any.
Proof.
  intros Hs. unfold build_envelope. destruct (_ <=? _); [write Hs |].
  apply all_calls_then; [done |]. intros ref. apply all_calls_then; [done |]. intros now.
  apply all_calls_lift. intros expiration _.
  apply (all_calls_bind _ _ _ (fun row => op_state row = SIGNING)); [write Hs |]. intros op1 Hs1.
  apply all_calls_then; [done |]. intros _. write Hs1.
Qed.

Lemma calls_build (op : Operation) (worker_id : pystr) :
  op_state op = VALIDATED \/ op_state op = SIGNING -> calls (_build_and_sign cfg signer op worker_id) any.
Proof.
  intros Hs. unfold _build_and_sign. case_bool_decide as Hv.
  - apply (all_calls_bind _ _ _ (fun row => op_state row = SIGNING)); [write Hv |].
    intros op1 Hs1. by apply calls_build_envelope.
  - apply calls_build_envelope. by destruct Hs.
Qed.

Lemma calls_settle (op : Operation) (worker_id : pystr) (signed : SignedTx) (result : BroadcastResult) :
  op_state op = BROADCASTING -> calls (_settle_broadcast_result cfg op worker_id signed result) any.
Proof.
  intros Hs. unfold _settle_broadcast_result.
  destruct (bool_decide _); [apply all_calls_then; [done |]; intros now; write Hs |].
  destruct (bool_decide _); [write Hs |]. destruct (bool_decide _); [write Hs |].
  destruct (bool_decide _); [done |]. write Hs.
Qed.

Lemma calls_death (signed : SignedTx) (from_state : OpState) :
  from_state ∈ [BROADCASTING; BROADCAST] ->
  calls (_proof_of_death cfg signed)
    (fun d => fst d = true -> evidence_for (cfg_expiration_safety cfg) from_state (snd d)).
Proof.
  intros Hs. unfold _proof_of_death. apply all_calls_then; [done |]. intros solid_time.
  apply all_calls_lift. unfold plus_timedelta. intros deadline Hd. destruct (decide _); [| done].
  injection Hd as <-. apply all_calls_then; [done |]. intros solid. intros Hle%Z.leb_le. right.
  split; [done |]. split; [reflexivity |]. by exists solid_time, (stx_expiration signed).
Qed.

Lemma calls_broadcast (op : Operation) (worker_id : pystr) :
  op_state op = SIGNED -> calls (_broadcast cfg op worker_id) any.
Proof.
  intros Hs. unfold _broadcast. apply all_calls_lift. intros signed _.
  apply all_calls_then; [done |]. intros now. destruct (_ <=? _).
  - apply calls_rebuild; [rewrite Hs; unfold SIGNED_STATES; rewrite ?elem_of_cons; auto | left; by split].
  - apply (all_calls_bind _ _ _ (fun row => op_state row = BROADCASTING)); [write Hs |]. intros op1 Hs1.
    apply all_calls_then; [done |]. intros _. apply all_calls_or_timeout; [done | done |]. intros result.
    apply all_calls_then; [done |]. intros _. by apply calls_settle.
Qed.

Lemma calls_reconcile (op : Operation) (worker_id : pystr) :
  op_state op = BROADCASTING -> calls (_reconcile_broadcast cfg op worker_id) any.
Proof.
  intros Hs. unfold _reconcile_broadcast. apply all_calls_lift. intros signed _.
  apply all_calls_or_timeout; [done | done |]. intros status. destruct (bool_decide _).
  - apply (all_calls_bind _ _ _ (fun _ => True)).
    + unfold broadcast_at_or_now. destruct (op_broadcast_at op); [done | by apply all_calls_perform].
    + intros at_ _. write Hs.
  - eapply all_calls_bind; [apply (calls_death signed BROADCASTING); left |]. intros [dead evidence] He.
    cbn [fst snd] in *. destruct dead; cbn [negb].
    + apply calls_rebuild; rewrite Hs; [unfold SIGNED_STATES; rewrite ?elem_of_cons; auto | by apply He].
    + apply all_calls_or_timeout; [done | done |]. intros result. by apply calls_settle.
Qed.

Lemma calls_await (op : Operation) (worker_id : pystr) :
  op_state op = BROADCAST -> calls (_await_confirmation cfg op worker_id) any.
Proof.
  intros Hs. unfold _await_confirmation. apply all_calls_lift. intros signed _.
  apply all_calls_or_timeout; [done | done |]. intros status. destruct (st_result status); [| done |].
  - eapply all_calls_bind; [apply (calls_death signed BROADCAST); right; left |]. intros [dead evidence] He.
    cbn [fst snd] in *. destruct dead; [| done].
    apply calls_rebuild; rewrite Hs; [unfold SIGNED_STATES; rewrite ?elem_of_cons; auto | by apply He].
  - destruct (negb _); [done |]. apply all_calls_then; [done |]. intros _. destruct (bool_decide _).
    + apply all_calls_then; [done |]. intros now. write Hs.
    + write Hs.
Qed.

Lemma calls_step (op : Operation) (worker_id : pystr) : calls (step cfg signer op worker_id) any.
Proof.
  unfold step. destruct (op_state op) eqn:Hs; auto using calls_validate, calls_build, calls_broadcast,
    calls_reconcile, calls_await.
  all: exact I.
Qed.

Lemma calls_release (op : Operation) (advanced : Z) : calls (release_after op advanced) (fun _ => True).
Proof. by apply all_calls_then. Qed.

Lemma calls_breadcrumb (op : Operation) (worker_id : pystr) (advanced : Z) :
  calls (breadcrumb op worker_id advanced) (fun _ => True).
Proof.
  apply all_calls_then; [| intros _; apply calls_release].
  split_and!; [apply NoDup_singleton | by right | vm_compute; reflexivity | |].
  - apply can_transition_spec. by left.
  - unfold accounted. case_bool_decide as H; [| done]. destruct H as [H1 H2]. rewrite H2 in H1.
    unfold SIGNED_STATES in H1. by in_list H1.
Qed.

Lemma calls_drive (n : nat) (op : Operation) (worker_id : pystr) (advanced : Z) :
  calls (drive_loop cfg signer n op worker_id advanced) (fun _ => True).
Proof.
  revert op advanced. induction n as [|n IH]; intros op advanced; cbn [drive_loop]; [apply calls_release |].
  eapply all_calls_bind; [apply all_calls_attempt, calls_step |]. intros [op' | e] _.
  - destruct (bool_decide _); [done |]. destruct (negb _); [apply calls_release | apply IH].
  - destruct e; apply calls_breadcrumb || done.
Qed.

Lemma calls_run_once (worker_id : pystr) : calls (run_once cfg signer worker_id) (fun _ => True).
Proof.
  unfold run_once. apply all_calls_then; [done |]. intros now. apply all_calls_then; [done |].
  intros ops. induction ops as [|op ops IH]; [done |]. cbn [drive_all].
  eapply all_calls_bind; [apply calls_drive |]. intros a _.
  eapply all_calls_bind; [exact IH |]. by intros b _.
Qed.

Lemma calls_run_forever (n : nat) (worker_id : pystr) :
  calls (run_forever cfg signer n worker_id) (fun _ => True).
Proof.
  induction n as [|n IH]; [done |]. cbn [run_forever].
  eapply all_calls_bind; [| intros _ _; exact IH]. unfold turn.
  eapply all_calls_bind; [apply all_calls_attempt, calls_run_once |].
  intros [a | e] _; [exact I |]. by destruct e.
Qed.

(** Every write of a worker is disciplined. *)
Lemma worker_write (worker_id : pystr) (id token : Z) (from_state to_state : OpState)
    (sets : list FieldSet) (detail : list (pystr * jval)) (renew : option Z) (w : option pystr) :
  makes (run_once cfg signer worker_id) _ (CCas id token from_state to_state sets detail renew w) ->
  NoDup (column <$> sets) /\
  (renew = Some (cfg_lease cfg) \/ renew = None /\ to_state = from_state) /\
  forallb (fun f => bool_decide (column f ∈ MUTABLE_FIELDS)) sets = true /\
  can_transition from_state to_state = true /\
  accounted (cfg_expiration_safety cfg) from_state to_state detail.
Proof. intros H. exact (makes_all_calls _ _ _ _ _ H (calls_run_once worker_id)). Qed.

End worker.

(** The stores answer honestly. *)
Lemma memory_honest {X : Type} (c : call X) (w : World) :
  store_wf (w_store w) -> honest c (fst (exec c w)).
Proof.
  intros Hwf. destruct c; cbn [exec honest]; try done.
  - unfold cas. destruct (negb _); [done |]. destruct (negb _); [done |].
    destruct (ms_ops _ !! _) as [op |]; [| done]. destruct (negb _ || _); [done |].
    destruct (bool_decide _); [done |]. destruct (renewed_lease _ _); [| done]. cbn [fst]. apply cas_row_frame.
  - pose proof (fun out row => claim_out wanted limit worker_id lease now (w_store w) out row Hwf) as H.
    destruct (claim _ _ _ _ _ _) as [[out | e] st]; [| done]. cbn [fst] in *. apply Forall_forall. intros row Hrow.
    by destruct (H out row eq_refl Hrow) as (op & -> & _ & Hs & _).
Qed.
