(* ===== verification/Sequential.v ===== *)
(** * Programs run alone

    Reasoning about [run]: what a program does when nobody else acts.  [seq p Q w]
    says that [p], run from [w], ends with a result and a world that satisfy
    [Q].  The calls that leave the store alone need one rule; a write by the
    holder of a live row has another.  [Progress] and [Drain] build on it. *)
From Stdlib Require Import ZArith Lia.
From stdpp Require Import base option strings gmap list.
From S2P Require Import Prelude Text Json Datetime States Address Wire Model Store Node Chain Effects Pipeline Worker.

Local Open Scope Z_scope.

Definition seq {A : Type} (p : prog A) (Q : result exn A -> World -> Prop) (w : World) : Prop :=
  Q (fst (run p w)) (snd (run p w)).

Section rules.
Context {A B : Type}.

Lemma seq_weaken (p : prog A) (Q Q' : result exn A -> World -> Prop) (w : World) :
  seq p Q w -> (forall r w', Q r w' -> Q' r w') -> seq p Q' w.
Proof. unfold seq. auto. Qed.

Lemma seq_done (r : result exn A) (Q : result exn A -> World -> Prop) (w : World) :
  Q r w -> seq (Done r) Q w.
Proof. done. Qed.

Lemma seq_bind (p : prog A) (f : A -> prog B) (Q : result exn B -> World -> Prop) (w : World) :
  seq p (fun r w' => match r with
                     | Ok a => seq (f a) Q w'
                     | Err e => Q (Err e) w'
                     end) w ->
  seq (bind p f) Q w.
Proof. unfold seq. rewrite run_bind. by destruct (run p w) as [[a | e] w']. Qed.

Lemma seq_attempt (p : prog A) (Q : result exn (result exn A) -> World -> Prop) (w : World) :
  seq p (fun r w' => Q (Ok r) w') w -> seq (attempt p) Q w.
Proof. unfold seq. rewrite run_attempt. by destruct (run p w). Qed.

End rules.

(** ** Calls that leave the store alone *)

Definition quiet {X : Type} (c : call X) : Prop := Is_true (negb (store_call c)).

(** No call moves the clock. *)
Lemma exec_now {X : Type} (c : call X) (w : World) : w_now (snd (exec c w)) = w_now w.
Proof.
  destruct c; cbn [exec]; try done; repeat match goal with
  | |- context [let '(_, _) := ?p in _] => destruct p end; done.
Qed.

(** Nothing is rigged to die. *)
Definition unarmed (w : World) : Prop := w_crash w = no_crash.

(** What a call may raise in an unarmed world: no crash, no lost claim. *)
Definition plain {X : Type} (r : result exn X) : Prop :=
  match r with
  | Ok _ => True
  | Err e => is_Exception e = true /\ e <> LostClaim
  end.

Lemma quiet_exec {X : Type} (c : call X) (w : World) :
  quiet c -> unarmed w ->
  let '(r, w') := exec c w in w_store w' = w_store w /\ unarmed w' /\ plain r.
Proof.
  intros Hq Hu. destruct c; try done; cbn [exec].
  - unfold ref_block. by destruct (zmin _).
  - unfold find_tx, take_fault. destruct (nd_faults _ !! _) as [[| f q] |]; try done;
      case_bool_decide; done.
  - unfold broadcast, take_fault, broadcast_body.
    destruct (nd_faults _ !! _) as [[| f q] |]; try done;
      repeat (case_bool_decide; [done |]); destruct (verify _ _); try done; cbn [negb];
      destruct (_ <=? _); try done; repeat (case_bool_decide; try done).
  - unfold solid_now. destruct (solid_height _); [| done]. by destruct (block_time_at _ _).
  - unfold unarmed in Hu. rewrite Hu. done.
Qed.

Lemma seq_quiet {X : Type} (c : call X) (Q : result exn X -> World -> Prop) (w : World) :
  quiet c -> unarmed w ->
  (forall r w', w_store w' = w_store w -> unarmed w' -> plain r -> Q r w') -> seq (perform c) Q w.
Proof.
  intros Hq Hu HQ. pose proof (quiet_exec c w Hq Hu) as H. unfold seq, perform. cbn [run].
  destruct (exec c w) as [r w']. destruct H as (H1 & H2 & H3). by apply HQ.
Qed.

(** ** What single calls raise *)

Definition raises {X : Type} (c : call X) (e : exn) : Prop :=
  match c with
  | CFindTx _ | CBroadcast _ _ => e = NodeTimeout
  | CCrash _ => exists point, e = SimulatedCrash point
  | _ => False
  end.

Lemma zmin_elem (l : list Z) : match zmin l with Some m => m ∈ l | None => l = [] end.
Proof.
  induction l as [|y l IH]; cbn [zmin]; [done |]. destruct (zmin l) as [m |].
  - destruct (Z.min_spec y m) as [[_ ->] | [_ ->]]; [left | by right].
  - subst l. left.
Qed.

Lemma block_time_at_height (h : Z) (bt : list (Z * Z)) : h ∈ map fst bt -> is_Some (block_time_at h bt).
Proof.
  induction bt as [|[h' t] bt IH]; cbn [map fst block_time_at]; [by intros H%elem_of_nil |].
  intros [-> | H]%elem_of_cons; [by rewrite Z.eqb_refl |]. destruct (_ =? _); [done | by apply IH].
Qed.

Lemma wf_solid_now (nd : MockTronNode) : node_wf nd -> exists t, solid_now nd = Ok t.
Proof.
  intros Hwf. assert (exists h, solid_height nd = Some h /\ h ∈ heights nd) as (h & Hs & Hin).
  { unfold solid_height. pose proof (zmax_spec (filter (fun h => h <= solid_block nd) (heights nd))) as Hz.
    destruct (zmax _) as [m |].
    - destruct Hz as [[_ Hm]%list_elem_of_filter _]. by exists m.
    - pose proof (zmin_elem (heights nd)) as Hm. destruct (zmin _) as [m |]; [by exists m |].
      pose proof (nw_chain _ Hwf) as Hc. unfold heights in Hm. by destruct (nd_block_time nd). }
  unfold solid_now. rewrite Hs. destruct (block_time_at_height _ _ Hin) as [t ->]. by exists t.
Qed.

Lemma quiet_raises {X : Type} (c : call X) (w : World) :
  quiet c -> node_wf (w_node w) ->
  let '(r, w') := exec c w in
  w_store w' = w_store w /\ node_wf (w_node w') /\ w_now w' = w_now w /\
  match r with Ok _ => True | Err e => raises c e end.
Proof.
  intros Hq Hwf. destruct (nw_channels _ Hwf) as [[qb Hb] [qq Hqq]].
  destruct c; try done; cbn [exec].
  - destruct (wf_ref_block _ Hwf) as [ref ->]. done.
  - pose proof (node_step_wf _ _ (step_find _ (w_now w) txid) Hwf) as H. revert H.
    unfold find_tx, take_fault. rewrite Hqq. destruct qq as [|f q]; case_bool_decide; done.
  - pose proof (node_step_wf _ _ (step_broadcast _ (w_now w) tx worker_id) Hwf) as H. revert H.
    unfold broadcast, take_fault. rewrite Hb. unfold broadcast_body.
    destruct qb as [|f q]; intros H; cbn [snd] in H; repeat case_bool_decide; try done;
      destruct (verify _ _); try done; cbn [negb] in *; destruct (_ <=? _); try done; repeat case_bool_decide; done.
  - destruct (wf_solid_now _ Hwf) as [t ->]. done.
  - unfold here. destruct (_ <? _); cbn; split_and!; try done. by eexists.
Qed.

(** ** The store stays well formed *)

Lemma exec_store_wf {X : Type} (c : call X) (w : World) :
  store_wf (w_store w) -> store_wf (w_store (snd (exec c w))).
Proof.
  intros Hwf. destruct c; cbn [exec]; try done.
  - pose proof (cas_wf (w_now w) id token from_state to_state sets detail renew worker_id _ Hwf) as H.
    by destruct (cas _ _ _ _ _ _ _ _ _ _).
  - pose proof (store_step_wf _ _ (step_claim _ wanted limit worker_id lease now) Hwf) as H.
    by destruct (claim _ _ _ _ _ _).
  - exact (store_step_wf _ _ (step_release _ (w_now w) id token) Hwf).
  - by destruct (find_tx _ _ _).
  - by destruct (broadcast _ _ _ _).
  - by destruct (here _ _).
Qed.

Lemma run_store_wf {A : Type} (p : prog A) (w : World) :
  store_wf (w_store w) -> store_wf (w_store (snd (run p w))).
Proof.
  revert w. induction p as [r | X c k IH]; intros w Hwf; [done |]. cbn [run].
  pose proof (exec_store_wf c w Hwf) as H. destruct (exec c w) as [r w']. by apply IH.
Qed.

(** ** A write by the holder of a row *)

Lemma live_state (op : Operation) (s : OpState) : op_state op = s -> rank s <> 0%nat -> op_state op ∉ TERMINAL.
Proof. rewrite elem_of_TERMINAL. intros -> Hr [-> | [-> | ->]]; done. Qed.

Section writes.
Context (cfg : Config).

(** The row is the one this copy was taken of. *)
Definition current (op : Operation) (w : World) : Prop :=
  ms_ops (w_store w) !! op_operation_id op = Some op.

Lemma run_cas_row (op : Operation) (to_state : OpState) (worker_id : pystr) (sets : list FieldSet)
    (detail : list (pystr * jval)) (w : World) :
  current op w -> can_transition (op_state op) to_state = true -> (op_state op ∉ TERMINAL) ->
  forallb (fun f => bool_decide (column f ∈ MUTABLE_FIELDS)) sets = true ->
  representable (w_now w + cfg_lease cfg) ->
  let row := cas_row (w_now w) to_state sets (Some (cfg_lease cfg)) op in
  exists st', run (_cas cfg op to_state worker_id sets detail) w = (Ok row, with_store st' w) /\
  ms_ops st' = <[op_operation_id op := row]> (ms_ops (w_store w)).
Proof.
  intros Hrow Hc Hlive Hm Hfit row. unfold _cas. rewrite run_bind. cbn [run perform exec].
  unfold cas. rewrite Hm, Hc, Hrow, Z.eqb_refl, bool_decide_eq_true_2 by done.
  cbn [negb orb]. rewrite bool_decide_eq_false_2 by done. unfold renewed_lease. rewrite plus_timedelta_fits by done.
  eexists. split; [reflexivity |]. done.
Qed.

(** The lease would end past the calendar. *)
Lemma run_cas_late (op : Operation) (to_state : OpState) (worker_id : pystr) (sets : list FieldSet)
    (detail : list (pystr * jval)) (w : World) :
  current op w -> can_transition (op_state op) to_state = true -> (op_state op ∉ TERMINAL) ->
  forallb (fun f => bool_decide (column f ∈ MUTABLE_FIELDS)) sets = true ->
  ~ representable (w_now w + cfg_lease cfg) ->
  fst (run (_cas cfg op to_state worker_id sets detail) w) = Err OverflowError.
Proof.
  intros Hrow Hc Hlive Hm Hlate. unfold _cas. rewrite run_bind. cbn [run perform exec].
  unfold cas. rewrite Hm, Hc, Hrow, Z.eqb_refl, bool_decide_eq_true_2 by done.
  cbn [negb orb]. rewrite bool_decide_eq_false_2 by done. unfold renewed_lease. by rewrite plus_timedelta_late.
Qed.

Lemma seq_cas (op : Operation) (to_state : OpState) (worker_id : pystr) (sets : list FieldSet)
    (detail : list (pystr * jval)) (Q : result exn Operation -> World -> Prop) (w : World) :
  current op w -> can_transition (op_state op) to_state = true -> (op_state op ∉ TERMINAL) ->
  forallb (fun f => bool_decide (column f ∈ MUTABLE_FIELDS)) sets = true ->
  representable (w_now w + cfg_lease cfg) ->
  (forall w', let row := cas_row (w_now w) to_state sets (Some (cfg_lease cfg)) op in
     ms_ops (w_store w') = <[op_operation_id op := row]> (ms_ops (w_store w)) ->
     w_crash w' = w_crash w -> w_now w' = w_now w -> Q (Ok row) w') ->
  seq (_cas cfg op to_state worker_id sets detail) Q w.
Proof.
  intros Hrow Hc Hlive Hm Hfit HQ.
  destruct (run_cas_row op to_state worker_id sets detail w Hrow Hc Hlive Hm Hfit) as (st' & E & Hst).
  unfold seq. rewrite E. by apply HQ.
Qed.

End writes.
