(* ===== verification/System.v ===== *)
(** * The running system

    Any number of workers ([Worker.run_forever] programs) share one store and one
    node.  Their atomic calls interleave freely; between two calls the clock
    may advance, the chain may grow, faults and crash points may be armed,
    withdrawals may be submitted and new workers may start, and any call to the
    store may raise, before it did anything or after its effect is committed.  A worker that dies
    is one that is never scheduled again, so a crash at every point of every
    handler is covered, and [stop()] may come after any number of passes.

    A thread carries two history variables that its program never reads: the
    (operation, fencing token) pairs its claims returned, and the time frontier
    at its last [find_tx].  [frontier] is the later of the clock and the head
    block's time: no block produced from now on is timestamped before it. *)
From Stdlib Require Import ZArith Lia.
From stdpp Require Import base option strings gmap list.
From S2P Require Import Prelude Text Json Datetime States Address Wire Model Store Node Effects Pipeline Worker.

Local Open Scope Z_scope.

Definition frontier (w : World) : Z := Z.max (w_now w) (head_time (w_node w)).

Record Thread : Type := mkThread {
  th_prog : prog unit;
  th_own : list (Z * Z);
  th_lookup : Z
}.

Record System : Type := mkSystem {
  sys_world : World;
  sys_threads : list Thread
}.

(** The pairs a call's result adds to the thread's claims. *)
Definition claims_of {X : Type} (c : call X) : result exn X -> list (Z * Z) :=
  match c in call X return result exn X -> list (Z * Z) with
  | CClaim _ _ _ _ _ => fun r =>
      match r with
      | Ok out => (fun op => (op_operation_id op, op_fencing_token op)) <$> out
      | Err _ => []
      end
  | _ => fun _ => []
  end.

(** The frontier at the last lookup, after a call made in [w]. *)
Definition lookup_of {X : Type} (c : call X) (w : World) (last : Z) : Z :=
  match c with
  | CFindTx _ => frontier w
  | _ => last
  end.

Inductive event : Type :=
| EAdvance (d : Z)
| EBlock
| EScript (channel : pystr) (faults : list Fault)
| EArm (point : pystr) (times : Z)
| ESubmit (id : Z) (request_hash : bytes) (to_address asset : pystr) (amount_units : Z)
| ESpawn (worker_id : pystr) (passes : nat)
| ERun (i : nat)
| EFail (i : nat) (applied : bool).

Section system.
Context (cfg : Config) (signer : MockSigner).

(** One call of a thread; a finished thread stays as it is. *)
Definition run_thread (th : Thread) (w : World) : Thread * World :=
  match th_prog th with
  | Done _ => (th, w)
  | Vis c k =>
      let '(r, w') := exec c w in
      (mkThread (k r) (th_own th ++ claims_of c r) (lookup_of c w (th_lookup th)), w')
  end.

(** A call to the store that raises: the connection broke before the
    transaction, or after the commit and before the answer ([applied]). *)
Definition fail_thread (applied : bool) (th : Thread) (w : World) : Thread * World :=
  match th_prog th with
  | Done _ => (th, w)
  | Vis c k =>
      if store_call c then
        (mkThread (k (Err StoreFailure)) (th_own th) (th_lookup th),
         if applied then snd (exec c w) else w)
      else (th, w)
  end.

Definition fire (e : event) (s : System) : option System :=
  let w := sys_world s in
  let same w := Some (mkSystem w (sys_threads s)) in
  match e with
  | EAdvance d => if 0 <=? d then same (with_now (w_now w + d) w) else None
  | EBlock =>
      match produce_block (w_now w) (w_node w) with
      | Ok nd => same (with_node nd w)
      | Err _ => None
      end
  | EScript channel faults => same (with_node (script channel faults (w_node w)) w)
  | EArm point times => same (with_crash (arm point times (w_crash w)) w)
  | ESubmit id request_hash to_address asset amount_units =>
      same (with_store (snd (insert_new (w_now w)
              (new_operation id request_hash REQUESTED to_address asset amount_units)
              (w_store w))) w)
  | ESpawn worker_id passes =>
      Some (mkSystem w (sys_threads s ++
              [mkThread (run_forever cfg signer passes worker_id) [] (frontier w)]))
  | ERun i =>
      match sys_threads s !! i with
      | None => None
      | Some th =>
          let '(th', w') := run_thread th w in
          Some (mkSystem w' (<[i := th']> (sys_threads s)))
      end
  | EFail i applied =>
      match sys_threads s !! i with
      | None => None
      | Some th =>
          let '(th', w') := fail_thread applied th w in
          Some (mkSystem w' (<[i := th']> (sys_threads s)))
      end
  end.

(** A worker reads the solid time within the safety margin of its lookup. *)
Definition timely_call {X : Type} (last : Z) (c : call X) (w : World) : bool :=
  match c with
  | CSolidNow => frontier w - last <? cfg_expiration_safety cfg
  | _ => true
  end.

Definition timely (e : event) (s : System) : bool :=
  match e with
  | ERun i =>
      match sys_threads s !! i with
      | Some th => match th_prog th with
                   | Vis c _ => timely_call (th_lookup th) c (sys_world s)
                   | Done _ => true
                   end
      | None => true
      end
  | _ => true
  end.

(** A step of a system in which no worker stalls, between its lookup and the
    death proof, for the whole safety margin. *)
Inductive sys_step (s s' : System) : Prop :=
| sys_step_intro (e : event) : timely e s = true -> fire e s = Some s' -> sys_step s s'.

(** A schedule with no such restriction. *)
Fixpoint fire_all (es : list event) (s : System) : option System :=
  match es with
  | [] => Some s
  | e :: es => match fire e s with Some s' => fire_all es s' | None => None end
  end.

Fixpoint timely_all (es : list event) (s : System) : bool :=
  match es with
  | [] => true
  | e :: es => timely e s &&
               match fire e s with Some s' => timely_all es s' | None => true end
  end.

Lemma fire_all_steps (es : list event) (s s' : System) :
  timely_all es s = true -> fire_all es s = Some s' -> rtc sys_step s s'.
Proof.
  revert s. induction es as [|e es IH]; intros s Ht Hf; simpl in *.
  - injection Hf as <-. apply rtc_refl.
  - apply andb_true_iff in Ht as [Ht1 Ht2]. destruct (fire e s) as [s1 |] eqn:E; [| done].
    eapply rtc_l; [by econstructor | by apply IH].
Qed.

End system.

Definition initial (now lag delay : Z) (node_signer : MockSigner) : System :=
  mkSystem (mkWorld now empty_store (new_node now lag delay node_signer) no_crash) [].
