(* ===== verification/Invariant.v ===== *)
(** * The global invariant and interference

    What is true of the shared world in every reachable state ([inv]), what
    every step respects ([mono]), what one worker may rely on while others act
    ([rely], from the (operation, token) pairs it owns) and what its own steps
    guarantee in return ([guar]).  [safe] is the weakest precondition of a
    program under that interference and under failures of the store; the handlers are verified against it in
    [Handlers]. *)
From Stdlib Require Import ZArith Lia.
From stdpp Require Import base option strings gmap list.
From S2P Require Import Prelude Text Json Hash Datetime States Address Wire Model Store Node Effects Pipeline Worker Discipline System.

Local Open Scope Z_scope.

Section invariant.
Context (cfg : Config) (signer : MockSigner).

Definition rows (w : World) : gmap Z Operation := ms_ops (w_store w).
Definition hist (w : World) (id : Z) : list pystr := all_txids id (w_store w).
Definition rec_of (w : World) (txid : pystr) : option TxRecord := find_rec txid (w_node w).

(** [s] is an envelope [_build_and_sign] makes for this operation. *)
Definition envelope_of (op : Operation) (s : SignedTx) : Prop :=
  representable (stx_expiration s) /\
  exists ref now, Forall scalar (snd ref) /\ s = sign signer (unsigned_of cfg op ref now (stx_expiration s)).

(** What [_validate] checks. *)
Definition validated (op : Operation) : Prop :=
  is_valid (JStr (op_to_address op)) = true /\ op_asset op = cfg_asset cfg /\
  cfg_min_amount_units cfg <= op_amount_units op <= cfg_max_amount_units cfg.

(** [txid] is the id of an envelope for this operation. *)
Definition built (op : Operation) (txid : pystr) : Prop :=
  validated op /\ exists ref now expiration, Forall scalar (snd ref) /\ txid = compute_txid (raw_data_of cfg op ref now expiration).

(** The row carries the signed envelope [s], the log knows its txid, and it
    expires within the lifetime of an envelope. *)
Definition carries (w : World) (op : Operation) (s : SignedTx) : Prop :=
  validated op /\ op_signed_tx op = Some (to_json s) /\ op_txid op = Some (stx_txid s) /\
  envelope_of op s /\ stx_txid s ∈ hist w (op_operation_id op) /\
  stx_expiration s <= w_now w + cfg_tx_ttl cfg.

(** The transfer of [s] succeeded, or can never succeed. *)
Definition paid (w : World) (op : Operation) (s : SignedTx) : Prop :=
  exists rec, rec_of w (stx_txid s) = Some rec /\ is_success rec = true /\
  op_included_block op = tr_included_block rec.

Definition unpayable (w : World) (s : SignedTx) : Prop :=
  verify (nd_signer (w_node w)) s = false \/
  exists rec, rec_of w (stx_txid s) = Some rec /\ is_included rec = true /\ is_success rec = false.

Definition cleared (op : Operation) : Prop :=
  match op_state op with
  | REQUESTED | REJECTED => True
  | _ => validated op
  end.

(** The envelope of a row, by state. *)
Definition envelope_ok (w : World) (op : Operation) : Prop :=
  match op_state op with
  | REQUESTED | VALIDATED | SIGNING | REJECTED => op_signed_tx op = None
  | SIGNED | BROADCASTING | BROADCAST => exists s, carries w op s
  | CONFIRMED => exists s, carries w op s /\ paid w op s
  | FAILED => op_signed_tx op = None \/ exists s, carries w op s /\ unpayable w s
  end.

Definition row_ok (w : World) (op : Operation) : Prop := cleared op /\ envelope_ok w op.

(** The envelope a worker may have sent: the row's, once past the write-ahead. *)
Definition past_write_ahead (s : OpState) : bool :=
  match s with
  | BROADCASTING | BROADCAST | CONFIRMED | FAILED => true
  | _ => false
  end.

Definition onwire (op : Operation) : option jval :=
  if past_write_ahead (op_state op) then op_signed_tx op else None.

(** On chain, or still able to get there. *)
Definition landable (w : World) (rec : TxRecord) : Prop :=
  is_included rec = true \/ frontier w < stx_expiration (tr_tx rec).

(** [s] never was on chain and never will be. *)
Definition dead (w : World) (s : SignedTx) : Prop :=
  stx_expiration s <= frontier w /\
  forall rec, rec_of w (stx_txid s) = Some rec -> tr_tx rec = s -> is_included rec = false.

(** [s] belongs to an operation whose log holds its txid. *)
Definition known (w : World) (s : SignedTx) : Prop :=
  exists id op, rows w !! id = Some op /\ envelope_of op s /\ stx_txid s ∈ hist w id.

(** Sending [s] is harmless: it is too late for it to land, or it is the
    envelope of a row past the write-ahead. *)
Definition sendable (w : World) (s : SignedTx) : Prop :=
  stx_expiration s <= frontier w \/
  exists id op, rows w !! id = Some op /\ onwire op = Some (to_json s).

Record inv (w : World) : Prop := {
  inv_store : store_wf (w_store w);
  inv_node : node_wf (w_node w);
  inv_rows : forall id op, rows w !! id = Some op -> row_ok w op;
  inv_known : forall txid rec, rec_of w txid = Some rec -> known w (tr_tx rec);
  inv_onwire : forall txid rec, rec_of w txid = Some rec -> landable w rec ->
    exists id op, rows w !! id = Some op /\ onwire op = Some (to_json (tr_tx rec));
  inv_hist : forall id txid, txid ∈ hist w id -> exists op, rows w !! id = Some op /\ built op txid
}.

(** ** What every step respects *)

Definition rec_evolves (w : World) (rec rec' : TxRecord) : Prop :=
  tr_tx rec' = tr_tx rec /\
  (is_included rec = true \/ stx_expiration (tr_tx rec) <= frontier w -> rec' = rec).

Record mono (w w' : World) : Prop := {
  mono_now : w_now w <= w_now w';
  mono_frontier : frontier w <= frontier w';
  mono_recs : forall txid rec, rec_of w txid = Some rec ->
    exists rec', rec_of w' txid = Some rec' /\ rec_evolves w rec rec';
  mono_new : forall txid rec, rec_of w txid = None -> rec_of w' txid = Some rec ->
    is_included rec = true -> frontier w < stx_expiration (tr_tx rec);
  mono_hist : forall id txid, txid ∈ hist w id -> txid ∈ hist w' id;
  mono_rows : forall id op, rows w !! id = Some op ->
    exists op', rows w' !! id = Some op' /\ evolves op op' /\
    forall s, representable (stx_expiration s) -> onwire op = Some (to_json s) ->
      onwire op' = Some (to_json s) \/ stx_expiration s <= frontier w';
  mono_signer : nd_signer (w_node w') = nd_signer (w_node w)
}.

#[export] Instance mono_preorder : PreOrder mono.
Proof.
  split.
  - intros w. split; try done.
    + intros txid rec Hr. exists rec. done.
    + congruence.
    + intros id op Hop. exists op. split_and!; [done | done |]. by left.
  - intros w w1 w2 [T1 F1 R1 N1 H1 O1 S1] [T2 F2 R2 N2 H2 O2 S2]. split; [lia | lia | | | | | congruence].
    + intros txid rec Hr. destruct (R1 _ _ Hr) as (rec1 & Hr1 & E1 & K1).
      destruct (R2 _ _ Hr1) as (rec2 & Hr2 & E2 & K2). exists rec2. split; [done |].
      split; [congruence |]. intros Hd. specialize (K1 Hd). subst rec1. apply K2.
      destruct Hd; [by left | right; lia].
    + intros txid rec Hr Hr2 Hi. destruct (rec_of w1 txid) as [rec1 |] eqn:E1; [| specialize (N2 _ _ E1 Hr2 Hi); lia].
      destruct (R2 _ _ E1) as (rec' & Hr' & Et & K). assert (rec' = rec) as -> by congruence.
      destruct (is_included rec1) eqn:Ei1; [specialize (N1 _ _ Hr E1 Ei1); congruence |].
      destruct (Z_lt_le_dec (frontier w1) (stx_expiration (tr_tx rec1))) as [| Hle]; [rewrite Et; lia |].
      rewrite K in Hi by auto. congruence.
    + auto.
    + intros id op Hop. destruct (O1 _ _ Hop) as (op1 & Hop1 & E1 & K1).
      destruct (O2 _ _ Hop1) as (op2 & Hop2 & E2 & K2). exists op2. split_and!; [done | by etrans |].
      intros s Hr Hs. destruct (K1 s Hr Hs) as [Hs1 | Hs1]; [by apply K2 | right; lia].
Qed.

(** ** Stable facts *)

Lemma evolves_envelope (op op' : Operation) (s : SignedTx) :
  terms op' = terms op -> envelope_of op s -> envelope_of op' s.
Proof.
  intros [= _ _ Ht _ Ha] [Hr (ref & now & Hs & E)]. split; [done |]. exists ref, now. split; [done |].
  unfold unsigned_of, raw_data_of, contract_of in *. by rewrite Ht, Ha.
Qed.

Lemma validated_terms (op op' : Operation) : terms op' = terms op -> validated op -> validated op'.
Proof. intros [= _ _ Et Ea Em]. unfold validated. by rewrite Et, Ea, Em. Qed.

Lemma built_terms (op op' : Operation) (txid : pystr) :
  terms op' = terms op -> built op txid -> built op' txid.
Proof.
  intros Et [Hv (ref & now & expiration & Hs & ->)]. split; [by eapply validated_terms |].
  injection Et as _ _ Ht _ Ha. exists ref, now, expiration. split; [done |].
  unfold raw_data_of, contract_of. by rewrite Ht, Ha.
Qed.

Lemma envelope_built (op : Operation) (s : SignedTx) : validated op -> envelope_of op s -> built op (stx_txid s).
Proof.
  intros Hv [_ (ref & now & Hs & E)]. split; [done |]. exists ref, now, (stx_expiration s).
  split; [done |]. by rewrite E at 1.
Qed.

Lemma mono_built (w w' : World) (id : Z) (txid : pystr) :
  mono w w' -> (exists op, rows w !! id = Some op /\ built op txid) ->
  exists op, rows w' !! id = Some op /\ built op txid.
Proof.
  intros M (op & Hop & Hb). destruct (mono_rows _ _ M _ _ Hop) as (op' & Hop' & [Ht _] & _).
  exists op'. split; [done | by eapply built_terms].
Qed.

Lemma mono_known (w w' : World) (s : SignedTx) : mono w w' -> known w s -> known w' s.
Proof.
  intros M (id & op & Hop & He & Hh). destruct (mono_rows _ _ M _ _ Hop) as (op' & Hop' & [Ht _] & _).
  exists id, op'. split_and!; [done | by eapply evolves_envelope | by eapply mono_hist].
Qed.

Lemma mono_sendable (w w' : World) (s : SignedTx) :
  mono w w' -> representable (stx_expiration s) -> sendable w s -> sendable w' s.
Proof.
  intros M Hr [Hd | (id & op & Hop & Ho)]; [left; pose proof (mono_frontier _ _ M); lia |].
  destruct (mono_rows _ _ M _ _ Hop) as (op' & Hop' & _ & K).
  destruct (K s Hr Ho); [right; eauto | by left].
Qed.

Lemma mono_dead (w w' : World) (s : SignedTx) : mono w w' -> dead w s -> dead w' s.
Proof.
  intros M [Hd Hrec]. split; [pose proof (mono_frontier _ _ M); lia |]. intros rec' Hr' Et.
  destruct (rec_of w (stx_txid s)) as [rec |] eqn:E.
  - destruct (mono_recs _ _ M _ _ E) as (rec2 & Hr2 & Et2 & K). assert (rec2 = rec') as -> by congruence.
    assert (tr_tx rec = s) as Es by congruence. rewrite K by (right; by rewrite Es). by apply Hrec.
  - destruct (is_included rec') eqn:Ei; [| done]. pose proof (mono_new _ _ M _ _ E Hr' Ei) as Hlt.
    rewrite Et in Hlt. lia.
Qed.

Lemma mono_included (w w' : World) (txid : pystr) (rec : TxRecord) :
  mono w w' -> rec_of w txid = Some rec -> is_included rec = true -> rec_of w' txid = Some rec.
Proof.
  intros M Hr Hi. destruct (mono_recs _ _ M _ _ Hr) as (rec' & Hr' & _ & K).
  by rewrite K in Hr' by auto.
Qed.

Lemma is_success_included (rec : TxRecord) : is_success rec = true -> is_included rec = true.
Proof. unfold is_success. by intros [? _]%andb_true_iff. Qed.

Lemma mono_carries (w w' : World) (op : Operation) (s : SignedTx) :
  mono w w' -> carries w op s -> carries w' op s.
Proof.
  intros M (H0 & H1 & H2 & H3 & H4 & H5). split; [done |]. split_and!; try done; [by eapply mono_hist |].
  pose proof (mono_now _ _ M). lia.
Qed.

Lemma mono_unpayable (w w' : World) (s : SignedTx) : mono w w' -> unpayable w s -> unpayable w' s.
Proof.
  intros M [Hv | (rec & Hr & Hi & Hs)]; [left; by rewrite (mono_signer _ _ M) |].
  right. exists rec. split_and!; try done. by eapply mono_included.
Qed.

Lemma mono_row_ok (w w' : World) (op : Operation) : mono w w' -> row_ok w op -> row_ok w' op.
Proof.
  intros M [Hcl Henv]. split; [done |]. revert Henv. unfold envelope_ok.
  destruct (op_state op); try done; try (intros (s & Hc); exists s; by eapply mono_carries).
  - intros (s & Hc & rec & Hr & Hs & Hb). exists s. split; [by eapply mono_carries |].
    exists rec. split_and!; try done. by eapply mono_included, is_success_included.
  - intros [| (s & Hc & Hu)]; [by left | right]. exists s.
    split; [by eapply mono_carries | by eapply mono_unpayable].
Qed.

Lemma to_json_inj (s s' : SignedTx) :
  representable (stx_expiration s) -> representable (stx_expiration s') -> to_json s = to_json s' -> s = s'.
Proof.
  intros H H' E. apply from_json_to_json in H, H'. rewrite E in H. congruence.
Qed.

Lemma known_representable (w : World) (s : SignedTx) : known w s -> representable (stx_expiration s).
Proof. by intros (? & ? & _ & [? _] & _). Qed.

(** ** Ownership and interference *)

(** The same row, up to the name in [claimed_by]: a claim that fails on its lease
    leaves its name in a row somebody else may still work on. *)
Definition renamed (op op' : Operation) : Prop := exists who, op' = set_claimed_by who op.

#[export] Instance renamed_preorder : PreOrder renamed.
Proof.
  split.
  - intros op. exists (op_claimed_by op). by destruct op.
  - intros op op1 op2 [who1 ->] [who2 ->]. by exists who2.
Qed.

Lemma renamed_evolves (op op' : Operation) : renamed op op' -> evolves op op'.
Proof. intros [who ->]. split_and!; [done | simpl; lia | done]. Qed.

Lemma renamed_token (op op' : Operation) : renamed op op' -> op_fencing_token op' = op_fencing_token op.
Proof. by intros [who ->]. Qed.

(** Nobody wrote to the row, or somebody has claimed it since. *)
Definition kept_or_claimed (op : Operation) (row : option Operation) : Prop :=
  exists op', row = Some op' /\ (renamed op op' \/ op_fencing_token op < op_fencing_token op').

Lemma kept (op : Operation) (row : option Operation) : row = Some op -> kept_or_claimed op row.
Proof. intros ->. exists op. split; [done | by left]. Qed.

(** Rows under an owned token stay as they are until somebody claims them. *)
Definition fixed (own : list (Z * Z)) (w w' : World) : Prop :=
  forall id op, rows w !! id = Some op -> (id, op_fencing_token op) ∈ own -> kept_or_claimed op (rows w' !! id).

Definition rely (own : list (Z * Z)) (w w' : World) : Prop := mono w w' /\ fixed own w w'.

Definition guar (own : list (Z * Z)) (w w' : World) : Prop :=
  mono w w' /\
  forall id op, rows w !! id = Some op -> (id, op_fencing_token op) ∉ own -> kept_or_claimed op (rows w' !! id).

#[export] Instance rely_preorder (own : list (Z * Z)) : PreOrder (rely own).
Proof.
  split.
  - intros w. split; [done |]. intros id op Hop _. by apply kept.
  - intros w w1 w2 [M1 F1] [M2 F2]. split; [by etrans |]. intros id op Hop Hin.
    destruct (F1 id op Hop Hin) as (op1 & Hop1 & [Hr1 | Hlt]).
    + pose proof (renamed_token _ _ Hr1) as Et. rewrite <- Et in Hin.
      destruct (F2 id op1 Hop1 Hin) as (op2 & Hop2 & [Hr2 | Hlt]); exists op2; (split; [done |]);
        [left; by etrans | right; lia].
    + destruct (mono_rows _ _ M2 _ _ Hop1) as (op2 & Hop2 & (_ & Hle & _) & _).
      exists op2. split; [done | right; lia].
Qed.

Lemma guar_refl (own : list (Z * Z)) (w : World) : guar own w w.
Proof. split; [done |]. intros id op Hop _. by apply kept. Qed.

Lemma guar_rely (own own' : list (Z * Z)) (w w' : World) :
  guar own w w' -> (forall x, x ∈ own' -> x ∉ own) -> rely own' w w'.
Proof. intros [M G] Hd. split; [done |]. intros id op Hop Hin. apply G; auto. Qed.

Lemma guar_mono_own (own own' : list (Z * Z)) (w w' : World) :
  (forall x, x ∈ own -> x ∈ own') -> guar own w w' -> guar own' w w'.
Proof. intros Hsub [M G]. split; [done |]. intros id op Hop Hin. apply G; auto. Qed.

(** A worker's copy of an operation it claimed: the row itself, up to the name of
    the claimer, unless somebody has claimed the row since. *)
Definition holds (own : list (Z * Z)) (w : World) (op : Operation) : Prop :=
  (op_operation_id op, op_fencing_token op) ∈ own /\ row_ok w op /\
  (forall s, representable (stx_expiration s) -> onwire op = Some (to_json s) -> sendable w s) /\
  exists row, rows w !! op_operation_id op = Some row /\ evolves op row /\
  (op_fencing_token row = op_fencing_token op -> renamed op row).

Lemma holds_rely (own : list (Z * Z)) (w w' : World) (op : Operation) :
  rely own w w' -> holds own w op -> holds own w' op.
Proof.
  intros [M F] (Hin & Hok & Hs & row & Hrow & He & Hr). split_and!; [done | by eapply mono_row_ok | |].
  - intros s Hrep Ho. eapply mono_sendable; eauto.
  - destruct (mono_rows _ _ M _ _ Hrow) as (row' & Hrow' & He' & _). exists row'.
    split_and!; [done | by etrans |]. intros Et.
    destruct He as (_ & Hle & _), He' as (_ & Hle' & _).
    assert (renamed op row) as Hn by (apply Hr; lia). rewrite <- (renamed_token _ _ Hn) in Hin.
    destruct (F _ _ Hrow Hin) as (row2 & E & [Hn2 | Hlt]); assert (row2 = row') as -> by congruence;
      [by etrans | lia].
Qed.

Lemma holds_own (own own' : list (Z * Z)) (w : World) (op : Operation) :
  (forall x, x ∈ own -> x ∈ own') -> holds own w op -> holds own' w op.
Proof. intros Hsub [Hin H]. split; auto. Qed.

Lemma inv_holds (own : list (Z * Z)) (w : World) (id : Z) (op : Operation) :
  inv w -> rows w !! id = Some op -> (id, op_fencing_token op) ∈ own -> holds own w op.
Proof.
  intros I Hop Hin. pose proof (wf_key _ (inv_store _ I) _ _ Hop) as Hk. subst id.
  split_and!; [done | by apply (inv_rows _ I _ _ Hop) | |].
  - intros s _ Ho. right. eauto.
  - exists op. done.
Qed.

Lemma holds_known (own : list (Z * Z)) (w : World) (op : Operation) (s : SignedTx) :
  holds own w op -> carries w op s -> known w s.
Proof.
  intros (_ & _ & _ & row & Hrow & [Ht _] & _) (_ & _ & _ & He & Hh & _).
  exists (op_operation_id op), row. split_and!; [done | by eapply evolves_envelope | done].
Qed.

(** ** Weakest preconditions under interference

    Two kinds of run are verified by one predicate.  In a [strict] run the store
    never fails and dates stay in range, and then no call leaves the note of a
    handler that went wrong; otherwise any call to the store may raise, with or
    without its effect. *)

Context (strict : bool).

(** No date a worker computes at this time leaves the range of [datetime]. *)
Definition in_range (w : World) : Prop :=
  0 <= cfg_expiration_safety cfg /\ representable (w_now w + cfg_tx_ttl cfg) /\
  representable (w_now w + cfg_tx_ttl cfg + cfg_expiration_safety cfg) /\
  representable (w_now w + cfg_lease cfg).

(** What the [except Exception] branch of [_drive] writes. *)
Definition misfire : pystr := str "handler exception (see logs)".

Definition sober {X : Type} (c : call X) : Prop :=
  match c with
  | CCas _ _ _ _ sets _ _ _ => Set_last_error (Some misfire) ∉ sets
  | _ => True
  end.

(** What a call may count on in the world it is made in. *)
Definition ready {X : Type} (lk : Z) (c : call X) (w : World) : Prop :=
  inv w /\ timely_call cfg lk c w = true /\ disciplined cfg X c /\ (strict = true -> in_range w).

Fixpoint safe {A : Type} (p : prog A)
    (Q : list (Z * Z) -> Z -> result exn A -> World -> Prop)
    (own : list (Z * Z)) (lk : Z) (w : World) : Prop :=
  match p with
  | Done r => Q own lk r w
  | Vis c k =>
      forall w1, rely own w w1 -> ready lk c w1 ->
      let '(r, w2) := exec c w1 in
      inv w2 /\ guar own w1 w2 /\ (strict = true -> sober c) /\
      safe (k r) Q (own ++ claims_of c r) (lookup_of c w1 lk) w2 /\
      (strict = false -> store_call c = true ->
       safe (k (Err StoreFailure)) Q own lk w1 /\ safe (k (Err StoreFailure)) Q own lk w2)
  end.

Lemma safe_weaken {A : Type} (p : prog A)
    (Q Q' : list (Z * Z) -> Z -> result exn A -> World -> Prop) (own : list (Z * Z)) (lk : Z) (w : World) :
  (forall own lk r w, Q own lk r w -> Q' own lk r w) -> safe p Q own lk w -> safe p Q' own lk w.
Proof.
  intros HQ. revert own lk w. induction p as [r | X c k IH]; intros own lk w; simpl; [apply HQ |].
  intros H w1 H1 H2. specialize (H w1 H1 H2). destruct (exec c w1) as [r w2].
  destruct H as (? & ? & ? & ? & Hf). split_and!; auto. intros Hs Hc. destruct (Hf Hs Hc). auto.
Qed.

Lemma safe_bind {A B : Type} (p : prog A) (f : A -> prog B)
    (Q : list (Z * Z) -> Z -> result exn B -> World -> Prop) (own : list (Z * Z)) (lk : Z) (w : World) :
  safe p (fun own lk r w => match r with
                            | Ok a => safe (f a) Q own lk w
                            | Err e => Q own lk (Err e) w
                            end) own lk w ->
  safe (bind p f) Q own lk w.
Proof.
  revert own lk w. induction p as [[a | e] | X c k IH]; intros own lk w; simpl; try done.
  intros H w1 H1 H2. specialize (H w1 H1 H2). destruct (exec c w1) as [r w2].
  destruct H as (? & ? & ? & ? & Hf). split_and!; auto. intros Hs Hc. destruct (Hf Hs Hc). auto.
Qed.

Lemma safe_attempt {A : Type} (p : prog A)
    (Q : list (Z * Z) -> Z -> result exn (result exn A) -> World -> Prop)
    (own : list (Z * Z)) (lk : Z) (w : World) :
  safe p (fun own lk r w => Q own lk (Ok r) w) own lk w -> safe (attempt p) Q own lk w.
Proof.
  revert own lk w. induction p as [r | X c k IH]; intros own lk w; simpl; [done |].
  intros H w1 H1 H2. specialize (H w1 H1 H2). destruct (exec c w1) as [r w2].
  destruct H as (? & ? & ? & ? & Hf). split_and!; auto. intros Hs Hc. destruct (Hf Hs Hc). auto.
Qed.

Lemma safe_rely {A : Type} (p : prog A)
    (Q : list (Z * Z) -> Z -> result exn A -> World -> Prop) (own : list (Z * Z)) (lk : Z) (w w' : World) :
  (forall own lk r w w', rely own w w' -> Q own lk r w -> Q own lk r w') ->
  rely own w w' -> safe p Q own lk w -> safe p Q own lk w'.
Proof.
  intros HQ Hr. destruct p as [r | X c k]; simpl; [by apply HQ |].
  intros H w1 H1. apply H. by etrans.
Qed.

End invariant.

#[export] Hint Resolve mono_known mono_sendable mono_dead mono_carries mono_unpayable mono_row_ok
  guar_refl holds_rely : sluice.
