(* ===== verification/Calls.v ===== *)
(** * The atomic calls under interference

    One rule per call of [Effects]: when the call keeps the invariant, what it
    guarantees to the other workers and what its caller learns. *)
From Stdlib Require Import ZArith Lia.
From stdpp Require Import base option strings gmap list.
From S2P Require Import Prelude Text Json Hash Datetime States Address Wire Model Store Node Effects Pipeline Worker Discipline Sequential System Invariant.

Local Open Scope Z_scope.

Section calls.
Context (cfg : Config) (signer : MockSigner) (strict : bool).

Local Abbreviation inv := (inv cfg signer).
Local Abbreviation safe := (safe cfg signer strict).
Local Abbreviation in_range := (in_range cfg).
Local Abbreviation holds := (holds cfg signer).
Local Abbreviation row_ok := (row_ok cfg signer).

Implicit Types (own : list (Z * Z)) (lk : Z) (w : World).

(** ** Steps that leave rows, records and time alone *)

Definition unmoved w w' : Prop :=
  w_store w' = w_store w /\ w_now w' = w_now w /\ frontier w' = frontier w /\ nd_txs (w_node w') = nd_txs (w_node w) /\
  nd_signer (w_node w') = nd_signer (w_node w) /\ node_wf (w_node w').

Lemma unmoved_ok own w w' : inv w -> unmoved w w' -> inv w' /\ guar own w w'.
Proof.
  intros I (Es & En & Ef & Et & Eg & Hn).
  assert (forall id, rows w' !! id = rows w !! id) as Hrows by (intros; unfold rows; by rewrite Es).
  assert (forall t, rec_of w' t = rec_of w t) as Hrec
    by (intros; unfold rec_of, find_rec; by rewrite Et).
  assert (forall id, hist w' id = hist w id) as Hh by (intros; unfold hist; by rewrite Es).
  assert (mono w w') as M.
  { split; try lia; try done.
    - intros txid rec Hr. exists rec. by rewrite Hrec.
    - intros txid rec. rewrite Hrec. congruence.
    - intros id txid. by rewrite Hh.
    - intros id op Hop. exists op. rewrite Hrows. split_and!; [done | done | by left]. }
  split; [split |].
  - rewrite Es. apply I.
  - done.
  - intros id op Hop. rewrite Hrows in Hop. eapply mono_row_ok; [exact M | by eapply inv_rows].
  - intros txid rec Hr. rewrite Hrec in Hr. eapply mono_known; [exact M | by eapply inv_known].
  - intros txid rec Hr Hl. rewrite Hrec in Hr. unfold landable in Hl. rewrite Ef in Hl.
    destruct (inv_onwire _ _ _ I _ _ Hr Hl) as (id & op & Hop & Ho). exists id, op. by rewrite Hrows.
  - intros id t Ht. rewrite Hh in Ht. eapply mono_built; [exact M | by eapply inv_hist].
  - split; [done |]. intros id op Hop _. apply kept. by rewrite Hrows.
Qed.

Lemma unmoved_node w nd : inv w -> not_accepting (w_node w) nd -> unmoved w (with_node nd w).
Proof.
  intros I Hn. pose proof Hn as ((_ & Eb & Eg & _) & _ & Et & _). split_and!; try done.
  - unfold frontier, head_time. simpl. by rewrite Eb.
  - simpl. eapply not_accepting_wf; [exact Hn | apply I].
Qed.

(** ** Reads *)

Lemma quiet_rest {X : Type} (c : call X) :
  quiet c -> sober c /\ store_call c = false /\ forall r, claims_of c r = [].
Proof. by destruct c. Qed.

Lemma safe_lift {A : Type} (r : result exn A) (Q : list (Z * Z) -> Z -> result exn A -> World -> Prop)
    own lk w : Q own lk r w -> safe (lift r) Q own lk w.
Proof. done. Qed.

(** A call that leaves the store alone never fails for the store's sake, and
    raises only what [raises] lists. *)
Lemma safe_quiet {X : Type} (c : call X) (Q : list (Z * Z) -> Z -> result exn X -> World -> Prop)
    own lk w :
  quiet c ->
  (forall w1, rely own w w1 -> ready cfg signer strict lk c w1 ->
     let '(r, w2) := exec c w1 in
     inv w2 /\ guar own w1 w2 /\
     ((forall e, r = Err e -> raises c e) -> Q own (lookup_of c w1 lk) r w2)) ->
  safe (perform c) Q own lk w.
Proof.
  intros Hq HQ w1 H1 H2. specialize (HQ w1 H1 H2). destruct H2 as (I & _).
  pose proof (quiet_raises c w1 Hq (inv_node _ _ _ I)) as Hr.
  destruct (quiet_rest c Hq) as (Hs & Hn & Hc). destruct (exec c w1) as [r w2].
  destruct HQ as (I' & G & HQ). destruct Hr as (_ & _ & _ & Hr). rewrite Hc, app_nil_r.
  split_and!; [done | done | done | | congruence]. apply HQ. by intros e ->.
Qed.

Lemma safe_read {X : Type} (c : call X) (Q : list (Z * Z) -> Z -> result exn X -> World -> Prop)
    own lk w :
  quiet c -> (forall w1, snd (exec c w1) = w1) ->
  (forall w1, rely own w w1 -> ready cfg signer strict lk c w1 ->
     (forall e, fst (exec c w1) = Err e -> raises c e) ->
     Q own (lookup_of c w1 lk) (fst (exec c w1)) w1) ->
  safe (perform c) Q own lk w.
Proof.
  intros Hq Hw HQ. apply safe_quiet; [done |]. intros w1 H1 H2. specialize (Hw w1). specialize (HQ w1 H1 H2).
  destruct (exec c w1) as [r w2]. simpl in *. subst w2. split_and!; [apply H2 | apply guar_refl | done].
Qed.

Lemma safe_now (Q : list (Z * Z) -> Z -> result exn Z -> World -> Prop) own lk w :
  (forall w1 now, rely own w w1 -> now = w_now w1 -> (strict = true -> in_range w1) -> Q own lk (Ok now) w1) ->
  safe (perform CNow) Q own lk w.
Proof. intros HQ. apply safe_read; try done. intros w1 H1 (_ & _ & _ & Hr) _. by apply HQ. Qed.

Lemma ref_block_scalar nd ref : ref_block nd = Ok ref -> Forall scalar (snd ref).
Proof.
  unfold ref_block. destruct (zmin (heights nd)) as [lo |]; [| done]. intros [= <-]. cbn [snd].
  do 3 (constructor; [unfold scalar; lia |]). unfold hex16. apply Forall_forall. intros c Hc. apply list_elem_of_In, in_map_iff in Hc as (i & <- & _).
  unfold scalar, hex_digit. match goal with |- context [?n mod 16] => pose proof (Z.mod_pos_bound n 16) end.
  destruct (_ <? 10); lia.
Qed.

Lemma safe_ref_block (Q : list (Z * Z) -> Z -> result exn (Z * pystr) -> World -> Prop) own lk w :
  (forall w1 ref, rely own w w1 -> Forall scalar (snd ref) -> Q own lk (Ok ref) w1) ->
  safe (perform CRefBlock) Q own lk w.
Proof.
  intros HQ. apply safe_read; try done. intros w1 H1 _ Hr. cbn in *.
  destruct (ref_block (w_node w1)) as [ref | e] eqn:E; [| by destruct (Hr e)].
  apply HQ; [done | by eapply ref_block_scalar].
Qed.

Lemma safe_solid_block (Q : list (Z * Z) -> Z -> result exn Z -> World -> Prop) own lk w :
  (forall w1 b, rely own w w1 -> Q own lk (Ok b) w1) -> safe (perform CSolidBlock) Q own lk w.
Proof. intros HQ. apply safe_read; try done. intros w1 H1 _ _. by apply HQ. Qed.

(** The solid time read within the margin bounds the frontier at the lookup. *)
Lemma safe_solid_now (Q : list (Z * Z) -> Z -> result exn Z -> World -> Prop) own lk w :
  (forall w1 t, rely own w w1 -> t - cfg_expiration_safety cfg < lk -> (strict = true -> in_range w1) ->
     Q own lk (Ok t) w1) ->
  safe (perform CSolidNow) Q own lk w.
Proof.
  intros HQ. apply safe_read; try done. intros w1 H1 (I & Ht & _ & Hin) Hr. cbn in *. apply Z.ltb_lt in Ht.
  destruct (solid_now (w_node w1)) as [t | e] eqn:E; [| by destruct (Hr e)]. apply HQ; [done | | done].
  apply solid_now_le in E; [| apply I]. unfold frontier in *. lia.
Qed.

(** ** Crash points *)

Lemma safe_crash (point : pystr) (Q : list (Z * Z) -> Z -> result exn unit -> World -> Prop) own lk w :
  (forall w1, rely own w w1 -> Q own lk (Ok tt) w1) ->
  (forall w1 p, rely own w w1 -> Q own lk (Err (SimulatedCrash p)) w1) ->
  safe (perform (CCrash point)) Q own lk w.
Proof.
  intros HQ HE. apply safe_quiet; [done |]. intros w1 H1 (I & _). simpl. destruct (here point (w_crash w1)) as [r c].
  assert (unmoved w1 (with_crash c w1)) as Hq by (split_and!; try done; apply I).
  destruct (unmoved_ok own _ _ I Hq) as [I' G]. split_and!; try done.
  assert (rely own w (with_crash c w1)) as Hr.
  { etrans; [exact H1 |]. split; [apply G |]. intros id op Hop _. by apply kept. }
  intros He. destruct r as [[] | e]; [by apply HQ |]. destruct (He e eq_refl) as [p ->]. by apply HE.
Qed.

(** ** Lookups *)

(** What a lookup of [txid] tells about the world it was made in. *)
Definition seen w (txid : pystr) (st : TxStatus) : Prop :=
  match st_result st with
  | INCLUDED => exists rec, rec_of w txid = Some rec /\ is_included rec = true /\
                st_block st = tr_included_block rec /\ st_receipt st = tr_receipt rec
  | PENDING => True
  | UNKNOWN => forall rec, rec_of w txid = Some rec -> is_included rec = false
  end.

Lemma tx_status_seen w txid : seen w txid (tx_status (w_now w) txid (w_node w)).
Proof.
  unfold seen, tx_status, rec_of. destruct (find_rec txid (w_node w)) as [rec |] eqn:E; simpl; [| by congruence].
  destruct (tr_included_block rec) as [b |] eqn:Eb; simpl.
  - exists rec. split_and!; try done. unfold is_included. rewrite Eb. by apply bool_decide_eq_true.
  - assert (is_included rec = false) as Hi.
    { unfold is_included. rewrite Eb. apply bool_decide_eq_false. by intros []. }
    destruct (_ <=? _); simpl; [congruence | done].
Qed.

Lemma safe_find (txid : pystr) (Q : list (Z * Z) -> Z -> result exn TxStatus -> World -> Prop) own lk w :
  (forall w1 lk', rely own w w1 -> Q own lk' (Err NodeTimeout) w1) ->
  (forall w1 st, rely own w w1 -> seen w1 txid st -> Q own (frontier w1) (Ok st) w1) ->
  safe (perform (CFindTx txid)) Q own lk w.
Proof.
  intros HE HQ. apply safe_quiet; [done |]. intros w1 H1 (I & _). simpl.
  destruct (find_tx_nd (w_now w1) txid (w_node w1)) as [Hn Hst].
  destruct (find_tx (w_now w1) txid (w_node w1)) as [r nd]. simpl in *.
  pose proof (unmoved_node w1 nd I Hn) as Hq. destruct (unmoved_ok own _ _ I Hq) as [I' G].
  assert (rely own w (with_node nd w1)) as Hr.
  { etrans; [exact H1 |]. split; [apply G |]. intros id op Hop _. by apply kept. }
  split_and!; try done. intros He.
  destruct r as [st | e]; [| rewrite (He e eq_refl); by apply HE]. rewrite (Hst st eq_refl).
  pose proof Hq as (_ & _ & Ef & _). rewrite <- Ef. apply HQ; [done |].
  exact (tx_status_seen (with_node nd w1) txid).
Qed.

(** ** Broadcasts *)

Lemma accepting_ok own w nd tx :
  inv w -> known cfg signer w tx -> sendable w tx -> accepting (w_now w) tx (w_node w) nd ->
  inv (with_node nd w) /\ guar own w (with_node nd w).
Proof.
  intros I Hk Hs Hacc. pose proof (accepting_wf _ _ _ _ Hacc (inv_node _ _ _ I)) as Hwf.
  pose proof (fun t => accepting_find _ _ _ _ t Hacc) as Hfind.
  destruct Hacc as ((_ & Eb & Eg & _) & _ & Hn & _ & Hexp & _ & _).
  assert (frontier (with_node nd w) = frontier w) as Ef by (unfold frontier, head_time; simpl; by rewrite Eb).
  assert (forall t, rec_of (with_node nd w) t =
    if decide (stx_txid tx = t) then Some (mkTxRecord tx (nd_head (w_node w)) None None) else rec_of w t)
    as Hrec by exact Hfind.
  assert (mono w (with_node nd w)) as M.
  { split; try done; try lia.
    - intros t rec Hr. exists rec. split; [| done]. rewrite Hrec, decide_False; [done |].
      intros <-. unfold rec_of in Hr. congruence.
    - intros t rec Hr. rewrite Hrec. destruct (decide _); [by intros [= <-] | congruence].
    - intros id op Hop. exists op. split_and!; [done | done | by left]. }
  split; [split |].
  - apply I.
  - exact Hwf.
  - intros id op Hop. eapply mono_row_ok; [exact M | by eapply (inv_rows _ _ _ I)].
  - intros t rec. rewrite Hrec. destruct (decide _); [intros [= <-] | intros Hr]; eapply mono_known; try exact M.
    + done.
    + by eapply inv_known.
  - intros t rec. unfold landable. rewrite Hrec, Ef. destruct (decide _) as [Et |]; [| by apply (inv_onwire _ _ _ I)].
    intros [= <-] [| Hlt]; [done |]. destruct Hs as [Hd | Ho]; [simpl in Hlt; lia | exact Ho].
  - intros id t Ht. eapply mono_built; [exact M | by eapply (inv_hist _ _ _ I)].
  - split; [done |]. intros id op Hop _. by apply kept.
Qed.

Lemma safe_send (tx : SignedTx) (worker : option pystr)
    (Q : list (Z * Z) -> Z -> result exn BroadcastResult -> World -> Prop) own lk w :
  known cfg signer w tx -> sendable w tx ->
  (forall w1, rely own w w1 -> Q own lk (Err NodeTimeout) w1) ->
  (forall w1 res, rely own w w1 ->
     (br_code res ∈ HARD_REJECT -> verify (nd_signer (w_node w1)) tx = false) -> Q own lk (Ok res) w1) ->
  safe (perform (CBroadcast tx worker)) Q own lk w.
Proof.
  intros Hk Hs HE HQ. apply safe_quiet; [done |]. intros w1 H1 (I & _). simpl. pose proof H1 as [M1 _].
  pose proof (broadcast_cases (w_now w1) tx worker (w_node w1)) as H.
  destruct (broadcast (w_now w1) tx worker (w_node w1)) as [r nd]. destruct H as [Hcase Hhard].
  assert (inv (with_node nd w1) /\ guar own w1 (with_node nd w1)) as [I' G].
  { destruct Hcase as [Hn | Ha]; [by apply unmoved_ok, unmoved_node |].
    apply (accepting_ok own w1 nd tx); eauto using mono_known, mono_sendable, known_representable. }
  assert (rely own w (with_node nd w1)) as Hr.
  { etrans; [exact H1 |]. split; [apply G |]. intros id op Hop _. by apply kept. }
  split_and!; try done. intros He. destruct r as [res | e]; [| rewrite (He e eq_refl); by apply HE].
  apply HQ; [done |]. intros Hc. rewrite (mono_signer _ _ (proj1 G)). by eapply Hhard.
Qed.

(** ** Rows with the same envelope *)

(** The same operation with the same envelope in the same state. *)
Definition same_envelope (op op' : Operation) : Prop :=
  terms op' = terms op /\ op_state op' = op_state op /\ op_txid op' = op_txid op /\
  op_signed_tx op' = op_signed_tx op /\ op_included_block op' = op_included_block op.

(** Only bookkeeping of the row changed. *)
Definition relet (op op' : Operation) : Prop := evolves op op' /\ same_envelope op op'.

Lemma same_envelope_onwire op op' : same_envelope op op' -> onwire op' = onwire op.
Proof. intros (_ & Es & _ & E & _). unfold onwire. by rewrite Es, E. Qed.

Lemma same_envelope_row_ok w op op' : same_envelope op op' -> row_ok w op -> row_ok w op'.
Proof.
  intros (Ht & Es & Etx & Esg & Eb). pose proof (terms_id _ _ Ht) as Eid.
  assert (forall s, carries cfg signer w op s -> carries cfg signer w op' s) as Hc.
  { intros s (H0 & H1 & H2 & H3 & H4 & H5). split; [by eapply validated_terms |].
    split_and!; [congruence | congruence | by eapply evolves_envelope | by rewrite Eid | done]. }
  intros [Hcl Henv]. split.
  { unfold cleared in *. rewrite Es. destruct (op_state op); try done; by eapply validated_terms. }
  revert Henv. unfold envelope_ok, paid. rewrite Es, Esg, Eb.
  destruct (op_state op); try done; try (intros (s & ?%Hc); by exists s).
  - intros (s & ?%Hc & ?). by exists s.
  - intros [| (s & ?%Hc & ?)]; [by left | right; by exists s].
Qed.

(** ** Writes *)

(** The txid an event detail carries. *)
Definition detail_txid (detail : list (pystr * jval)) : option pystr :=
  match assoc (str "txid") detail with
  | Some (JStr t) => Some t
  | _ => None
  end.

Lemma hist_append w now id id' token from_state to_state worker detail ops :
  hist (with_store (append_event now id from_state to_state worker token detail
          (mkStore ops (ms_events (w_store w)) (ms_order (w_store w)) (ms_arrival (w_store w))
                   (ms_event_seq (w_store w)))) w) id' =
  hist w id' ++ (if decide (id = id') then option_list (detail_txid detail) else []).
Proof.
  unfold hist, all_txids. simpl. rewrite events_append, omap_app. f_equal.
  destruct (decide (id = id')); [| done]. simpl. unfold event_txid, detail_txid. simpl.
  by destruct (assoc (str "txid") detail) as [[] |].
Qed.

(** What a row write must establish: the new row is well formed in the world
    after it, an envelope leaves the wire only when it is dead, and the event
    names no txid but an envelope's. *)
Definition writable w op (row : Operation) (detail : list (pystr * jval)) : Prop :=
  (forall w', mono w w' -> row_ok w' row) /\
  (forall s, representable (stx_expiration s) -> onwire op = Some (to_json s) ->
     onwire row = Some (to_json s) \/ dead w s) /\
  (forall t, detail_txid detail = Some t -> built cfg op t).

Lemma writable_same w op op1 row row1 detail :
  same_envelope op op1 -> same_envelope row row1 -> writable w op row detail -> writable w op1 row1 detail.
Proof.
  intros Ho Hr (H1 & H2 & H3). split_and!.
  - intros w' M. by eapply same_envelope_row_ok, H1.
  - intros s. rewrite (same_envelope_onwire _ _ Ho), (same_envelope_onwire _ _ Hr). apply H2.
  - intros t Ht. eapply built_terms; [apply Ho | by apply H3].
Qed.

Lemma renamed_envelope op op' : renamed op op' -> same_envelope op op'.
Proof. by intros [who ->]. Qed.

Lemma setattrs_renamed op who sets :
  setattrs (set_claimed_by who op) sets = set_claimed_by who (setattrs op sets).
Proof.
  unfold setattrs. revert op. induction sets as [|f sets IH]; intros op; [done |]. cbn [fold_left].
  replace (setattr (set_claimed_by who op) f) with (set_claimed_by who (setattr op f)) by (by destruct f).
  apply IH.
Qed.

Lemma cas_row_envelope now to_state sets renew op :
  same_envelope (cas_half now to_state sets op) (cas_row now to_state sets renew op).
Proof. unfold cas_row. destruct renew; case_bool_decide; done. Qed.

Lemma cas_half_envelope now to_state sets op op' :
  renamed op op' -> same_envelope (cas_half now to_state sets op) (cas_half now to_state sets op').
Proof. intros [who ->]. unfold cas_half. by rewrite setattrs_renamed. Qed.

Lemma same_envelope_sym op op' : same_envelope op op' -> same_envelope op' op.
Proof. by intros (? & ? & ? & ? & ?). Qed.

Lemma same_envelope_trans op op1 op2 : same_envelope op op1 -> same_envelope op1 op2 -> same_envelope op op2.
Proof. intros (? & ? & ? & ? & ?) (? & ? & ? & ? & ?). split_and!; congruence. Qed.

(** The write a worker plans on its copy is as good on the renamed row, whole
    or broken in half. *)
Lemma writable_renamed w op op' now to_state sets renew detail :
  renamed op op' -> writable w op (cas_row now to_state sets renew op) detail ->
  writable w op' (cas_row now to_state sets renew op') detail /\
  writable w op' (cas_half now to_state sets op') detail.
Proof.
  intros Hn Hw. pose proof (cas_half_envelope now to_state sets op op' Hn) as Hh.
  assert (same_envelope (cas_row now to_state sets renew op) (cas_half now to_state sets op')) as H1.
  { eapply same_envelope_trans; [apply same_envelope_sym, cas_row_envelope | exact Hh]. }
  pose proof (cas_row_envelope now to_state sets renew op') as H2.
  pose proof (renamed_envelope _ _ Hn) as H0.
  split; (eapply writable_same; [exact H0 | | exact Hw]); [by eapply same_envelope_trans | done].
Qed.

(** A row put in place of another, with at most an event of its own. *)
Lemma write_ok own w op row (logged : list pystr) st' detail :
  inv w -> rows w !! op_operation_id op = Some op -> (op_operation_id op, op_fencing_token op) ∈ own ->
  evolves op row -> writable w op row detail -> Forall (built cfg op) logged ->
  ms_ops st' = <[op_operation_id op := row]> (ms_ops (w_store w)) ->
  (forall i, hist (with_store st' w) i =
     hist w i ++ (if decide (op_operation_id op = i) then logged else [])) ->
  store_wf st' -> inv (with_store st' w) /\ guar own w (with_store st' w).
Proof.
  intros I Hop Hin He (Hok & Hw & _) Hbt Est Hh Hwf. set (id := op_operation_id op) in *. set (w' := with_store st' w) in *.
  assert (forall i, rows w' !! i = if decide (id = i) then Some row else rows w !! i) as Hrows.
  { intros i. unfold rows, w'. cbn. rewrite Est. destruct (decide (id = i)) as [<- |];
      [apply lookup_insert_eq | by apply lookup_insert_ne]. }
  assert (mono w w') as M.
  { split; try done; try lia.
    - intros t rec Hr. by exists rec.
    - intros t rec Hr Hr'. unfold rec_of, w' in *. simpl in Hr'. congruence.
    - intros i t Ht. rewrite Hh. apply elem_of_app. by left.
    - intros i o Ho. rewrite Hrows. destruct (decide (id = i)) as [<- |].
      + exists row. assert (o = op) as -> by congruence. split_and!; [done.. |].
        intros s Hr Hs. destruct (Hw s Hr Hs) as [| [Hd _]]; [by left | by right].
      + exists o. split_and!; [done | done | by left]. }
  split_and!; [split |]; try done.
  - apply I.
  - intros i o. rewrite Hrows. destruct (decide (id = i)); [intros [= <-]; by apply Hok |].
    intros Ho. eapply mono_row_ok; [exact M | by eapply (inv_rows _ _ _ I)].
  - intros t rec Hr. eapply mono_known; [exact M | by eapply (inv_known _ _ _ I)].
  - intros t rec Hr Hl. destruct (inv_onwire _ _ _ I t rec Hr Hl) as (i & o & Ho & Hon).
    exists i. rewrite Hrows. destruct (decide (id = i)) as [<- |]; [| by exists o].
    exists row. split; [done |]. assert (o = op) as -> by congruence.
    pose proof (known_representable _ _ _ _ (inv_known _ _ _ I _ _ Hr)) as Hrep.
    destruct (Hw _ Hrep Hon) as [| [Hd Hni]]; [done | exfalso].
    pose proof (rec_txid _ _ _ (nw_recs _ (inv_node _ _ _ I) _ _ Hr)) as Et.
    destruct Hl as [Hl | Hl]; [| change (frontier w') with (frontier w) in Hl; lia].
    rewrite (Hni rec) in Hl; [done | by rewrite Et | done].
  - intros i t. rewrite Hh. intros [Ht | Ht]%elem_of_app.
    + eapply mono_built; [exact M | by eapply (inv_hist _ _ _ I)].
    + destruct (decide (id = i)) as [<- |]; [| by apply elem_of_nil in Ht].
      rewrite Hrows, decide_True by done. exists row. split; [done |].
      eapply built_terms; [apply He |]. by eapply Forall_forall.
  - split; [done |]. intros i o Ho Hni. apply kept. rewrite Hrows, decide_False; [done |].
    intros <-. apply Hni. assert (o = op) as -> by congruence. exact Hin.
Qed.

(** The pairs of [own] about other operations than [id]. *)
Definition others (id : Z) own : list (Z * Z) := filter (fun x => fst x <> id) own.

Lemma others_sub (id : Z) own : forall x, x ∈ others id own -> x ∈ own.
Proof. intros x [_ H]%list_elem_of_filter. done. Qed.

Lemma rely_sub own own' w w' : (forall x, x ∈ own' -> x ∈ own) -> rely own w w' -> rely own' w w'.
Proof. intros Hs [M F]. split; [done |]. intros id op Hop Hin. apply F; auto. Qed.

Lemma rely_others (id : Z) own w w' : rely own w w' -> rely (others id own) w w'.
Proof. apply rely_sub, others_sub. Qed.

Lemma guar_others (id token : Z) own w w' :
  guar [(id, token)] w w' -> rely (others id own) w w'.
Proof.
  intros G. eapply guar_rely; [exact G |]. intros [i t] [Hne _]%list_elem_of_filter.
  rewrite list_elem_of_singleton. by intros [= -> _].
Qed.

Lemma holds_others own (id : Z) w w' op :
  rely (others id own) w w' -> op_operation_id op <> id -> holds own w op -> holds own w' op.
Proof.
  intros Hr Hne Hh. pose proof Hh as [Hin _].
  assert (holds (others id own) w op) as Hh'.
  { destruct Hh as [_ Hh]. split; [| done]. apply list_elem_of_filter. done. }
  eapply holds_own; [apply others_sub | by eapply holds_rely].
Qed.

(** A disciplined [cas] raises only for a lease past the calendar. *)
Lemma cas_errors w (id token : Z) from_state to_state sets detail renew worker (e : exn) :
  disciplined cfg _ (CCas id token from_state to_state sets detail renew worker) ->
  fst (cas (w_now w) id token from_state to_state sets detail renew worker (w_store w)) = Err e ->
  e = OverflowError.
Proof.
  intros (_ & _ & Hm & Ht & _). unfold cas. rewrite Hm, Ht. cbn [negb].
  destruct (ms_ops _ !! id) as [op |]; [| done]. destruct (_ || _); [done |]. case_bool_decide; [done |].
  unfold renewed_lease, plus_timedelta. destruct renew as [lease |]; [| done]. destruct (decide _); [done |].
  by intros [= <-].
Qed.

(** A write with an owned token, whatever row it meets. *)
Lemma safe_ccas (id token : Z) from_state to_state sets detail renew worker
    (Q : list (Z * Z) -> Z -> result exn (option Operation) -> World -> Prop) own lk w :
  (id, token) ∈ own -> (strict = true -> Set_last_error (Some misfire) ∉ sets) ->
  (forall w1 row now, rely own w w1 -> inv w1 -> rows w1 !! id = Some row ->
     op_fencing_token row = token -> op_state row = from_state ->
     writable w1 row (cas_row now to_state sets renew row) detail) ->
  (forall w1, rely own w w1 -> Q own lk (Ok None) w1) ->
  (forall w1 e, strict = false -> rely (others id own) w w1 -> Q own lk (Err e) w1) ->
  (forall w1 w2 row now, rely own w w1 -> rows w1 !! id = Some row -> op_fencing_token row = token ->
     rely (others id own) w w2 -> holds own w2 (cas_row now to_state sets renew row) ->
     (forall t, detail_txid detail = Some t -> t ∈ hist w2 id) ->
     Q own lk (Ok (Some (cas_row now to_state sets renew row))) w2) ->
  safe (perform (CCas id token from_state to_state sets detail renew worker)) Q own lk w.
Proof.
  intros Hin Hsob Hw Hno Hfail Hyes w1 H1 (I & _ & Hdis & Hrange). simpl.
  pose proof (cas_wf (w_now w1) id token from_state to_state sets detail renew worker (w_store w1)
                (inv_store _ _ _ I)) as Hwf.
  pose proof (fun e => cas_errors w1 _ _ _ _ _ _ _ _ e Hdis) as Herr.
  pose proof (cas_cases (w_now w1) id token from_state to_state sets detail renew worker (w_store w1)) as H.
  destruct (cas _ _ _ _ _ _ _ _ _ _) as [r st]. rewrite app_nil_r. cbn [fst snd] in *.
  assert (rely (others id own) w w1) as Hr1 by by apply rely_others.
  destruct H as [(-> & Hr & Hro) | (op & Hrow & Ht & Hf & Hterm & _ & H)].
  { assert (with_store (w_store w1) w1 = w1) as -> by by destruct w1.
    destruct r as [[row |] | e]; [by destruct (Hr row) | | by rewrite (Herr e eq_refl) in Hro].
    split_and!; [done | apply guar_refl | done | by apply Hno | auto]. }
  specialize (Hw w1 op (w_now w1) H1 I Hrow Ht Hf).
  pose proof (wf_key _ (inv_store _ _ _ I) _ _ Hrow) as Eid. subst id token from_state.
  set (own1 := [(op_operation_id op, op_fencing_token op)]).
  assert (forall w2, inv w2 /\ guar own1 w1 w2 ->
    inv w2 /\ guar own w1 w2 /\ rely (others (op_operation_id op) own) w w2) as Hdone.
  { intros w2 [I2 G]. split_and!; [done | | etrans; [exact Hr1 | by eapply guar_others]].
    eapply guar_mono_own; [| exact G]. by intros x ->%list_elem_of_singleton. }
  destruct H as [(_ & -> & Est) | (lease & Erenew & Hlate & -> & Est)].
  - set (row := cas_row _ _ _ _ _) in *.
    pose proof (cas_row_evolves (w_now w1) to_state sets renew op Hterm) as He. fold row in He.
    assert (forall i, hist (with_store st w1) i = hist w1 i ++
      (if decide (op_operation_id op = i) then option_list (detail_txid detail) else [])) as Hh
      by (intros i; rewrite Est; apply hist_append).
    destruct (Hdone (with_store st w1)) as (I2 & G2 & R2).
    { eapply (write_ok own1 w1 op row); [done | done | by apply list_elem_of_singleton | done | exact Hw | | by rewrite Est | exact Hh | done].
      destruct (detail_txid detail) as [t |] eqn:Edt; [| constructor]. apply Forall_singleton. by apply Hw. }
    split_and!; [exact I2 | exact G2 | done | | auto].
    apply (Hyes w1); try done.
    + destruct (cas_row_frame (w_now w1) to_state sets renew op) as (_ & _ & Ef). fold row in Ef.
      apply (inv_holds _ _ _ _ (op_operation_id op) row); [exact I2 | | by rewrite Ef].
      rewrite Est. cbn. apply lookup_insert_eq.
    + intros t Et. rewrite Hh, decide_True, Et by done. apply elem_of_app. right. by apply list_elem_of_singleton.
  - assert (strict = false) as Hs.
    { destruct strict; [exfalso | done]. destruct (Hrange eq_refl) as (_ & _ & _ & Hfit).
      destruct Hdis as (_ & [E | [E _]] & _); congruence. }
    destruct (Hdone (with_store st w1)) as (I2 & G2 & R2).
    { apply (write_ok own1 w1 op (cas_half (w_now w1) to_state sets op) [] st detail); [done | done | by apply list_elem_of_singleton
        | by apply cas_half_evolves | by apply (writable_renamed _ op op _ _ _ renew); [reflexivity |] | constructor
        | by rewrite Est | | done].
      intros i. rewrite Est. unfold hist. cbn. destruct (decide _); by rewrite app_nil_r. }
    split_and!; [exact I2 | exact G2 | done | by apply Hfail | auto].
Qed.

Lemma safe__cas op to_state (worker : pystr) sets detail
    (Q : list (Z * Z) -> Z -> result exn Operation -> World -> Prop) own lk w :
  holds own w op -> Set_last_error (Some misfire) ∉ sets ->
  (forall w1 now, rely own w w1 -> inv w1 ->
     writable w1 op (cas_row now to_state sets (Some (cfg_lease cfg)) op) detail) ->
  (forall w1 e, rely (others (op_operation_id op) own) w w1 -> (strict = true -> e = LostClaim) ->
     Q own lk (Err e) w1) ->
  (forall w1 now who, let op' := set_claimed_by who op in
     rely (others (op_operation_id op) own) w w1 ->
     holds own w1 (cas_row now to_state sets (Some (cfg_lease cfg)) op') ->
     (forall t, detail_txid detail = Some t -> t ∈ hist w1 (op_operation_id op)) ->
     Q own lk (Ok (cas_row now to_state sets (Some (cfg_lease cfg)) op')) w1) ->
  safe (_cas cfg op to_state worker sets detail) Q own lk w.
Proof.
  intros Hh Hsob Hw Hno Hyes.
  assert (forall w1 row, rely own w w1 -> rows w1 !! op_operation_id op = Some row ->
    op_fencing_token row = op_fencing_token op -> renamed op row) as Hsnap.
  { intros w1 row H1 Hrow Ht. pose proof (holds_rely _ _ _ _ _ _ H1 Hh) as (_ & _ & _ & row' & Hrow' & _ & Heq).
    assert (row' = row) as -> by congruence. auto. }
  apply safe_bind, safe_ccas; [apply Hh | done | | | |].
  - intros w1 row now H1 I Hrow Ht _. apply (writable_renamed _ op); eauto.
  - intros w1 H1. apply Hno; [by apply rely_others | done].
  - intros w1 e Hs H1. apply Hno; [done | congruence].
  - intros w1 w2 row now H1 Hrow Ht. destruct (Hsnap w1 row H1 Hrow Ht) as [who ->]. apply Hyes.
Qed.

(** ** Leases: [release] and [claim] *)

Lemma relet_ok own w (ops : gmap Z Operation) :
  inv w ->
  (forall id, match rows w !! id, ops !! id with
     | Some op, Some op' => relet op op' /\
         (renamed op op' \/ op_fencing_token op < op_fencing_token op' \/ (id, op_fencing_token op) ∈ own)
     | None, None => True
     | _, _ => False
     end) ->
  let st := w_store w in
  let w' := with_store (mkStore ops (ms_events st) (ms_order st) (ms_arrival st) (ms_event_seq st)) w in
  inv w' /\ guar own w w'.
Proof.
  intros I Hops st w'.
  assert (mono w w') as M.
  { split; try done; try lia.
    - intros t rec Hr. by exists rec.
    - intros t rec Hr Hr'. unfold rec_of, w' in *. simpl in Hr'. congruence.
    - intros id op Hop. specialize (Hops id). rewrite Hop in Hops. unfold rows, w'. simpl.
      destruct (ops !! id) as [op' |]; [| done]. exists op'. destruct Hops as [Hr _].
      split_and!; [done | apply Hr |]. rewrite (same_envelope_onwire _ _ (proj2 Hr)). by left. }
  split; [split |]; try apply I.
  - apply wf_same_rows; [apply I |]. intros id. specialize (Hops id). unfold rows in Hops.
    destruct (ms_ops _ !! id), (ops !! id); try done.
    by destruct Hops as [((Ht & Hle & _) & _) _].
  - intros id op' Hop'. specialize (Hops id). unfold rows, w' in Hop'. simpl in Hop'. rewrite Hop' in Hops.
    destruct (rows w !! id) as [op |] eqn:E; [| done]. destruct Hops as [Hr _].
    eapply mono_row_ok, same_envelope_row_ok; [exact M | apply Hr | by eapply (inv_rows _ _ _ I)].
  - intros t rec Hr. eapply mono_known; [exact M | by eapply (inv_known _ _ _ I)].
  - intros t rec Hr Hl. destruct (inv_onwire _ _ _ I t rec Hr Hl) as (id & op & Hop & Ho).
    exists id. specialize (Hops id). rewrite Hop in Hops. unfold rows, w'. simpl.
    destruct (ops !! id) as [op' |]; [| done]. exists op'. destruct Hops as [Hr' _].
    by rewrite (same_envelope_onwire _ _ (proj2 Hr')).
  - intros id t Ht. eapply mono_built; [exact M | by eapply (inv_hist _ _ _ I)].
  - split; [done |]. intros id op Hop Hni. specialize (Hops id). rewrite Hop in Hops. unfold rows, w'. simpl.
    destruct (ops !! id) as [op' |]; [| done]. destruct Hops as [_ [Hn | [Hlt | Hin]]]; [| | done];
      exists op'; (split; [done |]); [by left | by right].
Qed.

Lemma relet_refl op : relet op op.
Proof. done. Qed.

Lemma relet_none own (id : Z) (o o' : option Operation) :
  o' = o ->
  match o, o' with
  | Some op, Some op' => relet op op' /\
      (renamed op op' \/ op_fencing_token op < op_fencing_token op' \/ (id, op_fencing_token op) ∈ own)
  | None, None => True
  | _, _ => False
  end.
Proof. intros ->. destruct o; [split; [apply relet_refl | by left] | done]. Qed.

Lemma safe_release (id token : Z) (Q : list (Z * Z) -> Z -> result exn unit -> World -> Prop) own lk w :
  (id, token) ∈ own ->
  (forall w1 r, rely (others id own) w w1 -> (strict = true -> r = Ok tt) -> Q own lk r w1) ->
  safe (perform (CRelease id token)) Q own lk w.
Proof.
  intros Hin HQ w1 H1 (I & _). simpl. rewrite app_nil_r.
  rewrite (release_store (w_now w1) id token (w_store w1)). cbn [ms_ops].
  destruct (relet_ok [(id, token)] w1 (ms_ops (release (w_now w1) id token (w_store w1))) I) as [I' G].
  { intros i. destruct (release_row (w_now w1) id token i (w_store w1)) as [E | (row & -> & Hrow & Et & ->)];
      [by apply relet_none |].
    unfold rows. rewrite Hrow. split; [split; [split_and!; done || lia | done] |].
    right. right. apply list_elem_of_singleton. congruence. }
  pose proof (rely_others id _ _ _ H1) as Hr1.
  set (w2 := with_store _ w1) in *.
  assert (rely (others id own) w w2) as Hr2 by (etrans; [exact Hr1 | by eapply guar_others]).
  split_and!; [exact I' | | done | by apply HQ | intros Hs _; split; apply HQ; congruence || done].
  eapply guar_mono_own; [| exact G]. by intros x ->%list_elem_of_singleton.
Qed.

Lemma safe_claim wanted limit (worker : pystr) lease now
    (Q : list (Z * Z) -> Z -> result exn (list Operation) -> World -> Prop) own lk w :
  (strict = true -> representable (now + lease)) ->
  (forall w1 e, strict = false -> Q own lk (Err e) w1) ->
  (forall w1 out, NoDup (op_operation_id <$> out) -> Forall (fun op => op_state op ∈ wanted) out ->
     let own' := own ++ ((fun op => (op_operation_id op, op_fencing_token op)) <$> out) in
     Forall (holds own' w1) out -> Q own' lk (Ok out) w1) ->
  safe (perform (CClaim wanted limit worker lease now)) Q own lk w.
Proof.
  intros Hfit HE HQ w1 H1 (I & _). simpl. pose proof (inv_store _ _ _ I) as Hwf.
  pose proof (fun id => claim_row wanted limit worker lease now (w_store w1) id Hwf) as Hrow.
  pose proof (fun out row => claim_out wanted limit worker lease now (w_store w1) out row Hwf) as Hout.
  pose proof (claim_store wanted limit worker lease now (w_store w1)) as Est.
  pose proof (fun out => claim_NoDup wanted limit worker lease now (w_store w1) out Hwf) as Hnd.
  pose proof (fun e => claim_late wanted limit worker lease now (w_store w1) e Hwf) as Herr.
  destruct (claim wanted limit worker lease now (w_store w1)) as [r st]. cbn [fst snd] in *. rewrite Est.
  destruct (relet_ok own w1 (ms_ops st) I) as [I' G].
  { intros id. unfold rows. destruct (Hrow id) as [E | (op & -> & _ & _ & [(out & _ & -> & _) | (_ & _ & ->)])];
      [by apply relet_none | |].
    - split; [| right; left; simpl; lia]. split; [split_and!; simpl; [done | lia | done] | done].
    - split; [| left; by eexists]. split; [by apply renamed_evolves; eexists | done]. }
  split_and!; [exact I' | exact G | done | | auto]. destruct r as [out | e].
  - apply HQ; [by apply Hnd | |]; apply Forall_forall; intros row Hin;
      destruct (Hout out row eq_refl Hin) as (op & -> & _ & Hs & _ & Hin'); [done |].
    apply (inv_holds _ _ _ _ (op_operation_id op) _ I'); [exact Hin' |].
    apply elem_of_app. right. apply list_elem_of_fmap. by exists (take_claim now lease worker op).
  - rewrite app_nil_r. apply HE. destruct strict; [| done]. by destruct (Herr e eq_refl) as (_ & Hl & _); destruct (Hl (Hfit eq_refl)).
Qed.

End calls.
