(* ===== verification/Handlers.v ===== *)
(** * The handlers and the worker loop are safe

    Every handler of [Pipeline] and the loop of [Worker], run from a claimed
    row with other workers acting between any two calls, keeps the global
    invariant, touches no row it does not own, and retires an envelope that was
    past the write-ahead only when it is dead. *)
From Stdlib Require Import ZArith Lia.
From stdpp Require Import base option strings gmap list.
From S2P Require Import Prelude Text Json Hash Datetime States Address Wire Model Store Node Effects Pipeline Worker Discipline Sequential System Invariant Calls.

Local Open Scope Z_scope.

Section handlers.
Context (cfg : Config) (signer : MockSigner) (strict : bool).

Local Abbreviation inv := (inv cfg signer).
Local Abbreviation safe := (safe cfg signer strict).
Local Abbreviation holds := (holds cfg signer).
Local Abbreviation row_ok := (row_ok cfg signer).
Local Abbreviation carries := (carries cfg signer).
Local Abbreviation writable := (writable cfg signer).

Implicit Types (own : list (Z * Z)) (lk : Z) (w : World) (op : Operation) (worker : pystr).

(** What a handler may raise when the store works and dates are in range. *)
Definition expected (e : exn) : Prop := e = LostClaim \/ exists point, e = SimulatedCrash point.

(** What a handler that started on operation [id] in world [w] leaves: other
    operations of the worker untouched, and on success its new copy of [id]. *)
Definition post own (id : Z) w (own' : list (Z * Z)) lk' (r : result exn Operation) w' : Prop :=
  own' = own /\ rely (others id own) w w' /\
  match r with
  | Ok op' => holds own w' op' /\ op_operation_id op' = id
  | Err e => strict = true -> expected e
  end.

(** ** Rows a write produces *)

Lemma cas_row_outcome now to_state sets renew op :
  outcome (cas_row now to_state sets renew op) = outcome (setattrs op sets).
Proof. unfold cas_row. destruct renew; case_bool_decide; done. Qed.

Lemma cas_row_state now to_state sets renew op :
  op_state (cas_row now to_state sets renew op) = to_state.
Proof. apply cas_row_frame. Qed.

Lemma cas_row_signed now to_state sets renew op :
  op_signed_tx (cas_row now to_state sets renew op) = op_signed_tx (setattrs op sets).
Proof. by injection (cas_row_outcome now to_state sets renew op). Qed.

Lemma cas_row_txid now to_state sets renew op :
  op_txid (cas_row now to_state sets renew op) = op_txid (setattrs op sets).
Proof. by injection (cas_row_outcome now to_state sets renew op). Qed.

Lemma cas_row_block now to_state sets renew op :
  op_included_block (cas_row now to_state sets renew op) = op_included_block (setattrs op sets).
Proof. by injection (cas_row_outcome now to_state sets renew op). Qed.

Lemma carries_cas w w' op s now to_state sets renew :
  mono w w' -> carries w op s -> op_signed_tx (setattrs op sets) = op_signed_tx op ->
  op_txid (setattrs op sets) = op_txid op -> carries w' (cas_row now to_state sets renew op) s.
Proof.
  intros M (H0 & H1 & H2 & H3 & H4 & H5) E1 E2.
  split; [by eapply validated_terms; [apply cas_row_frame |] |]. split_and!.
  - rewrite cas_row_signed. congruence.
  - rewrite cas_row_txid. congruence.
  - eapply evolves_envelope; [apply cas_row_frame | done].
  - rewrite cas_row_id. by eapply mono_hist.
  - pose proof (mono_now _ _ M). lia.
Qed.

Lemma cleared_cas now to_state sets renew op :
  to_state = REJECTED \/ validated cfg op -> cleared cfg (cas_row now to_state sets renew op).
Proof.
  intros Hv. unfold cleared. rewrite cas_row_state. destruct Hv as [-> | Hv]; [done |].
  assert (validated cfg (cas_row now to_state sets renew op)) by (eapply validated_terms; [apply cas_row_frame | done]).
  by destruct to_state.
Qed.

(** No envelope on the wire, none in the new row. *)
Lemma writable_bare w op now to_state sets renew detail :
  to_state = REJECTED \/ validated cfg op -> onwire op = None -> op_signed_tx (setattrs op sets) = None ->
  (forall t, detail_txid detail = Some t -> built cfg op t) -> to_state ∈ [VALIDATED; REJECTED; SIGNING; FAILED] ->
  writable w op (cas_row now to_state sets renew op) detail.
Proof.
  intros Hv Ho Es Hb Ht. split; [| split; [intros s _ Hs; congruence | exact Hb]]. intros w' M.
  split; [by apply cleared_cas |]. unfold envelope_ok. rewrite cas_row_state, cas_row_signed, Es.
  in_list Ht; subst to_state; auto.
Qed.

(** The envelope stays and the row is on, or goes to, the wire. *)
Lemma writable_carry w op s now to_state sets renew detail :
  carries w op s -> op_signed_tx (setattrs op sets) = op_signed_tx op ->
  op_txid (setattrs op sets) = op_txid op -> detail_txid detail = Some (stx_txid s) ->
  to_state ∈ [BROADCASTING; BROADCAST] ->
  writable w op (cas_row now to_state sets renew op) detail.
Proof.
  intros Hc E1 E2 Edt Ht. split; [| split].
  - intros w' M. split; [apply cleared_cas; right; apply Hc |]. pose proof (carries_cas w w' op s now to_state sets renew M Hc E1 E2) as Hc'.
    unfold envelope_ok. rewrite cas_row_state. in_list Ht; subst to_state; eauto.
  - intros s' _ Ho. left. unfold onwire in *. rewrite cas_row_state, cas_row_signed, E1.
    destruct (past_write_ahead (op_state op)); [| done]. in_list Ht; subst to_state; done.
  - intros t Et. assert (t = stx_txid s) as -> by congruence. by apply (envelope_built _ signer); apply Hc.
Qed.

(** A final verdict on the envelope. *)
Lemma writable_verdict w op s now to_state sets renew detail :
  carries w op s -> op_signed_tx (setattrs op sets) = op_signed_tx op ->
  op_txid (setattrs op sets) = op_txid op -> detail_txid detail = Some (stx_txid s) ->
  (to_state = CONFIRMED /\ (forall w', mono w w' -> paid w' (setattrs op sets) s) \/
   to_state = FAILED /\ unpayable w s) ->
  writable w op (cas_row now to_state sets renew op) detail.
Proof.
  intros Hc E1 E2 Edt Ht. split; [| split].
  - intros w' M. split; [apply cleared_cas; right; apply Hc |]. pose proof (carries_cas w w' op s now to_state sets renew M Hc E1 E2) as Hc'.
    unfold envelope_ok. rewrite cas_row_state.
    destruct Ht as [[-> Hp] | [-> Hu]]; [| right]; exists s; (split; [done |]).
    + unfold paid. rewrite cas_row_block. by apply Hp.
    + by eapply mono_unpayable.
  - intros s' _ Ho. left. unfold onwire in *. rewrite cas_row_state, cas_row_signed, E1.
    destruct (past_write_ahead (op_state op)); [| done]. by destruct Ht as [[-> _] | [-> _]].
  - intros t Et. assert (t = stx_txid s) as -> by congruence. by apply (envelope_built _ signer); apply Hc.
Qed.

(** The envelope is retired, and it is dead or was never sent. *)
Lemma writable_retire w op s now sets renew detail :
  carries w op s -> op_signed_tx (setattrs op sets) = None -> detail_txid detail = None ->
  onwire op = None \/ dead w s ->
  writable w op (cas_row now SIGNING sets renew op) detail.
Proof.
  intros (Hv & Hs & _ & [Hr _] & _) E Ed Hd. split; [| split; [| congruence]].
  - intros w' M. split; [apply cleared_cas; by right |]. unfold envelope_ok. by rewrite cas_row_state, cas_row_signed.
  - intros s' Hr' Ho. destruct Hd as [Hn | Hd]; [congruence | right].
    unfold onwire in Ho. destruct (past_write_ahead (op_state op)); [| done].
    assert (s = s') as <-; [| done]. apply to_json_inj; [done.. | congruence].
Qed.

(** ** Handler steps *)

(** The column list of a write holds no misfire note. *)
Ltac sober :=
  repeat (apply not_elem_of_cons; split; [intros [=] |]); apply not_elem_of_nil.

Lemma tail_cas own w0 w op lk to_state worker sets detail :
  rely (others (op_operation_id op) own) w0 w -> holds own w op ->
  Set_last_error (Some misfire) ∉ sets ->
  (forall w1 now, rely own w w1 -> inv w1 ->
     writable w1 op (cas_row now to_state sets (Some (cfg_lease cfg)) op) detail) ->
  safe (_cas cfg op to_state worker sets detail) (post own (op_operation_id op) w0) own lk w.
Proof.
  intros Hr Hh Hn Hw. apply safe__cas; auto.
  - intros w1 e H1 He. split_and!; [done | by etrans |]. intros Hs. left. auto.
  - intros w1 now who op' H1 H2 _. split_and!; [done | by etrans | done | exact (cas_row_id _ _ _ _ op')].
Qed.

Lemma safe_or_timeout {X : Type} (c : call X) op (k : X -> prog Operation)
    (Q : list (Z * Z) -> Z -> result exn Operation -> World -> Prop) own lk w :
  safe (perform c) (fun own lk r w => match r with
                                      | Ok x => safe (k x) Q own lk w
                                      | Err NodeTimeout => Q own lk (Ok op) w
                                      | Err e => Q own lk (Err e) w
                                      end) own lk w ->
  safe (or_timeout c op k) Q own lk w.
Proof.
  intros H. apply safe_bind, safe_attempt. revert H. apply safe_weaken.
  intros own' lk' [x | e] w'; [done |]. by destruct e.
Qed.

Lemma post_err own id w0 own' lk (e : exn) w :
  own' = own -> rely (others id own) w0 w -> (strict = true -> expected e) -> post own id w0 own' lk (Err e) w.
Proof. done. Qed.

Lemma post_crash own id w0 own' lk (point : pystr) w :
  own' = own -> rely (others id own) w0 w -> post own id w0 own' lk (Err (SimulatedCrash point)) w.
Proof. intros ? ?. split_and!; [done | done |]. intros _. right. by eexists. Qed.

Lemma post_lost own id w0 own' lk (e : exn) w :
  own' = own -> rely (others id own) w0 w -> (strict = true -> e = LostClaim) -> post own id w0 own' lk (Err e) w.
Proof. intros ? ? He. split_and!; [done | done |]. intros Hs. left. auto. Qed.

Lemma post_ok own w0 op own' lk w :
  own' = own -> rely (others (op_operation_id op) own) w0 w -> holds own w op ->
  post own (op_operation_id op) w0 own' lk (Ok op) w.
Proof. done. Qed.

Lemma validate_safe own lk w op worker :
  holds own w op -> op_state op = REQUESTED ->
  safe (_validate cfg op worker) (post own (op_operation_id op) w) own lk w.
Proof.
  intros Hh Hs. pose proof Hh as (_ & [_ Hok] & _). unfold envelope_ok in Hok. rewrite Hs in Hok.
  assert (onwire op = None) as Ho by (unfold onwire; by rewrite Hs).
  unfold _validate.
  destruct (is_valid (JStr (op_to_address op))) eqn:E1; cbn [negb].
  2:{ apply tail_cas; [done | done | sober |]. intros w1 now _ _.
      apply writable_bare; [by left | done | done | done | rewrite ?elem_of_cons; tauto]. }
  case_bool_decide as E2; cbn [negb].
  2:{ apply tail_cas; [done | done | sober |]. intros w1 now _ _.
      apply writable_bare; [by left | done | done | done | rewrite ?elem_of_cons; tauto]. }
  destruct (Z.leb_spec (cfg_min_amount_units cfg) (op_amount_units op)) as [E3 |],
           (Z.leb_spec (op_amount_units op) (cfg_max_amount_units cfg)) as [E4 |]; cbn [negb andb];
    (apply tail_cas; [done | done | sober |]; intros w1 now _ _; apply writable_bare;
     [first [by left | by right] | done | done | done | rewrite ?elem_of_cons; tauto]).
Qed.

Lemma envelope_intro op ref now exp :
  Forall scalar (snd ref) -> representable exp ->
  envelope_of cfg signer op (sign signer (unsigned_of cfg op ref now exp)).
Proof. intros Hs H. split; [exact H |]. exists ref, now. split; [exact Hs | reflexivity]. Qed.

(** From the persisted envelope to the signed row. *)
Lemma sign_safe own lk w0 w op unsigned worker :
  rely (others (op_operation_id op) own) w0 w -> holds own w op -> op_state op = SIGNING ->
  op_txid op = Some (stx_txid (sign signer unsigned)) ->
  envelope_of cfg signer op (sign signer unsigned) ->
  stx_txid (sign signer unsigned) ∈ hist w (op_operation_id op) ->
  stx_expiration (sign signer unsigned) <= w_now w + cfg_tx_ttl cfg ->
  safe (bind (perform (CCrash SIGN_MID)) (fun _ =>
          _cas cfg op SIGNED worker [Set_signed_tx (Some (to_json (sign signer unsigned)))] []))
       (post own (op_operation_id op) w0) own lk w.
Proof.
  intros Hr Hh Hs Ht He Hlog Httl. generalize dependent (sign signer unsigned). intros s Ht He Hlog Httl.
  assert (validated cfg op) as Hval by (destruct Hh as (_ & [Hcl _] & _); unfold cleared in Hcl; by rewrite Hs in Hcl).
  apply safe_bind, safe_crash; intros w1; [intros H1 | intros point H1; apply post_crash; [done |];
    etrans; [exact Hr | by apply rely_others]].
  apply tail_cas; [etrans; [exact Hr | by apply rely_others] | by eapply holds_rely | sober |].
  intros w2 now H2 _. split; [| split; [intros s' _; unfold onwire; by rewrite Hs | done]].
  intros w3 M3. split; [apply cleared_cas; by right |].
  unfold envelope_ok. rewrite cas_row_state. exists s.
  split; [by eapply validated_terms; [apply cas_row_frame |] |]. split_and!.
  - by rewrite cas_row_signed.
  - by rewrite cas_row_txid.
  - eapply evolves_envelope; [apply cas_row_frame | done].
  - rewrite cas_row_id. eapply mono_hist; [etrans; [apply H1 | etrans; [apply H2 | exact M3]] | done].
  - pose proof (mono_now _ _ (proj1 H1)). pose proof (mono_now _ _ (proj1 H2)). pose proof (mono_now _ _ M3). lia.
Qed.

Lemma build_safe own lk w0 w op worker :
  rely (others (op_operation_id op) own) w0 w -> holds own w op -> op_state op = SIGNING ->
  safe (build_envelope cfg signer op worker) (post own (op_operation_id op) w0) own lk w.
Proof.
  intros Hr Hh Hs. pose proof Hh as (_ & [Hcl Hok] & _). unfold cleared in Hcl. unfold envelope_ok in Hok. rewrite Hs in Hcl, Hok.
  assert (onwire op = None) as Ho by (unfold onwire; by rewrite Hs).
  unfold build_envelope. destruct (_ <=? _).
  { apply tail_cas; [done | done | sober |]. intros w1 now _ _. apply writable_bare; [by right | done | done | done |].
    rewrite ?elem_of_cons; tauto. }
  apply safe_bind, safe_ref_block. intros w1 ref H1 Href.
  apply safe_bind, safe_now. intros w2 now H2 En Hrange. apply safe_bind, safe_lift. unfold plus_timedelta.
  assert (rely own w w2) as H12 by by etrans.
  assert (rely (others (op_operation_id op) own) w0 w2) as Hr2 by (etrans; [exact Hr | by apply rely_others]).
  destruct (decide _) as [Hrep | Hrep]; [| apply post_err; [done | done |]].
  2:{ intros Hs'. destruct (Hrange Hs') as (_ & Hr' & _). by subst now. }
  pose proof (envelope_intro op ref now _ Href Hrep) as Henv. cbv zeta.
  assert (stx_expiration (sign signer (unsigned_of cfg op ref now (now + cfg_tx_ttl cfg))) <=
          w_now w2 + cfg_tx_ttl cfg) as Httl by (cbn; lia).
  generalize dependent (unsigned_of cfg op ref now (now + cfg_tx_ttl cfg)). intros unsigned Henv Httl.
  apply safe_bind, safe__cas; [by eapply holds_rely | sober | | |].
  - intros w3 now3 _ _. apply writable_bare; [by right | done | done | |]; [| rewrite ?elem_of_cons; tauto].
    intros t Et. change (Some (stx_txid (sign signer unsigned)) = Some t) in Et. injection Et as <-.
    exact (envelope_built _ signer _ _ Hcl Henv).
  - intros w3 e H3 He. apply post_lost; [done | by etrans | done].
  - intros w3 now3 who op3 H3 Hh3 Hlog. set (row := cas_row _ _ _ _ _) in *.
    assert (op_operation_id row = op_operation_id op) as Eid by exact (cas_row_id _ _ _ _ op3).
    rewrite <- Eid in Hr2, H3, Hlog |- *.
    apply sign_safe; [by etrans | done | apply cas_row_state | by apply cas_row_txid | | by apply Hlog
      | pose proof (mono_now _ _ (proj1 H3)); lia].
    eapply evolves_envelope; [| exact Henv]. exact (proj1 (cas_row_frame _ _ _ _ op3)).
Qed.

Lemma build_and_sign_safe own lk w op worker :
  holds own w op -> op_state op = VALIDATED \/ op_state op = SIGNING ->
  safe (_build_and_sign cfg signer op worker) (post own (op_operation_id op) w) own lk w.
Proof.
  intros Hh Hs. unfold _build_and_sign. case_bool_decide as Ev.
  - pose proof Hh as (_ & [Hcl Hok] & _). unfold cleared in Hcl. unfold envelope_ok in Hok. rewrite Ev in Hcl, Hok.
    apply safe_bind, safe__cas; [done | sober | | |].
    + intros w1 now _ _. apply writable_bare; [by right | unfold onwire; by rewrite Ev | done | done |].
      rewrite ?elem_of_cons; tauto.
    + intros w1 e H1 He. by apply post_lost.
    + intros w1 now who op1 H1 Hh1 _. set (row := cas_row _ _ _ _ _) in *.
      assert (op_operation_id row = op_operation_id op) as Eid by exact (cas_row_id _ _ _ _ op1). rewrite <- Eid in H1 |- *.
      apply build_safe; [done | done | apply cas_row_state].
  - apply build_safe; [done | done |]. by destruct Hs.
Qed.

(** Retiring the envelope. *)
Lemma rebuild_safe own lk w0 w op s worker reason evidence :
  reason <> misfire ->
  rely (others (op_operation_id op) own) w0 w -> holds own w op -> carries w op s ->
  onwire op = None \/ dead w s ->
  safe (_rebuild cfg op worker reason evidence) (post own (op_operation_id op) w0) own lk w.
Proof.
  intros Hne Hr Hh Hc Hd. apply tail_cas; [done | done | |].
  { do 2 (apply not_elem_of_cons; split; [by intros [=] |]). sober. }
  intros w1 now [M1 _] _.
  apply (writable_retire _ _ s); [by eapply mono_carries | done | done |].
  destruct Hd; [by left | right; by eapply mono_dead].
Qed.

Lemma settle_safe own lk w0 w op s worker res :
  rely (others (op_operation_id op) own) w0 w -> holds own w op -> carries w op s ->
  (br_code res ∈ HARD_REJECT -> verify (nd_signer (w_node w)) s = false) ->
  safe (_settle_broadcast_result cfg op worker s res) (post own (op_operation_id op) w0) own lk w.
Proof.
  intros Hr Hh Hc Hv. unfold _settle_broadcast_result.
  assert (forall to_state sets detail w2, rely own w w2 ->
    Set_last_error (Some misfire) ∉ sets ->
    op_signed_tx (setattrs op sets) = op_signed_tx op -> op_txid (setattrs op sets) = op_txid op ->
    detail_txid detail = Some (stx_txid s) -> to_state ∈ [BROADCASTING; BROADCAST] ->
    safe (_cas cfg op to_state worker sets detail) (post own (op_operation_id op) w0) own lk w2) as Hcarry.
  { intros to_state sets detail w2 H2 Hn E1 E2 Edt Ht. apply tail_cas.
    - etrans; [exact Hr | by apply rely_others].
    - by eapply holds_rely.
    - done.
    - intros w1 now [M1 _] _. destruct H2 as [M2 _].
      apply (writable_carry _ _ s); try done. eapply mono_carries; [| exact Hc]. by etrans. }
  case_bool_decide.
  { apply safe_bind, safe_now. intros w1 now H1 _ _.
    apply Hcarry; [done | sober | done.. |]. rewrite ?elem_of_cons; tauto. }
  case_bool_decide as Hh'.
  { apply tail_cas; [done | done | sober |]. intros w1 now [M1 _] _.
    apply (writable_verdict _ _ s); [by eapply mono_carries | done.. |].
    right. split; [done |]. eapply mono_unpayable; [exact M1 |]. left. auto. }
  case_bool_decide; [apply Hcarry; [done | sober | done.. |]; rewrite ?elem_of_cons; tauto |].
  case_bool_decide; [by apply post_ok |].
  apply Hcarry; [done | sober | done.. |]. rewrite ?elem_of_cons; tauto.
Qed.

Lemma row_carries own w op :
  holds own w op -> op_state op ∈ [SIGNED; BROADCASTING; BROADCAST] ->
  exists s, carries w op s /\ from_json (op_signed_tx op) = Ok s.
Proof.
  intros (_ & [_ Hok] & _) Hs. unfold envelope_ok in Hok.
  assert (exists s, carries w op s) as (s & Hc) by (in_list Hs; by rewrite Hs in Hok).
  exists s. split; [done |]. destruct Hc as (_ & E & _ & [Hr _] & _). rewrite E. by apply from_json_to_json.
Qed.

Lemma sendable_carried own w op s :
  holds own w op -> carries w op s -> past_write_ahead (op_state op) = true -> sendable w s.
Proof.
  intros (_ & _ & Hsend & _) (_ & E & _ & [Hr _] & _) Hp. apply Hsend; [done |].
  unfold onwire. by rewrite Hp.
Qed.

(** Sending the row's envelope and settling the answer. *)
Lemma send_settle_safe own lk w0 w op s worker (k : BroadcastResult -> prog Operation) :
  rely (others (op_operation_id op) own) w0 w -> holds own w op -> carries w op s ->
  past_write_ahead (op_state op) = true ->
  (forall res w1, rely own w w1 ->
     (br_code res ∈ HARD_REJECT -> verify (nd_signer (w_node w1)) s = false) ->
     safe (k res) (post own (op_operation_id op) w0) own lk w1) ->
  safe (or_timeout (CBroadcast s (Some worker)) op k) (post own (op_operation_id op) w0) own lk w.
Proof.
  intros Hr Hh Hc Hp Hk. apply safe_or_timeout, safe_send;
    [by eapply holds_known | by eapply sendable_carried | |].
  - intros w1 H1. apply post_ok; [done | | by eapply holds_rely]. etrans; [exact Hr | by apply rely_others].
  - intros w1 res H1 Hhard. by apply Hk.
Qed.

Lemma broadcast_safe own lk w op worker :
  holds own w op -> op_state op = SIGNED ->
  safe (_broadcast cfg op worker) (post own (op_operation_id op) w) own lk w.
Proof.
  intros Hh Hs. assert (op_state op ∈ [SIGNED; BROADCASTING; BROADCAST]) as Hin
    by (rewrite Hs; rewrite ?elem_of_cons; tauto).
  destruct (row_carries _ _ _ Hh Hin) as (s & Hc & Ej).
  unfold _broadcast. apply safe_bind, safe_lift. rewrite Ej.
  apply safe_bind, safe_now. intros w1 now H1 _ _. pose proof H1 as [M1 _].
  assert (onwire op = None) as Ho by (unfold onwire; by rewrite Hs).
  destruct (_ <=? _).
  { eapply rebuild_safe; [done | by apply rely_others | by eapply holds_rely | by eapply mono_carries | by left]. }
  apply safe_bind, safe__cas; [by eapply holds_rely | sober | | |].
  - intros w2 now2 [M2 _] _. apply (writable_carry _ _ s); [| done | done | done | rewrite ?elem_of_cons; tauto].
    eapply mono_carries; [| exact Hc]. by etrans.
  - intros w2 e H2 He. apply post_lost; [done | | done]. etrans; [by apply rely_others | done].
  - intros w2 now2 who op' H2 Hh2 _. set (op2 := cas_row _ _ _ _ _) in *.
    assert (op_operation_id op2 = op_operation_id op) as Eid by exact (cas_row_id _ _ _ _ op').
    assert (rely (others (op_operation_id op) own) w w2) as Hr2 by (etrans; [by apply rely_others | done]).
    assert (carries w2 op2 s) as Hc2.
    { apply (carries_cas w _ op'); [apply Hr2 | exact Hc | done..]. }
    apply safe_bind, safe_crash; intros w3; [intros H3 | intros point H3; apply post_crash; [done |];
      etrans; [exact Hr2 | by apply rely_others]].
    rewrite <- Eid in *. pose proof H3 as [M3 _].
    apply (send_settle_safe _ _ _ _ _ s); [| by eapply holds_rely | by eapply mono_carries | | ].
    + etrans; [exact Hr2 | by apply rely_others].
    + unfold op2. by rewrite cas_row_state.
    + intros res w4 H4 Hv. apply safe_bind, safe_crash; intros w5.
      * intros H5. assert (rely own w2 w5) as H25 by (etrans; [exact H3 | by etrans]). pose proof H25 as [M25 _].
        apply settle_safe; [| by eapply holds_rely | by eapply mono_carries |].
        -- etrans; [exact Hr2 | by apply rely_others].
        -- intros Hr. destruct H5 as [M5 _]. rewrite (mono_signer _ _ M5). auto.
      * intros point H5. apply post_crash; [done |]. etrans; [exact Hr2 |]. apply rely_others. etrans; [exact H3 | by etrans].
Qed.

(** A lookup that did not find [s], then a solid time past its deadline read
    within the margin: [s] is dead. *)
Lemma proof_of_death_safe own lk w s
    (Q : list (Z * Z) -> Z -> result exn (bool * list (pystr * jval)) -> World -> Prop) :
  representable (stx_expiration s) -> stx_expiration s <= w_now w + cfg_tx_ttl cfg ->
  (stx_expiration s <= lk -> dead w s) ->
  (forall w1 e, strict = false -> rely own w w1 -> Q own lk (Err e) w1) ->
  (forall w1 b evidence, rely own w w1 -> (b = true -> dead w1 s) -> Q own lk (Ok (b, evidence)) w1) ->
  safe (_proof_of_death cfg s) Q own lk w.
Proof.
  intros [Hmin _] Httl Hd HE HQ. apply safe_bind, safe_solid_now. intros w1 t H1 Hlt Hrange.
  apply safe_bind, safe_lift. unfold plus_timedelta. destruct (decide _) as [| Hn].
  2:{ destruct strict; [exfalso | by apply HE]. destruct (Hrange eq_refl) as (Hs & _ & Hr & _).
      pose proof (mono_now _ _ (proj1 H1)). unfold representable in *. lia. }
  apply safe_bind, safe_solid_block. intros w2 b H2.
  assert (rely own w w2) as H12 by by etrans.
  apply HQ; [done |]. intros Hle%Z.leb_le. eapply mono_dead; [apply H12 | apply Hd; lia].
Qed.

Lemma seen_dead w s st :
  seen w (stx_txid s) st -> st_result st = UNKNOWN -> stx_expiration s <= frontier w -> dead w s.
Proof. intros Hs Hu Hle. unfold seen in Hs. rewrite Hu in Hs. split; [done |]. intros rec Hr _. auto. Qed.

Lemma reconcile_safe own lk w op worker :
  holds own w op -> op_state op = BROADCASTING ->
  safe (_reconcile_broadcast cfg op worker) (post own (op_operation_id op) w) own lk w.
Proof.
  intros Hh Hs. assert (op_state op ∈ [SIGNED; BROADCASTING; BROADCAST]) as Hin
    by (rewrite Hs; rewrite ?elem_of_cons; tauto).
  destruct (row_carries _ _ _ Hh Hin) as (s & Hc & Ej).
  unfold _reconcile_broadcast. apply safe_bind, safe_lift. rewrite Ej.
  apply safe_or_timeout, safe_find.
  { intros w1 lk' H1. apply post_ok; [done | by apply rely_others | by eapply holds_rely]. }
  intros w1 st H1 Hseen. pose proof H1 as [M1 _].
  pose proof (holds_rely _ _ _ _ _ _ H1 Hh) as Hh1.
  case_bool_decide as Hres.
  - apply safe_bind. unfold broadcast_at_or_now.
    assert (forall at_ w2, rely own w1 w2 -> safe (_cas cfg op BROADCAST worker [Set_broadcast_at (Some at_)]
        [(str "txid", JStr (stx_txid s)); (str "via", JStr (str "reconcile"));
         (str "found", JStr (TxQuery_value (st_result st)))]) (post own (op_operation_id op) w)
        own (frontier w1) w2) as Hcas.
    { intros at_ w2 H2. apply tail_cas; [etrans; by apply rely_others | by eapply holds_rely | sober |].
      intros w3 now [M3 _] _. destruct H2 as [M2 _].
      apply (writable_carry _ _ s); [| done | done | done | rewrite ?elem_of_cons; tauto].
      eapply mono_carries; [| exact Hc]. etrans; [exact M1 | by etrans]. }
    destruct (op_broadcast_at op) as [t |]; [by apply Hcas |].
    apply safe_now. intros w2 now H2 _ _. by apply Hcas.
  - apply safe_bind, proof_of_death_safe.
    + apply Hc.
    + apply (mono_carries _ _ _ _ _ _ M1 Hc).
    + apply (seen_dead _ _ _ Hseen). destruct (st_result st); [done | | ];
        exfalso; apply Hres; rewrite ?elem_of_cons; tauto.
    + intros w2 e Hs' H2. apply post_err; [done | | congruence]. etrans; by apply rely_others.
    + intros w2 b evidence H2 Hd. pose proof H2 as [M2 _].
      assert (rely (others (op_operation_id op) own) w w2) as Hr2 by (etrans; by apply rely_others).
      assert (carries w2 op s) as Hc2 by (eapply mono_carries; [| exact Hc]; by etrans).
      pose proof (holds_rely _ _ _ _ _ _ H2 Hh1) as Hh2.
      destruct b; cbn [negb fst snd].
      * eapply rebuild_safe; [done | done.. |]. right. by apply Hd.
      * apply (send_settle_safe _ _ _ _ _ s); try done; [by rewrite Hs |].
        intros res w3 H3 Hv. pose proof H3 as [M3 _].
        apply settle_safe; [etrans; [exact Hr2 | by apply rely_others] | by eapply holds_rely
                           | by eapply mono_carries | done].
Qed.

Lemma is_success_receipt rec :
  is_included rec = true -> (is_success rec = true <-> tr_receipt rec = Some (str "SUCCESS")).
Proof. intros Hi. unfold is_success. rewrite Hi. simpl. apply bool_decide_eq_true. Qed.

(** The verdict on an envelope that is on chain for good. *)
Lemma verdict_safe own lk w0 w op s rec worker st :
  rely (others (op_operation_id op) own) w0 w -> holds own w op -> carries w op s ->
  rec_of w (stx_txid s) = Some rec -> is_included rec = true ->
  st_block st = tr_included_block rec -> st_receipt st = tr_receipt rec ->
  safe (if bool_decide (st_receipt st = Some (str "SUCCESS")) then
          bind (perform CNow) (fun now =>
            _cas cfg op CONFIRMED worker
              [Set_included_block (st_block st); Set_confirmed_at (Some now)]
              [(str "txid", JStr (stx_txid s)); (str "block", JOptInt (st_block st))])
        else
          _cas cfg op FAILED worker
            [Set_included_block (st_block st);
             Set_failure_reason (Some (str "transaction reverted on chain"))]
            [(str "txid", JStr (stx_txid s)); (str "receipt", JOptStr (st_receipt st))])
       (post own (op_operation_id op) w0) own lk w.
Proof.
  intros Hr Hh Hc Hrec Hi Eb Ercp. case_bool_decide as Hsucc.
  - apply safe_bind, safe_now. intros w1 now H1 _ _. pose proof H1 as [M1 _].
    apply tail_cas; [etrans; [exact Hr | by apply rely_others] | by eapply holds_rely | sober |].
    intros w2 now2 [M2 _] _. apply (writable_verdict _ _ s); [| done | done | done |].
    + eapply mono_carries; [| exact Hc]. by etrans.
    + left. split; [done |]. intros w3 M3. exists rec. split_and!.
      * eapply mono_included; [| exact Hrec | done]. etrans; [exact M1 | by etrans].
      * apply is_success_receipt; [done | congruence].
      * done.
  - apply tail_cas; [done | done | sober |]. intros w1 now [M1 _] _.
    apply (writable_verdict _ _ s); [by eapply mono_carries | done | done | done |].
    right. split; [done |]. right. exists rec. split_and!; [by eapply mono_included | done |].
    apply not_true_iff_false. rewrite is_success_receipt by done. congruence.
Qed.

Lemma await_safe own lk w op worker :
  holds own w op -> op_state op = BROADCAST ->
  safe (_await_confirmation cfg op worker) (post own (op_operation_id op) w) own lk w.
Proof.
  intros Hh Hs. assert (op_state op ∈ [SIGNED; BROADCASTING; BROADCAST]) as Hin
    by (rewrite Hs; rewrite ?elem_of_cons; tauto).
  destruct (row_carries _ _ _ Hh Hin) as (s & Hc & Ej).
  unfold _await_confirmation. apply safe_bind, safe_lift. rewrite Ej.
  apply safe_or_timeout, safe_find.
  { intros w1 lk' H1. apply post_ok; [done | by apply rely_others | by eapply holds_rely]. }
  intros w1 st H1 Hseen. pose proof H1 as [M1 _].
  pose proof (holds_rely _ _ _ _ _ _ H1 Hh) as Hh1.
  assert (rely (others (op_operation_id op) own) w w1) as Hr1 by by apply rely_others.
  assert (carries w1 op s) as Hc1 by by eapply mono_carries.
  destruct (st_result st) eqn:Er; [| by apply post_ok |].
  - apply safe_bind, proof_of_death_safe.
    + apply Hc.
    + apply Hc1.
    + by apply (seen_dead _ _ _ Hseen).
    + intros w2 e Hs' H2. apply post_err; [done | | congruence]. etrans; by apply rely_others.
    + intros w2 b evidence H2 Hd. pose proof H2 as [M2 _].
      assert (rely (others (op_operation_id op) own) w w2) as Hr2 by (etrans; by apply rely_others).
      pose proof (holds_rely _ _ _ _ _ _ H2 Hh1) as Hh2.
      destruct b; cbn [fst snd]; [| by apply post_ok].
      eapply rebuild_safe; [done | done | done | by eapply mono_carries | right; by apply Hd].
  - unfold seen in Hseen. rewrite Er in Hseen. destruct Hseen as (rec & Hrec & Hi & Eb & Ercp).
    destruct (st_solid st); cbn [negb]; [| by apply post_ok].
    apply safe_bind, safe_crash; intros w2; [intros H2 | intros point H2; apply post_crash; [done |];
      etrans; by apply rely_others].
    pose proof H2 as [M2 _]. apply (verdict_safe _ _ _ _ _ s rec); try done.
    + etrans; by apply rely_others.
    + by eapply holds_rely.
    + by eapply mono_carries.
    + by eapply mono_included.
Qed.

Lemma step_safe own lk w op worker :
  holds own w op -> (strict = true -> op_state op ∉ TERMINAL) ->
  safe (step cfg signer op worker) (post own (op_operation_id op) w) own lk w.
Proof.
  intros Hh Hlive. rewrite elem_of_TERMINAL in Hlive. unfold step. destruct (op_state op) eqn:Es;
    auto using validate_safe, build_and_sign_safe, broadcast_safe, reconcile_safe, await_safe.
  all: apply post_err; [done | done |]; intros Hs; destruct (Hlive Hs); auto.
Qed.

(** ** The worker loop *)

(** What [_drive] on operation [id] leaves. *)
Definition drive_post own (id : Z) w (own' : list (Z * Z)) (lk' : Z) (r : result exn Z) w' : Prop :=
  own' = own /\ rely (others id own) w w'.

Lemma release_after_safe own lk w0 w op advanced :
  rely (others (op_operation_id op) own) w0 w ->
  (op_operation_id op, op_fencing_token op) ∈ own ->
  safe (release_after op advanced) (drive_post own (op_operation_id op) w0) own lk w.
Proof.
  intros Hr Hin. apply safe_bind, safe_release; [done |]. intros w1 [[] | e] H1 _; (split; [done | by etrans]).
Qed.

(** The breadcrumb is safe even when the handler had already moved the row. *)
Lemma breadcrumb_safe own lk w0 w op worker advanced :
  strict = false -> rely (others (op_operation_id op) own) w0 w ->
  (op_operation_id op, op_fencing_token op) ∈ own ->
  safe (breadcrumb op worker advanced) (drive_post own (op_operation_id op) w0) own lk w.
Proof.
  intros Hloose Hr Hin. apply safe_bind, safe_ccas; [done | congruence | | | |].
  - intros w1 row0 now H1 I Hrow _ Hs. set (row := cas_row _ _ _ _ _).
    assert (same_envelope row0 row) as He.
    { unfold row. split_and!; [apply cas_row_frame | by rewrite cas_row_state | apply cas_row_txid
                              | apply cas_row_signed | apply cas_row_block]. }
    split; [| split; [| done]].
    + intros w' M'. eapply same_envelope_row_ok; [exact He |].
      eapply mono_row_ok; [exact M' | by apply (inv_rows _ _ _ I _ _ Hrow)].
    + intros s _ Ho. left. by rewrite (same_envelope_onwire _ _ He).
  - intros w1 H1. apply release_after_safe; [etrans; [exact Hr | by apply rely_others] | done].
  - intros w1 e _ H1. split; [done | by etrans].
  - intros w1 w2 row now H1 _ _ H2 _ _. apply release_after_safe; [by etrans | done].
Qed.

Lemma drive_loop_safe (n : nat) own lk w0 w op worker advanced :
  rely (others (op_operation_id op) own) w0 w -> holds own w op ->
  (strict = true -> op_state op ∉ TERMINAL) ->
  safe (drive_loop cfg signer n op worker advanced) (drive_post own (op_operation_id op) w0) own lk w.
Proof.
  revert lk w op advanced. induction n as [|n IH]; intros lk w op advanced Hr Hh Hlive; simpl drive_loop;
    [apply release_after_safe; [done | apply Hh] |].
  apply safe_bind, safe_attempt. eapply safe_weaken; [| by apply step_safe].
  intros own' lk' r w' (-> & Hr' & Hpost).
  assert (rely (others (op_operation_id op) own) w0 w') as Hr0 by by etrans.
  destruct r as [op' | e].
  - destruct Hpost as [Hh' Eid]. rewrite <- Eid in *. case_bool_decide; [done |].
    destruct (negb (negb _)); [apply release_after_safe; [done | apply Hh'] | by apply IH].
  - assert (e <> LostClaim -> is_Exception e = true ->
      safe (breadcrumb op worker advanced) (drive_post own (op_operation_id op) w0) own lk' w') as Hcrumb.
    { intros Hl He. apply breadcrumb_safe; [| done | apply Hh]. destruct strict; [exfalso | done].
      destruct (Hpost eq_refl) as [| [point ->]]; done. }
    destruct e; done || by apply Hcrumb.
Qed.

Lemma drive_all_safe own lk w (ops : list Operation) worker :
  NoDup (op_operation_id <$> ops) -> Forall (fun op => op_state op ∉ TERMINAL) ops -> Forall (holds own w) ops ->
  safe (drive_all cfg signer ops worker) (fun _ _ _ _ => True) own lk w.
Proof.
  revert lk w. induction ops as [|op ops IH]; intros lk w Hnd Hlive Hops; simpl drive_all; [done |].
  apply NoDup_cons in Hnd as [Hop Hnd]. apply Forall_cons in Hops as [Hh Hops].
  apply Forall_cons in Hlive as [Hl Hlive].
  apply safe_bind. eapply safe_weaken; [| by apply drive_loop_safe].
  intros own' lk' [a | e] w' [-> Hr]; [| done]. apply safe_bind.
  eapply safe_weaken; [| apply IH; [done | done |]].
  - by intros ? ? [b | e] ? _.
  - apply Forall_forall. intros o Ho. rewrite Forall_forall in Hops.
    eapply holds_others; [exact Hr | | by apply Hops]. intros E. apply Hop.
    apply list_elem_of_fmap. by exists o.
Qed.

Lemma claimable_live (s : OpState) : s ∈ CLAIMABLE -> s ∉ TERMINAL.
Proof. rewrite elem_of_TERMINAL. intros Hs [-> | [-> | ->]]; revert Hs; by apply (bool_decide_unpack _). Qed.

Lemma run_once_safe own lk w worker :
  safe (run_once cfg signer worker) (fun _ _ _ _ => True) own lk w.
Proof.
  apply safe_bind, safe_now. intros w1 now _ -> Hrange. apply safe_bind, safe_claim; [by intros Hs; apply Hrange | done |].
  intros w2 out Hnd Hst own' Hout. apply drive_all_safe; [done | | done].
  eapply Forall_impl; [exact Hst |]. intros op. apply claimable_live.
Qed.

(** [run_forever] ends only when it is told to, or with its process. *)
Definition ended (r : result exn unit) : Prop :=
  match r with
  | Ok _ => True
  | Err e => is_Exception e = false
  end.

Lemma run_forever_safe (n : nat) own lk w worker :
  safe (run_forever cfg signer n worker) (fun _ _ r _ => ended r) own lk w.
Proof.
  revert own lk w. induction n as [|n IH]; intros own lk w; [done |].
  apply safe_bind, safe_bind, safe_attempt. eapply safe_weaken; [| apply run_once_safe].
  intros own' lk' [a | e] w' _; [apply IH |]. destruct e; (apply IH || reflexivity).
Qed.

End handlers.
