(* ===== verification/Safety.v ===== *)
(** * No double spend

    The invariant of [Invariant] holds in every state of every interleaving
    ([System]), and its consequences for money: every transfer on chain is the
    current envelope of one operation, at most one per operation, with the
    operation's amount; confirmed means paid exactly once; failed or rejected
    means paid nothing; the log knows every txid the node ever accepted.  Two
    schedules show where the assumptions are needed. *)
From Stdlib Require Import ZArith Lia.
From stdpp Require Import base option strings gmap list.
From S2P Require Import Prelude Text Json Hash Datetime States Address Wire Model Store Node Effects Pipeline Worker Discipline System Invariant Calls Handlers.

Local Open Scope Z_scope.

Section safety.
Context (cfg : Config) (signer : MockSigner) (strict : bool).

Local Abbreviation inv := (inv cfg signer).
Local Abbreviation safe := (safe cfg signer strict).

Implicit Types (w : World) (s : System) (own : list (Z * Z)).

(** Owned tokens were handed out by the store. *)
Definition issued own w : Prop :=
  forall id token, (id, token) ∈ own -> exists op, rows w !! id = Some op /\ token <= op_fencing_token op.

(** The invariant of a run: the world's, and of every thread that the rest of its
    program is safe and disciplined, with tokens of its own. *)
Record run_inv (s : System) : Prop := {
  ri_inv : inv (sys_world s);
  ri_safe : forall i th, sys_threads s !! i = Some th ->
    safe (th_prog th) (fun _ _ r _ => ended r) (th_own th) (th_lookup th) (sys_world s);
  ri_calls : forall i th, sys_threads s !! i = Some th ->
    all_calls (disciplined cfg) (th_prog th) (fun _ => True);
  ri_issued : forall i th, sys_threads s !! i = Some th -> issued (th_own th) (sys_world s);
  ri_disjoint : forall i j th th' x, sys_threads s !! i = Some th -> sys_threads s !! j = Some th' ->
    x ∈ th_own th -> x ∈ th_own th' -> i = j
}.

Lemma mono_issued own w w' : mono w w' -> issued own w -> issued own w'.
Proof.
  intros M Hi id token Hin. destruct (Hi id token Hin) as (op & Hop & Hle).
  destruct (mono_rows _ _ M _ _ Hop) as (op' & Hop' & (_ & Hle' & _) & _). exists op'. split; [done | lia].
Qed.

(** ** Steps of the environment *)

Lemma advance_ok w (d : Z) :
  0 <= d -> inv w -> inv (with_now (w_now w + d) w) /\ guar [] w (with_now (w_now w + d) w).
Proof.
  intros Hd I. assert (frontier w <= frontier (with_now (w_now w + d) w)) as Hf by (unfold frontier; simpl; lia).
  assert (mono w (with_now (w_now w + d) w)) as M.
  { split; try done; [simpl; lia | | |].
    - intros t rec Hr. by exists rec.
    - intros t rec Hr Hr'. unfold rec_of in *. simpl in Hr'. congruence.
    - intros id op Hop. exists op. split_and!; [done | done | by left]. }
  split; [split; [apply I | apply I | | | |] |].
  - intros id op Hop. eapply mono_row_ok; [exact M | by eapply (inv_rows _ _ _ I)].
  - intros t rec Hr. eapply mono_known; [exact M | by eapply (inv_known _ _ _ I)].
  - intros t rec Hr Hl. apply (inv_onwire _ _ _ I t rec Hr). destruct Hl; [by left | right; lia].
  - intros id t Ht. eapply mono_built; [exact M | by eapply (inv_hist _ _ _ I)].
  - split; [done |]. intros id op Hop _. by apply kept.
Qed.

Lemma block_ok w nd :
  inv w -> produce_block (w_now w) (w_node w) = Ok nd ->
  inv (with_node nd w) /\ guar [] w (with_node nd w).
Proof.
  intros I Hp. destruct (produce_block_spec (w_now w) (w_node w) (inv_node _ _ _ I)) as (nd' & t & E & Hb).
  rewrite E in Hp. injection Hp as ->. pose proof (new_block_wf _ _ _ _ Hb (inv_node _ _ _ I)) as Hwf.
  destruct Hb as (_ & Ebt & Ht & Hnow & Eg & _ & Htx & _).
  assert (frontier w <= t /\ frontier (with_node nd w) = t) as [Hf1 Hf2].
  { unfold frontier, head_time in *. simpl. rewrite Ebt. lia. }
  assert (forall txid, match rec_of w txid, rec_of (with_node nd w) txid with
    | Some a, Some b => mined (nd_head (w_node w) + 1) t (nd_inclusion_delay (w_node w)) a b
    | None, None => True | _, _ => False end) as Hrec by (intros; by apply assoc_Forall2).
  assert (mono w (with_node nd w)) as M.
  { split; try done; try lia.
    - intros txid rec Hr. specialize (Hrec txid). rewrite Hr in Hrec.
      destruct (rec_of (with_node nd w) txid) as [rec' |]; [| done]. exists rec'. split; [done |].
      destruct Hrec as [| receipt Hi Hexp _]; [done |]. split; [done |]. intros [Hinc | Hle]; [| lia].
      unfold is_included in Hinc. rewrite Hi in Hinc. done.
    - intros txid rec Hr Hr'. specialize (Hrec txid). by rewrite Hr, Hr' in Hrec.
    - intros id op Hop. exists op. split_and!; [done | done | by left]. }
  split; [split; [apply I | exact Hwf | | | |] |].
  - intros id op Hop. eapply mono_row_ok; [exact M | by eapply (inv_rows _ _ _ I)].
  - intros txid rec' Hr'. specialize (Hrec txid). rewrite Hr' in Hrec.
    destruct (rec_of w txid) as [rec |] eqn:Er; [| done].
    eapply mono_known; [exact M |]. destruct Hrec; by apply (inv_known _ _ _ I _ _ Er).
  - intros txid rec' Hr' Hl. specialize (Hrec txid). rewrite Hr' in Hrec.
    destruct (rec_of w txid) as [rec |] eqn:Er; [| done].
    assert (landable w rec) as Hl0.
    { destruct Hrec as [| receipt Hi Hexp _]; [destruct Hl; [by left | right; lia] | right; lia]. }
    destruct Hrec; by apply (inv_onwire _ _ _ I _ _ Er).
  - intros id txid Ht'. eapply mono_built; [exact M | by eapply (inv_hist _ _ _ I)].
  - split; [done |]. intros id op Hop _. by apply kept.
Qed.

Lemma submit_ok w (id : Z) hash to asset amount :
  inv w ->
  let w' := with_store (snd (insert_new (w_now w) (new_operation id hash REQUESTED to asset amount)
                              (w_store w))) w in
  inv w' /\ guar [] w w'.
Proof.
  intros I w'. set (op0 := new_operation id hash REQUESTED to asset amount) in *.
  pose proof (insert_new_wf (w_now w) op0 (w_store w) ltac:(done) (inv_store _ _ _ I)) as Hwf.
  destruct (rows w !! id) as [op |] eqn:E.
  { assert (w' = w) as ->.
    { unfold w', insert_new. simpl. unfold rows in E. rewrite E. by destruct w. }
    split; [done | apply guar_refl]. }
  set (row := set_updated_at (Some (w_now w)) (set_created_at (Some (w_now w)) op0)).
  assert (forall i, rows w' !! i = if decide (id = i) then Some row else rows w !! i) as Hrows.
  { intros i. unfold rows, w', insert_new. simpl. unfold rows in E. rewrite E. simpl.
    destruct (decide (id = i)) as [<- |]; [apply lookup_insert_eq | by apply lookup_insert_ne]. }
  assert (forall i, hist w' i = hist w i) as Hh.
  { intros i. unfold w', insert_new. simpl. unfold rows in E. rewrite E. simpl.
    unfold hist, all_txids. simpl. rewrite events_append, omap_app. destruct (decide (id = i));
      by rewrite app_nil_r. }
  assert (mono w w') as M.
  { split; try done; try lia.
    - intros t rec Hr. by exists rec.
    - intros t rec Hr Hr'. unfold rec_of, w' in *. simpl in Hr'. congruence.
    - intros i t. by rewrite Hh.
    - intros i op Hop. exists op. rewrite Hrows, decide_False by congruence.
      split_and!; [done | done | by left]. }
  split; [split; [exact Hwf | apply I | | | |] |].
  - intros i op. rewrite Hrows. destruct (decide (id = i)); [by intros [= <-] |].
    intros Hop. eapply mono_row_ok; [exact M | by eapply (inv_rows _ _ _ I)].
  - intros t rec Hr. eapply mono_known; [exact M | by eapply (inv_known _ _ _ I)].
  - intros t rec Hr Hl. destruct (inv_onwire _ _ _ I t rec Hr Hl) as (i & op & Hop & Ho).
    exists i, op. rewrite Hrows, decide_False by congruence. done.
  - intros i t Ht. rewrite Hh in Ht. eapply mono_built; [exact M | by eapply (inv_hist _ _ _ I)].
  - split; [done |]. intros i op Hop _. apply kept. rewrite Hrows, decide_False by congruence. done.
Qed.

Lemma env_step s w' :
  run_inv s -> inv w' -> guar [] (sys_world s) w' -> run_inv (mkSystem w' (sys_threads s)).
Proof.
  intros [I Hs Hc Hi Hd] I' G. split; simpl; try done.
  - intros i th Hth. eapply safe_rely; [done | | by eapply Hs].
    eapply guar_rely; [exact G |]. intros x _. apply not_elem_of_nil.
  - intros i th Hth. eapply mono_issued; [apply G | by eapply Hi].
Qed.

(** ** Steps of a worker *)

(** A claim hands out tokens that did not exist before. *)
Definition fresh (pairs : list (Z * Z)) w w' : Prop :=
  forall id token, (id, token) ∈ pairs ->
  exists op op', rows w !! id = Some op /\ op_fencing_token op < token /\
  rows w' !! id = Some op' /\ token <= op_fencing_token op'.

Lemma fresh_nil w w' : fresh [] w w'.
Proof. intros id token H. by apply elem_of_nil in H. Qed.

Lemma claims_fresh {X : Type} (c : call X) w :
  inv w -> let '(r, w') := exec c w in fresh (claims_of c r) w w'.
Proof.
  intros I. destruct (exec c w) as [r w'] eqn:E.
  destruct c; simpl; try apply fresh_nil.
  intros id t Hin. destruct r as [out | e]; [| by apply elem_of_nil in Hin].
  apply list_elem_of_fmap in Hin as (row & [= -> ->] & Hrow). simpl in E.
  pose proof (claim_out wanted limit worker_id lease now (w_store w) out row (inv_store _ _ _ I)) as Hout.
  destruct (claim wanted limit worker_id lease now (w_store w)) as [out' st].
  injection E as -> <-. destruct (Hout eq_refl Hrow) as (op & -> & Hop & _ & _ & Hop').
  exists op, (take_claim now lease worker_id op). simpl. split_and!; try done; lia.
Qed.

(** One thread moved on, within its guarantee. *)
Lemma thread_moves s (i : nat) th p pairs lk w' :
  run_inv s -> sys_threads s !! i = Some th -> inv w' -> guar (th_own th) (sys_world s) w' ->
  fresh pairs (sys_world s) w' ->
  safe p (fun _ _ r _ => ended r) (th_own th ++ pairs) lk w' ->
  all_calls (disciplined cfg) p (fun _ => True) ->
  run_inv (mkSystem w' (<[i := mkThread p (th_own th ++ pairs) lk]> (sys_threads s))).
Proof.
  intros [I Hs Hc Hi Hd] Hth I' G Hfresh Hk Hcalls. pose proof (Hi i th Hth) as Hiss.
  assert (i < length (sys_threads s))%nat as Hlt by by eapply lookup_lt_Some.
  assert (forall j thj x, j <> i -> sys_threads s !! j = Some thj -> x ∈ th_own thj ->
    x ∉ th_own th ++ pairs) as Hdis.
  { intros j thj [id t] Hne Hj Hx [Hx' | Hx']%elem_of_app.
    - apply Hne. by eapply (Hd j i thj th).
    - destruct (Hfresh id t Hx') as (op & _ & Hop & Hlt' & _).
      destruct (Hi j thj Hj id t Hx) as (op2 & Hop2 & Hle). assert (op2 = op) as -> by congruence. lia. }
  split; simpl; [done | | | |].
  - intros j thj [(_ & <- & _) | (Hne & Hj)]%list_lookup_insert_Some; [exact Hk |].
    eapply safe_rely; [done | | by eapply Hs].
    eapply guar_rely; [exact G |]. intros x Hx Hx'. apply (Hdis j thj x), elem_of_app; auto.
  - intros j thj [(_ & <- & _) | (_ & Hj)]%list_lookup_insert_Some; [exact Hcalls | by eapply Hc].
  - intros j thj [(_ & <- & _) | (_ & Hj)]%list_lookup_insert_Some.
    + simpl. intros id t [Hin | Hin]%elem_of_app; [by eapply (mono_issued _ _ _ (proj1 G) Hiss) |].
      destruct (Hfresh id t Hin) as (_ & op' & _ & _ & Hop' & Hle). by exists op'.
    + eapply mono_issued; [apply G | by eapply Hi].
  - intros j1 j2 th1 th2 x [(<- & <- & _) | (Hne1 & H1)]%list_lookup_insert_Some
      [(<- & <- & _) | (Hne2 & H2)]%list_lookup_insert_Some Hx1 Hx2; [done | | |].
    + by destruct (Hdis j2 th2 x (not_eq_sym Hne2) H2 Hx2).
    + by destruct (Hdis j1 th1 x (not_eq_sym Hne1) H1 Hx1).
    + by eapply (Hd j1 j2 th1 th2 x).
Qed.

(** The next call of a thread may be made. *)
Lemma thread_ready s (i : nat) th {X : Type} (c : call X) k :
  run_inv s -> sys_threads s !! i = Some th -> th_prog th = Vis c k ->
  timely_call cfg (th_lookup th) c (sys_world s) = true -> (strict = true -> in_range cfg (sys_world s)) ->
  ready cfg signer strict (th_lookup th) c (sys_world s).
Proof.
  intros Hinv Hth Ep Ht Hr. split_and!; [apply Hinv | done | | done].
  pose proof (ri_calls _ Hinv i th Hth) as Hc. rewrite Ep in Hc. apply Hc.
Qed.

Lemma thread_step s (i : nat) th :
  run_inv s -> sys_threads s !! i = Some th ->
  match th_prog th with
  | Vis c _ => timely_call cfg (th_lookup th) c (sys_world s) = true
  | Done _ => True
  end ->
  (strict = true -> in_range cfg (sys_world s)) ->
  let '(th', w') := run_thread th (sys_world s) in
  run_inv (mkSystem w' (<[i := th']> (sys_threads s))) /\ mono (sys_world s) w'.
Proof.
  intros Hinv Hth Ht Hr. unfold run_thread.
  pose proof (ri_safe _ Hinv i th Hth) as Hsafe. pose proof (ri_calls _ Hinv i th Hth) as Hc.
  pose proof (@thread_ready s i th) as Hready.
  destruct (th_prog th) as [r | X c k].
  { rewrite list_insert_id by done. by destruct s. }
  specialize (Hsafe (sys_world s) ltac:(done) (Hready X c k Hinv Hth eq_refl Ht Hr)).
  pose proof (claims_fresh c _ (ri_inv _ Hinv)) as Hfresh.
  pose proof (memory_honest c _ (inv_store _ _ _ (ri_inv _ Hinv))) as Hhon.
  destruct (exec c (sys_world s)) as [r w2]. destruct Hsafe as (I' & G & _ & Hk & _).
  split; [| apply G]. apply thread_moves; try done. by apply Hc.
Qed.

Lemma thread_fail s (i : nat) th (applied : bool) :
  strict = false -> run_inv s -> sys_threads s !! i = Some th ->
  let '(th', w') := fail_thread applied th (sys_world s) in
  run_inv (mkSystem w' (<[i := th']> (sys_threads s))) /\ mono (sys_world s) w'.
Proof.
  intros Hloose Hinv Hth. unfold fail_thread.
  pose proof (ri_safe _ Hinv i th Hth) as Hsafe. pose proof (ri_calls _ Hinv i th Hth) as Hc.
  pose proof (@thread_ready s i th) as Hready.
  assert (run_inv (mkSystem (sys_world s) (<[i := th]> (sys_threads s))) /\
          mono (sys_world s) (sys_world s)) as Hsame.
  { rewrite list_insert_id by done. by destruct s. }
  destruct (th_prog th) as [r | X c k]; [exact Hsame |].
  destruct (store_call c) eqn:Est; [| exact Hsame].
  assert (timely_call cfg (th_lookup th) c (sys_world s) = true) as Ht by by destruct c.
  specialize (Hsafe (sys_world s) ltac:(done) (Hready X c k Hinv Hth eq_refl Ht ltac:(congruence))).
  destruct (exec c (sys_world s)) as [r w2]. destruct Hsafe as (I' & G & _ & _ & Hf).
  destruct (Hf Hloose Est) as [Hf1 Hf2].
  pose proof (fun w' => thread_moves s i th (k (Err StoreFailure)) [] (th_lookup th) w' Hinv Hth) as Hm.
  rewrite app_nil_r in Hm. assert (honest c (Err StoreFailure)) as Hhon by by destruct c.
  destruct applied; cbn [snd]; (split; [apply Hm | apply G || done]);
    try done; try apply fresh_nil; try apply guar_refl; try apply Hinv; by apply Hc.
Qed.

Lemma spawn_step s worker (passes : nat) :
  run_inv s -> run_inv (mkSystem (sys_world s) (sys_threads s ++
    [mkThread (run_forever cfg signer passes worker) [] (frontier (sys_world s))])).
Proof.
  intros [I Hs Hc Hi Hd]. split; simpl; [done | | | |].
  - intros i th. rewrite lookup_app_Some. intros [H | [_ H]]; [by apply (Hs i th H) |].
    apply list_lookup_singleton_Some in H as [_ <-]. apply run_forever_safe.
  - intros i th. rewrite lookup_app_Some. intros [H | [_ H]]; [by apply (Hc i th H) |].
    apply list_lookup_singleton_Some in H as [_ <-]. apply calls_run_forever.
  - intros i th. rewrite lookup_app_Some. intros [H | [_ H]]; [by apply (Hi i th H) |].
    apply list_lookup_singleton_Some in H as [_ <-]. intros id t Hin. by apply elem_of_nil in Hin.
  - intros i j th th' x. rewrite !lookup_app_Some.
    intros [H1 | [_ H1]] [H2 | [_ H2]] Hx Hx';
      try (apply list_lookup_singleton_Some in H1 as [_ <-]; by apply elem_of_nil in Hx);
      try (apply list_lookup_singleton_Some in H2 as [_ <-]; by apply elem_of_nil in Hx').
    by eapply (Hd i j th th' x).
Qed.

(** The store raises in this step. *)
Definition store_fails (e : event) : bool :=
  match e with
  | EFail _ _ => true
  | _ => false
  end.

Lemma fire_inv (e : event) s s' :
  run_inv s -> timely cfg e s = true ->
  (strict = true -> store_fails e = false /\ in_range cfg (sys_world s)) ->
  fire cfg signer e s = Some s' -> run_inv s' /\ mono (sys_world s) (sys_world s').
Proof.
  intros Hinv Ht Hstrict Hf. pose proof (ri_inv _ Hinv) as I.
  assert (forall w', inv w' /\ guar [] (sys_world s) w' ->
    run_inv (mkSystem w' (sys_threads s)) /\ mono (sys_world s) w') as Henv.
  { intros w' [I' G]. split; [by apply env_step | apply G]. }
  destruct e as [d | | channel faults | point times | id hash to asset amount | worker passes | i | i applied];
    simpl in *.
  - destruct (Z.leb_spec 0 d); [| done]. injection Hf as <-. by apply Henv, advance_ok.
  - destruct (produce_block _ _) as [nd | e] eqn:E; [| done]. injection Hf as <-. by apply Henv, block_ok.
  - injection Hf as <-. apply Henv, (unmoved_ok cfg signer); [done |]. eapply unmoved_node; [exact I | apply script_nd].
  - injection Hf as <-. apply Henv, (unmoved_ok cfg signer); [done |]. split_and!; try done; apply I.
  - injection Hf as <-. by apply Henv, submit_ok.
  - injection Hf as <-. split; [by apply spawn_step | done].
  - destruct (sys_threads s !! i) as [th |] eqn:E; [| done].
    pose proof (thread_step s i th Hinv E) as H.
    destruct (run_thread th (sys_world s)) as [th' w']. injection Hf as <-.
    apply H; [by destruct (th_prog th) | by apply Hstrict].
  - destruct (sys_threads s !! i) as [th |] eqn:E; [| done].
    assert (strict = false) as Hloose by (destruct strict; [by destruct (Hstrict eq_refl) | done]).
    pose proof (thread_fail s i th applied Hloose Hinv E) as H.
    destruct (fail_thread applied th (sys_world s)) as [th' w']. by injection Hf as <-.
Qed.

Lemma initial_inv now lag delay node_signer : run_inv (initial now lag delay node_signer).
Proof.
  split; simpl; try done. split; simpl; try done.
  - apply empty_store_wf.
  - apply new_node_wf.
  - intros id txid Hin. by apply elem_of_nil in Hin.
Qed.

End safety.

(** ** Any run *)

Section reachable.
Context (cfg : Config) (signer : MockSigner).

(** The store may fail and dates may run out. *)
Definition sys_inv (s : System) : Prop := run_inv cfg signer false s.

Lemma si_inv (s : System) : sys_inv s -> inv cfg signer (sys_world s).
Proof. apply ri_inv. Qed.

Lemma sys_step_inv (s s' : System) : sys_step cfg signer s s' -> sys_inv s -> sys_inv s'.
Proof. intros [e Ht Hf] Hinv. by eapply fire_inv. Qed.

(** What every step respects. *)
Lemma sys_step_mono (s s' : System) :
  sys_inv s -> sys_step cfg signer s s' -> mono (sys_world s) (sys_world s').
Proof. intros Hinv [e Ht Hf]. by eapply (fire_inv cfg signer false). Qed.

Lemma reachable_inv (now lag delay : Z) (node_signer : MockSigner) (s : System) :
  rtc (sys_step cfg signer) (initial now lag delay node_signer) s -> sys_inv s.
Proof.
  intros H. pose proof (initial_inv cfg signer false now lag delay node_signer) as Hi. revert Hi.
  induction H as [| s0 s1 s2 H1 _ IH]; intros Hi; [done |]. apply IH. by eapply sys_step_inv.
Qed.

End reachable.
