(* ===== verification/Payments.v ===== *)
(** * What the chain and the books say about each other

    Consequences of the invariant for money, over every interleaving of
    [System]: accounting, no double spend, the meaning of the terminal states
    and conservation of amounts; then schedules that show why the two
    assumptions (a worker does not stall for the whole safety margin between
    its lookup and its death proof; operations do not share a txid) are there. *)
From Stdlib Require Import ZArith Lia.
From stdpp Require Import base option strings gmap list.
From S2P Require Import Prelude Text Json Hash Datetime States Address Wire Model Store Node Effects Pipeline Worker System Invariant Calls Handlers Safety.

Local Open Scope Z_scope.

(** No txid is in the history of two operations. *)
Definition txids_separate (w : World) : Prop :=
  forall X Y txid, txid ∈ all_txids X (w_store w) -> txid ∈ all_txids Y (w_store w) -> X = Y.

(** ** Tables and text *)

Lemma elem_of_included (nd : MockTronNode) (txid : pystr) :
  node_wf nd -> txid ∈ included_txids nd <->
  exists rec, find_rec txid nd = Some rec /\ is_included rec = true.
Proof.
  intros Hwf. unfold included_txids. rewrite list_elem_of_fmap. split.
  - intros ([t rec] & -> & [Hi Hin]%list_elem_of_filter). exists rec.
    split; [by apply assoc_elem_NoDup; [apply Hwf |] | done].
  - intros (rec & Hr & Hi). exists (txid, rec). split; [done |]. apply list_elem_of_filter.
    split; [done | by apply assoc_elem].
Qed.

Lemma elem_of_successful (nd : MockTronNode) (txid : pystr) :
  node_wf nd -> txid ∈ successful_txids nd <->
  exists rec, find_rec txid nd = Some rec /\ is_success rec = true.
Proof.
  intros Hwf. unfold successful_txids. rewrite list_elem_of_fmap. split.
  - intros ([t rec] & -> & [Hi Hin]%list_elem_of_filter). exists rec.
    split; [by apply assoc_elem_NoDup; [apply Hwf |] | done].
  - intros (rec & Hr & Hi). exists (txid, rec). split; [done |]. apply list_elem_of_filter.
    split; [done | by apply assoc_elem].
Qed.

Lemma decimal_length_le (n : Z) (k : nat) :
  0 <= n < 10 ^ Z.of_nat k -> (0 < k)%nat -> (length (decimal n) <= k)%nat.
Proof.
  intros Hn Hk. unfold decimal. destruct (Z.eqb_spec n 0); [simpl; lia |].
  rewrite length_map. destruct (to_base_spec 10 n ltac:(lia) ltac:(lia)) as (Hv & Hd & Hh).
  destruct (to_base 10 n) as [|x xs]; [simpl; lia |]. simpl in Hh.
  pose proof (of_base_pos 10 x xs ltac:(lia) Hd ltac:(congruence)) as Hlo. rewrite Hv in Hlo.
  assert (10 ^ Z.of_nat (length xs) < 10 ^ Z.of_nat k) as Hlt by lia.
  apply Z.pow_lt_mono_r_iff in Hlt; simpl; lia.
Qed.

(** [int(str(n))] within the interpreter's digit limit. *)
Lemma int_of_str_of_int (n : Z) :
  0 <= n < 10 ^ Z.of_nat max_str_digits -> int_of_str (str_of_int n) = Some n.
Proof.
  intros Hn. unfold str_of_int. destruct (Z.ltb_spec n 0); [lia |].
  pose proof (decimal_digits n ltac:(lia)) as Hd. pose proof (decimal_nonempty n ltac:(lia)) as Hne.
  pose proof (decimal_value n ltac:(lia)) as Hv.
  pose proof (decimal_length_le n max_str_digits Hn ltac:(unfold max_str_digits; lia)) as Hl.
  destruct (decimal n) as [|c s] eqn:E; [done |]. unfold int_of_str.
  assert (is_digit c = true) as Hc by by apply Forall_cons in Hd as [? _].
  destruct (Z.eqb_spec c 45) as [-> |]; [done |].
  assert (forallb is_digit (c :: s) = true) as ->.
  { apply forallb_forall. intros x Hx. rewrite Forall_forall in Hd. by apply Hd, list_elem_of_In. }
  unfold int_of_digits. destruct (Nat.leb_spec (length (c :: s)) max_str_digits); [by rewrite Hv | lia].
Qed.

Lemma alphabet_scalar (d : Z) : digit_of 58 d -> scalar (alphabet_at d).
Proof.
  intros Hd. assert (Forall (fun c => 0 <= c < 55296) ALPHABET) as Ha.
  { apply (bool_decide_unpack _). vm_compute. exact I. }
  left. unfold alphabet_at. destruct (nth_in_or_default (Z.to_nat d) ALPHABET 0) as [Hin | ->]; [| lia].
  rewrite Forall_forall in Ha. by apply Ha, list_elem_of_In.
Qed.

Lemma is_valid_scalar (s : pystr) : is_valid (JStr s) = true -> Forall scalar s.
Proof.
  unfold is_valid. destruct (negb _); [done |].
  destruct (b58decode s) as [raw |] eqn:E; [| done]. intros _. unfold b58decode in E.
  destruct (b58_num 0 s) as [n |] eqn:En; [| done].
  apply b58_num_inv in En as (ds & -> & Hds). apply Forall_fmap. eapply Forall_impl; [exact Hds |].
  apply alphabet_scalar.
Qed.

(** ** Envelopes *)

Section payments.
Context (cfg : Config) (signer : MockSigner).

Lemma envelope_contract (op : Operation) (s : SignedTx) :
  envelope_of cfg signer op s -> get_item (str "contract") (stx_raw_data s) = Ok (contract_of cfg op).
Proof. intros [_ (ref & now & _ & ->)]. reflexivity. Qed.

Lemma envelope_amount (op : Operation) (nd : MockTronNode) (txid : pystr) (rec : TxRecord) :
  find_rec txid nd = Some rec -> envelope_of cfg signer op (tr_tx rec) ->
  0 <= op_amount_units op < 10 ^ Z.of_nat max_str_digits ->
  tx_amount txid nd = Ok (op_amount_units op).
Proof.
  intros Hr He Ha. unfold tx_amount. rewrite Hr, (envelope_contract op) by done.
  rewrite (eq_refl : get_str (str "amount_units") (contract_of cfg op) =
           Ok (str_of_int (op_amount_units op))).
  by rewrite int_of_str_of_int.
Qed.

(** An included record is the envelope of a row past the write-ahead. *)
Lemma included_row (w : World) (txid : pystr) (rec : TxRecord) :
  inv cfg signer w -> rec_of w txid = Some rec -> is_included rec = true ->
  exists id op, rows w !! id = Some op /\ past_write_ahead (op_state op) = true /\
  carries cfg signer w op (tr_tx rec) /\ stx_txid (tr_tx rec) = txid /\ op_operation_id op = id.
Proof.
  intros I Hr Hi. destruct (inv_onwire _ _ _ I _ _ Hr ltac:(by left)) as (id & op & Hop & Ho).
  pose proof (known_representable _ _ _ _ (inv_known _ _ _ I _ _ Hr)) as Hrep.
  pose proof (rec_txid _ _ _ (nw_recs _ (inv_node _ _ _ I) _ _ Hr)) as Ht.
  pose proof (wf_key _ (inv_store _ _ _ I) _ _ Hop) as Hid.
  exists id, op. unfold onwire in Ho. destruct (past_write_ahead (op_state op)) eqn:Ep; [| done].
  split_and!; try done. destruct (inv_rows _ _ _ I _ _ Hop) as [_ Henv]. unfold envelope_ok in Henv.
  assert (exists s, carries cfg signer w op s) as (s & Hc).
  { destruct (op_state op); try done; [destruct Henv as (s & Hc & _); by exists s |].
    destruct Henv as [| (s & Hc & _)]; [congruence | by exists s]. }
  assert (s = tr_tx rec) as <-; [| done].
  pose proof Hc as (_ & Es & _ & [Hrs _] & _). apply to_json_inj; [done | done | congruence].
Qed.

Lemma separate_row (w : World) (txid : pystr) (rec : TxRecord) (X : Z) :
  inv cfg signer w -> txids_separate w -> txid ∈ all_txids X (w_store w) ->
  rec_of w txid = Some rec -> is_included rec = true ->
  exists op, rows w !! X = Some op /\ past_write_ahead (op_state op) = true /\
  carries cfg signer w op (tr_tx rec) /\ op_txid op = Some txid.
Proof.
  intros I Hsep Hin Hr Hi. destruct (included_row w txid rec I Hr Hi) as (id & op & Hop & Hp & Hc & Ht & Hid).
  pose proof Hc as (_ & _ & Etx & _ & Hh & _). subst txid id.
  rewrite (Hsep X _ _ Hin Hh). exists op. done.
Qed.

Lemma included_once (w : World) (X : Z) (txid1 txid2 : pystr) :
  inv cfg signer w -> txids_separate w ->
  txid1 ∈ all_txids X (w_store w) -> txid1 ∈ included_txids (w_node w) ->
  txid2 ∈ all_txids X (w_store w) -> txid2 ∈ included_txids (w_node w) -> txid1 = txid2.
Proof.
  intros I Hsep H1 Hi1 H2 Hi2.
  apply elem_of_included in Hi1 as (rec1 & Hr1 & Hi1); [| apply I].
  apply elem_of_included in Hi2 as (rec2 & Hr2 & Hi2); [| apply I].
  destruct (separate_row _ _ _ _ I Hsep H1 Hr1 Hi1) as (op1 & Hop1 & _ & _ & E1).
  destruct (separate_row _ _ _ _ I Hsep H2 Hr2 Hi2) as (op2 & Hop2 & _ & _ & E2). congruence.
Qed.

Lemma successful_included (w : World) (txid : pystr) :
  inv cfg signer w -> txid ∈ successful_txids (w_node w) -> txid ∈ included_txids (w_node w).
Proof.
  intros I. rewrite elem_of_successful, elem_of_included by apply I.
  intros (rec & Hr & Hs). exists rec. split; [done | by apply is_success_included].
Qed.

Lemma refused_unpaid (w : World) (X : Z) (op : Operation) (txid : pystr) :
  inv cfg signer w -> txids_separate w -> rows w !! X = Some op ->
  op_state op = FAILED \/ op_state op = REJECTED ->
  txid ∈ all_txids X (w_store w) -> txid ∉ successful_txids (w_node w).
Proof.
  intros I Hsep Hop Hst Hin Hsucc.
  apply elem_of_successful in Hsucc as (rec & Hr & Hsucc); [| apply I].
  pose proof (is_success_included _ Hsucc) as Hi.
  destruct (separate_row _ _ _ _ I Hsep Hin Hr Hi) as (op' & Hop' & Hp & Hc & Ht).
  assert (op' = op) as -> by congruence.
  pose proof (inv_rows _ _ _ I _ _ Hop') as [_ Henv]. unfold envelope_ok in Henv.
  destruct Hst as [Hst | Hst]; rewrite Hst in Hp, Henv; [| done].
  destruct Hc as (_ & Es & _ & [Hrep _] & _).
  destruct Henv as [| (sg & (_ & Es' & _ & [Hrep' _] & _) & Hu)]; [congruence |].
  assert (sg = tr_tx rec) as -> by (apply to_json_inj; [done | done | congruence]).
  pose proof (nw_recs _ (inv_node _ _ _ I) _ _ Hr) as [Et Hv _ _ _]. rewrite <- Et in Hr.
  destruct Hu as [Hno | (rec' & Hr' & _ & Hns)]; [congruence |].
  unfold rec_of in Hr, Hr'. congruence.
Qed.

Lemma confirmed_paid (w : World) (X : Z) (op : Operation) :
  inv cfg signer w -> rows w !! X = Some op -> op_state op = CONFIRMED ->
  exists txid, op_txid op = Some txid /\ txid ∈ all_txids X (w_store w) /\ txid ∈ successful_txids (w_node w).
Proof.
  intros I Hop Hst. pose proof (wf_key _ (inv_store _ _ _ I) _ _ Hop) as Hid. subst X.
  pose proof (inv_rows _ _ _ I _ _ Hop) as [_ Henv]. unfold envelope_ok in Henv. rewrite Hst in Henv.
  destruct Henv as (sg & (_ & _ & Ht & _ & Hh & _) & rec & Hr & Hsucc & _).
  exists (stx_txid sg). split_and!; try done. apply elem_of_successful; [apply I | by exists rec].
Qed.

(** ** Shared txids *)

Lemma str_scalar (t : string) : Forall scalar (str t).
Proof.
  induction t as [|c t IH]; [constructor |]. constructor; [| exact IH].
  left. pose proof (Ascii.N_ascii_bounded c). lia.
Qed.

Lemma raw_data_textual (op : Operation) (ref : Z * pystr) (now expiration : Z) :
  Forall scalar (cfg_usdt_contract cfg) -> Forall scalar (op_to_address op) -> Forall scalar (snd ref) ->
  textual (raw_data_of cfg op ref now expiration).
Proof.
  intros H1 H2 H3. assert (forall c, 0 <= c < 128 -> scalar c) as Hs by (intros; left; lia).
  assert (forall n, Forall scalar (str_of_int n)) as Hn.
  { intros n. assert (forall m, 0 <= m -> Forall scalar (decimal m)) as Hd.
    { intros m Hm. eapply Forall_impl; [by apply decimal_digits |]. intros c Hc%is_digit_spec. apply Hs. lia. }
    unfold str_of_int. destruct (Z.ltb_spec n 0); [constructor; [apply Hs; lia | apply Hd; lia] | by apply Hd]. }
  unfold raw_data_of, contract_of. rewrite textual_obj.
  repeat (apply Forall_cons; split; [split; [apply str_scalar |] |]); [| done | done | done | done | done].
  cbn [snd]. rewrite textual_obj.
  repeat (apply Forall_cons; split; [split; [apply str_scalar |] |]); try apply str_scalar; done || apply Hn.
Qed.

Lemma raw_data_sorted_inj (op1 op2 : Operation) (ref1 ref2 : Z * pystr) (now1 now2 exp1 exp2 : Z) :
  sort_keys (raw_data_of cfg op1 ref1 now1 exp1) = sort_keys (raw_data_of cfg op2 ref2 now2 exp2) ->
  op_to_address op1 = op_to_address op2 /\ op_amount_units op1 = op_amount_units op2.
Proof.
  unfold raw_data_of, contract_of. generalize (str_of_int_inj (op_amount_units op1) (op_amount_units op2)).
  generalize (str_of_int (op_amount_units op1)) (str_of_int (op_amount_units op2)).
  generalize (to_ms now1) (to_ms now2) (to_ms exp1) (to_ms exp2). intros a1 a2 e1 e2 s1 s2 Hinj E.
  generalize dependent (op_to_address op1). generalize dependent (op_to_address op2). intros t2 t1 E.
  vm_compute in E. injection E. auto.
Qed.

Lemma built_inj (op1 op2 : Operation) (txid : pystr) :
  Forall scalar (cfg_usdt_contract cfg) -> built cfg op1 txid -> built cfg op2 txid ->
  (op_to_address op1 = op_to_address op2 /\ op_amount_units op1 = op_amount_units op2) \/
  exists a b, collision a b.
Proof.
  intros Hc [[Hv1 _] (ref1 & now1 & e1 & Hs1 & E1)] [[Hv2 _] (ref2 & now2 & e2 & Hs2 & E2)].
  apply is_valid_scalar in Hv1, Hv2. rewrite E1 in E2.
  destruct (compute_txid_inj _ _ (raw_data_textual op1 ref1 now1 e1 Hc Hv1 Hs1)
    (raw_data_textual op2 ref2 now2 e2 Hc Hv2 Hs2) E2) as [E | E]; [left | right; eauto].
  by apply raw_data_sorted_inj in E.
Qed.

(** ** Conservation *)

Definition sum (l : list Z) : Z := fold_right Z.add 0 l.

#[local] Instance sum_map_Proper {A : Type} (f : A -> Z) : Proper ((≡ₚ) ==> (=)) (fun l => sum (map f l)).
Proof. intros l l'. induction 1; simpl; lia. Qed.

(** Distinct keys, each backed by an item of its own with the same weight. *)
Lemma backed_sum {A : Type} (key : A -> option pystr) (weight : A -> Z) (amount : pystr -> Z)
    (items : list A) (keys : list pystr) :
  NoDup keys -> (forall x, x ∈ items -> 0 <= weight x) ->
  (forall k, k ∈ keys -> exists x, x ∈ items /\ key x = Some k /\ amount k = weight x) ->
  sum (map amount keys) <= sum (map weight items).
Proof.
  revert keys. induction items as [|x items IH]; intros keys Hnd Hpos Hb.
  - destruct keys as [|k keys]; [simpl; lia |].
    destruct (Hb k ltac:(left)) as (x & Hx & _). by apply elem_of_nil in Hx.
  - assert (0 <= weight x) as Hx by (apply Hpos; left).
    assert (forall y, y ∈ items -> 0 <= weight y) as Hpos' by (intros y Hy; apply Hpos; by right).
    assert ((exists k, key x = Some k /\ k ∈ keys /\ amount k = weight x) \/
            ~ (exists k, key x = Some k /\ k ∈ keys /\ amount k = weight x)) as [(k & Ek & Hin & Ew) | Hno].
    { destruct (key x) as [k |]; [| right; by intros (? & ? & _)].
      destruct (decide (k ∈ keys /\ amount k = weight x)) as [| Hno]; [left; by exists k | right].
      intros (? & [= <-] & H). by apply Hno. }
    + apply elem_of_Permutation in Hin as [keys' Hp]. rewrite Hp in Hnd.
      apply NoDup_cons in Hnd as [Hk Hnd].
      assert (sum (map amount keys) = amount k + sum (map amount keys')) as ->.
      { exact (sum_map_Proper amount _ _ Hp). }
      simpl. rewrite Ew. apply Zplus_le_compat_l, IH; [done | done |]. intros k' Hk'.
      destruct (Hb k') as (y & [-> | Hy]%elem_of_cons & Ey & Ew'); [rewrite Hp; by right | | by exists y].
      exfalso. apply Hk. congruence.
    + simpl. transitivity (sum (map weight items)); [| lia]. apply IH; [done | done |].
      intros k Hk. destruct (Hb k Hk) as (y & [-> | Hy]%elem_of_cons & Ey & Ew); [| by exists y].
      exfalso. apply Hno. eauto.
Qed.

End payments.

(** ** Schedules *)

Definition t0 : Z := 1767225600000000.      (* 2026-01-01T00:00:00Z, [FakeClock]'s start *)
Definition dest : pystr := default [] (from_payload (repeat 7 20)).
Definition runs (i n : nat) : list event := replicate n (ERun i).
Definition genesis : System := initial t0 2 1 default_signer.

Definition play (es : list event) : System :=
  default genesis (fire_all default_config default_signer es genesis).

Lemma play_fire (es : list event) :
  bool_decide (is_Some (fire_all default_config default_signer es genesis)) = true ->
  fire_all default_config default_signer es genesis = Some (play es).
Proof. intros [s Hs]%bool_decide_eq_true. unfold play. by rewrite Hs. Qed.

Lemma play_reachable (es : list event) :
  timely_all default_config default_signer es genesis = true ->
  bool_decide (is_Some (fire_all default_config default_signer es genesis)) = true ->
  rtc (sys_step default_config default_signer) genesis (play es).
Proof.
  intros Ht Hs%play_fire. by eapply fire_all_steps.
Qed.

(** One withdrawal, one worker, blocks, a second pass: confirmed. *)
Definition happy_path : list event :=
  [ESubmit 1 [] dest (str "USDT-TRC20") 1500000; ESpawn (str "w1") 1] ++ runs 0 40 ++
  replicate 4 EBlock ++ [ESpawn (str "w2") 1] ++ runs 1 20.

(** The same with a receipt that says the transfer reverted: failed. *)
Definition reverted_path : list event :=
  [EScript (str "receipt") [REVERT_RECEIPT]] ++ happy_path.

(** A worker stops between its write-ahead and its send; another claims the
    operation, looks the txid up and stalls; the first one sends and the
    transfer is mined; time passes; the second one resumes. *)
Definition stalled_path : list event :=
  [ESubmit 1 [] dest (str "USDT-TRC20") 1500000; ESpawn (str "A") 1] ++ runs 0 12 ++
  [EAdvance (seconds 31); ESpawn (str "B") 1] ++ runs 1 3 ++ runs 0 1 ++
  [EBlock; EAdvance (seconds 100); EBlock; EBlock; EBlock] ++ runs 1 40 ++ [EBlock; EBlock].

(** Two withdrawals of the same amount to the same address, processed in the
    same millisecond. *)
Definition twin_path : list event :=
  [ESubmit 1 [] dest (str "USDT-TRC20") 1500000; ESubmit 2 [] dest (str "USDT-TRC20") 1500000;
   ESpawn (str "w1") 1] ++ runs 0 60 ++ replicate 4 EBlock ++ [ESpawn (str "w2") 1] ++ runs 1 20.

Definition happy : System := play happy_path.
Definition reverted : System := play reverted_path.

Lemma happy_reachable : rtc (sys_step default_config default_signer) genesis happy.
Proof. apply play_reachable; vm_compute; reflexivity. Qed.

Lemma reverted_reachable : rtc (sys_step default_config default_signer) genesis reverted.
Proof. apply play_reachable; vm_compute; reflexivity. Qed.

(** A world with one operation shares no txid. *)
Lemma single_separate (s : System) (id : Z) :
  rtc (sys_step default_config default_signer) genesis s ->
  (map_to_list (ms_ops (w_store (sys_world s)))).*1 = [id] -> txids_separate (sys_world s).
Proof.
  intros Hs Hd. pose proof (si_inv _ _ _ (reachable_inv _ _ _ _ _ _ _ Hs)) as I.
  assert (forall X t, t ∈ all_txids X (w_store (sys_world s)) -> X = id) as H.
  { intros X t (op & Hop & _)%(inv_hist _ _ _ I). apply elem_of_map_to_list in Hop.
    apply list_elem_of_singleton. rewrite <- Hd. apply list_elem_of_fmap. by exists (X, op). }
  intros X Y t HX HY. by rewrite (H X t HX), (H Y t HY).
Qed.

Lemma happy_separate : txids_separate (sys_world happy).
Proof. apply (single_separate _ 1); [apply happy_reachable | vm_compute; reflexivity]. Qed.

Lemma reverted_separate : txids_separate (sys_world reverted).
Proof. apply (single_separate _ 1); [apply reverted_reachable | vm_compute; reflexivity]. Qed.

Definition happy_txid : pystr := default [] (head (included_txids (w_node (sys_world happy)))).

(** ** Properties *)

(** C2. Every transfer on chain is accounted for, in every timely schedule (no
    worker lets the safety margin pass on chain between its lookup of a
    transaction and the solid time it reads), whatever the interleaving,
    faults, crashes, store failures and lease losses: it is the current
    envelope of an operation past its write-ahead that passed validation, its
    txid is in that operation's log, and it pays exactly that operation's
    address and amount.  A row has one txid, so no operation has two transfers
    on chain that way. *)
Theorem chain_transfers_accounted (cfg : Config) (signer node_signer : MockSigner) (now lag delay : Z)
    (s : System) (txid : pystr) :
  rtc (sys_step cfg signer) (initial now lag delay node_signer) s ->
  txid ∈ included_txids (w_node (sys_world s)) ->
  exists id op rec, ms_ops (w_store (sys_world s)) !! id = Some op /\
  op_txid op = Some txid /\ past_write_ahead (op_state op) = true /\ validated cfg op /\
  txid ∈ all_txids id (w_store (sys_world s)) /\
  find_rec txid (w_node (sys_world s)) = Some rec /\
  get_item (str "contract") (stx_raw_data (tr_tx rec)) = Ok (contract_of cfg op).
Proof.
  intros Hs Hin. pose proof (si_inv _ _ _ (reachable_inv _ _ _ _ _ _ _ Hs)) as I.
  apply elem_of_included in Hin as (rec & Hr & Hi); [| apply I].
  destruct (included_row _ _ _ _ _ I Hr Hi) as (id & op & Hop & Hp & (Hv & _ & Ht & He & Hh & _) & <- & <-).
  exists (op_operation_id op), op, rec. split_and!; try done. by eapply envelope_contract.
Qed.

Lemma chain_transfers_accounted_witness :
  exists id op rec, ms_ops (w_store (sys_world happy)) !! id = Some op /\
  op_txid op = Some happy_txid /\ past_write_ahead (op_state op) = true /\ validated default_config op /\
  happy_txid ∈ all_txids id (w_store (sys_world happy)) /\
  find_rec happy_txid (w_node (sys_world happy)) = Some rec /\
  get_item (str "contract") (stx_raw_data (tr_tx rec)) = Ok (contract_of default_config op).
Proof.
  apply (chain_transfers_accounted default_config default_signer default_signer t0 2 1 happy happy_txid).
  - apply happy_reachable.
  - apply (bool_decide_unpack _). vm_compute. exact I.
Defined.

(** C1. No double spend: in every timely schedule in which no two operations
    share a txid, of all the txids an operation ever had, over all its rebuilds
    and however many workers and zombies raced on it, and whatever calls of
    theirs to the store failed, with or without effect, at most one is on
    chain. *)
Theorem no_double_spend (cfg : Config) (signer node_signer : MockSigner) (now lag delay : Z)
    (s : System) (X : Z) (txid1 txid2 : pystr) :
  rtc (sys_step cfg signer) (initial now lag delay node_signer) s ->
  txids_separate (sys_world s) ->
  txid1 ∈ all_txids X (w_store (sys_world s)) -> txid1 ∈ included_txids (w_node (sys_world s)) ->
  txid2 ∈ all_txids X (w_store (sys_world s)) -> txid2 ∈ included_txids (w_node (sys_world s)) ->
  txid1 = txid2.
Proof.
  intros Hs Hsep. exact (included_once _ _ _ X txid1 txid2 (si_inv _ _ _ (reachable_inv _ _ _ _ _ _ _ Hs)) Hsep).
Qed.

Lemma no_double_spend_witness : happy_txid = happy_txid.
Proof.
  apply (no_double_spend default_config default_signer default_signer t0 2 1 happy 1 happy_txid happy_txid);
    [apply happy_reachable | apply happy_separate | ..];
    apply (bool_decide_unpack _); vm_compute; exact I.
Defined.

(** C3. Confirmed means paid exactly once: in every timely schedule in which no
    two operations share a txid, and with amount bounds that are not negative
    and below 4300 digits, a confirmed operation's txid succeeded on chain,
    carries the operation's amount, and no other txid the operation ever had
    is on chain. *)
Theorem confirmed_paid_exactly_once (cfg : Config) (signer node_signer : MockSigner) (now lag delay : Z)
    (s : System) (X : Z) (op : Operation) :
  rtc (sys_step cfg signer) (initial now lag delay node_signer) s ->
  txids_separate (sys_world s) ->
  0 <= cfg_min_amount_units cfg -> cfg_max_amount_units cfg < 10 ^ Z.of_nat max_str_digits ->
  get X (w_store (sys_world s)) = Some op -> op_state op = CONFIRMED ->
  exists txid, op_txid op = Some txid /\ txid ∈ successful_txids (w_node (sys_world s)) /\
  tx_amount txid (w_node (sys_world s)) = Ok (op_amount_units op) /\
  forall t, t ∈ all_txids X (w_store (sys_world s)) -> t ∈ included_txids (w_node (sys_world s)) -> t = txid.
Proof.
  intros Hs Hsep Hmin Hmax Hop Hst. pose proof (si_inv _ _ _ (reachable_inv _ _ _ _ _ _ _ Hs)) as I.
  pose proof (wf_key _ (inv_store _ _ _ I) _ _ Hop) as Hid. subst X.
  pose proof (inv_rows _ _ _ I _ _ Hop) as [_ Henv]. unfold envelope_ok in Henv. rewrite Hst in Henv.
  destruct Henv as (sg & (Hv & _ & Ht & _ & Hh & _) & rec & Hr & Hsucc & _).
  destruct (separate_row _ _ _ _ _ _ I Hsep Hh Hr (is_success_included _ Hsucc)) as (op' & Hop' & _ & Hc & _).
  assert (op' = op) as -> by (unfold rows in Hop'; unfold get in Hop; congruence).
  exists (stx_txid sg). split_and!; [done | apply elem_of_successful; [apply I | by exists rec] | |].
  - eapply envelope_amount; [exact Hr | apply Hc |]. destruct Hv as (_ & _ & Ha). lia.
  - intros t Hin (rec' & Hr' & Hi')%elem_of_included; [| apply I].
    destruct (separate_row _ _ _ _ _ _ I Hsep Hin Hr' Hi') as (op'' & Hop'' & _ & _ & E).
    unfold rows in *. congruence.
Qed.

Definition happy_row : Operation := default demo_row (get 1 (w_store (sys_world happy))).

Lemma confirmed_paid_exactly_once_witness :
  exists txid, op_txid happy_row = Some txid /\ txid ∈ successful_txids (w_node (sys_world happy)) /\
  tx_amount txid (w_node (sys_world happy)) = Ok (op_amount_units happy_row) /\
  forall t, t ∈ all_txids 1 (w_store (sys_world happy)) -> t ∈ included_txids (w_node (sys_world happy)) ->
  t = txid.
Proof.
  apply (confirmed_paid_exactly_once default_config default_signer default_signer t0 2 1 happy 1 happy_row).
  - apply happy_reachable.
  - apply happy_separate.
  - vm_compute. discriminate.
  - vm_compute. reflexivity.
  - vm_compute. reflexivity.
  - vm_compute. reflexivity.
Defined.

(** C4. Failed or rejected means nothing was paid: in every timely schedule in
    which no two operations share a txid, no txid such an operation ever had
    succeeded on chain. *)
Theorem failed_paid_nothing (cfg : Config) (signer node_signer : MockSigner) (now lag delay : Z)
    (s : System) (X : Z) (op : Operation) (txid : pystr) :
  rtc (sys_step cfg signer) (initial now lag delay node_signer) s ->
  txids_separate (sys_world s) ->
  get X (w_store (sys_world s)) = Some op -> op_state op = FAILED \/ op_state op = REJECTED ->
  txid ∈ all_txids X (w_store (sys_world s)) -> txid ∉ successful_txids (w_node (sys_world s)).
Proof.
  intros Hs Hsep. exact (refused_unpaid _ _ _ X op txid (si_inv _ _ _ (reachable_inv _ _ _ _ _ _ _ Hs)) Hsep).
Qed.

Definition reverted_row : Operation := default demo_row (get 1 (w_store (sys_world reverted))).
Definition reverted_txid : pystr := default [] (op_txid reverted_row).

Lemma failed_paid_nothing_witness : reverted_txid ∉ successful_txids (w_node (sys_world reverted)).
Proof.
  apply (failed_paid_nothing default_config default_signer default_signer t0 2 1 reverted 1 reverted_row).
  - apply reverted_reachable.
  - apply reverted_separate.
  - vm_compute. reflexivity.
  - left. vm_compute. reflexivity.
  - apply (bool_decide_unpack _). vm_compute. exact I.
Defined.

(** C6. Nothing is on the wire without a trace in the books: in every timely
    schedule, every txid the node ever accepted is in the event log of an operation that passed validation. *)
Theorem accepted_txids_logged (cfg : Config) (signer node_signer : MockSigner) (now lag delay : Z)
    (s : System) (txid : pystr) :
  rtc (sys_step cfg signer) (initial now lag delay node_signer) s ->
  accepted_count txid (w_node (sys_world s)) <> 0%nat ->
  exists id op, ms_ops (w_store (sys_world s)) !! id = Some op /\ validated cfg op /\
  txid ∈ all_txids id (w_store (sys_world s)).
Proof.
  intros Hs Ha. pose proof (si_inv _ _ _ (reachable_inv _ _ _ _ _ _ _ Hs)) as I.
  rewrite (nw_once _ (inv_node _ _ _ I)) in Ha. destruct (decide _) as [[rec Hr] |]; [| done].
  destruct (inv_known _ _ _ I _ _ Hr) as (id & op & Hop & _ & Hh).
  pose proof (rec_txid _ _ _ (nw_recs _ (inv_node _ _ _ I) _ _ Hr)) as Et. rewrite Et in Hh.
  destruct (inv_hist _ _ _ I _ _ Hh) as (op' & Hop' & [Hv _]). by exists id, op'.
Qed.

Lemma accepted_txids_logged_witness :
  exists id op, ms_ops (w_store (sys_world happy)) !! id = Some op /\ validated default_config op /\
  happy_txid ∈ all_txids id (w_store (sys_world happy)).
Proof.
  apply (accepted_txids_logged default_config default_signer default_signer t0 2 1 happy happy_txid).
  - apply happy_reachable.
  - vm_compute. discriminate.
Defined.

(** C32. In every timely schedule, two operations whose logs share a txid pay the same address the same
    amount, or SHA-256 has a collision: withdrawals that differ in either never
    share a txid. *)
Theorem shared_txid_same_payment (cfg : Config) (signer node_signer : MockSigner) (now lag delay : Z)
    (s : System) (X Y : Z) (op1 op2 : Operation) (txid : pystr) :
  rtc (sys_step cfg signer) (initial now lag delay node_signer) s ->
  Forall scalar (cfg_usdt_contract cfg) ->
  get X (w_store (sys_world s)) = Some op1 -> get Y (w_store (sys_world s)) = Some op2 ->
  txid ∈ all_txids X (w_store (sys_world s)) -> txid ∈ all_txids Y (w_store (sys_world s)) ->
  (op_to_address op1 = op_to_address op2 /\ op_amount_units op1 = op_amount_units op2) \/
  exists a b, collision a b.
Proof.
  intros Hs Hc H1 H2 Hh1 Hh2. pose proof (si_inv _ _ _ (reachable_inv _ _ _ _ _ _ _ Hs)) as I.
  destruct (inv_hist _ _ _ I _ _ Hh1) as (o1 & Ho1 & Hb1).
  destruct (inv_hist _ _ _ I _ _ Hh2) as (o2 & Ho2 & Hb2).
  unfold get, rows in *. assert (o1 = op1) as -> by congruence. assert (o2 = op2) as -> by congruence.
  by eapply built_inj.
Qed.

Definition twins : System := play twin_path.

Lemma shared_txid_same_payment_witness :
  let row id := default demo_row (get id (w_store (sys_world twins))) in
  (op_to_address (row 1) = op_to_address (row 2) /\ op_amount_units (row 1) = op_amount_units (row 2)) \/
  exists a b, collision a b.
Proof.
  intros row.
  apply (shared_txid_same_payment default_config default_signer default_signer t0 2 1 twins 1 2
    (row 1) (row 2) (default [] (op_txid (row 1)))).
  - apply play_reachable; vm_compute; reflexivity.
  - apply (str_scalar "TR7NHqjeKQxGTCi8q8ZY4pL8otSzgjLj6t").
  - vm_compute. reflexivity.
  - vm_compute. reflexivity.
  - apply (bool_decide_unpack _). vm_compute. exact I.
  - apply (bool_decide_unpack _). vm_compute. exact I.
Defined.

(** What left the wallet, and what operations past their write-ahead asked for. *)
Definition spent (nd : MockTronNode) : Z :=
  sum (map (fun t => match tx_amount t nd with Ok a => a | Err _ => 0 end) (successful_txids nd)).

Definition total_of (P : OpState -> bool) (st : MemoryStore) : Z :=
  sum (map op_amount_units (filter (fun op => P (op_state op) = true) (all_operations st))).

Definition committed (st : MemoryStore) : Z := total_of past_write_ahead st.

Definition confirmed : OpState -> bool := fun s => bool_decide (s = CONFIRMED).
Definition in_flight : OpState -> bool := fun s => bool_decide (s = BROADCASTING \/ s = BROADCAST).

Lemma successful_NoDup (nd : MockTronNode) : node_wf nd -> NoDup (successful_txids nd).
Proof.
  intros Hwf. unfold successful_txids. eapply sublist_NoDup; [apply (nw_keys _ Hwf) |].
  apply fmap_sublist, sublist_filter.
Qed.

Lemma elem_of_all_operations (op : Operation) (st : MemoryStore) :
  op ∈ all_operations st <-> exists id, ms_ops st !! id = Some op.
Proof.
  unfold all_operations. rewrite list_elem_of_fmap. split.
  - intros ([id op'] & -> & H%elem_of_map_to_list). by exists id.
  - intros (id & H). exists (id, op). split; [done | by apply elem_of_map_to_list].
Qed.

Section totals.
Context (cfg : Config) (signer : MockSigner) (w : World).
Context (I : inv cfg signer w).
Context (Hmin : 0 <= cfg_min_amount_units cfg).
Context (Hmax : cfg_max_amount_units cfg < 10 ^ Z.of_nat max_str_digits).

Local Abbreviation amount_of := (fun t => match tx_amount t (w_node w) with Ok a => a | Err _ => 0 end).

Lemma settled_amount (op : Operation) :
  op ∈ all_operations (w_store w) -> past_write_ahead (op_state op) = true -> 0 <= op_amount_units op.
Proof.
  intros (id & Hop)%elem_of_all_operations Hs. destruct (inv_rows _ _ _ I _ _ Hop) as [Hcl _].
  unfold cleared in Hcl. assert (validated cfg op) as (_ & _ & Ha); [| lia]. by destruct (op_state op).
Qed.

(** Every successful transfer is one operation's, past its write-ahead. *)
Lemma successful_backed (t : pystr) :
  t ∈ successful_txids (w_node w) -> exists op, op ∈ all_operations (w_store w) /\
  past_write_ahead (op_state op) = true /\ op_txid op = Some t /\ amount_of t = op_amount_units op /\
  t ∈ all_txids (op_operation_id op) (w_store w) /\ rows w !! op_operation_id op = Some op.
Proof.
  intros (rec & Hr & Hsucc)%elem_of_successful; [| apply I].
  destruct (included_row _ _ _ _ _ I Hr (is_success_included _ Hsucc))
    as (id & op & Hop & Hp & (Hv & _ & Ht & He & Hh & _) & <- & <-).
  exists op. split_and!; try done.
  - apply elem_of_all_operations. by eexists.
  - rewrite (envelope_amount _ _ op _ _ rec Hr He); [done |]. destruct Hv as (_ & _ & Ha). lia.
Qed.

(** What succeeded is covered by the operations of any class that holds them. *)
Lemma spent_covered (P : OpState -> bool) :
  (forall s, P s = true -> past_write_ahead s = true) ->
  (forall op t, t ∈ successful_txids (w_node w) -> rows w !! op_operation_id op = Some op ->
     t ∈ all_txids (op_operation_id op) (w_store w) -> past_write_ahead (op_state op) = true ->
     P (op_state op) = true) ->
  spent (w_node w) <= total_of P (w_store w).
Proof.
  intros Hpast HP. unfold spent, total_of. apply backed_sum with (key := op_txid).
  - apply successful_NoDup, I.
  - intros op [Hp Hin]%list_elem_of_filter. apply settled_amount; [done | by apply Hpast].
  - intros t Ht. destruct (successful_backed t Ht) as (op & Hin & Hp & Et & Ea & Hh & Hrow).
    exists op. split_and!; [| done | done]. apply list_elem_of_filter. split; [by eapply HP | done].
Qed.

Lemma confirmed_backed (op : Operation) :
  txids_separate w -> op ∈ all_operations (w_store w) -> op_state op = CONFIRMED ->
  exists t, op_txid op = Some t /\ t ∈ successful_txids (w_node w) /\ amount_of t = op_amount_units op /\
  t ∈ all_txids (op_operation_id op) (w_store w).
Proof.
  intros Hsep (id & Hop)%elem_of_all_operations Hs. pose proof (wf_key _ (inv_store _ _ _ I) _ _ Hop) as Hid.
  destruct (confirmed_paid _ _ _ _ _ I Hop Hs) as (t & Et & Hh & Hsucc).
  destruct (successful_backed t Hsucc) as (op' & _ & _ & _ & Ha & Hh' & Hrow).
  pose proof (Hsep _ _ _ Hh Hh') as E. subst id. unfold rows in Hrow. rewrite <- E, Hop in Hrow.
  injection Hrow as <-. by exists t.
Qed.

Lemma confirmed_spent (ops : list Operation) :
  txids_separate w -> NoDup (op_operation_id <$> ops) ->
  (forall op, op ∈ ops -> op ∈ all_operations (w_store w) /\ op_state op = CONFIRMED) ->
  NoDup (omap op_txid ops) /\ (forall t, t ∈ omap op_txid ops -> t ∈ successful_txids (w_node w)) /\
  sum (map op_amount_units ops) = sum (map amount_of (omap op_txid ops)).
Proof.
  intros Hsep. induction ops as [|op ops IH]; intros Hnd Hops.
  { split_and!; [constructor | intros t Ht; by apply elem_of_nil in Ht | done]. }
  apply NoDup_cons in Hnd as [Hop Hnd]. destruct (Hops op ltac:(left)) as [Hin Hs].
  destruct (IH Hnd) as (H1 & H2 & H3); [intros o Ho; apply Hops; by right |].
  destruct (confirmed_backed op Hsep Hin Hs) as (t & Et & Hsucc & Ha & Hh). simpl. rewrite Et. split_and!.
  - constructor; [| done]. intros (o & Ho & Eo)%list_elem_of_omap. destruct (Hops o ltac:(by right)) as [Hino Hso].
    destruct (confirmed_backed o Hsep Hino Hso) as (t' & Et' & _ & _ & Hh').
    assert (t' = t) as -> by congruence. apply Hop, list_elem_of_fmap.
    exists o. split; [exact (Hsep _ _ _ Hh Hh') | done].
  - intros t' [-> | Ht']%elem_of_cons; auto.
  - simpl. by rewrite Ha, H3.
Qed.

Lemma all_operations_NoDup : NoDup (op_operation_id <$> all_operations (w_store w)).
Proof.
  unfold all_operations. rewrite <- list_fmap_compose.
  rewrite (list_fmap_ext _ fst); [apply NoDup_fst_map_to_list |].
  intros i [id op] Hi. apply (wf_key _ (inv_store _ _ _ I)). apply elem_of_map_to_list, list_elem_of_lookup. by exists i.
Qed.

Lemma spent_confirmed : txids_separate w -> total_of confirmed (w_store w) <= spent (w_node w).
Proof.
  intros Hsep. unfold total_of, spent. set (ops := filter _ _).
  destruct (confirmed_spent ops Hsep) as (H1 & H2 & ->).
  - eapply sublist_NoDup; [apply all_operations_NoDup | apply fmap_sublist, sublist_filter].
  - intros op [Hc Hin]%list_elem_of_filter. by apply bool_decide_eq_true in Hc.
  - apply backed_sum with (key := Some); [done | | intros t Ht; exists t; auto].
    intros t Ht. destruct (successful_backed t Ht) as (op & Hin & Hp & _ & -> & _).
    by apply settled_amount.
Qed.

End totals.

(** C5. Conservation of money: in every timely schedule, with amount bounds that
    are not negative and below 4300 digits, the total that succeeded on chain
    never exceeds the total of the operations past their write-ahead.  If in
    addition no two operations share a txid, it lies between the total of the confirmed operations
    and that total plus what is still in flight; so once nothing is in flight,
    the two are equal. *)
Theorem money_conserved (cfg : Config) (signer node_signer : MockSigner) (now lag delay : Z) (s : System) :
  rtc (sys_step cfg signer) (initial now lag delay node_signer) s ->
  0 <= cfg_min_amount_units cfg -> cfg_max_amount_units cfg < 10 ^ Z.of_nat max_str_digits ->
  let st := w_store (sys_world s) in
  spent (w_node (sys_world s)) <= committed st /\
  (txids_separate (sys_world s) ->
   total_of confirmed st <= spent (w_node (sys_world s)) <= total_of (fun x => confirmed x || in_flight x) st).
Proof.
  intros Hs Hmin Hmax st. pose proof (si_inv _ _ _ (reachable_inv _ _ _ _ _ _ _ Hs)) as I.
  split; [by eapply spent_covered | intros Hsep; split].
  - by eapply spent_confirmed.
  - eapply spent_covered; [done.. | |].
    + intros x [Hx | Hx]%orb_true_iff; apply bool_decide_eq_true in Hx; [by subst | by destruct Hx; subst].
    + intros op t Hsucc Hrow Hh Hp. destruct (op_state op) eqn:Es; try done.
      exfalso. by apply (refused_unpaid _ _ _ _ op t I Hsep Hrow (or_introl Es) Hh).
Qed.

Lemma money_conserved_witness :
  total_of confirmed (w_store (sys_world happy)) <= spent (w_node (sys_world happy)) /\
  spent (w_node (sys_world happy)) = 1500000.
Proof.
  split; [| vm_compute; reflexivity].
  destruct (money_conserved default_config default_signer default_signer t0 2 1 happy) as [_ H].
  - apply happy_reachable.
  - vm_compute. discriminate.
  - vm_compute. reflexivity.
  - exact (proj1 (H happy_separate)).
Defined.

(** The first two successful transfers are different and both the operation's. *)
Definition double_spent (id : Z) (s : System) : bool :=
  match successful_txids (w_node (sys_world s)) with
  | t1 :: t2 :: _ => bool_decide (t1 <> t2) &&
      bool_decide (t1 ∈ all_txids id (w_store (sys_world s))) &&
      bool_decide (t2 ∈ all_txids id (w_store (sys_world s)))
  | _ => false
  end.

Lemma double_spent_spec (id : Z) (s : System) :
  double_spent id s = true -> exists txid1 txid2, txid1 <> txid2 /\
  txid1 ∈ all_txids id (w_store (sys_world s)) /\ txid1 ∈ successful_txids (w_node (sys_world s)) /\
  txid2 ∈ all_txids id (w_store (sys_world s)) /\ txid2 ∈ successful_txids (w_node (sys_world s)).
Proof.
  unfold double_spent. destruct (successful_txids _) as [|t1 [|t2 l]]; try done.
  rewrite !andb_true_iff, !bool_decide_eq_true. intros [[H1 H2] H3]. exists t1, t2.
  split_and!; try done; rewrite ?elem_of_cons; auto.
Qed.

(** C30. The safety margin is all that stands between a stalled worker and a
    double spend: without the bound on the time between the lookup and the
    solid-time read, there is a schedule of two workers on one operation (no
    fault, no crash) after which two different transfers of the operation have
    succeeded on chain, because the lookup is older than the zombie's send. *)
Theorem stalled_worker_double_spends :
  exists s txid1 txid2,
  fire_all default_config default_signer stalled_path genesis = Some s /\ txid1 <> txid2 /\
  txid1 ∈ all_txids 1 (w_store (sys_world s)) /\ txid1 ∈ successful_txids (w_node (sys_world s)) /\
  txid2 ∈ all_txids 1 (w_store (sys_world s)) /\ txid2 ∈ successful_txids (w_node (sys_world s)).
Proof.
  assert (double_spent 1 (play stalled_path) = true) as Hd by (vm_compute; reflexivity).
  apply double_spent_spec in Hd as (txid1 & txid2 & H). exists (play stalled_path), txid1, txid2.
  split; [apply play_fire; vm_compute; reflexivity | exact H].
Qed.

(** C31. An envelope does not name its operation: two withdrawals of the same
    amount to the same address, built in the same millisecond, get one txid;
    the in-memory store confirms both on the strength of one transfer. *)
Theorem twins_share_one_transfer :
  exists s, rtc (sys_step default_config default_signer) genesis s /\
  option_map op_state (get 1 (w_store (sys_world s))) = Some CONFIRMED /\
  option_map op_state (get 2 (w_store (sys_world s))) = Some CONFIRMED /\
  length (included_txids (w_node (sys_world s))) = 1%nat.
Proof.
  exists (play twin_path). split; [apply play_reachable; vm_compute; reflexivity |].
  split_and!; vm_compute; reflexivity.
Qed.
