(* ===== verification/Ledger.v ===== *)
(** * The payment ledger: an abstract specification

    What the program promises, without stores, workers or a chain: a ledger of
    accounts, one per withdrawal.  An account is opened unpaid, is paid at most
    once and only while it is open, and closes as settled exactly when it was
    paid.  The theorem says that every run of the system of [System] is a run
    of this ledger. *)
From Stdlib Require Import ZArith Lia.
From stdpp Require Import base option strings gmap relations list.
From S2P Require Import Prelude Text Json Hash Datetime States Address Wire Model Store Node Effects Pipeline Worker System Invariant Calls Handlers Safety Payments.

Local Open Scope Z_scope.

(** ** The specification *)

Inductive status : Type := Open | Settled | Refused.

Record Account : Type := mkAccount {
  ac_terms : Z * bytes * pystr * pystr * Z;     (* id, request hash, address, asset, amount *)
  ac_paid : option pystr;                       (* the transfer *)
  ac_status : status
}.

Abbreviation Ledger := (gmap Z Account) (only parsing).

(** One account, which may not be there yet. *)
Inductive account_step : option Account -> Account -> Prop :=
| acct_open terms : account_step None (mkAccount terms None Open)
| acct_pay terms txid :
    account_step (Some (mkAccount terms None Open)) (mkAccount terms (Some txid) Open)
| acct_settle terms txid :
    account_step (Some (mkAccount terms (Some txid) Open)) (mkAccount terms (Some txid) Settled)
| acct_refuse terms :
    account_step (Some (mkAccount terms None Open)) (mkAccount terms None Refused).

Inductive ledger_step (l : Ledger) : Ledger -> Prop :=
| ledger_account (id : Z) (a : Account) :
    account_step (l !! id) a -> ledger_step l (<[id := a]> l).

(** ** What the ledger guarantees *)

Definition balanced (a : Account) : Prop :=
  match ac_status a with
  | Open => True
  | Settled => is_Some (ac_paid a)
  | Refused => ac_paid a = None
  end.

(** [a'] is a later state of [a]. *)
Definition later (a a' : Account) : Prop :=
  ac_terms a' = ac_terms a /\
  (forall txid, ac_paid a = Some txid -> ac_paid a' = Some txid) /\
  (ac_status a <> Open -> a' = a).

#[export] Instance later_preorder : PreOrder later.
Proof.
  split.
  - intros a. by split_and!.
  - intros a b c (H1 & H2 & H3) (H4 & H5 & H6). split_and!; [congruence | auto |].
    intros Hs. specialize (H3 Hs). subst b. auto.
Qed.

Lemma account_step_later (a a' : Account) : account_step (Some a) a' -> later a a'.
Proof. inversion 1; subst; split_and!; cbn; congruence. Qed.

Lemma account_step_balanced (o : option Account) (a : Account) : account_step o a -> balanced a.
Proof. inversion 1; subst; cbn; eauto. Qed.

(** ** Every change of accounts that respects this is a run of the ledger *)

Definition account_run (o o' : option Account) : Prop :=
  rtc (fun o o' => exists a, account_step o a /\ o' = Some a) o o'.

(** From unpaid and open to any balanced state. *)
Lemma open_run terms (paid : option pystr) (st : status) :
  balanced (mkAccount terms paid st) -> account_run (Some (mkAccount terms None Open)) (Some (mkAccount terms paid st)).
Proof.
  intros Hb. destruct st, paid as [t |]; unfold balanced in Hb; cbn in Hb; try done.
  - eapply rtc_once. eexists. by split; [constructor |].
  - apply rtc_refl.
  - eapply rtc_l; [eexists; split; [by apply acct_pay | done] |]. apply rtc_once. eexists. by split; [constructor |].
  - apply rtc_once. eexists. by split; [constructor |].
Qed.

Lemma later_run (o o' : option Account) :
  (forall a', o' = Some a' -> balanced a') ->
  match o, o' with
  | Some a, Some a' => later a a'
  | None, _ => True
  | Some _, None => False
  end -> account_run o o'.
Proof.
  intros Hb H. destruct o' as [[terms' paid' st'] |]; [specialize (Hb _ eq_refl) |]; destruct o as [[terms paid st] |];
    try done; [| | apply rtc_refl].
  - destruct H as (Ht & Hp & Hf). cbn in *. subst terms'. destruct st; [| rewrite Hf by done; apply rtc_refl..].
    destruct paid as [t |]; [| by apply open_run]. specialize (Hp t eq_refl). subst paid'.
    destruct st'; [apply rtc_refl | | done]. apply rtc_once. eexists. by split; [constructor |].
  - eapply rtc_l; [eexists; split; [by apply (acct_open terms') | done] |]. by apply open_run.
Qed.

Lemma account_ledger_run (l : Ledger) (id : Z) (o' : option Account) :
  account_run (l !! id) o' -> rtc ledger_step l (partial_alter (fun _ => o') id l).
Proof.
  unfold account_run. remember (l !! id) as o eqn:E. intros H. revert l E.
  induction H as [o | o o1 o2 (a & Ha & ->) _ IH]; intros l ->.
  - by rewrite partial_alter_self.
  - eapply rtc_l; [by apply (ledger_account l id a) |].
    specialize (IH (<[id := a]> l)). rewrite lookup_insert_eq in IH. specialize (IH eq_refl).
    replace (partial_alter (fun _ => o2) id l) with (partial_alter (fun _ => o2) id (<[id := a]> l)); [done |].
    apply map_eq. intros i. destruct (decide (i = id)) as [-> |]; [by rewrite !lookup_partial_alter_eq |].
    by rewrite !lookup_partial_alter_ne, lookup_insert_ne.
Qed.

Lemma ledger_run (l l' : Ledger) :
  (forall id, account_run (l !! id) (l' !! id)) -> rtc ledger_step l l'.
Proof.
  intros Hrun.
  assert (forall (ids : list Z) (m : Ledger), (forall id, id ∉ ids -> m !! id = l' !! id) ->
    (forall id, account_run (m !! id) (l' !! id)) -> rtc ledger_step m l') as Hmain.
  { induction ids as [|id ids IH]; intros m Hout Hm.
    - assert (m = l') as -> by (apply map_eq; intros id; apply Hout, not_elem_of_nil). apply rtc_refl.
    - etrans; [apply (account_ledger_run m id _ (Hm id)) |]. apply IH.
      + intros i Hi. destruct (decide (i = id)) as [-> | Hne]; [by rewrite lookup_partial_alter_eq |].
        rewrite lookup_partial_alter_ne by done. apply Hout. by rewrite not_elem_of_cons.
      + intros i. destruct (decide (i = id)) as [-> | Hne];
          [rewrite lookup_partial_alter_eq; apply rtc_refl | by rewrite lookup_partial_alter_ne]. }
  apply (Hmain ((map_to_list l).*1 ++ (map_to_list l').*1)); [| done].
  intros id Hid. rewrite not_elem_of_app in Hid. destruct Hid as [H1 H2].
  assert (forall m : Ledger, id ∉ (map_to_list m).*1 -> m !! id = None) as Hnone.
  { intros m Hm. destruct (m !! id) as [a |] eqn:E; [| done]. destruct Hm.
    apply list_elem_of_fmap. exists (id, a). by rewrite elem_of_map_to_list. }
  by rewrite !Hnone.
Qed.

(** ** The ledger of a world *)

Definition status_of (s : OpState) : status :=
  match s with
  | CONFIRMED => Settled
  | FAILED | REJECTED => Refused
  | _ => Open
  end.

(** The first of the operation's txids that succeeded on chain. *)
Definition paid_by (w : World) (id : Z) : option pystr :=
  head (filter (fun t => t ∈ successful_txids (w_node w)) (all_txids id (w_store w))).

Definition account_of (w : World) (id : Z) (op : Operation) : Account :=
  mkAccount (terms op) (paid_by w id) (status_of (op_state op)).

Definition ledger_of (w : World) : Ledger := map_imap (fun id op => Some (account_of w id op)) (ms_ops (w_store w)).

Lemma ledger_lookup (w : World) (id : Z) : ledger_of w !! id = account_of w id <$> rows w !! id.
Proof. unfold ledger_of. rewrite map_lookup_imap. by destruct (ms_ops (w_store w) !! id) eqn:E; unfold rows; rewrite E. Qed.

Lemma paid_by_Some (w : World) (id : Z) (t : pystr) :
  paid_by w id = Some t -> t ∈ all_txids id (w_store w) /\ t ∈ successful_txids (w_node w).
Proof.
  unfold paid_by. intros H. apply head_Some_elem_of in H. by apply list_elem_of_filter in H as [? ?].
Qed.

Lemma paid_by_None (w : World) (id : Z) (t : pystr) :
  paid_by w id = None -> t ∈ all_txids id (w_store w) -> t ∉ successful_txids (w_node w).
Proof.
  unfold paid_by. intros H Hin Hs. apply head_None in H.
  assert (t ∈ filter (fun t => t ∈ successful_txids (w_node w)) (all_txids id (w_store w))) as Hf
    by by apply list_elem_of_filter.
  rewrite H in Hf. by apply elem_of_nil in Hf.
Qed.

Lemma status_terminal (s : OpState) : status_of s <> Open -> s ∈ TERMINAL.
Proof. rewrite elem_of_TERMINAL. destruct s; simpl; tauto. Qed.

Section refinement.
Context (cfg : Config) (signer : MockSigner).

Lemma paid_by_unique (w : World) (id : Z) (t : pystr) :
  inv cfg signer w -> txids_separate w -> t ∈ all_txids id (w_store w) ->
  t ∈ successful_txids (w_node w) -> paid_by w id = Some t.
Proof.
  intros I Hsep Hin Hs. destruct (paid_by w id) as [t' |] eqn:E.
  - apply paid_by_Some in E as [Hin' Hs']. f_equal.
    apply (included_once cfg signer w id); eauto using successful_included.
  - by destruct (paid_by_None w id t E Hin).
Qed.

Lemma account_balanced (w : World) (id : Z) (op : Operation) :
  inv cfg signer w -> txids_separate w -> rows w !! id = Some op -> balanced (account_of w id op).
Proof.
  intros I Hsep Hop. unfold balanced, account_of. cbn [ac_status ac_paid].
  assert (op_state op = FAILED \/ op_state op = REJECTED -> paid_by w id = None) as Href.
  { intros Hst. destruct (paid_by w id) as [t |] eqn:E; [| done]. apply paid_by_Some in E as [Hin Hs].
    by destruct (refused_unpaid cfg signer w id op t I Hsep Hop Hst Hin). }
  destruct (op_state op) eqn:Es; cbn [status_of]; auto.
  destruct (confirmed_paid cfg signer w id op I Hop Es) as (t & _ & Hin & Hs).
  rewrite (paid_by_unique w id t); done.
Qed.

Lemma successful_stays (w w' : World) (t : pystr) :
  inv cfg signer w -> inv cfg signer w' -> mono w w' ->
  t ∈ successful_txids (w_node w) -> t ∈ successful_txids (w_node w').
Proof.
  intros I I' M. rewrite !elem_of_successful by (apply I || apply I').
  intros (rec & Hr & Hs). exists rec. split; [| done].
  eapply mono_included; [exact M | exact Hr | by apply is_success_included].
Qed.

Lemma account_later (w w' : World) (id : Z) (op op' : Operation) :
  inv cfg signer w -> inv cfg signer w' -> mono w w' -> txids_separate w -> txids_separate w' ->
  rows w !! id = Some op -> rows w' !! id = Some op' -> evolves op op' ->
  later (account_of w id op) (account_of w' id op').
Proof.
  intros I I' M Hsep Hsep' Hop Hop' (Ht & _ & Hfin).
  assert (forall t, paid_by w id = Some t -> paid_by w' id = Some t) as Hpaid.
  { intros t [Hin Hs]%paid_by_Some. apply paid_by_unique; try done.
    - exact (mono_hist _ _ M id t Hin).
    - exact (successful_stays w w' t I I' M Hs). }
  split_and!; [done | exact Hpaid |]. cbn [account_of ac_status]. intros Hst%status_terminal.
  destruct (Hfin Hst) as [Es _]. unfold account_of. rewrite Ht, Es. f_equal.
  pose proof (account_balanced w id op I Hsep Hop) as Hb.
  pose proof (account_balanced w' id op' I' Hsep' Hop') as Hb'.
  unfold balanced, account_of in Hb, Hb'. cbn [ac_status ac_paid] in Hb, Hb'. rewrite Es in Hb'.
  apply elem_of_TERMINAL in Hst as [E | [E | E]]; rewrite E in Hb, Hb'; cbn in Hb, Hb'; [| congruence..].
  destruct Hb as [t E']. by rewrite E', (Hpaid t E').
Qed.

Lemma world_refines (w w' : World) :
  inv cfg signer w -> inv cfg signer w' -> mono w w' -> txids_separate w -> txids_separate w' ->
  rtc ledger_step (ledger_of w) (ledger_of w').
Proof.
  intros I I' M Hsep Hsep'. apply ledger_run. intros id. rewrite !ledger_lookup.
  apply later_run.
  - intros a. destruct (rows w' !! id) as [op' |] eqn:E'; [| done]. intros [= <-].
    by apply account_balanced.
  - destruct (rows w !! id) as [op |] eqn:E; [| done].
    destruct (mono_rows _ _ M _ _ E) as (op' & E' & He & _). rewrite E'. by apply account_later.
Qed.

Lemma separate_before (w w' : World) : mono w w' -> txids_separate w' -> txids_separate w.
Proof. intros M Hsep X Y t HX HY. exact (Hsep X Y t (mono_hist _ _ M X t HX) (mono_hist _ _ M Y t HY)). Qed.

Lemma run_refines (s s' : System) :
  sys_inv cfg signer s -> rtc (sys_step cfg signer) s s' -> txids_separate (sys_world s') ->
  rtc ledger_step (ledger_of (sys_world s)) (ledger_of (sys_world s')) /\ txids_separate (sys_world s).
Proof.
  intros Hinv Hs Hsep. revert Hinv. induction Hs as [s | s s1 s' H1 Hs IH]; intros Hinv; [by split; [apply rtc_refl |] |].
  pose proof (sys_step_inv _ _ _ _ H1 Hinv) as Hinv1. destruct (IH Hsep Hinv1) as [Hr Hsep1].
  pose proof (sys_step_mono _ _ _ _ Hinv H1) as M. pose proof (separate_before _ _ M Hsep1) as Hsep0.
  split; [| done]. etrans; [| exact Hr]. apply world_refines; [apply Hinv | apply Hinv1 | done..].
Qed.

Lemma steps_mono (s s' : System) :
  sys_inv cfg signer s -> rtc (sys_step cfg signer) s s' ->
  mono (sys_world s) (sys_world s') /\ sys_inv cfg signer s'.
Proof.
  intros Hinv Hs. revert Hinv. induction Hs as [s | s s1 s' H1 Hs IH]; intros Hinv; [done |].
  destruct (IH (sys_step_inv _ _ _ _ H1 Hinv)) as [M Hinv']. split; [| done].
  etrans; [exact (sys_step_mono _ _ _ _ Hinv H1) | exact M].
Qed.

End refinement.

(** ** Properties *)

(** C9. Refinement: seen through the ledger, every timely run of any number of
    workers, crashes, faults, store failures, blocks and submissions in which
    no two operations share a txid is a run of the abstract
    specification, in which an account is paid at most once, only while open,
    and closes as settled exactly when it was paid; between any two moments of
    the run no terms change, no payment is lost or replaced and no closed
    account changes. *)
Theorem system_refines_ledger (cfg : Config) (signer node_signer : MockSigner) (now lag delay : Z)
    (s s' : System) :
  rtc (sys_step cfg signer) (initial now lag delay node_signer) s -> rtc (sys_step cfg signer) s s' ->
  txids_separate (sys_world s') ->
  rtc ledger_step ∅ (ledger_of (sys_world s)) /\
  rtc ledger_step (ledger_of (sys_world s)) (ledger_of (sys_world s')) /\
  (forall id a, ledger_of (sys_world s) !! id = Some a ->
     balanced a /\ exists a', ledger_of (sys_world s') !! id = Some a' /\ later a a').
Proof.
  intros H0 Hs Hsep. pose proof (reachable_inv _ _ _ _ _ _ _ H0) as Hinv.
  destruct (run_refines cfg signer s s' Hinv Hs Hsep) as [Hr Hsep0].
  destruct (run_refines cfg signer _ s (initial_inv _ _ false _ _ _ _) H0 Hsep0) as [Hr0 _].
  split_and!; [exact Hr0 | exact Hr |]. intros id a Ha. rewrite ledger_lookup in Ha.
  apply fmap_Some in Ha as (op & Hop & ->). split; [apply (account_balanced cfg signer); try done; apply Hinv |].
  destruct (steps_mono _ _ _ _ Hinv Hs) as [M Hinv'].
  destruct (mono_rows _ _ M _ _ Hop) as (op' & Hop' & He & _). exists (account_of (sys_world s') id op').
  rewrite ledger_lookup, Hop'. split; [done |].
  apply (account_later cfg signer); try done; [apply Hinv | apply Hinv'].
Qed.

Lemma system_refines_ledger_witness :
  rtc ledger_step ∅ (ledger_of (sys_world happy)) /\
  ac_status <$> ledger_of (sys_world happy) !! 1 = Some Settled.
Proof.
  split; [| vm_compute; reflexivity].
  apply (system_refines_ledger default_config default_signer default_signer t0 2 1 happy happy
           happy_reachable (rtc_refl _ _) happy_separate).
Defined.
