(* ===== verification/Evidence.v ===== *)
(** * What the event log proves

    The log is written for an auditor who sees nothing else.  [Discipline] says
    what a worker can write; here that becomes a statement about the log of
    every reachable system: each event is an intake, or it follows the
    transition table, and an event that sends a signed operation back to
    [SIGNING] carries the evidence that its envelope is dead. *)
From Stdlib Require Import ZArith Lia.
From stdpp Require Import base option strings gmap relations list.
From S2P Require Import Prelude Text Json Datetime States Wire Model Store Node Effects Pipeline Worker Discipline System Invariant Safety Payments.

Local Open Scope Z_scope.

Section audit.
Context (cfg : Config) (signer : MockSigner).

(** An event a disciplined process leaves. *)
Definition auditable (e : Event) : Prop :=
  match ev_from_state e with
  | None => ev_to_state e = REQUESTED /\ ev_worker_id e = None
  | Some from_state =>
      can_transition from_state (ev_to_state e) = true /\
      accounted (cfg_expiration_safety cfg) from_state (ev_to_state e) (ev_detail e)
  end.

Definition audited (s : System) : Prop := Forall auditable (ms_events (w_store (sys_world s))).

Lemma exec_auditable {X : Type} (c : call X) (w : World) :
  disciplined cfg X c -> Forall auditable (ms_events (w_store w)) ->
  Forall auditable (ms_events (w_store (snd (exec c w)))).
Proof.
  intros Hc Hlog. destruct c; cbn [exec]; try done.
  - destruct Hc as (_ & _ & _ & Ht & Ha). unfold cas.
    destruct (negb _); [done |]. destruct (negb _); [done |].
    destruct (ms_ops _ !! _) as [op |]; [| done]. destruct (negb _ || _); [done |].
    destruct (bool_decide _); [done |]. destruct (renewed_lease _ _); [| done]. cbn. apply Forall_app. split; [done |].
    apply Forall_singleton. done.
  - pose proof (claim_store wanted limit worker_id lease now (w_store w)) as H.
    destruct (claim _ _ _ _ _ _) as [out st]. cbn [snd] in *. cbn. by rewrite H.
  - pose proof (release_store (w_now w) id token (w_store w)) as H. cbn. by rewrite H.
  - by destruct (find_tx _ _ _).
  - by destruct (broadcast _ _ _ _).
  - by destruct (here _ _).
Qed.

Lemma insert_auditable (now id : Z) (request_hash : bytes) (to_address asset : pystr) (amount_units : Z)
    (st : MemoryStore) :
  Forall auditable (ms_events st) ->
  Forall auditable (ms_events (snd (insert_new now
    (new_operation id request_hash REQUESTED to_address asset amount_units) st))).
Proof.
  intros Hlog. unfold insert_new. destruct (ms_ops st !! _); [done |].
  cbn. apply Forall_app. split; [done | by apply Forall_singleton].
Qed.

Lemma sys_step_audited (s s' : System) :
  sys_inv cfg signer s -> sys_step cfg signer s s' -> audited s -> audited s'.
Proof.
  intros Hinv [e _ Hf] Hlog.
  assert (forall i th (X : Type) (c : call X) k, sys_threads s !! i = Some th -> th_prog th = Vis c k ->
    Forall auditable (ms_events (w_store (snd (exec c (sys_world s)))))) as Hexec.
  { intros i th X c k Hth Ep. pose proof (ri_calls _ _ _ _ Hinv i th Hth) as Hc. rewrite Ep in Hc.
    by apply exec_auditable; [apply Hc |]. }
  destruct e as [d | | channel faults | point times | id hash to asset amount | worker passes | i | i applied];
    simpl in Hf; try (injection Hf as <-; done).
  - destruct (0 <=? d); [| done]. injection Hf as <-. done.
  - destruct (produce_block _ _); [| done]. injection Hf as <-. done.
  - injection Hf as <-. by apply insert_auditable.
  - destruct (sys_threads s !! i) as [th |] eqn:E; [| done]. unfold run_thread in Hf.
    destruct (th_prog th) as [r | X c k] eqn:Ep; [by injection Hf as <- |].
    specialize (Hexec i th X c k E Ep). destruct (exec c (sys_world s)) as [r w']. by injection Hf as <-.
  - destruct (sys_threads s !! i) as [th |] eqn:E; [| done]. unfold fail_thread in Hf.
    destruct (th_prog th) as [r | X c k] eqn:Ep; [by injection Hf as <- |].
    specialize (Hexec i th X c k E Ep). destruct (store_call c), applied; by injection Hf as <-.
Qed.

Lemma reachable_audited (now lag delay : Z) (node_signer : MockSigner) (s : System) :
  rtc (sys_step cfg signer) (initial now lag delay node_signer) s -> audited s.
Proof.
  intros H. pose proof (initial_inv cfg signer false now lag delay node_signer) as Hi.
  assert (audited (initial now lag delay node_signer)) as Ha by constructor.
  revert Hi Ha. induction H as [| s0 s1 s2 H1 _ IH]; intros Hi Ha; [done |].
  apply IH; [by eapply sys_step_inv | by eapply sys_step_audited].
Qed.

End audit.

(** ** Properties *)

(** C10. The audit trail explains every retired transaction: in every system
    that a timely schedule reaches, an event with [retired_txid] is exactly one that takes a signed
    operation back to [SIGNING], and it carries its [expiry_evidence].  From
    [SIGNED] that is the local expiry check of an envelope never sent; from
    [BROADCASTING] or [BROADCAST] it names a solid chain time that is past the
    envelope's expiration by at least the safety margin, and a lookup that
    did not find it. *)
Theorem rebuilds_carry_evidence (cfg : Config) (signer node_signer : MockSigner) (now lag delay : Z)
    (s : System) (e : Event) (from_state : OpState) :
  rtc (sys_step cfg signer) (initial now lag delay node_signer) s ->
  e ∈ ms_events (w_store (sys_world s)) -> ev_from_state e = Some from_state ->
  (is_Some (assoc (str "retired_txid") (ev_detail e)) <->
   from_state ∈ [SIGNED; BROADCASTING; BROADCAST] /\ ev_to_state e = SIGNING) /\
  (is_Some (assoc (str "retired_txid") (ev_detail e)) -> exists evidence,
   assoc (str "expiry_evidence") (ev_detail e) = Some (JObj evidence) /\
   ((from_state = SIGNED /\
     assoc (str "rule") evidence = Some (JStr (str "never-broadcast envelope; local expiry check"))) \/
    (from_state ∈ [BROADCASTING; BROADCAST] /\
     assoc (str "node_lookup") evidence = Some (JStr (str "unknown")) /\
     exists solid_time expiration,
       assoc (str "solid_chain_time") evidence = Some (JStr (isoformat solid_time)) /\
       assoc (str "tx_expiration") evidence = Some (JStr (isoformat expiration)) /\
       expiration + cfg_expiration_safety cfg <= solid_time))).
Proof.
  intros Hs He Hf. pose proof (reachable_audited _ _ _ _ _ _ _ Hs) as Hlog.
  pose proof (proj1 (Forall_forall _ _) Hlog e He) as Ha. unfold auditable in Ha. rewrite Hf in Ha.
  destruct Ha as [_ Ha]. unfold accounted in Ha. case_bool_decide as Hb.
  - destruct Ha as [Hr (ev & Hev & Hfor)]. split; [done |]. intros _. by exists ev.
  - split; [| intros [v Hv]; congruence]. split; [intros [v Hv]; congruence | by intros H].
Qed.

(** A worker dies after its write-ahead; much later another one finds the
    envelope dead and builds a new one. *)
Definition rebuilt_path : list event :=
  [ESubmit 1 [] dest (str "USDT-TRC20") 1500000; ESpawn (str "A") 1] ++ runs 0 12 ++
  [EAdvance (seconds 200); EBlock; EBlock; EBlock; EBlock; ESpawn (str "B") 1] ++ runs 1 40.

Definition rebuilt : System := play rebuilt_path.

Lemma rebuilt_reachable : rtc (sys_step default_config default_signer) genesis rebuilt.
Proof. apply play_reachable; vm_compute; reflexivity. Qed.

Definition rebuild_event : Event :=
  default (mkEvent 0 None REQUESTED None 0 [] 0 0)
    (head (filter (fun e => bool_decide (is_Some (assoc (str "retired_txid") (ev_detail e))) = true)
      (ms_events (w_store (sys_world rebuilt))))).

Lemma rebuilds_carry_evidence_witness : exists evidence solid_time expiration,
  assoc (str "expiry_evidence") (ev_detail rebuild_event) = Some (JObj evidence) /\
  assoc (str "solid_chain_time") evidence = Some (JStr (isoformat solid_time)) /\
  assoc (str "tx_expiration") evidence = Some (JStr (isoformat expiration)) /\
  expiration + seconds 30 <= solid_time.
Proof.
  destruct (rebuilds_carry_evidence default_config default_signer default_signer t0 2 1 rebuilt
    rebuild_event BROADCASTING) as [_ H].
  - apply rebuilt_reachable.
  - apply (bool_decide_unpack _). vm_compute. exact I.
  - vm_compute. reflexivity.
  - destruct H as (ev & Hev & [[H _] | (_ & _ & t & x & H1 & H2 & H3)]);
      [vm_compute; by eexists | discriminate H |].
    exists ev, t, x. exact (conj Hev (conj H1 (conj H2 H3))).
Defined.
