(* ===== verification/Resilience.v ===== *)
(** * Failing stores and failing handlers

    What the [except] branches of [sluice/worker.py] amount to.  [System] lets
    any call to the store raise, before it did anything or after its effect is
    committed, and the safety theorems hold in those runs too.  Here: no
    failure but a crash ends a worker; as long as the store works, dates stay in
    range and no worker stalls for the safety margin, handlers running
    concurrently raise nothing that reaches the [except Exception] branch, so no
    worker is ever about to write its note and no row gets it; and while the
    store is down a pass gives up at the first operation of its batch. *)
From Stdlib Require Import ZArith Lia.
From stdpp Require Import base option strings gmap relations list.
From S2P Require Import Prelude Text Json Datetime States Wire Model Store Node Effects Pipeline Worker Discipline Sequential System Invariant Safety Handlers Payments.

Local Open Scope Z_scope.

(** ** The note of a handler that went wrong *)

(** No row carries it. *)
Definition unmarked (st : MemoryStore) : Prop :=
  forall id op, ms_ops st !! id = Some op -> op_last_error op <> Some misfire.

Lemma setattrs_unmarked (op : Operation) (sets : list FieldSet) :
  Set_last_error (Some misfire) ∉ sets -> op_last_error op <> Some misfire ->
  op_last_error (setattrs op sets) <> Some misfire.
Proof.
  unfold setattrs. revert op. induction sets as [|f sets IH]; intros op Hn Hop; [done |].
  apply not_elem_of_cons in Hn as [Hf Hn]. cbn [foldl]. apply IH; [done |].
  destruct f; simpl; try done. congruence.
Qed.

Lemma cas_row_unmarked (now : Z) (to_state : OpState) (sets : list FieldSet) (renew : option Z) (op : Operation) :
  Set_last_error (Some misfire) ∉ sets -> op_last_error op <> Some misfire ->
  op_last_error (cas_row now to_state sets renew op) <> Some misfire.
Proof.
  intros Hn Hop. pose proof (setattrs_unmarked op sets Hn Hop) as H. revert H.
  unfold cas_row. destruct renew; case_bool_decide; done.
Qed.

Lemma insert_unmarked (id : Z) (row : Operation) (st st' : MemoryStore) :
  ms_ops st' = <[id := row]> (ms_ops st) -> op_last_error row <> Some misfire -> unmarked st -> unmarked st'.
Proof.
  intros E Hr Ho i op. rewrite E. intros [[_ <-] | [_ H]]%lookup_insert_Some; [done | by eapply Ho].
Qed.

Lemma exec_unmarked {X : Type} (c : call X) (w : World) :
  store_wf (w_store w) -> sober c -> unmarked (w_store w) -> unmarked (w_store (snd (exec c w))).
Proof.
  intros Hwf Hs Hu. destruct c; cbn [exec]; try done.
  - pose proof (cas_cases (w_now w) id token from_state to_state sets detail renew worker_id (w_store w)) as H.
    destruct (cas _ _ _ _ _ _ _ _ _ _) as [r st]. cbn [snd].
    destruct H as [(-> & _) | (op & Hop & _ & _ & _ & _ & H)]; [done |].
    destruct H as [(_ & _ & ->) | (lease & _ & _ & _ & ->)]; (eapply insert_unmarked; [reflexivity | | exact Hu]).
    + apply cas_row_unmarked; [done | by eapply Hu].
    + by apply setattrs_unmarked; [| eapply Hu].
  - intros i op. pose proof (claim_row wanted limit worker_id lease now (w_store w) i Hwf) as H.
    destruct (claim _ _ _ _ _ _) as [r0 st]. cbn [snd] in *. cbn. intros Hop.
    destruct H as [E | (op0 & H0 & _ & _ & [(out & _ & E & _) | (_ & _ & E)])]; [eapply Hu; by rewrite <- E | |].
    + assert (op = take_claim now lease worker_id op0) as -> by congruence. exact (Hu _ _ H0).
    + assert (op = set_claimed_by (Some worker_id) op0) as -> by congruence. exact (Hu _ _ H0).
  - cbn [snd with_store w_store]. unfold release. destruct (ms_ops _ !! id) as [op |] eqn:E; [| done].
    destruct (negb _); [done |]. eapply insert_unmarked; [reflexivity | exact (Hu _ _ E) | exact Hu].
  - by destruct (find_tx _ _ _).
  - by destruct (broadcast _ _ _ _).
  - by destruct (here _ _).
Qed.

(** ** Runs in which the store works *)

Section strict.
Context (cfg : Config) (signer : MockSigner).

Lemma fire_now (e : event) (s s' : System) :
  fire cfg signer e s = Some s' -> w_now (sys_world s) <= w_now (sys_world s').
Proof.
  intros Hf. destruct e as [d | | channel faults | point times | id hash to asset amount | worker passes | i | i applied];
    simpl in Hf; try (injection Hf as <-; done).
  - destruct (Z.leb_spec 0 d); [| done]. injection Hf as <-. simpl. lia.
  - destruct (produce_block _ _); [| done]. by injection Hf as <-.
  - destruct (sys_threads s !! i) as [th |]; [| done]. unfold run_thread in Hf.
    destruct (th_prog th) as [r | X c k]; [by injection Hf as <- |].
    pose proof (exec_now c (sys_world s)) as H. destruct (exec c _) as [r w']. injection Hf as <-. simpl in *. lia.
  - destruct (sys_threads s !! i) as [th |]; [| done]. unfold fail_thread in Hf.
    destruct (th_prog th) as [r | X c k]; [by injection Hf as <- |].
    pose proof (exec_now c (sys_world s)) as H. destruct (store_call c), applied; injection Hf as <-; simpl in *; lia.
Qed.

Lemma fire_all_now (es : list event) (s s' : System) :
  fire_all cfg signer es s = Some s' -> w_now (sys_world s) <= w_now (sys_world s').
Proof.
  revert s. induction es as [|e es IH]; intros s Hf; simpl in Hf; [by injection Hf as -> |].
  destruct (fire cfg signer e s) as [s1 |] eqn:E; [| done].
  pose proof (fire_now e s s1 E). specialize (IH s1 Hf). lia.
Qed.

Lemma fire_unmarked (e : event) (s s' : System) :
  run_inv cfg signer true s -> timely cfg e s = true -> store_fails e = false -> in_range cfg (sys_world s) ->
  fire cfg signer e s = Some s' -> unmarked (w_store (sys_world s)) -> unmarked (w_store (sys_world s')).
Proof.
  intros Hinv Ht He Hr Hf Hu.
  destruct e as [d | | channel faults | point times | id hash to asset amount | worker passes | i | i applied];
    simpl in Hf; try (injection Hf as <-; done); [| | | | done].
  - destruct (0 <=? d); [| done]. by injection Hf as <-.
  - destruct (produce_block _ _); [| done]. by injection Hf as <-.
  - injection Hf as <-. simpl. unfold insert_new. destruct (ms_ops _ !! _); [done |].
    by eapply insert_unmarked.
  - simpl in Ht. destruct (sys_threads s !! i) as [th |] eqn:E; [| done]. unfold run_thread in Hf.
    pose proof (ri_safe _ _ _ _ Hinv i th E) as Hsafe.
    destruct (th_prog th) as [r | X c k] eqn:Ep; [by injection Hf as <- |].
    specialize (Hsafe (sys_world s) ltac:(done)
      (thread_ready cfg signer true s i th c k Hinv E Ep Ht (fun _ => Hr))).
    pose proof (exec_unmarked c (sys_world s) (inv_store _ _ _ (ri_inv _ _ _ _ Hinv))) as H.
    destruct (exec c (sys_world s)) as [r w']. destruct Hsafe as (_ & _ & Hs & _).
    injection Hf as <-. apply H; [by apply Hs | done].
Qed.

(** The dates a worker computes at [t] do not precede the calendar; they do not
    leave it. *)
Definition dates_from (t : Z) : Prop := representable (t + cfg_tx_ttl cfg) /\ representable (t + cfg_lease cfg).

Definition dates_until (t : Z) : Prop :=
  representable (t + cfg_tx_ttl cfg + cfg_expiration_safety cfg) /\ representable (t + cfg_lease cfg).

Lemma run_unmarked (es : list event) (s s' : System) :
  run_inv cfg signer true s -> unmarked (w_store (sys_world s)) ->
  fire_all cfg signer es s = Some s' -> timely_all cfg signer es s = true ->
  forallb (fun e => negb (store_fails e)) es = true -> 0 <= cfg_expiration_safety cfg ->
  dates_from (w_now (sys_world s)) -> dates_until (w_now (sys_world s')) ->
  run_inv cfg signer true s' /\ unmarked (w_store (sys_world s')).
Proof.
  unfold dates_from, dates_until.
  revert s. induction es as [|e es IH]; intros s Hinv Hu Hf Ht He Hs Hmin Hmax; simpl in Hf, Ht, He;
    [by injection Hf as <- |].
  apply andb_true_iff in Ht as [Ht Hts]. apply andb_true_iff in He as [He%negb_true_iff Hes].
  pose proof (fire_now e s) as Hn. destruct (fire cfg signer e s) as [s1 |] eqn:E; [| done].
  specialize (Hn s1 eq_refl). pose proof (fire_all_now es s1 s' Hf) as Hn1.
  unfold representable in Hmin, Hmax.
  assert (in_range cfg (sys_world s)) as Hr by (unfold in_range, representable; lia).
  destruct (fire_inv cfg signer true e s s1 Hinv Ht (fun _ => conj He Hr) E) as [Hinv1 _].
  apply (IH s1); [done | by eapply (fire_unmarked e s) | done.. | |]; unfold representable; lia.
Qed.

(** The next call of a thread leaves no note. *)
Lemma next_sober (s : System) (i : nat) (th : Thread) (id token : Z) (from_state to_state : OpState)
    (sets : list FieldSet) (detail : list (pystr * jval)) (renew : option Z) (w : option pystr)
    (k : result exn (option Operation) -> prog unit) :
  run_inv cfg signer true s -> in_range cfg (sys_world s) -> sys_threads s !! i = Some th ->
  th_prog th = Vis (CCas id token from_state to_state sets detail renew w) k ->
  Set_last_error (Some misfire) ∉ sets.
Proof.
  intros Hinv Hr Hth Ep. pose proof (ri_safe _ _ _ _ Hinv i th Hth) as Hsafe.
  pose proof (thread_ready cfg signer true s i th _ k Hinv Hth Ep eq_refl (fun _ => Hr)) as Hready.
  rewrite Ep in Hsafe. specialize (Hsafe (sys_world s) ltac:(done) Hready).
  destruct (exec _ (sys_world s)) as [r w']. destruct Hsafe as (_ & _ & Hs & _). by apply Hs.
Qed.

End strict.

(** ** A pass while the store is down *)

(** [run] with every call to the store raising before it does anything. *)
Fixpoint run_down {A : Type} (p : prog A) (w : World) : result exn A * World :=
  match p with
  | Done r => (r, w)
  | Vis c k =>
      if store_call c then run_down (k (Err StoreFailure)) w
      else let '(r, w') := exec c w in run_down (k r) w'
  end.

Lemma run_down_bind {A B : Type} (p : prog A) (f : A -> prog B) (w : World) :
  run_down (bind p f) w =
  match run_down p w with
  | (Ok a, w') => run_down (f a) w'
  | (Err e, w') => (Err e, w')
  end.
Proof.
  revert w. induction p as [[a | e] | X c k IH]; intros w; simpl; try done.
  destruct (store_call c); [apply IH |]. destruct (exec c w) as [r w']. apply IH.
Qed.

(** The world a thread leaves behind is one the system reaches by [EFail] steps
    for the store's calls and ordinary steps for the others. *)
Lemma run_down_fires (cfg : Config) (signer : MockSigner) (p : prog unit) (i : nat) (own : list (Z * Z))
    (lk : Z) (s : System) :
  sys_threads s !! i = Some (mkThread p own lk) ->
  let '(r, w') := run_down p (sys_world s) in
  exists es own' lk', fire_all cfg signer es s =
    Some (mkSystem w' (<[i := mkThread (Done r) own' lk']> (sys_threads s))).
Proof.
  revert own lk s. induction p as [r | X c k IH]; intros own lk s Hth; cbn [run_down].
  { exists [], own, lk. rewrite list_insert_id by done. by destruct s. }
  pose proof (lookup_lt_Some _ _ _ Hth) as Hlt.
  destruct (store_call c) eqn:Ec.
  - specialize (IH (Err StoreFailure) own lk
      (mkSystem (sys_world s) (<[i := mkThread (k (Err StoreFailure)) own lk]> (sys_threads s)))
      ltac:(by apply list_lookup_insert_eq)).
    cbn [sys_world sys_threads] in IH. destruct (run_down _ _) as [r w']. destruct IH as (es & own' & lk' & E).
    exists (EFail i false :: es), own', lk'. cbn [fire_all fire]. rewrite Hth. unfold fail_thread. cbn [th_prog].
    rewrite Ec. cbn [th_own th_lookup]. by rewrite E, list_insert_insert_eq.
  - destruct (exec c (sys_world s)) as [r0 w0] eqn:Ex.
    specialize (IH r0 (own ++ claims_of c r0) (lookup_of c (sys_world s) lk)
      (mkSystem w0 (<[i := mkThread (k r0) (own ++ claims_of c r0) (lookup_of c (sys_world s) lk)]> (sys_threads s)))
      ltac:(by apply list_lookup_insert_eq)).
    cbn [sys_world sys_threads] in IH. destruct (run_down _ _) as [r w']. destruct IH as (es & own' & lk' & E).
    exists (ERun i :: es), own', lk'. cbn [fire_all fire]. rewrite Hth. unfold run_thread. cbn [th_prog].
    rewrite Ex. cbn [th_own th_lookup]. by rewrite E, list_insert_insert_eq.
Qed.

Lemma run_down_store {A : Type} (p : prog A) (w : World) : w_store (snd (run_down p w)) = w_store w.
Proof.
  revert w. induction p as [r | X c k IH]; intros w; cbn [run_down]; [done |].
  destruct (store_call c) eqn:Ec; [apply IH |].
  assert (w_store (snd (exec c w)) = w_store w) as E.
  { destruct c; try done; cbn [exec]; repeat match goal with
    | |- context [let '(_, _) := ?p in _] => destruct p end; done. }
  destruct (exec c w) as [r w']. cbn [snd] in E. by rewrite IH, E.
Qed.

(** What [p] can end with while the store is down, whatever the other calls
    answer. *)
Fixpoint down {A : Type} (p : prog A) (Q : result exn A -> Prop) : Prop :=
  match p with
  | Done r => Q r
  | Vis c k =>
      if store_call c then down (k (Err StoreFailure)) Q
      else forall r, r <> Err LostClaim -> down (k r) Q
  end.

(** Only the store's calls lose a claim. *)
Lemma quiet_not_lost {X : Type} (c : call X) (w : World) :
  store_call c = false -> fst (exec c w) <> Err LostClaim.
Proof.
  intros Hc. assert (quiet c) as Hq by (unfold quiet; by rewrite Hc).
  pose proof (quiet_exec c (with_crash no_crash w) Hq eq_refl) as H.
  destruct c; try done; [| | | | cbn [exec]; unfold here; by destruct (0 <? _)];
    cbn [exec w_now w_node with_crash] in *;
    repeat match goal with |- context [let '(_, _) := ?p in _] => destruct p as [? ?] end; cbn [fst] in *;
    intros E; rewrite E in H; by destruct H as (_ & _ & _ & H).
Qed.

Lemma down_run {A : Type} (p : prog A) (Q : result exn A -> Prop) (w : World) :
  down p Q -> Q (fst (run_down p w)).
Proof.
  revert w. induction p as [r | X c k IH]; intros w; cbn [down run_down]; [done |].
  destruct (store_call c) eqn:Ec; [apply IH |]. intros H.
  pose proof (quiet_not_lost c w Ec) as Hr.
  destruct (exec c w) as [r w']. apply IH, H, Hr.
Qed.

Lemma down_weaken {A : Type} (p : prog A) (Q Q' : result exn A -> Prop) :
  (forall r, Q r -> Q' r) -> down p Q -> down p Q'.
Proof.
  intros HQ. induction p as [r | X c k IH]; cbn [down]; [apply HQ |].
  destruct (store_call c); [apply IH |]. intros H r Hr. by apply IH, H.
Qed.

Lemma down_bind {A B : Type} (p : prog A) (f : A -> prog B) (Q : result exn B -> Prop) :
  down p (fun r => match r with Ok a => down (f a) Q | Err e => Q (Err e) end) -> down (bind p f) Q.
Proof.
  induction p as [[a | e] | X c k IH]; cbn [down bind]; try done.
  destruct (store_call c); [apply IH |]. intros H r Hr. by apply IH, H.
Qed.

Lemma down_attempt {A : Type} (p : prog A) (Q : result exn (result exn A) -> Prop) :
  down p (fun r => Q (Ok r)) -> down (attempt p) Q.
Proof.
  induction p as [r | X c k IH]; cbn [down attempt]; [done |].
  destruct (store_call c); [apply IH |]. intros H r Hr. by apply IH, H.
Qed.

Section down.
Context (cfg : Config) (signer : MockSigner) (worker_id : pystr).

(** A handler parks, or something other than a lost claim goes wrong. *)
Definition stuck (op : Operation) (r : result exn Operation) : Prop :=
  match r with
  | Ok op' => op' = op /\ (op_state op ∉ TERMINAL)
  | Err e => e <> LostClaim
  end.

Lemma down_call {X B : Type} (c : call X) (f : X -> prog B) (Q : result exn B -> Prop) :
  store_call c = false -> (forall x, down (f x) Q) -> (forall e, e <> LostClaim -> Q (Err e)) ->
  down (bind (perform c) f) Q.
Proof.
  intros Hc Hf He. apply down_bind. cbn [down perform]. rewrite Hc. intros [x | e] Hr; [apply Hf |].
  apply He. congruence.
Qed.

Lemma down_timeout {X : Type} (c : call X) (op op0 : Operation) (k : X -> prog Operation) :
  store_call c = false -> stuck op (Ok op0) -> (forall x, down (k x) (stuck op)) ->
  down (or_timeout c op0 k) (stuck op).
Proof.
  intros Hc Hop Hk. apply down_bind, down_attempt. cbn [down perform]. rewrite Hc.
  intros [x | e] Hr; [apply Hk |]. destruct e; done || congruence.
Qed.

Lemma down_lift {A B : Type} (r : result exn A) (f : A -> prog B) (Q : result exn B -> Prop) :
  (forall a, r = Ok a -> down (f a) Q) -> (forall e, r = Err e -> Q (Err e)) -> down (bind (lift r) f) Q.
Proof. intros Hok He. destruct r as [a | e]; [by apply Hok | by apply He]. Qed.

(** A parsing error is not a lost claim. *)
Lemma get_item_not_lost (k : pystr) (d : jval) : get_item k d <> Err LostClaim.
Proof. unfold get_item. destruct d; try done. by destruct (assoc _ _). Qed.

Lemma get_str_not_lost (k : pystr) (d : jval) : get_str k d <> Err LostClaim.
Proof.
  unfold get_str. pose proof (get_item_not_lost k d) as H. destruct (get_item k d) as [[] | e]; congruence.
Qed.

Lemma from_json_not_lost (d : option jval) (e : exn) : from_json d = Err e -> e <> LostClaim.
Proof.
  intros H ->. revert H. unfold from_json. destruct d as [d |]; [| done].
  pose proof (get_item_not_lost (str "raw_data") d). pose proof (fun k => get_str_not_lost k d) as Hs.
  destruct (get_item _ _) as [raw_data | e]; cbn; [| congruence].
  pose proof (Hs (str "txid")). destruct (get_str (str "txid") d) as [txid | e]; cbn; [| congruence].
  pose proof (Hs (str "expiration")). destruct (get_str (str "expiration") d) as [iso | e]; cbn; [| congruence].
  destruct (fromisoformat iso); cbn; [| done].
  pose proof (Hs (str "signature")). destruct (get_str (str "signature") d) as [s | e]; cbn; congruence.
Qed.

Lemma down_settle (op : Operation) (s : SignedTx) (res : BroadcastResult) :
  (op_state op ∉ TERMINAL) -> down (_settle_broadcast_result cfg op worker_id s res) (stuck op).
Proof.
  intros Hl. unfold _settle_broadcast_result.
  case_bool_decide; [by apply down_call |]. repeat (case_bool_decide; [done |]). done.
Qed.

Lemma down_death (s : SignedTx) (f : bool * list (pystr * jval) -> prog Operation) (op : Operation) :
  (forall d, down (f d) (stuck op)) -> down (bind (_proof_of_death cfg s) f) (stuck op).
Proof.
  intros Hf. unfold _proof_of_death. apply down_bind, down_call; [done | | done]. intros t.
  apply down_lift; unfold plus_timedelta; [| by intros e; destruct (decide _); [| intros [= <-]]].
  intros deadline _. apply down_call; [done | intros b; apply Hf | done].
Qed.

Lemma down_step (op : Operation) : down (step cfg signer op worker_id) (stuck op).
Proof.
  assert (forall st, op_state op = st -> rank st <> 0%nat -> op_state op ∉ TERMINAL) as Hlive by (intros; by eapply live_state).
  unfold step. destruct (op_state op) eqn:Hs; try done; specialize (Hlive _ eq_refl).
  - unfold _validate. by repeat destruct (negb _).
  - unfold _build_and_sign. by rewrite bool_decide_eq_true_2.
  - unfold _build_and_sign. rewrite bool_decide_eq_false_2 by (by rewrite Hs). unfold build_envelope.
    destruct (_ <=? _); [done |]. apply down_call; [done | intros ref | done]. apply down_call; [done | intros now | done].
    apply down_lift; unfold plus_timedelta; [done | by intros e; destruct (decide _); [| intros [= <-]]].
  - unfold _broadcast. apply down_lift; [intros s _ | by intros e; apply from_json_not_lost].
    apply down_call; [done | intros now | done]. by destruct (_ <=? _).
  - unfold _reconcile_broadcast. apply down_lift; [intros s _ | by intros e; apply from_json_not_lost].
    apply down_timeout; [done | split; [done | rewrite Hs; by apply Hlive] | intros st]. case_bool_decide.
    + unfold broadcast_at_or_now. destruct (op_broadcast_at op); [done |]. by apply down_call.
    + apply down_death. intros d. destruct (negb _); [| done].
      apply down_timeout; [done | split; [done | rewrite Hs; by apply Hlive] | intros res].
      apply down_settle. rewrite Hs. by apply Hlive.
  - unfold _await_confirmation. apply down_lift; [intros s _ | by intros e; apply from_json_not_lost].
    assert (stuck op (Ok op)) as Hpark by (split; [done | rewrite Hs; by apply Hlive]).
    apply down_timeout; [done | exact Hpark | intros st]. destruct (st_result st); [| exact Hpark |].
    + apply down_death. intros d. by destruct (fst d).
    + destruct (negb _); [exact Hpark |]. apply down_call; [done | intros _ | done].
      case_bool_decide; [by apply down_call | done].
Qed.

(** The exceptions that leave [_drive]. *)
Definition gave_up {A : Type} (r : result exn A) : Prop :=
  r = Err StoreFailure \/ exists point, r = Err (SimulatedCrash point).

Lemma down_drive (op : Operation) : down (_drive cfg signer op worker_id) gave_up.
Proof.
  unfold _drive, MAX_STEPS_PER_CLAIM. cbn [drive_loop]. apply down_bind, down_attempt.
  eapply down_weaken; [| apply down_step]. intros [op' | e] Hst.
  - destruct Hst as [-> Hl]. rewrite bool_decide_eq_false_2 by done. rewrite bool_decide_eq_true_2 by done.
    cbn. by left.
  - destruct e; try done; (by left) || (right; by eexists).
Qed.

End down.

(** ** Properties *)

(** C12. Handlers do not misfire.  Take any schedule of any number of workers,
    zombies, crashes and node faults in which the store does not fail, no worker
    stalls for the safety margin between a lookup and the death proof, and the
    envelope lifetimes, safety margins and leases that workers compute end
    within the calendar.  Then at no point of it is a worker about to run the
    [except Exception] branch of [_drive]: no write that is the next call of a
    worker carries the note of that branch, so no handler raised anything but a
    lost claim or a crash; and no row carries the note. *)
Theorem no_handler_misfires (cfg : Config) (signer node_signer : MockSigner) (now lag delay : Z)
    (es : list event) (s : System) :
  let s0 := initial now lag delay node_signer in
  fire_all cfg signer es s0 = Some s -> timely_all cfg signer es s0 = true ->
  forallb (fun e => negb (store_fails e)) es = true -> 0 <= cfg_expiration_safety cfg ->
  representable (now + cfg_tx_ttl cfg) -> representable (now + cfg_lease cfg) ->
  representable (w_now (sys_world s) + cfg_tx_ttl cfg + cfg_expiration_safety cfg) ->
  representable (w_now (sys_world s) + cfg_lease cfg) ->
  (forall i th id token from_state to_state sets detail renew worker_id k,
     sys_threads s !! i = Some th ->
     th_prog th = Vis (CCas id token from_state to_state sets detail renew worker_id) k ->
     Set_last_error (Some (str "handler exception (see logs)")) ∉ sets) /\
  (forall id op, get id (w_store (sys_world s)) = Some op ->
     op_last_error op <> Some (str "handler exception (see logs)")).
Proof.
  intros s0 Hf Ht He Hs Hmin Hminl Hmax Hmaxl.
  destruct (run_unmarked cfg signer es s0 s (initial_inv _ _ _ _ _ _ _)) as [Hinv Hu]; try done.
  assert (in_range cfg (sys_world s)) as Hr.
  { pose proof (fire_all_now cfg signer es s0 s Hf) as Hn. cbn in Hn.
    unfold in_range, representable in *. lia. }
  split; [| exact Hu]. intros i th id token f t sets d r w k. by eapply next_sober.
Qed.

Lemma no_handler_misfires_witness :
  op_last_error <$> get 1 (w_store (sys_world reverted)) <>
  Some (Some (str "handler exception (see logs)")).
Proof.
  destruct (get 1 (w_store (sys_world reverted))) as [op |] eqn:E; [| discriminate].
  intros [= H]. revert H.
  refine (proj2 (no_handler_misfires default_config default_signer default_signer t0 2 1 reverted_path reverted
    _ _ _ _ _ _ _ _) 1 op E).
  - apply play_fire. vm_compute. reflexivity.
  - vm_compute. reflexivity.
  - vm_compute. reflexivity.
  - vm_compute. discriminate.
  - apply (bool_decide_unpack _). vm_compute. exact I.
  - apply (bool_decide_unpack _). vm_compute. exact I.
  - apply (bool_decide_unpack _). vm_compute. exact I.
  - apply (bool_decide_unpack _). vm_compute. exact I.
Defined.

(** One write that fails is enough for the note. *)
Definition marked_path : list event :=
  [ESubmit 1 [] dest (str "USDT-TRC20") 1500000; ESpawn (str "A") 1] ++ runs 0 2 ++ [EFail 0 false] ++ runs 0 2.

Example one_failure_marks :
  op_last_error <$> get 1 (w_store (sys_world (play marked_path))) =
  Some (Some (str "handler exception (see logs)")).
Proof. vm_compute. reflexivity. Qed.

(** C13. Nothing but a crash ends a worker: in every system that a timely
    schedule reaches, store failures included, a worker that is no longer running has made all the passes it was
    started for, or died of a [SimulatedCrash]; no exception of a handler, of
    the node or of the store stops [run_forever]. *)
Theorem only_crashes_end_workers (cfg : Config) (signer node_signer : MockSigner) (now lag delay : Z)
    (s : System) (i : nat) (th : Thread) (r : result exn unit) :
  rtc (sys_step cfg signer) (initial now lag delay node_signer) s ->
  sys_threads s !! i = Some th -> th_prog th = Done r ->
  r = Ok tt \/ exists point, r = Err (SimulatedCrash point).
Proof.
  intros Hs Hth Hr. pose proof (ri_safe _ _ _ _ (reachable_inv _ _ _ _ _ _ _ Hs) i th Hth) as H.
  rewrite Hr in H. cbn in H. destruct r as [[] | e]; [by left | right].
  destruct e; try done. by eexists.
Qed.

(** A claim is lost in the store's answer, later a write-ahead is; two more
    workers carry on, and the withdrawal is confirmed. *)
Definition flaky_path : list event :=
  [ESubmit 1 [] dest (str "USDT-TRC20") 1500000; ESpawn (str "A") 2] ++ runs 0 1 ++
  [EFail 0 true; EAdvance (seconds 31)] ++ runs 0 10 ++ [EFail 0 true] ++ runs 0 2 ++
  [ESpawn (str "B") 2] ++ runs 1 30 ++ replicate 4 EBlock ++ [ESpawn (str "C") 1] ++ runs 2 20.

Definition flaky : System := play flaky_path.

Lemma flaky_reachable : rtc (sys_step default_config default_signer) genesis flaky.
Proof. apply play_reachable; vm_compute; reflexivity. Qed.

Lemma only_crashes_end_workers_witness :
  op_state <$> get 1 (w_store (sys_world flaky)) = Some CONFIRMED /\
  exists th r, sys_threads flaky !! 0%nat = Some th /\ th_prog th = Done r /\
  (r = Ok tt \/ exists point, r = Err (SimulatedCrash point)).
Proof.
  split; [vm_compute; reflexivity |].
  destruct (sys_threads flaky !! 0%nat) as [th |] eqn:Hth; [| vm_compute in Hth; discriminate Hth].
  destruct (th_prog th) as [r | X c k] eqn:Hr.
  - exists th, r. split; [reflexivity |]. split; [exact Hr |].
    exact (only_crashes_end_workers default_config default_signer default_signer t0 2 1 flaky 0 th r
      flaky_reachable Hth Hr).
  - exfalso. assert (match th_prog <$> sys_threads flaky !! 0%nat with Some (Done _) => true | _ => false end = true)
      as H by (vm_compute; reflexivity).
    rewrite Hth in H. simpl in H. rewrite Hr in H. discriminate H.
Defined.

(** C14. An outage ends the pass at its first operation: while the store is down,
    driving a claimed batch leaves the store alone and does exactly what driving
    its first operation alone would do; it ends with the store's exception (or
    a crash).  The breadcrumb and the release of [_drive] are calls to the same
    store and nothing catches their exceptions, so the pass does not move on:
    the other claimed operations are not touched and stay claimed until their
    leases expire. *)
Theorem outage_ends_the_pass (cfg : Config) (signer : MockSigner) (worker_id : pystr)
    (op : Operation) (ops : list Operation) (w : World) :
  let '(r, w') := run_down (drive_all cfg signer (op :: ops) worker_id) w in
  (r = Err StoreFailure \/ exists point, r = Err (SimulatedCrash point)) /\
  w_store w' = w_store w /\
  run_down (drive_all cfg signer [op] worker_id) w = (r, w').
Proof.
  pose proof (run_down_store (drive_all cfg signer (op :: ops) worker_id) w) as Hst. revert Hst.
  pose proof (down_run _ _ w (down_drive cfg signer worker_id op)) as H.
  cbn [drive_all]. rewrite !run_down_bind. destruct (run_down (_drive cfg signer op worker_id) w) as [[a | e] w'].
  - by destruct H as [| [point ?]].
  - intros Hst. split; [| done]. destruct H as [[= ->] | [point [= ->]]]; [by left | right; by eexists].
Qed.
