(* ===== verification/Intake.v ===== *)
(** * Intake: the service and its HTTP face

    [uuid.UUID] as the program calls it, [submit_withdrawal] of
    [sluice/service.py] and the three routes of [sluice/api.py].  [ucd] gives the
    decimal value of a non-ASCII digit (the Unicode table [int] consults); the
    theorems hold for any table.  Flask's JSON parsing is outside: a request
    body arrives as the value [get_json(silent=True)] returned. *)
From Stdlib Require Import ZArith Lia.
From stdpp Require Import base option strings gmap list.
From S2P Require Import Prelude Text Json Money Hash Address Datetime States Wire Model Store Protocol Node Effects Pipeline Worker System Invariant Payments.

Local Open Scope Z_scope.

Section intake.
Context (ucd : Z -> option Z).

(** ** [uuid.UUID(s)] *)

(** [s.replace(pat, "")] for a non-empty [pat], scanning at most [fuel] characters. *)
Fixpoint remove_all (fuel : nat) (pat s : pystr) : pystr :=
  match fuel with
  | O => s
  | S fuel =>
      match s with
      | [] => []
      | c :: s' =>
          if bool_decide (take (length pat) s = pat)
          then remove_all fuel pat (drop (length pat) s)
          else c :: remove_all fuel pat s'
      end
  end.

Definition replace_empty (pat s : pystr) : pystr := remove_all (length s) pat s.

Definition hex_val (c : Z) : option Z :=
  if (48 <=? c) && (c <=? 57) then Some (c - 48)
  else if (97 <=? c) && (c <=? 102) then Some (c - 87)
  else if (65 <=? c) && (c <=? 70) then Some (c - 55)
  else None.

(** The digits of [int(s, 16)], single underscores between them, then spaces. *)
Fixpoint hex_scan (s : pystr) (underscore some : bool) (acc : Z) : option Z :=
  match s with
  | [] => if underscore || negb some then None else Some acc
  | c :: s' =>
      if c =? 95 then (if underscore then None else hex_scan s' true some acc)
      else match hex_val c with
           | Some d => hex_scan s' false true (acc * 16 + d)
           | None => if underscore || negb some then None
                     else if forallb ascii_space s then Some acc else None
           end
  end.

(** [0x] or [0X], and one underscore after it. *)
Definition skip_0x (s : pystr) : pystr :=
  match s with
  | z :: x :: s' =>
      if (z =? 48) && ((x =? 120) || (x =? 88)) then
        match s' with
        | u :: s'' => if u =? 95 then s'' else s'
        | [] => s'
        end
      else s
  | _ => s
  end.

(** [int(s, 16)]; [None] is its [ValueError]. *)
Definition int16 (s : pystr) : option Z :=
  let s := drop_while ascii_space (map (to_ascii ucd) s) in
  let '(sign, s) := match s with
                    | c :: s' => if c =? 45 then (-1, s') else if c =? 43 then (1, s') else (1, s)
                    | [] => (1, s)
                    end in
  let s := skip_0x s in
  match s with
  | c :: _ => if c =? 95 then None else Z.mul sign <$> hex_scan s false false 0
  | [] => None
  end.

Definition is_brace (c : Z) : bool := (c =? 123) || (c =? 125).

Definition UUID (s : pystr) : option Z :=
  let s := replace_empty (str "uuid:") (replace_empty (str "urn:") s) in
  let s := replace_empty (str "-") (rstrip_by is_brace (lstrip_by is_brace s)) in
  if negb (length s =? 32)%nat then None
  else match int16 s with
       | Some n => if (0 <=? n) && (n <? 2 ^ 128) then Some n else None
       | None => None
       end.

(** [uuid.UUID(str(raw_id))].  The text of a list or of a dict holds a bracket,
    a quote or nothing once the braces are stripped, so [UUID] refuses it. *)
Definition parse_operation_id (raw_id : jval) : option Z :=
  match raw_id with
  | JNull => UUID (str "None")
  | JBool b => UUID (if b then str "True" else str "False")
  | JInt z => UUID (str_of_int z)
  | JFloat r => UUID r
  | JStr s => UUID s
  | JList _ | JObj _ => None
  end.

(** ** [service.submit_withdrawal] *)

Inductive message : Type :=
| Msg (text : pystr)
| UnsupportedAsset (asset : jval)
| BadAmount (why : amount_error).

Inductive service_exn : Type :=
| ValidationError (field : pystr) (why : message)
| PayloadMismatch (operation_id : Z)
| DigitsError                        (* the [ValueError] of an oversized [int] *)
| StoreError.                        (* whatever the store raised *)

Local Open Scope sluice_scope.

(** [payload.get(k)]. *)
Definition get_or (k : pystr) (d : jval) (payload : list (pystr * jval)) : jval :=
  default d (assoc k payload).

(** Everything before the insert: the operation the payload describes. *)
Definition read_request (cfg : Config) (payload : jval) : result service_exn Operation :=
  match payload with
  | JObj payload =>
      let? op_id := match parse_operation_id (get_or (str "operation_id") JNull payload) with
                    | Some id => Ok id
                    | None => Err (ValidationError (str "operation_id")
                                     (Msg (str "must be a UUID (client-generated)")))
                    end in
      let? to_addr := match get_or (str "to_address") JNull payload with
                      | JStr a => if is_valid (JStr a) then Ok a
                                  else Err (ValidationError (str "to_address")
                                              (Msg (str "not a valid TRON base58check address")))
                      | _ => Err (ValidationError (str "to_address")
                                    (Msg (str "not a valid TRON base58check address")))
                      end in
      let asset := get_or (str "asset") (JStr (cfg_asset cfg)) payload in
      if negb (bool_decide (asset = JStr (cfg_asset cfg))) then
        Err (ValidationError (str "asset") (UnsupportedAsset asset))
      else
        let? amount_units :=
          match to_units (get_or (str "amount") JNull payload) (cfg_token_decimals cfg) with
          | Ok z => Ok z
          | Err (AmountError e) => Err (ValidationError (str "amount") (BadAmount e))
          | Err IntDigitsError => Err DigitsError
          end in
        if amount_units <? cfg_min_amount_units cfg then
          Err (ValidationError (str "amount") (Msg (str "below minimum")))
        else if cfg_max_amount_units cfg <? amount_units then
          Err (ValidationError (str "amount") (Msg (str "above per-operation maximum")))
        else
          Ok (new_operation op_id (request_hash to_addr amount_units (cfg_asset cfg)) REQUESTED
                to_addr (cfg_asset cfg) amount_units)
  | _ => Err (ValidationError (str "body") (Msg (str "expected a JSON object")))
  end.

Local Close Scope sluice_scope.

(** The service and the views work on any [Store]. *)
Context {St : Type} `{!StoreProtocol St}.

Definition submit_withdrawal (cfg : Config) (now : Z) (payload : jval) (st : St)
    : result service_exn (Operation * bool) * St :=
  match read_request cfg payload with
  | Err e => (Err e, st)
  | Ok op =>
      match store_insert_new now op st with
      | (Err _, st') => (Err StoreError, st')
      | (Ok (row, created), st') =>
          if negb created && negb (bool_decide (op_request_hash row = op_request_hash op))
          then (Err (PayloadMismatch (op_operation_id op)), st')
          else (Ok (row, created), st')
      end
  end.

(** ** The routes of [api.py] *)

Inductive body : Type :=
| BError (code : pystr) (field : option pystr) (why : message)
| BMismatch (operation_id : Z)
| BOperation (view : jval)
| BHealth (fields : list (pystr * jval))
| BServerError.

Record Response : Type := mkResponse {
  rs_status : Z;
  rs_body : body;
  rs_replay : bool                   (* X-Idempotent-Replay *)
}.

(** [POST /v1/withdrawals]; an exception the view does not catch is Flask's 500. *)
Definition post_withdrawal (cfg : Config) (now : Z) (payload : jval) (st : St)
    : Response * St :=
  match payload with
  | JNull => (mkResponse 400 (BError (str "bad_json") None (Msg (str "body must be JSON"))) false, st)
  | _ =>
      match submit_withdrawal cfg now payload st with
      | (Err (ValidationError field why), st') =>
          (mkResponse 422 (BError (str "invalid") (Some field) why) false, st')
      | (Err (PayloadMismatch id), st') => (mkResponse 409 (BMismatch id) false, st')
      | (Err DigitsError, st') | (Err StoreError, st') => (mkResponse 500 BServerError false, st')
      | (Ok (row, created), st') =>
          if (created : bool) then (mkResponse 201 (BOperation (public_view row)) false, st')
          else (mkResponse 200 (BOperation (public_view row)) true, st')
      end
  end.

(** [GET /v1/withdrawals/<op_id>]. *)
Definition get_withdrawal (op_id : pystr) (st : St) : Response :=
  match UUID op_id with
  | None => mkResponse 422 (BError (str "invalid") None (Msg (str "operation_id must be a UUID"))) false
  | Some oid =>
      match store_get oid st with
      | None => mkResponse 404 (BError (str "not_found") None (Msg (str "unknown operation"))) false
      | Some op => mkResponse 200 (BOperation (public_view op)) false
      end
  end.

(** [GET /healthz]. *)
Definition healthz : Response := mkResponse 200 (BHealth [(str "ok", JBool true)]) false.

End intake.

Example uuid_ex : UUID (fun _ => None) (str "{00000000-0000-0000-0000-0000000000ff}") = Some 255.
Proof. vm_compute. reflexivity. Qed.
Example uuid_urn : UUID (fun _ => None) (str "urn:uuid:12345678123456781234567812345678") =
  Some 0x12345678123456781234567812345678.
Proof. vm_compute. reflexivity. Qed.
Example uuid_bad : UUID (fun _ => None) (str "1234") = None.
Proof. vm_compute. reflexivity. Qed.

(** ** A printed UUID reads back *)

Lemma remove_all_absent (fuel : nat) (c : Z) (pat s : pystr) :
  c ∉ s -> remove_all fuel (c :: pat) s = s.
Proof.
  revert s. induction fuel as [|fuel IH]; intros s Hs; [done |]. destruct s as [|x s]; [done |].
  apply not_elem_of_cons in Hs as [Hx Hs]. simpl. rewrite bool_decide_eq_false_2 by congruence.
  by rewrite IH.
Qed.

Lemma remove_all_char (fuel : nat) (c : Z) (s : pystr) :
  (length s <= fuel)%nat -> remove_all fuel [c] s = filter (fun x => x <> c) s.
Proof.
  revert s. induction fuel as [|fuel IH]; intros s Hl; destruct s as [|x s]; try done; [simpl in Hl; lia |].
  simpl in Hl. rewrite filter_cons. simpl. rewrite take_0, drop_0.
  destruct (decide (x = c)) as [-> | Hne].
  - rewrite bool_decide_eq_true_2, decide_False by auto. apply IH. lia.
  - rewrite bool_decide_eq_false_2, decide_True by congruence. by rewrite IH by lia.
Qed.

Lemma drop_while_head_false (p : Z -> bool) (s : pystr) :
  Forall (fun c => p c = false) s -> drop_while p s = s.
Proof. destruct 1 as [|c s Hc]; [done |]. simpl. by rewrite Hc. Qed.

Lemma strip_absent (p : Z -> bool) (s : pystr) :
  Forall (fun c => p c = false) s -> rstrip_by p (lstrip_by p s) = s.
Proof.
  intros Hs. unfold rstrip_by, lstrip_by. rewrite (drop_while_head_false p s) by done.
  rewrite drop_while_head_false by by apply Forall_rev. apply rev_involutive.
Qed.

Definition is_hex (c : Z) : Prop := 48 <= c <= 57 \/ 97 <= c <= 102.

Lemma hex_digit_is_hex (d : Z) : 0 <= d < 16 -> is_hex (hex_digit d).
Proof. intros Hd. unfold is_hex, hex_digit. destruct (Z.ltb_spec d 10); lia. Qed.

Lemma hex_val_digit (d : Z) : 0 <= d < 16 -> hex_val (hex_digit d) = Some d.
Proof.
  intros Hd. unfold hex_val, hex_digit. destruct (Z.ltb_spec d 10);
    repeat match goal with |- context [?a <=? ?b] => destruct (Z.leb_spec a b) end; simpl; try lia; f_equal; lia.
Qed.

Lemma hex_scan_digits (ds : list Z) (some : bool) (acc : Z) :
  Forall (digit_of 16) ds -> ds <> [] \/ some = true ->
  hex_scan (map hex_digit ds) false some acc = Some (fold_left (fun a d => a * 16 + d) ds acc).
Proof.
  intros Hds. revert some acc. induction Hds as [|d ds Hd _ IH]; intros some acc Hs; simpl.
  - by destruct Hs as [| ->].
  - pose proof (hex_digit_is_hex d Hd) as Hh. unfold is_hex in Hh.
    destruct (Z.eqb_spec (hex_digit d) 95); [lia |]. rewrite hex_val_digit by done. apply IH. by right.
Qed.

Lemma int16_digits (ucd : Z -> option Z) (ds : list Z) :
  Forall (digit_of 16) ds -> ds <> [] -> int16 ucd (map hex_digit ds) = Some (of_base 16 ds).
Proof.
  intros Hds Hne. unfold int16.
  assert (forall c, is_hex c -> to_ascii ucd c = c /\ ascii_space c = false) as Hc.
  { intros c Hc. unfold is_hex in Hc. unfold to_ascii, ascii_space.
    destruct (Z.ltb_spec c 127); [| lia]. split; [done |].
    repeat match goal with |- context [?a <=? ?b] => destruct (Z.leb_spec a b) end;
    destruct (Z.eqb_spec c 32); simpl; done || lia. }
  assert (Forall is_hex (map hex_digit ds)) as Hh.
  { apply Forall_fmap. eapply Forall_impl; [exact Hds |]. apply hex_digit_is_hex. }
  assert (map (to_ascii ucd) (map hex_digit ds) = map hex_digit ds) as ->.
  { rewrite <- (map_id (map hex_digit ds)) at 2. apply map_ext_in. intros c Hin.
    rewrite Forall_forall in Hh. by apply Hc, Hh, list_elem_of_In. }
  rewrite drop_while_head_false by (eapply Forall_impl; [exact Hh | intros c H; by apply Hc]).
  pose proof (hex_scan_digits ds false 0 Hds (or_introl Hne)) as Hscan.
  destruct ds as [|d ds]; [done |]. simpl map in *. set (c := hex_digit d) in *.
  apply Forall_cons in Hh as [Hd Hh]. unfold is_hex in Hd.
  destruct (Z.eqb_spec c 45); [lia |]. destruct (Z.eqb_spec c 43); [lia |].
  assert (skip_0x (c :: map hex_digit ds) = c :: map hex_digit ds) as ->.
  { unfold skip_0x. destruct (map hex_digit ds) as [|x s]; [done |].
    apply Forall_cons in Hh as [Hx _]. unfold is_hex in Hx.
    destruct (Z.eqb_spec x 120); [lia |]. destruct (Z.eqb_spec x 88); [lia |]. by rewrite andb_false_r. }
  destruct (Z.eqb_spec c 95); [lia |]. rewrite Hscan. unfold of_base. simpl. f_equal. lia.
Qed.

Lemma nibbles_value (id : Z) (n : nat) :
  of_base 16 (map (fun i => Z.shiftr id (4 * Z.of_nat i) mod 16) (rev (seq 0 n))) = id mod 16 ^ Z.of_nat n.
Proof.
  induction n as [|n IH]; [by rewrite Z.mod_1_r |].
  rewrite seq_S, rev_app_distr. simpl rev. cbn [app map]. rewrite of_base_cons, IH, length_map, length_rev, length_seq.
  simpl Nat.add. rewrite Z.shiftr_div_pow2 by lia. rewrite Z.pow_mul_r by lia. change (2 ^ 4) with 16.
  rewrite Nat2Z.inj_succ, Z.pow_succ_r by lia.
  rewrite (Z.mul_comm 16), Z.rem_mul_r by lia. lia.
Qed.

Lemma uuid_groups (h : pystr) :
  take 8 h ++ take 4 (drop 8 h) ++ take 4 (drop 12 h) ++ take 4 (drop 16 h) ++ drop 20 h = h.
Proof.
  assert (forall n m, drop (m + n) h = drop n (drop m h)) as Hd by (intros; by rewrite drop_drop).
  rewrite (Hd 4 16 : drop 20 h = _)%nat, take_drop, (Hd 4 12 : drop 16 h = _)%nat, take_drop,
    (Hd 4 8 : drop 12 h = _)%nat, take_drop. apply take_drop.
Qed.

Lemma filter_keep (c : Z) (s : pystr) : c ∉ s -> filter (fun x => x <> c) s = s.
Proof.
  induction s as [|x s IH]; intros Hs; [done |]. apply not_elem_of_cons in Hs as [Hx Hs].
  rewrite filter_cons, decide_True by done. by rewrite IH.
Qed.

Lemma uuid_hex_is_hex (id : Z) : Forall is_hex (uuid_hex id).
Proof.
  unfold uuid_hex. apply Forall_forall. intros c (i & <- & _)%list_elem_of_In%in_map_iff.
  apply hex_digit_is_hex, Z.mod_pos_bound. lia.
Qed.

Lemma uuid_part (id : Z) (s : pystr) : sublist s (uuid_hex id) -> filter (fun c => c <> 45) s = s.
Proof.
  intros Hs. apply filter_keep. intros Hc. pose proof (uuid_hex_is_hex id) as Hh.
  rewrite Forall_forall in Hh. specialize (Hh 45 (elem_of_sublist _ _ _ Hc Hs)). unfold is_hex in Hh. lia.
Qed.

Lemma filter_dash (s t : pystr) :
  filter (fun c => c <> 45) (s ++ 45 :: t) = filter (fun c => c <> 45) s ++ filter (fun c => c <> 45) t.
Proof. rewrite filter_app, filter_cons, decide_False by auto. done. Qed.

Lemma uuid_str_filter (id : Z) : filter (fun c => c <> 45) (uuid_str id) = uuid_hex id.
Proof.
  unfold uuid_str. rewrite !filter_dash.
  rewrite !(uuid_part id) by (apply sublist_take || apply sublist_drop ||
                              (etrans; [apply sublist_take | apply sublist_drop])).
  apply uuid_groups.
Qed.

Lemma uuid_str_chars (id : Z) : Forall (fun c => is_hex c \/ c = 45) (uuid_str id).
Proof.
  apply Forall_forall. intros c Hc. destruct (decide (c = 45)) as [| Hne]; [by right | left].
  pose proof (uuid_hex_is_hex id) as Hh. rewrite Forall_forall in Hh. apply Hh.
  rewrite <- uuid_str_filter. by apply list_elem_of_filter.
Qed.

Lemma UUID_uuid_str (ucd : Z -> option Z) (id : Z) : 0 <= id < 2 ^ 128 -> UUID ucd (uuid_str id) = Some id.
Proof.
  intros Hid. pose proof (uuid_str_chars id) as Hch. rewrite Forall_forall in Hch.
  assert (117 ∉ uuid_str id) as Hu.
  { intros Hin. destruct (Hch _ Hin) as [H |]; [unfold is_hex in H; lia | done]. }
  unfold UUID, replace_empty. change (str "urn:") with (117 :: str "rn:").
  change (str "uuid:") with (117 :: str "uid:").
  rewrite !(remove_all_absent _ 117 _ (uuid_str id)) by done.
  rewrite strip_absent.
  2:{ apply Forall_forall. intros c Hc. destruct (Hch _ Hc) as [H | ->]; [| done].
      unfold is_hex in H. unfold is_brace.
      destruct (Z.eqb_spec c 123); [lia |]. destruct (Z.eqb_spec c 125); [lia | done]. }
  change (str "-") with [45]. rewrite remove_all_char, uuid_str_filter by lia.
  assert (length (uuid_hex id) = 32%nat) as -> by done. cbn [Nat.eqb negb].
  set (ds := map (fun i => Z.shiftr id (4 * Z.of_nat i) mod 16) (rev (seq 0 32))).
  assert (uuid_hex id = map hex_digit ds) as -> by (unfold ds; by rewrite map_map).
  rewrite int16_digits; [| | done].
  - unfold ds. rewrite nibbles_value. change (16 ^ Z.of_nat 32) with (2 ^ 128).
    rewrite Z.mod_small by done. destruct (Z.leb_spec 0 id), (Z.ltb_spec id (2 ^ 128)); done || lia.
  - apply Forall_forall. intros d (i & <- & _)%list_elem_of_In%in_map_iff. apply Z.mod_pos_bound. lia.
Qed.

(** ** What a readable request gives *)

Lemma UUID_range (ucd : Z -> option Z) (s : pystr) (id : Z) : UUID ucd s = Some id -> 0 <= id < 2 ^ 128.
Proof.
  unfold UUID. destruct (negb _); [done |]. destruct (int16 ucd _) as [n |]; [| done].
  destruct (Z.leb_spec 0 n), (Z.ltb_spec n (2 ^ 128)); simpl; try done. by intros [= <-].
Qed.

Lemma parse_operation_id_range (ucd : Z -> option Z) (j : jval) (id : Z) :
  parse_operation_id ucd j = Some id -> 0 <= id < 2 ^ 128.
Proof. destruct j as [| [] | | | | |]; simpl; try done; apply UUID_range. Qed.

(** The hash a row stores is the hash of what it says. *)
Definition hash_of_terms (op : Operation) : Prop :=
  op_request_hash op = request_hash (op_to_address op) (op_amount_units op) (op_asset op).

Lemma read_request_ok (ucd : Z -> option Z) (cfg : Config) (payload : jval) (op : Operation) :
  read_request ucd cfg payload = Ok op ->
  validated cfg op /\ hash_of_terms op /\ 0 <= op_operation_id op < 2 ^ 128 /\
  op_state op = REQUESTED /\ op_fencing_token op = 0.
Proof.
  unfold read_request. destruct payload as [| | | | | | m]; try done.
  destruct (parse_operation_id ucd _) as [id |] eqn:Eid; [| done]. cbn [result_bind negb].
  destruct (get_or (str "to_address") JNull m) as [| | | | a | |]; try done. cbn [result_bind negb].
  destruct (is_valid (JStr a)) eqn:Ev; [| done]. cbn [result_bind negb].
  case_bool_decide; [| done]. cbn [result_bind negb].
  destruct (to_units _ _) as [n | [|]]; try done. cbn [result_bind negb].
  destruct (Z.ltb_spec n (cfg_min_amount_units cfg)); [done |].
  destruct (Z.ltb_spec (cfg_max_amount_units cfg) n); [done |]. intros [= <-].
  split; [done |]. split; [done |]. split; [| done]. exact (parse_operation_id_range _ _ _ Eid).
Qed.

Lemma read_request_new (ucd : Z -> option Z) (cfg : Config) (payload : jval) (op : Operation) :
  read_request ucd cfg payload = Ok op ->
  op = new_operation (op_operation_id op) (op_request_hash op) (op_state op) (op_to_address op)
         (op_asset op) (op_amount_units op).
Proof.
  unfold read_request. destruct payload as [| | | | | | m]; try done.
  destruct (parse_operation_id ucd _) as [id |]; [| done]. cbn [result_bind].
  destruct (get_or (str "to_address") JNull m) as [| | | | a | |]; try done.
  destruct (is_valid (JStr a)); [| done]. cbn [result_bind]. destruct (negb _); [done |].
  destruct (to_units _ _) as [n | [|]]; try done. cbn [result_bind].
  destruct (_ <? _); [done |]. destruct (_ <? _); [done |]. by intros [= <-].
Qed.

Lemma hash_of_terms_eq (op op' : Operation) : terms op' = terms op -> hash_of_terms op -> hash_of_terms op'.
Proof. intros [= _ Eh Et Ea Em]. unfold hash_of_terms. by rewrite Eh, Et, Ea, Em. Qed.

Lemma hash_meaning (cfg : Config) (op op' : Operation) :
  Forall scalar (cfg_asset cfg) -> validated cfg op -> validated cfg op' -> hash_of_terms op -> hash_of_terms op' ->
  op_request_hash op = op_request_hash op' ->
  (op_to_address op = op_to_address op' /\ op_amount_units op = op_amount_units op') \/ exists a b, collision a b.
Proof.
  intros Hs (Hv & Ea & _) (Hv' & Ea' & _) Hh Hh' E. unfold hash_of_terms in *. rewrite Hh, Hh' in E.
  apply is_valid_scalar in Hv, Hv'.
  rewrite Ea, Ea' in E.
  destruct (request_hash_inj _ _ _ _ _ _ Hv Hv' Hs Hs E) as [(E1 & E2 & _) | E']; [by left | right; eauto].
Qed.

(** A submit whose id is taken: a replay or a refusal, nothing else. *)
Lemma submit_taken (ucd : Z -> option Z) (cfg : Config) (now : Z) (payload : jval) (st : MemoryStore)
    (op row : Operation) :
  read_request ucd cfg payload = Ok op -> ms_ops st !! op_operation_id op = Some row ->
  submit_withdrawal ucd cfg now payload st =
  if decide (op_request_hash row = op_request_hash op) then (Ok (row, false), st)
  else (Err (PayloadMismatch (op_operation_id op)), st).
Proof.
  intros Hr Hrow. unfold submit_withdrawal. rewrite Hr. cbn [store_insert_new MemoryStore_protocol].
  unfold insert_new. rewrite Hrow. simpl.
  by destruct (decide _); [rewrite bool_decide_eq_true_2 | rewrite bool_decide_eq_false_2].
Qed.

Lemma submit_fresh (ucd : Z -> option Z) (cfg : Config) (now : Z) (payload : jval) (st : MemoryStore)
    (op : Operation) :
  read_request ucd cfg payload = Ok op -> ms_ops st !! op_operation_id op = None ->
  submit_withdrawal ucd cfg now payload st =
  (Ok (set_updated_at (Some now) (set_created_at (Some now) op), true), snd (insert_new now op st)).
Proof.
  intros Hr Hrow. unfold submit_withdrawal. rewrite Hr. cbn [store_insert_new MemoryStore_protocol].
  unfold insert_new. by rewrite Hrow.
Qed.

Lemma insert_fresh_row (now : Z) (op : Operation) (st : MemoryStore) :
  ms_ops st !! op_operation_id op = None ->
  ms_ops (snd (insert_new now op st)) !! op_operation_id op =
  Some (set_updated_at (Some now) (set_created_at (Some now) op)).
Proof. intros Hn. unfold insert_new. rewrite Hn. simpl. apply lookup_insert_eq. Qed.

(** ** Properties *)

(** C27. Exactly one operation per id: after a request created an operation, a
    later request with the same id, after any store activity, is either
    answered with that operation unchanged, and then it asks for the same
    destination and amount (or SHA-256 has a collision), or refused as a
    payload mismatch, and then it asks for something else; the store is left
    untouched in both cases. *)
Theorem replay_or_refuse (ucd : Z -> option Z) (cfg : Config) (st st1 st2 : MemoryStore) (now now' : Z)
    (payload payload' : jval) (row op' : Operation) :
  Forall scalar (cfg_asset cfg) -> rtc store_step empty_store st ->
  submit_withdrawal ucd cfg now payload st = (Ok (row, true), st1) -> rtc store_step st1 st2 ->
  read_request ucd cfg payload' = Ok op' -> op_operation_id op' = op_operation_id row ->
  exists current, ms_ops st2 !! op_operation_id row = Some current /\ terms current = terms row /\
  ((submit_withdrawal ucd cfg now' payload' st2 = (Ok (current, false), st2) /\
    ((op_to_address op' = op_to_address row /\ op_amount_units op' = op_amount_units row) \/
     exists a b, collision a b)) \/
   (submit_withdrawal ucd cfg now' payload' st2 = (Err (PayloadMismatch (op_operation_id row)), st2) /\
    (op_to_address op', op_amount_units op', op_asset op') <>
    (op_to_address row, op_amount_units row, op_asset row))).
Proof.
  intros Hsc Hreach Hsub Hsteps Hread' Eid.
  pose proof (store_steps_wf _ _ Hreach empty_store_wf) as Hwf.
  destruct (read_request ucd cfg payload) as [op | e] eqn:Hread; [| unfold submit_withdrawal in Hsub; by rewrite Hread in Hsub].
  destruct (read_request_ok _ _ _ _ Hread) as (Hv & Hh & _ & _ & Htok).
  destruct (read_request_ok _ _ _ _ Hread') as (Hv' & Hh' & _ & _ & _).
  destruct (ms_ops st !! op_operation_id op) as [r |] eqn:Er.
  { rewrite (submit_taken _ _ _ _ _ _ _ Hread Er) in Hsub. by destruct (decide _). }
  rewrite (submit_fresh _ _ _ _ _ _ Hread Er) in Hsub. injection Hsub as <- <-.
  change (op_operation_id (set_updated_at _ _)) with (op_operation_id op) in *.
  assert (0 <= op_fencing_token op) as H0 by lia.
  destruct (store_steps_row _ _ _ _ (insert_new_wf now op st H0 Hwf) Hsteps (insert_fresh_row now op st Er))
    as (current & Hcur & Ht & _).
  exists current. split_and!; [done | done |].
  pose proof (hash_of_terms_eq op current Ht Hh) as Hhc.
  rewrite <- Eid in Hcur |- *. rewrite (submit_taken _ _ _ _ _ _ _ Hread' Hcur).
  destruct (decide _) as [E | E]; [left | right]; (split; [done |]).
  - destruct (hash_meaning cfg op' current Hsc Hv' (validated_terms _ op current Ht Hv) Hh' Hhc (eq_sym E))
      as [[E1 E2] | Hcol]; [left | by right].
    injection Ht as _ _ Et _ Em. simpl in *. split; congruence.
  - intros [= E1 E2 E3]. apply E. injection Ht as _ Ehc _ _ _.
    unfold hash_of_terms in *. simpl in *. congruence.
Qed.

Definition no_ucd : Z -> option Z := fun _ => None.
Definition demo_payload (amount : pystr) : jval :=
  JObj [(str "operation_id", JStr (uuid_str 7)); (str "to_address", JStr dest); (str "amount", JStr amount)].
Definition demo_submit : result service_exn (Operation * bool) * MemoryStore :=
  submit_withdrawal no_ucd default_config t0 (demo_payload (str "1.5")) empty_store.
Definition demo_created : Operation :=
  match fst demo_submit with Ok (row, _) => row | Err _ => demo_row end.
Definition demo_request (amount : pystr) : Operation :=
  match read_request no_ucd default_config (demo_payload amount) with Ok op => op | Err _ => demo_row end.

Lemma replay_or_refuse_witness :
  exists current, ms_ops (snd demo_submit) !! op_operation_id demo_created = Some current /\
  terms current = terms demo_created /\
  ((submit_withdrawal no_ucd default_config t0 (demo_payload (str "2.5")) (snd demo_submit) =
    (Ok (current, false), snd demo_submit) /\
    ((op_to_address (demo_request (str "2.5")) = op_to_address demo_created /\
      op_amount_units (demo_request (str "2.5")) = op_amount_units demo_created) \/
     exists a b, collision a b)) \/
   (submit_withdrawal no_ucd default_config t0 (demo_payload (str "2.5")) (snd demo_submit) =
    (Err (PayloadMismatch (op_operation_id demo_created)), snd demo_submit) /\
    (op_to_address (demo_request (str "2.5")), op_amount_units (demo_request (str "2.5")),
     op_asset (demo_request (str "2.5"))) <>
    (op_to_address demo_created, op_amount_units demo_created, op_asset demo_created))).
Proof.
  apply (replay_or_refuse no_ucd default_config empty_store (snd demo_submit) (snd demo_submit) t0 t0
    (demo_payload (str "1.5")) (demo_payload (str "2.5")) demo_created (demo_request (str "2.5"))).
  - apply str_scalar.
  - apply rtc_refl.
  - vm_compute. reflexivity.
  - apply rtc_refl.
  - vm_compute. reflexivity.
  - vm_compute. reflexivity.
Defined.

(** The answer to a request the service has judged. *)
Definition answer (r : result service_exn (Operation * bool)) : Response :=
  match r with
  | Err (ValidationError field why) => mkResponse 422 (BError (str "invalid") (Some field) why) false
  | Err (PayloadMismatch id) => mkResponse 409 (BMismatch id) false
  | Err DigitsError | Err StoreError => mkResponse 500 BServerError false
  | Ok (row, true) => mkResponse 201 (BOperation (public_view row)) false
  | Ok (row, false) => mkResponse 200 (BOperation (public_view row)) true
  end.

Lemma post_answer {St : Type} `{!StoreProtocol St} (ucd : Z -> option Z) (cfg : Config) (now : Z) (payload : jval)
    (st : St) :
  payload <> JNull -> post_withdrawal ucd cfg now payload st =
  (answer (fst (submit_withdrawal ucd cfg now payload st)), snd (submit_withdrawal ucd cfg now payload st)).
Proof.
  intros Hne. destruct payload; try done; unfold post_withdrawal;
    by destruct (submit_withdrawal _ _ _ _ _) as [[[? []] | []] ?].
Qed.

(** ** What a POST promises *)

Section post.
Context (ucd : Z -> option Z) (cfg : Config) (now : Z).

(** The fields of a JSON object, in the order they are judged. *)
Definition asked_id (m : list (pystr * jval)) : option Z :=
  parse_operation_id ucd (get_or (str "operation_id") JNull m).

Definition asked_address (m : list (pystr * jval)) (to_address : pystr) : Prop :=
  get_or (str "to_address") JNull m = JStr to_address /\ is_valid (JStr to_address) = true.

Definition asked_asset (m : list (pystr * jval)) : jval := get_or (str "asset") (JStr (cfg_asset cfg)) m.

Definition asked_amount (m : list (pystr * jval)) : result money_exn Z :=
  to_units (get_or (str "amount") JNull m) (cfg_token_decimals cfg).

(** Everything before the amount is in order, with this id and address. *)
Definition addressed (m : list (pystr * jval)) (id : Z) (to_address : pystr) : Prop :=
  asked_id m = Some id /\ asked_address m to_address /\ asked_asset m = JStr (cfg_asset cfg).

(** A payment of [n] units within the bounds. *)
Definition asks (m : list (pystr * jval)) (id : Z) (to_address : pystr) (n : Z) : Prop :=
  addressed m id to_address /\ asked_amount m = Ok n /\
  cfg_min_amount_units cfg <= n <= cfg_max_amount_units cfg.

(** The row of such a payment. *)
Definition asked_row (id : Z) (to_address : pystr) (n : Z) : Operation :=
  set_updated_at (Some now) (set_created_at (Some now)
    (new_operation id (request_hash to_address n (cfg_asset cfg)) REQUESTED to_address (cfg_asset cfg) n)).

(** Exactly one operation and one event more. *)
Definition added (row : Operation) (st st' : MemoryStore) : Prop :=
  get (op_operation_id row) st = None /\ get (op_operation_id row) st' = Some row /\
  (forall id, id <> op_operation_id row -> get id st' = get id st) /\
  exists e, ms_events st' = ms_events st ++ [e] /\ ev_operation_id e = op_operation_id row /\
  ev_from_state e = None /\ ev_to_state e = REQUESTED.

Definition refused (field : pystr) (why : message) : Response :=
  mkResponse 422 (BError (str "invalid") (Some field) why) false.

(** The answer to each request and what it leaves in the store. *)
Inductive post_spec (st : MemoryStore) : jval -> Response -> MemoryStore -> Prop :=
| post_no_body :
    post_spec st JNull (mkResponse 400 (BError (str "bad_json") None (Msg (str "body must be JSON"))) false) st
| post_not_object (payload : jval) :
    payload <> JNull -> (forall m, payload <> JObj m) ->
    post_spec st payload (refused (str "body") (Msg (str "expected a JSON object"))) st
| post_bad_id (m : list (pystr * jval)) :
    asked_id m = None ->
    post_spec st (JObj m) (refused (str "operation_id") (Msg (str "must be a UUID (client-generated)"))) st
| post_bad_address (m : list (pystr * jval)) :
    is_Some (asked_id m) -> (forall a, ~ asked_address m a) ->
    post_spec st (JObj m) (refused (str "to_address") (Msg (str "not a valid TRON base58check address"))) st
| post_bad_asset (m : list (pystr * jval)) (a : pystr) :
    is_Some (asked_id m) -> asked_address m a -> asked_asset m <> JStr (cfg_asset cfg) ->
    post_spec st (JObj m) (refused (str "asset") (UnsupportedAsset (asked_asset m))) st
| post_bad_amount (m : list (pystr * jval)) (id : Z) (a : pystr) (why : amount_error) :
    addressed m id a -> asked_amount m = Err (AmountError why) ->
    post_spec st (JObj m) (refused (str "amount") (BadAmount why)) st
| post_oversized (m : list (pystr * jval)) (id : Z) (a : pystr) :
    addressed m id a -> asked_amount m = Err IntDigitsError ->
    post_spec st (JObj m) (mkResponse 500 BServerError false) st
| post_too_small (m : list (pystr * jval)) (id : Z) (a : pystr) (n : Z) :
    addressed m id a -> asked_amount m = Ok n -> n < cfg_min_amount_units cfg ->
    post_spec st (JObj m) (refused (str "amount") (Msg (str "below minimum"))) st
| post_too_large (m : list (pystr * jval)) (id : Z) (a : pystr) (n : Z) :
    addressed m id a -> asked_amount m = Ok n -> cfg_min_amount_units cfg <= n -> cfg_max_amount_units cfg < n ->
    post_spec st (JObj m) (refused (str "amount") (Msg (str "above per-operation maximum"))) st
| post_replayed (m : list (pystr * jval)) (id : Z) (a : pystr) (n : Z) (row : Operation) :
    asks m id a n -> get id st = Some row -> op_request_hash row = request_hash a n (cfg_asset cfg) ->
    post_spec st (JObj m) (mkResponse 200 (BOperation (public_view row)) true) st
| post_mismatch (m : list (pystr * jval)) (id : Z) (a : pystr) (n : Z) (row : Operation) :
    asks m id a n -> get id st = Some row -> op_request_hash row <> request_hash a n (cfg_asset cfg) ->
    post_spec st (JObj m) (mkResponse 409 (BMismatch id) false) st
| post_created (m : list (pystr * jval)) (id : Z) (a : pystr) (n : Z) (st' : MemoryStore) :
    asks m id a n -> added (asked_row id a n) st st' ->
    post_spec st (JObj m) (mkResponse 201 (BOperation (public_view (asked_row id a n))) false) st'.

(** What [read_request] makes of an object. *)
Lemma read_request_cases (m : list (pystr * jval)) (st : MemoryStore) :
  match read_request ucd cfg (JObj m) with
  | Ok op => exists id a n, asks m id a n /\
      op = new_operation id (request_hash a n (cfg_asset cfg)) REQUESTED a (cfg_asset cfg) n
  | Err e => post_spec st (JObj m) (answer (Err e)) st
  end.
Proof.
  unfold read_request. fold (asked_id m) (asked_asset m) (asked_amount m).
  destruct (asked_id m) as [id |] eqn:Eid; cbn [result_bind]; [| by apply post_bad_id].
  assert (forall a, get_or (str "to_address") JNull m = JStr a -> is_valid (JStr a) = true -> asked_address m a)
    as Hgood by by split.
  assert ((forall a, get_or (str "to_address") JNull m = JStr a -> is_valid (JStr a) <> true) ->
    post_spec st (JObj m) (answer (Err (ValidationError (str "to_address")
      (Msg (str "not a valid TRON base58check address"))))) st) as Hbad.
  { intros Hno. apply post_bad_address; [by rewrite Eid | intros a [E1 E2]; by eapply Hno]. }
  destruct (get_or (str "to_address") JNull m) as [| | | | a | |]; try (by apply Hbad).
  specialize (Hgood a eq_refl). destruct (is_valid (JStr a)) eqn:Ev; cbn [result_bind].
  2:{ apply Hbad. intros a' [= <-]. congruence. }
  specialize (Hgood eq_refl). case_bool_decide as Ha; cbn [negb].
  2:{ eapply post_bad_asset; [by rewrite Eid | exact Hgood | exact Ha]. }
  assert (addressed m id a) as Hok by (split_and!; [exact Eid | exact Hgood | exact Ha]).
  destruct (asked_amount m) as [n | [why |]] eqn:En; cbn [result_bind];
    [| by eapply post_bad_amount | by eapply post_oversized].
  destruct (Z.ltb_spec n (cfg_min_amount_units cfg)); [by eapply post_too_small |].
  destruct (Z.ltb_spec (cfg_max_amount_units cfg) n); [by eapply post_too_large |].
  exists id, a, n. split; [| done]. split_and!; try done; lia.
Qed.

Lemma insert_added (op : Operation) (st : MemoryStore) :
  get (op_operation_id op) st = None -> op_state op = REQUESTED ->
  added (set_updated_at (Some now) (set_created_at (Some now) op)) st (snd (insert_new now op st)).
Proof.
  intros Hn Hs. unfold added, insert_new, get in *. rewrite Hn. cbn. split_and!; [done | apply lookup_insert_eq | |].
  - intros id Hid. by apply lookup_insert_ne.
  - eexists. by split_and!.
Qed.

End post.


(** The status link works: a GET under the id printed in the answer to a
    POST that created an operation answers 200 with that operation, as it is
    after whatever happened to it in between. *)
Theorem created_is_found (ucd : Z -> option Z) (cfg : Config) (now : Z) (payload : jval)
    (st st1 st2 : MemoryStore) (row : Operation) :
  rtc store_step empty_store st ->
  submit_withdrawal ucd cfg now payload st = (Ok (row, true), st1) -> rtc store_step st1 st2 ->
  exists current, get (op_operation_id row) st2 = Some current /\ terms current = terms row /\
  get_withdrawal ucd (uuid_str (op_operation_id row)) st2 =
  mkResponse 200 (BOperation (public_view current)) false.
Proof.
  intros Hreach Hsub Hsteps. pose proof (store_steps_wf _ _ Hreach empty_store_wf) as Hwf.
  destruct (read_request ucd cfg payload) as [op | e] eqn:Hread;
    [| unfold submit_withdrawal in Hsub; by rewrite Hread in Hsub].
  destruct (read_request_ok _ _ _ _ Hread) as (_ & _ & Hid & _ & Htok).
  destruct (ms_ops st !! op_operation_id op) as [r |] eqn:Er.
  { rewrite (submit_taken _ _ _ _ _ _ _ Hread Er) in Hsub. by destruct (decide _). }
  rewrite (submit_fresh _ _ _ _ _ _ Hread Er) in Hsub. injection Hsub as <- <-.
  assert (0 <= op_fencing_token op) as H0 by lia.
  destruct (store_steps_row _ _ _ _ (insert_new_wf now op st H0 Hwf) Hsteps (insert_fresh_row now op st Er))
    as (current & Hcur & Ht & _).
  exists current. split_and!; [done | done |]. unfold get_withdrawal.
  change (op_operation_id (set_updated_at _ _)) with (op_operation_id op).
  rewrite UUID_uuid_str by done. cbn [store_get MemoryStore_protocol]. unfold get. by rewrite Hcur.
Qed.

Lemma created_is_found_witness :
  exists current, get (op_operation_id demo_created) (snd demo_submit) = Some current /\
  terms current = terms demo_created /\
  get_withdrawal no_ucd (uuid_str (op_operation_id demo_created)) (snd demo_submit) =
  mkResponse 200 (BOperation (public_view current)) false.
Proof.
  apply (created_is_found no_ucd default_config t0 (demo_payload (str "1.5")) empty_store (snd demo_submit)
    (snd demo_submit) demo_created).
  - apply rtc_refl.
  - vm_compute. reflexivity.
  - apply rtc_refl.
Defined.

(** C29. Defense in depth agrees with the front door: a worker never rejects an
    operation that intake accepted under the same configuration; on any later
    version of the row its validation step is the write to [VALIDATED]. *)
Theorem intake_passes_validation (ucd : Z -> option Z) (cfg : Config) (now : Z) (payload : jval)
    (st st1 : MemoryStore) (row current : Operation) (worker_id : pystr) :
  submit_withdrawal ucd cfg now payload st = (Ok (row, true), st1) -> terms current = terms row ->
  _validate cfg current worker_id = _cas cfg current VALIDATED worker_id [] [].
Proof.
  intros Hsub Ht.
  destruct (read_request ucd cfg payload) as [op | e] eqn:Hread;
    [| unfold submit_withdrawal in Hsub; by rewrite Hread in Hsub].
  destruct (read_request_ok _ _ _ _ Hread) as (Hv & _).
  destruct (ms_ops st !! op_operation_id op) as [r |] eqn:Er.
  { rewrite (submit_taken _ _ _ _ _ _ _ Hread Er) in Hsub. by destruct (decide _). }
  rewrite (submit_fresh _ _ _ _ _ _ Hread Er) in Hsub. injection Hsub as <- <-.
  destruct (validated_terms cfg op current Ht Hv) as (H1 & H2 & H3 & H4). unfold _validate.
  rewrite H1, bool_decide_eq_true_2 by done. cbn [negb].
  destruct (Z.leb_spec (cfg_min_amount_units cfg) (op_amount_units current)); [| lia].
  by destruct (Z.leb_spec (op_amount_units current) (cfg_max_amount_units cfg)); [| lia].
Qed.

Lemma intake_passes_validation_witness :
  _validate default_config demo_created (str "w1") = _cas default_config demo_created VALIDATED (str "w1") [] [].
Proof.
  apply (intake_passes_validation no_ucd default_config t0 (demo_payload (str "1.5")) empty_store
    (snd demo_submit) demo_created demo_created (str "w1")).
  - vm_compute. reflexivity.
  - reflexivity.
Defined.

(** C34. An oversized amount is answered with a server error: a well-formed
    request whose amount has 4301 digits gets 500, not the documented 422. *)
Theorem oversized_amount_is_500 (ucd : Z -> option Z) (st : MemoryStore) :
  rs_status (fst (post_withdrawal ucd default_config t0 (demo_payload (replicate 4301 57)) st)) = 500.
Proof.
  unfold post_withdrawal, demo_payload, submit_withdrawal, read_request.
  change (parse_operation_id ucd _) with (UUID ucd (uuid_str 7)).
  rewrite UUID_uuid_str by done. vm_compute. reflexivity.
Qed.
