(* ===== verification/Postgres.v ===== *)
(** * The Postgres store ([sluice/store/postgres.py], [migrations/001_schema.sql])

    Each method is one transaction, so one step here; [now] is the
    transaction's [now()].  What the code relies on of SQL is written out: an
    [UPDATE] that assigns a column twice is refused before it runs, a value that
    does not fit the type of its column is an error, the [BEFORE UPDATE] trigger
    checks the transition and stamps [updated_at], the partial unique index
    refuses a txid another row holds, and an error rolls the transaction back.
    What the driver and the server do with texts, JSON values and the sequence
    of event ids is a parameter, [PgServer].  The theorems compare the store
    with [MemoryStore], operation by operation.

    Errors of the connection (lost, deadlocked, out of space) are left out: they
    roll back too.  Where several values of one call are refused, only which
    error is reported depends on the order chosen here. *)
From Stdlib Require Import ZArith Lia.
From stdpp Require Import base option strings gmap sorting list.
From S2P Require Import Prelude Text Json Datetime States Wire Model Store.

Local Open Scope Z_scope.

Inductive pg_exn : Type :=
| AppError (e : exn)                      (* raised before any SQL runs *)
| TextRefused                             (* a text: NUL, a lone surrogate, its size *)
| JsonRefused                             (* 22P02, 22P05: no JSON, or NUL in a string *)
| MultipleAssignments (column : pystr)    (* 42601 *)
| CheckViolation                          (* 23514: the trigger, or amount_units > 0 *)
| NumericOverflow                         (* 22003: int, bigint, numeric(38,0) *)
| DatetimeOverflow                        (* 22008; past year 9999, the driver's error *)
| UniqueViolation (txid : pystr).         (* 23505: operations_txid_unique *)

(** The driver and the server: [jsonb v] is the stored form of a JSON value (key
    order, number format), [None] if it is refused; [accepts c t] whether the
    text [t] can be stored in column [c]; [nextval id log] the event id the
    sequence gives to the next event of operation [id]. *)
Record PgServer : Type := mkServer {
  jsonb : jval -> option jval;
  accepts : pystr -> pystr -> bool;
  nextval : Z -> list Event -> Z
}.

Definition intake_detail : list (pystr * jval) := [(str "intake", JBool true)].

(** Documented behaviour: an object of one boolean is stored as it is.  A
    sequence gives no id twice; ids may have gaps and, across operations, may
    be committed out of order, but the events of one operation are appended
    under the lock of its row, so their ids grow. *)
Record documented (sv : PgServer) : Prop := {
  intake_stored : jsonb sv (JObj intake_detail) = Some (JObj intake_detail);
  nextval_fresh : forall id log e, e ∈ log -> ev_seq e <> nextval sv id log;
  nextval_grows : forall id log e, e ∈ log -> ev_operation_id e = id -> ev_seq e < nextval sv id log
}.

Record PgStore : Type := mkPg {
  pg_ops : gmap Z Operation;
  pg_events : list Event                  (* in the order they were committed *)
}.

Definition empty_pg : PgStore := mkPg ∅ [].

(** A signed integer column of [w] bits. *)
Definition fits (w n : Z) : bool := (- 2 ^ (w - 1) <=? n) && (n <? 2 ^ (w - 1)).

(** The value of a column its type refuses: [attempts int], [fencing_token] and
    [included_block bigint], and a lease the server cannot store or the driver
    cannot load, whose dates end with year 9999 (the session is in UTC). *)
Definition row_error (row : Operation) : option pg_exn :=
  if negb (fits 32 (op_attempts row) && fits 64 (op_fencing_token row) &&
           match op_included_block row with Some n => fits 64 n | None => true end)
  then Some NumericOverflow
  else match op_lease_expires_at row with
       | Some t => if decide (representable t) then None else Some DatetimeOverflow
       | None => None
       end.

Section postgres.
Context (sv : PgServer).

Definition stored_detail (detail : list (pystr * jval)) : option (list (pystr * jval)) :=
  match jsonb sv (JObj detail) with
  | Some (JObj d) => Some d
  | _ => None
  end.

(** [INSERT INTO operation_events]. *)
Definition pg_append (now id : Z) (from_state : option OpState) (to_state : OpState)
    (worker_id : option pystr) (token : Z) (detail : list (pystr * jval)) (st : PgStore)
    : result pg_exn PgStore :=
  if negb (match worker_id with Some w => accepts sv (str "worker_id") w | None => true end)
  then Err TextRefused
  else
    match stored_detail detail with
    | None => Err JsonRefused
    | Some d =>
        Ok (mkPg (pg_ops st)
              (pg_events st ++ [mkEvent id from_state to_state worker_id token d now
                                        (nextval sv id (pg_events st))]))
    end.

(** ** [UPDATE operations SET ... WHERE ...] *)

(** One assignment of a SET list. *)
Inductive clause : Type :=
| SetState (s : OpState)
| SetField (f : FieldSet)
| SetLease (at_ : option Z)
| SetClaimedBy (who : option pystr)
| SetToken (token : Z).

Definition clause_column (c : clause) : pystr :=
  match c with
  | SetState _ => str "state"
  | SetField f => column f
  | SetLease _ => str "lease_expires_at"
  | SetClaimedBy _ => str "claimed_by"
  | SetToken _ => str "fencing_token"
  end.

Definition assign (op : Operation) (c : clause) : Operation :=
  match c with
  | SetState s => set_state s op
  | SetField f => setattr op f
  | SetLease at_ => set_lease_expires_at at_ op
  | SetClaimedBy who => set_claimed_by who op
  | SetToken token => set_fencing_token token op
  end.

(** The first column assigned twice: the parser refuses the statement. *)
Fixpoint repeated (cols : list pystr) : option pystr :=
  match cols with
  | [] => None
  | c :: cols => if bool_decide (c ∈ cols) then Some c else repeated cols
  end.

(** The partial unique index on [txid]. *)
Definition txid_taken (id : Z) (row : Operation) (ops : gmap Z Operation) : option pystr :=
  match op_txid row with
  | None => None
  | Some t =>
      if forallb (fun kv => bool_decide (fst kv = id) || negb (bool_decide (op_txid (snd kv) = Some t)))
                 (map_to_list ops)
      then None else Some t
  end.

(** Updating the one row the WHERE clause found: columns, trigger, index. *)
Definition update_row (now id : Z) (clauses : list clause) (op : Operation) (ops : gmap Z Operation)
    : result pg_exn Operation :=
  let new := fold_left assign clauses op in
  match row_error new with
  | Some e => Err e
  | None =>
      match Sql.op_transition_guard (op_state op) (op_state new) with
      | Err _ => Err CheckViolation
      | Ok _ =>
          let new := set_updated_at (Some now) new in
          match txid_taken id new ops with
          | Some t => Err (UniqueViolation t)
          | None => Ok new
          end
      end
  end.

(** ** [insert_new] and [get] *)

Definition pg_insert_new (now : Z) (op : Operation) (st : PgStore)
    : result pg_exn (Operation * bool) * PgStore :=
  if negb (accepts sv (str "to_address") (op_to_address op) && accepts sv (str "asset") (op_asset op))
  then (Err TextRefused, st)
  else if negb (Z.abs (op_amount_units op) <? 10 ^ 38) then (Err NumericOverflow, st)
  else if negb (0 <? op_amount_units op) then (Err CheckViolation, st)
  else
    match pg_ops st !! op_operation_id op with
    | Some existing => (Ok (existing, false), st)
    | None =>
        let row := set_updated_at (Some now) (set_created_at (Some now)
          (new_operation (op_operation_id op) (op_request_hash op) (op_state op) (op_to_address op)
             (op_asset op) (op_amount_units op))) in
        match pg_append now (op_operation_id op) None (op_state op) None 0 intake_detail
                (mkPg (<[op_operation_id op := row]> (pg_ops st)) (pg_events st)) with
        | Err e => (Err e, st)
        | Ok st' => (Ok (row, true), st')
        end
    end.

Definition pg_get (id : Z) (st : PgStore) : option Operation := pg_ops st !! id.

(** ** [claim] *)

(** [lease_expires_at IS NULL OR lease_expires_at < now()]. *)
Definition lease_free (now : Z) (op : Operation) : bool :=
  match op_lease_expires_at op with
  | None => true
  | Some lease => lease <? now
  end.

Definition created_le (a b : Operation) : Prop :=
  default 0 (op_created_at a) <= default 0 (op_created_at b).

#[export] Instance created_le_dec : RelDecision created_le.
Proof. intros a b. unfold created_le. apply _. Defined.

(** [scan] is the rows not locked by others, in the order the scan meets them
    (which breaks ties of [created_at]).  SQL leaves the order of the returned
    rows open; here they come oldest first, and no theorem depends on it. *)
Definition pg_picked (wanted : list OpState) (limit : nat) (now : Z) (scan : list Operation)
    : list Operation :=
  take limit (merge_sort created_le (filter (fun op => op_state op ∈ wanted /\ lease_free now op = true) scan)).

Definition claim_clauses (worker_id : pystr) (lease now : Z) (op : Operation) : list clause :=
  [SetClaimedBy (Some worker_id); SetLease (Some (now + lease)); SetToken (op_fencing_token op + 1)].

Fixpoint pg_claim_rows (worker_id : pystr) (lease now : Z) (picked : list Operation)
    (ops : gmap Z Operation) : result pg_exn (list Operation * gmap Z Operation) :=
  match picked with
  | [] => Ok ([], ops)
  | op :: picked =>
      match update_row now (op_operation_id op) (claim_clauses worker_id lease now op) op ops with
      | Err e => Err e
      | Ok row =>
          match pg_claim_rows worker_id lease now picked (<[op_operation_id op := row]> ops) with
          | Err e => Err e
          | Ok (out, ops) => Ok (row :: out, ops)
          end
      end
  end.

(** [make_interval(secs => ...)]: 64-bit microseconds. *)
Definition interval_fits (lease : Z) : bool := fits 64 lease.

Definition pg_claim (wanted : list OpState) (limit : nat) (worker_id : pystr) (lease now : Z)
    (scan : list Operation) (st : PgStore) : result pg_exn (list Operation) * PgStore :=
  if negb (accepts sv (str "claimed_by") worker_id) then (Err TextRefused, st)
  else if negb (interval_fits lease) then (Err DatetimeOverflow, st)
  else
    match pg_claim_rows worker_id lease now (pg_picked wanted limit now scan) (pg_ops st) with
    | Err e => (Err e, st)
    | Ok (out, ops) => (Ok out, mkPg ops (pg_events st))
    end.

(** ** [cas] *)

Definition column_le (a b : FieldSet) : Prop := str_leb (column a) (column b) = true.

#[export] Instance column_le_dec : RelDecision column_le.
Proof. intros a b. unfold column_le. apply _. Defined.

(** The driver dumps the texts. *)
Definition text_fits (f : FieldSet) : bool :=
  match f with
  | Set_txid (Some t) | Set_last_error (Some t) | Set_failure_reason (Some t) => accepts sv (column f) t
  | _ => true
  end.

(** [Jsonb(v) if col in _JSONB_FIELDS and v is not None else v]. *)
Definition param (f : FieldSet) : option FieldSet :=
  match f with
  | Set_unsigned_tx (Some v) => (fun v => Set_unsigned_tx (Some v)) <$> jsonb sv v
  | Set_signed_tx (Some v) => (fun v => Set_signed_tx (Some v)) <$> jsonb sv v
  | f => Some f
  end.

(** The integers are cast to the types of their columns when the statement is
    planned. *)
Definition number_fits (f : FieldSet) : bool :=
  match f with
  | Set_attempts n => fits 32 n
  | Set_included_block (Some n) => fits 64 n
  | _ => true
  end.

(** The SET list, in the order the code appends to [clauses]. *)
Definition cas_clauses (now : Z) (to_state : OpState) (sets : list FieldSet) (renew : option Z)
    : list clause :=
  [SetState to_state] ++
  (SetField <$> merge_sort column_le sets) ++
  (match renew with Some lease => [SetLease (Some (now + lease))] | None => [] end) ++
  (if bool_decide (to_state ∈ TERMINAL) then [SetClaimedBy None; SetLease None] else []).

Definition pg_cas (now : Z) (id token : Z) (from_state to_state : OpState) (sets : list FieldSet)
    (detail : list (pystr * jval)) (renew : option Z) (worker_id : option pystr)
    (st : PgStore) : result pg_exn (option Operation) * PgStore :=
  if negb (forallb (fun f => bool_decide (column f ∈ MUTABLE_FIELDS)) sets) then
    (Err (AppError ValueError), st)
  else if negb (can_transition from_state to_state) then
    (Err (AppError (EIllegalTransition (mkIllegalTransition from_state to_state))), st)
  else
    if negb (forallb text_fits sets) then (Err TextRefused, st)
    else
      match repeated (map clause_column (cas_clauses now to_state sets renew)) with
      | Some c => (Err (MultipleAssignments c), st)
      | None =>
          match mapM param sets with
          | None => (Err JsonRefused, st)
          | Some bound =>
              if negb (forallb number_fits sets) then (Err NumericOverflow, st)
              else if negb (match renew with Some lease => interval_fits lease | None => true end)
              then (Err DatetimeOverflow, st)
              else
                match pg_ops st !! id with
                | None => (Ok None, st)
                | Some op =>
                    if negb (op_fencing_token op =? token) || negb (bool_decide (op_state op = from_state))
                    then (Ok None, st)
                    else
                      match update_row now id (cas_clauses now to_state bound renew) op (pg_ops st) with
                      | Err e => (Err e, st)
                      | Ok row =>
                          match pg_append now id (Some from_state) to_state worker_id token detail
                                  (mkPg (<[id := row]> (pg_ops st)) (pg_events st)) with
                          | Err e => (Err e, st)
                          | Ok st' => (Ok (Some row), st')
                          end
                      end
                end
          end
      end.

(** ** [release] and [events] *)

Definition pg_release (now id token : Z) (st : PgStore) : result pg_exn unit * PgStore :=
  match pg_ops st !! id with
  | None => (Ok tt, st)
  | Some op =>
      if negb (op_fencing_token op =? token) ||
         bool_decide (OpState_value (op_state op) ∈ Sql.terminal_literals)
      then (Ok tt, st)
      else
        match update_row now id [SetClaimedBy None; SetLease None] op (pg_ops st) with
        | Err e => (Err e, st)
        | Ok row => (Ok tt, mkPg (<[id := row]> (pg_ops st)) (pg_events st))
        end
  end.

Definition seq_le (a b : Event) : Prop := ev_seq a <= ev_seq b.

#[export] Instance seq_le_dec : RelDecision seq_le.
Proof. intros a b. unfold seq_le. apply _. Defined.

(** [WHERE operation_id = ... ORDER BY event_id]. *)
Definition pg_events_of (id : Z) (st : PgStore) : list Event :=
  merge_sort seq_le (filter (fun e => ev_operation_id e = id) (pg_events st)).

End postgres.

(** [detail ->> 'txid'] where [detail ? 'txid']: NULL for a JSON null, the
    string itself for a string, the server's text of anything else. *)
Definition detail_txid (jsonb_text : jval -> pystr) (e : Event) : option pystr :=
  match assoc (str "txid") (ev_detail e) with
  | Some (JStr t) => Some t
  | Some JNull | None => None
  | Some v => Some (jsonb_text v)
  end.

Definition pg_all_txids (jsonb_text : jval -> pystr) (id : Z) (st : PgStore) : list pystr :=
  filter (fun t => t <> []) (remove_dups (omap (detail_txid jsonb_text) (pg_events_of id st))).

(** ** Lemmas: the SET list *)

Lemma setattr_comm (op : Operation) (f g : FieldSet) :
  column f <> column g -> setattr (setattr op f) g = setattr (setattr op g) f.
Proof. intros Hne. destruct f, g; solve [reflexivity | by destruct Hne]. Qed.

(** A dict has each key once, so the order of its assignments is irrelevant. *)
Lemma setattrs_perm (l l' : list FieldSet) :
  l ≡ₚ l' -> NoDup (column <$> l) -> forall op, setattrs op l = setattrs op l'.
Proof.
  unfold setattrs.
  induction 1 as [| f l l' Hp IH | f g l | l1 l2 l3 H12 IH12 H23 IH23]; intros Hnd op; [done | ..].
  - apply NoDup_cons in Hnd as [_ Hnd]. apply (IH Hnd).
  - simpl. rewrite setattr_comm; [done |]. apply NoDup_cons in Hnd as [Hg _]. intros E.
    apply Hg. cbn [fmap list_fmap]. rewrite E. apply list_elem_of_here.
  - rewrite (IH12 Hnd). apply IH23. by rewrite <- H12.
Qed.

Lemma assign_fields (l : list FieldSet) (s : OpState) (op : Operation) :
  fold_left assign (SetField <$> l) (set_state s op) = set_state s (setattrs op l).
Proof.
  revert op. induction l as [|f l IH]; intros op; [done |]. cbn [fmap list_fmap fold_left].
  change (setattrs op (f :: l)) with (setattrs (setattr op f) l). rewrite <- IH. f_equal.
  by destruct f.
Qed.

Lemma repeated_app (l1 l2 : list pystr) :
  NoDup l1 -> (forall c, c ∈ l1 -> c ∉ l2) -> repeated (l1 ++ l2) = repeated l2.
Proof.
  induction l1 as [|c l1 IH]; intros Hnd Hdisj; [done |]. apply NoDup_cons in Hnd as [Hc Hnd].
  simpl. rewrite bool_decide_eq_false_2.
  - apply IH; [done |]. intros c' Hc'. apply Hdisj. by right.
  - rewrite elem_of_app. intros [H | H]; [done |]. exact (Hdisj c (list_elem_of_here _ _) H).
Qed.

(** ** Lemmas: the unique index and the trigger *)

Definition txids_unique (ops : gmap Z Operation) : Prop :=
  forall i j oi oj t, ops !! i = Some oi -> ops !! j = Some oj ->
  op_txid oi = Some t -> op_txid oj = Some t -> i = j.

Lemma txid_taken_None (id : Z) (row : Operation) (ops : gmap Z Operation) :
  txid_taken id row ops = None <->
  forall i o t, ops !! i = Some o -> op_txid o = Some t -> op_txid row = Some t -> i = id.
Proof.
  unfold txid_taken. destruct (op_txid row) as [t |]; [| split; [intros; congruence | done]].
  destruct (forallb _ _) eqn:E; split; try done.
  - intros _ i o t' Hi Ho [= <-]. rewrite forallb_forall in E.
    specialize (E (i, o)). rewrite <- list_elem_of_In in E.
    apply elem_of_map_to_list, E, orb_true_iff in Hi as [H | H].
    + by apply bool_decide_eq_true in H.
    + apply negb_true_iff, bool_decide_eq_false in H. done.
  - intros H. exfalso. rewrite <- not_true_iff_false in E. apply E, forallb_forall.
    intros [i o] Hin. rewrite <- list_elem_of_In in Hin. apply elem_of_map_to_list in Hin. simpl.
    destruct (bool_decide_reflect (op_txid o = Some t)) as [Ho |]; [| apply orb_true_r].
    rewrite (H i o t Hin Ho eq_refl), bool_decide_eq_true_2; done.
Qed.

Lemma txid_taken_Some (id : Z) (row : Operation) (ops : gmap Z Operation) (t : pystr) :
  txid_taken id row ops = Some t -> op_txid row = Some t /\
  exists i o, i <> id /\ ops !! i = Some o /\ op_txid o = Some t.
Proof.
  unfold txid_taken. destruct (op_txid row) as [t' |]; [| done].
  destruct (forallb _ _) eqn:E; [done |]. intros [= ->]. split; [done |].
  rewrite <- not_true_iff_false, forallb_forall in E.
  destruct (decide (Exists (fun kv => fst kv <> id /\ op_txid (snd kv) = Some t) (map_to_list ops)))
    as [([i o] & Hin & H1 & H2)%Exists_exists | Hno].
  - exists i, o. by apply elem_of_map_to_list in Hin.
  - exfalso. apply E. intros [i o] Hin. rewrite <- list_elem_of_In in Hin.
    apply orb_true_iff. rewrite negb_true_iff, bool_decide_eq_true, bool_decide_eq_false. simpl.
    destruct (decide (i = id)); [by left | right]. intros Ho. apply Hno, Exists_exists.
    by exists (i, o).
Qed.

Lemma txids_unique_insert (id : Z) (row : Operation) (ops : gmap Z Operation) :
  txids_unique ops -> txid_taken id row ops = None -> txids_unique (<[id := row]> ops).
Proof.
  intros Hu. rewrite txid_taken_None. intros Hrow i j oi oj t.
  rewrite !lookup_insert_Some. intros [[<- <-] | [_ Hi]] [[<- <-] | [_ Hj]] Ti Tj; try done.
  - symmetry. exact (Hrow _ _ _ Hj Tj Ti).
  - exact (Hrow _ _ _ Hi Ti Tj).
  - exact (Hu _ _ _ _ _ Hi Hj Ti Tj).
Qed.

Lemma terminal_literal (s : OpState) : OpState_value s ∈ Sql.terminal_literals <-> s ∈ TERMINAL.
Proof.
  rewrite elem_of_TERMINAL. unfold Sql.terminal_literals. split.
  - destruct s; intros H; in_list H; vm_compute in H; try discriminate H; auto.
  - intros [-> | [-> | ->]]; repeat constructor.
Qed.

(** ** Lemmas: [cas] against the in-memory store *)

(** The log with the numbers an in-memory store would give it. *)
Definition with_seq (n : Z) (e : Event) : Event :=
  mkEvent (ev_operation_id e) (ev_from_state e) (ev_to_state e) (ev_worker_id e) (ev_fencing_token e)
    (ev_detail e) (ev_at e) n.

Definition renumber (l : list Event) : list Event := imap (fun i e => with_seq (1 + Z.of_nat i) e) l.

Lemma renumber_app (l : list Event) (e : Event) :
  renumber (l ++ [e]) = renumber l ++ [with_seq (1 + Z.of_nat (length l)) e].
Proof. unfold renumber. rewrite imap_app. cbn. by rewrite Nat.add_0_r. Qed.

Lemma length_renumber (l : list Event) : length (renumber l) = length l.
Proof. apply length_imap. Qed.

(** The same rows and log as a [MemoryStore], with some arrival numbers. *)
Definition as_memory (order : Z) (arrival : gmap Z Z) (st : PgStore) : MemoryStore :=
  mkStore (pg_ops st) (renumber (pg_events st)) order arrival (1 + Z.of_nat (length (pg_events st))).

Lemma row_error_None (row : Operation) :
  row_error row = None <->
  fits 32 (op_attempts row) = true /\ fits 64 (op_fencing_token row) = true /\
  (forall n, op_included_block row = Some n -> fits 64 n = true) /\
  (forall t, op_lease_expires_at row = Some t -> representable t).
Proof.
  unfold row_error. destruct (fits 32 _); [| split; [done | by intros [? _]]].
  destruct (fits 64 _); [| split; [done | by intros (_ & ? & _)]].
  destruct (op_included_block row) as [n |]; cbn [andb]; [destruct (fits 64 n) eqn:En |];
    cbn [negb]; [| split; [done | intros (_ & _ & H & _); by rewrite (H n eq_refl) in En] |].
  all: destruct (op_lease_expires_at row) as [t |]; [destruct (decide _) |];
    (split; [intros E; split_and!; try done; by intros ? [= <-] | try done; intros (_ & _ & _ & H); exfalso; auto]).
Qed.

Section cas.
Context (sv : PgServer).

(** What a call's JSON values become on the way to the table. *)
Definition stored_sets (sets : list FieldSet) : list FieldSet :=
  (fun f => default f (param sv f)) <$> sets.

Lemma column_param (f g : FieldSet) : param sv f = Some g -> column g = column f.
Proof.
  destruct f as [[] | | | [] | | | | | | |]; cbn; try (by intros [= <-]);
    destruct (jsonb _ _); by intros [= <-].
Qed.

Lemma mapM_param (sets bound : list FieldSet) : mapM (param sv) sets = Some bound -> bound = stored_sets sets.
Proof.
  revert bound. induction sets as [|f sets IH]; intros bound; cbn; [by intros [= <-] |].
  destruct (param sv f) as [g |]; [| done]. cbn. destruct (mapM _ sets) as [b |]; [| done]. cbn.
  intros [= <-]. by rewrite (IH b eq_refl).
Qed.

Lemma columns_stored (l : list FieldSet) : column <$> stored_sets l = column <$> l.
Proof.
  unfold stored_sets. rewrite <- list_fmap_compose. apply list_fmap_ext. intros i f _. simpl.
  destruct (param sv f) as [g |] eqn:E; [by apply column_param | done].
Qed.

Lemma mutable_columns (l l' : list FieldSet) :
  column <$> l = column <$> l' ->
  forallb (fun f => bool_decide (column f ∈ MUTABLE_FIELDS)) l =
  forallb (fun f => bool_decide (column f ∈ MUTABLE_FIELDS)) l'.
Proof.
  revert l'. induction l as [|f l IH]; intros [|f' l'] E; try done. cbn [fmap list_fmap] in E.
  injection E as E1 E2. cbn [forallb]. by rewrite E1, (IH l' E2).
Qed.

Lemma number_fits_stored (sets : list FieldSet) :
  forallb number_fits sets = true -> forallb number_fits (stored_sets sets) = true.
Proof.
  induction sets as [|f sets IH]; [done |]. cbn [forallb]. intros [H1 H2]%andb_true_iff.
  change (stored_sets (f :: sets)) with (default f (param sv f) :: stored_sets sets).
  cbn [forallb]. rewrite (IH H2), andb_true_r.
  destruct f as [[] | | | [] | | | | | | |]; try done; cbn; by destruct (jsonb _ _).
Qed.

(** The row the statement computes is the row [MemoryStore.cas] computes. *)
Lemma assign_cas_clauses (now : Z) (to_state : OpState) (sets : list FieldSet) (renew : option Z)
    (op : Operation) :
  NoDup (column <$> sets) ->
  set_updated_at (Some now) (fold_left assign (cas_clauses now to_state sets renew) op) =
  cas_row now to_state sets renew op.
Proof.
  intros Hnd. unfold cas_clauses, cas_row. rewrite !fold_left_app.
  change (fold_left assign [SetState to_state] op) with (set_state to_state op).
  rewrite assign_fields, (setattrs_perm (merge_sort column_le sets) sets).
  - destruct renew; case_bool_decide; reflexivity.
  - by rewrite merge_sort_Permutation.
  - by rewrite merge_sort_Permutation.
Qed.

Lemma clause_columns (now : Z) (to_state : OpState) (sets : list FieldSet) (renew : option Z) :
  map clause_column (cas_clauses now to_state sets renew) =
  (str "state" :: (column <$> merge_sort column_le sets)) ++
  (match renew with Some _ => [str "lease_expires_at"] | None => [] end ++
   if bool_decide (to_state ∈ TERMINAL) then [str "claimed_by"; str "lease_expires_at"] else []).
Proof.
  unfold cas_clauses. rewrite !map_app, app_assoc. f_equal.
  - cbn [map app]. f_equal. change (@map ?A ?B) with (@fmap list _ A B).
    by rewrite <- list_fmap_compose.
  - f_equal; [by destruct renew | by case_bool_decide].
Qed.

Lemma state_columns_disjoint (c : pystr) :
  c = str "state" \/ c ∈ MUTABLE_FIELDS -> c <> str "lease_expires_at" /\ c <> str "claimed_by".
Proof.
  unfold MUTABLE_FIELDS. intros [-> | H]; [| in_list H; subst c]; split; by vm_compute.
Qed.

(** The only column a statement can assign twice is the lease, when the write
    renews it and drops it at the same time. *)
Lemma repeated_cas_clauses (now : Z) (to_state : OpState) (sets : list FieldSet) (renew : option Z) :
  NoDup (column <$> sets) ->
  forallb (fun f => bool_decide (column f ∈ MUTABLE_FIELDS)) sets = true ->
  repeated (map clause_column (cas_clauses now to_state sets renew)) =
  match renew with
  | Some _ => if bool_decide (to_state ∈ TERMINAL) then Some (str "lease_expires_at") else None
  | None => None
  end.
Proof.
  intros Hnd Hmut. rewrite clause_columns.
  assert (forall c, c ∈ column <$> merge_sort column_le sets -> c ∈ MUTABLE_FIELDS) as Hm.
  { intros c. rewrite merge_sort_Permutation. intros (f & -> & Hf)%list_elem_of_fmap.
    rewrite forallb_forall in Hmut. specialize (Hmut f). rewrite <- list_elem_of_In in Hmut.
    by apply bool_decide_eq_true in Hmut. }
  rewrite repeated_app.
  - destruct renew; case_bool_decide; reflexivity.
  - apply NoDup_cons. split; [| by rewrite merge_sort_Permutation].
    intros H%Hm. revert H. apply (bool_decide_unpack (_ ∉ _)). by vm_compute.
  - intros c Hc Hin. apply elem_of_cons in Hc.
    destruct (state_columns_disjoint c) as [H1 H2]; [destruct Hc; auto |].
    destruct renew; case_bool_decide; cbn [app] in Hin; in_list Hin; done.
Qed.

(** A column write that fits leaves a row that fits. *)
Lemma setattrs_fit (sets : list FieldSet) (op : Operation) :
  forallb number_fits sets = true -> row_error op = None ->
  fits 32 (op_attempts (setattrs op sets)) = true /\
  forall n, op_included_block (setattrs op sets) = Some n -> fits 64 n = true.
Proof.
  unfold setattrs. revert op. induction sets as [|f sets IH]; intros op Hs Hop; cbn [fold_left].
  { by apply row_error_None in Hop as (? & _ & ? & _). }
  cbn in Hs. apply andb_true_iff in Hs as [Hf Hs]. apply IH; [done |].
  apply row_error_None. apply row_error_None in Hop as (H1 & H2 & H3 & H4).
  destruct f; try done. split_and!; try done. cbn. intros n ->. exact Hf.
Qed.

Lemma cas_row_error (now : Z) (to_state : OpState) (sets : list FieldSet) (renew : option Z) (op : Operation) :
  forallb number_fits sets = true -> row_error op = None -> (is_Some renew -> to_state ∉ TERMINAL) ->
  row_error (cas_row now to_state sets renew op) =
  match renew with
  | Some lease => if decide (representable (now + lease)) then None else Some DatetimeOverflow
  | None => None
  end.
Proof.
  intros Hs Hop Ht. destruct (setattrs_fit sets op Hs Hop) as [F1 F2].
  destruct (setattrs_frame sets op) as (_ & _ & F3 & _ & F4 & _).
  apply row_error_None in Hop as (_ & G1 & _ & G2). rewrite <- F3 in G1. rewrite <- F4 in G2.
  unfold cas_row, cas_half, row_error. destruct renew as [lease |].
  - rewrite bool_decide_eq_false_2 by (apply Ht; by eexists). cbn. rewrite F1, G1. cbn.
    destruct (op_included_block (setattrs op sets)) as [n |] eqn:En; [by rewrite (F2 n eq_refl) | done].
  - apply row_error_None. case_bool_decide; cbn; split_and!; done.
Qed.

Lemma update_row_cas (now id : Z) (to_state : OpState) (sets : list FieldSet) (renew : option Z)
    (op : Operation) (ops : gmap Z Operation) :
  NoDup (column <$> sets) -> can_transition (op_state op) to_state = true ->
  let row := cas_row now to_state sets renew op in
  update_row now id (cas_clauses now to_state sets renew) op ops =
  match row_error row with
  | Some e => Err e
  | None =>
      if bool_decide (op_state op ∈ TERMINAL) then Err CheckViolation
      else match txid_taken id row ops with Some t => Err (UniqueViolation t) | None => Ok row end
  end.
Proof.
  intros Hnd Hc row. unfold update_row.
  pose proof (assign_cas_clauses now to_state sets renew op Hnd) as Hrow. fold row in Hrow.
  set (new := fold_left _ _ _) in *.
  change (row_error new) with (row_error (set_updated_at (Some now) new)).
  assert (op_state new = to_state) as Hs.
  { change (op_state new) with (op_state (set_updated_at (Some now) new)). rewrite Hrow.
    apply cas_row_frame. }
  rewrite Hs, Hrow. destruct (row_error row); [done |].
  destruct (Sql.op_transition_guard (op_state op) to_state) as [[] | e] eqn:E.
  - apply guard_agrees in E as [_ E]. by rewrite bool_decide_eq_false_2.
  - rewrite bool_decide_eq_true_2; [done |].
    destruct (decide (op_state op ∈ TERMINAL)) as [|Hn]; [done | exfalso].
    pose proof (proj2 (guard_agrees _ _) (conj Hc Hn)). congruence.
Qed.

End cas.

(** ** Lemmas: [claim] *)

Lemma update_row_claim (worker_id : pystr) (lease now : Z) (op : Operation) (ops : gmap Z Operation) :
  update_row now (op_operation_id op) (claim_clauses worker_id lease now op) op ops =
  match row_error (take_claim now lease worker_id op) with
  | Some e => Err e
  | None =>
      if bool_decide (op_state op ∈ TERMINAL) then Err CheckViolation
      else match txid_taken (op_operation_id op) op ops with
           | Some t => Err (UniqueViolation t)
           | None => Ok (take_claim now lease worker_id op)
           end
  end.
Proof.
  unfold update_row. cbn -[Sql.op_transition_guard txid_taken row_error].
  change (row_error (set_fencing_token ?t ?o)) with (row_error (take_claim now lease worker_id op)).
  destruct (row_error _); [done |].
  destruct (Sql.op_transition_guard _ _) as [[] | e] eqn:E.
  - apply guard_agrees in E as [_ E]. by rewrite bool_decide_eq_false_2.
  - rewrite bool_decide_eq_true_2; [done |].
    destruct (decide (op_state op ∈ TERMINAL)) as [|Hn]; [done | exfalso].
    pose proof (proj2 (guard_agrees _ _) (conj (can_transition_refl _) Hn)). congruence.
Qed.

Lemma txids_unique_same (id : Z) (op row : Operation) (ops : gmap Z Operation) :
  txids_unique ops -> ops !! id = Some op -> op_txid row = op_txid op ->
  txid_taken id row ops = None.
Proof.
  intros Hu Hid E. apply txid_taken_None. rewrite E. intros i o t Hi Ho Hop. eauto.
Qed.

(** A statement that goes through wrote the rows [take_claim] describes. *)
Lemma pg_claim_rows_ok (worker_id : pystr) (lease now : Z) (picked : list Operation)
    (ops ops' : gmap Z Operation) (out : list Operation) :
  NoDup (op_operation_id <$> picked) ->
  pg_claim_rows worker_id lease now picked ops = Ok (out, ops') ->
  out = (take_claim now lease worker_id <$> picked) /\ ops' = list_to_map (keyed out) ∪ ops /\
  Forall (fun op => (op_state op ∉ TERMINAL) /\ row_error (take_claim now lease worker_id op) = None) picked.
Proof.
  revert ops ops' out. induction picked as [|op l IH]; intros ops ops' out Hnd.
  { intros [= <- <-]. simpl. by rewrite (left_id_L ∅ (∪)). }
  apply NoDup_cons in Hnd as [Hop Hnd]. cbn [pg_claim_rows]. rewrite update_row_claim.
  destruct (row_error _) eqn:Ee; [done |]. destruct (bool_decide_reflect (op_state op ∈ TERMINAL)) as [|Ht]; [done |].
  destruct (txid_taken _ _ _); [done |].
  destruct (pg_claim_rows _ _ _ l _) as [[out' ops1] | e] eqn:E; [| done]. intros [= <- <-].
  apply IH in E as (-> & -> & Hf); [| done]. split_and!; [done | | by constructor].
  cbn [keyed fmap list_fmap list_to_map foldr]. rewrite <- insert_union_r, <- insert_union_l; [done |].
  apply not_elem_of_list_to_map_1. rewrite keyed_fst, <- list_fmap_compose. exact Hop.
Qed.

(** It does go through when it picks live rows of a table with unique txids. *)
Lemma pg_claim_rows_succeeds (worker_id : pystr) (lease now : Z) (picked : list Operation)
    (ops : gmap Z Operation) :
  txids_unique ops -> NoDup (op_operation_id <$> picked) ->
  (forall op, op ∈ picked -> ops !! op_operation_id op = Some op /\ (op_state op ∉ TERMINAL) /\
     row_error (take_claim now lease worker_id op) = None) ->
  exists out ops', pg_claim_rows worker_id lease now picked ops = Ok (out, ops').
Proof.
  revert ops. induction picked as [|op l IH]; intros ops Hu Hnd Hp; [by eexists _, _ |].
  apply NoDup_cons in Hnd as [Hop Hnd]. destruct (Hp op (list_elem_of_here _ _)) as (Hin & Ht & He).
  cbn [pg_claim_rows]. rewrite update_row_claim, He, bool_decide_eq_false_2 by done.
  rewrite (txids_unique_same _ op) by done.
  destruct (IH (<[op_operation_id op := take_claim now lease worker_id op]> ops)) as (out & ops' & ->);
    [| done | | by eexists _, _].
  - by apply txids_unique_insert, (txids_unique_same _ op).
  - intros o Ho. destruct (Hp o (list_elem_of_further _ _ _ Ho)) as [Ho1 Ho2]. split; [| done].
    rewrite lookup_insert_ne; [done |]. intros E. apply Hop, list_elem_of_fmap. by exists o.
Qed.

(** What the scan of a claim may see: rows of the table, each once, except the
    ones other transactions have locked. *)
Definition pg_scan (scan : list Operation) (st : PgStore) : Prop :=
  exists locked, scan ++ locked ≡ₚ (snd <$> map_to_list (pg_ops st)).

Lemma pg_picked_sublist (wanted : list OpState) (limit : nat) (now : Z) (scan : list Operation) :
  exists rest, pg_picked wanted limit now scan ++ rest ≡ₚ scan.
Proof.
  unfold pg_picked. set (m := merge_sort _ _).
  set (P := fun op => op_state op ∈ wanted /\ lease_free now op = true) in m.
  exists (drop limit m ++ filter (fun op => ~ P op) scan).
  rewrite app_assoc, take_drop. unfold m. rewrite merge_sort_Permutation. clear m.
  induction scan as [|x l IH]; [done |]. rewrite !filter_cons.
  destruct (decide (P x)) as [Hx|Hx].
  - rewrite decide_False by tauto. simpl. by rewrite IH.
  - rewrite decide_True by done. rewrite <- Permutation_middle. by rewrite IH.
Qed.

Lemma pg_picked_elem (wanted : list OpState) (limit : nat) (now : Z) (scan : list Operation)
    (op : Operation) :
  op ∈ pg_picked wanted limit now scan ->
  op ∈ scan /\ op_state op ∈ wanted /\ lease_free now op = true.
Proof.
  unfold pg_picked. intros H. pose proof (elem_of_sublist _ _ _ H (sublist_take _ _)) as H'.
  rewrite merge_sort_Permutation, list_elem_of_filter in H'. tauto.
Qed.

Lemma pg_scan_rows (scan : list Operation) (st : PgStore) :
  (forall id op, pg_ops st !! id = Some op -> op_operation_id op = id) -> pg_scan scan st ->
  NoDup (op_operation_id <$> scan) /\
  (forall op, op ∈ scan -> pg_ops st !! op_operation_id op = Some op).
Proof.
  intros Hkey (locked & Hp). split.
  - assert (NoDup (op_operation_id <$> (scan ++ locked))) as Hnd.
    { rewrite Hp, <- list_fmap_compose.
      erewrite list_fmap_ext; [apply NoDup_fst_map_to_list |].
      intros i [id op] Hi. apply list_elem_of_lookup_2, elem_of_map_to_list in Hi.
      by apply Hkey. }
    rewrite fmap_app in Hnd. by apply NoDup_app in Hnd as [? _].
  - intros op Hop. assert (op ∈ scan ++ locked) as H by (apply elem_of_app; by left).
    rewrite Hp in H. apply list_elem_of_fmap in H as ([id o] & -> & Ho).
    apply elem_of_map_to_list in Ho. simpl. by rewrite (Hkey _ _ Ho).
Qed.

Lemma pg_picked_rows (wanted : list OpState) (limit : nat) (now : Z) (scan : list Operation)
    (st : PgStore) :
  (forall id op, pg_ops st !! id = Some op -> op_operation_id op = id) -> pg_scan scan st ->
  NoDup (op_operation_id <$> pg_picked wanted limit now scan) /\
  (forall op, op ∈ pg_picked wanted limit now scan -> pg_ops st !! op_operation_id op = Some op).
Proof.
  intros Hkey Hs. apply pg_scan_rows; [done |]. destruct Hs as (locked & Hp).
  destruct (pg_picked_sublist wanted limit now scan) as (rest & Hr).
  exists (rest ++ locked). by rewrite app_assoc, Hr.
Qed.

(** ** The store over time *)

Section steps.
Context (sv : PgServer) (Hsv : documented sv).

(** Any transaction of the store, with any arguments. *)
Inductive pg_step (st : PgStore) : PgStore -> Prop :=
| pg_step_insert (now : Z) (op : Operation) : pg_step st (snd (pg_insert_new sv now op st))
| pg_step_claim (wanted : list OpState) (limit : nat) (worker_id : pystr) (lease now : Z)
    (scan : list Operation) :
    pg_scan scan st -> pg_step st (snd (pg_claim sv wanted limit worker_id lease now scan st))
| pg_step_cas (now id token : Z) (from_state to_state : OpState) (sets : list FieldSet)
    (detail : list (pystr * jval)) (renew : option Z) (worker_id : option pystr) :
    NoDup (column <$> sets) ->
    pg_step st (snd (pg_cas sv now id token from_state to_state sets detail renew worker_id st))
| pg_step_release (now id token : Z) : pg_step st (snd (pg_release now id token st)).

Record pg_inv (st : PgStore) : Prop := {
  pi_memory : exists order arrival,
    store_wf (as_memory order arrival st) /\ audited (as_memory order arrival st);
  pi_txid : txids_unique (pg_ops st);
  pi_amount : forall id op, pg_ops st !! id = Some op -> 0 < op_amount_units op < 10 ^ 38;
  pi_fits : forall id op, pg_ops st !! id = Some op -> row_error op = None;
  pi_ids : NoDup (ev_seq <$> pg_events st);
  pi_order : forall id, StronglySorted seq_le (filter (fun e => ev_operation_id e = id) (pg_events st))
}.

Lemma pi_key (st : PgStore) (id : Z) (op : Operation) :
  pg_inv st -> pg_ops st !! id = Some op -> op_operation_id op = id.
Proof. intros [(o & a & Hwf & _) _ _ _ _ _]. apply (wf_key _ Hwf). Qed.

(** ** The log *)

Lemma seq_inj (l : list Event) (e e' : Event) :
  NoDup (ev_seq <$> l) -> e ∈ l -> e' ∈ l -> ev_seq e = ev_seq e' -> e = e'.
Proof.
  induction l as [|x l IH]; intros Hnd He He' E; [by apply elem_of_nil in He |].
  cbn in Hnd. apply NoDup_cons in Hnd as [Hx Hnd].
  apply elem_of_cons in He as [-> | He], He' as [-> | He']; try done; [| | by apply IH];
    exfalso; apply Hx, list_elem_of_fmap; [exists e' | exists e]; done.
Qed.

(** [ORDER BY event_id] is the order of commits, for the events of one operation. *)
Lemma pg_events_of_filter (st : PgStore) (id : Z) :
  NoDup (ev_seq <$> pg_events st) ->
  StronglySorted seq_le (filter (fun e => ev_operation_id e = id) (pg_events st)) ->
  pg_events_of id st = filter (fun e => ev_operation_id e = id) (pg_events st).
Proof.
  intros Hnd Hs. unfold pg_events_of. set (l := filter _ _) in *.
  apply (StronglySorted_unique_strong seq_le).
  - intros x y Hx Hy Hxy Hyx. rewrite merge_sort_Permutation in Hx.
    apply (seq_inj (pg_events st)); [done | | | unfold seq_le in *; lia];
      by eapply list_elem_of_filter.
  - apply StronglySorted_merge_sort.
    + intros a b c. unfold seq_le. lia.
    + intros a b. unfold seq_le. lia.
  - done.
  - apply merge_sort_Permutation.
Qed.

Lemma StronglySorted_snoc {A : Type} (R : A -> A -> Prop) (l : list A) (x : A) :
  StronglySorted R l -> (forall y, y ∈ l -> R y x) -> StronglySorted R (l ++ [x]).
Proof.
  induction 1 as [|y l Hs IH Hy]; intros Hx; cbn [app]; [by constructor; [constructor |] |].
  constructor; [apply IH; intros z Hz; apply Hx; by right |].
  apply Forall_app. split; [done |]. apply Forall_singleton, Hx. left.
Qed.

(** The next event keeps ids distinct and, within its operation, growing. *)
Lemma next_event_ids (log : list Event) (e : Event) :
  ev_seq e = nextval sv (ev_operation_id e) log ->
  NoDup (ev_seq <$> log) ->
  (forall id, StronglySorted seq_le (filter (fun e => ev_operation_id e = id) log)) ->
  NoDup (ev_seq <$> log ++ [e]) /\
  (forall id, StronglySorted seq_le (filter (fun e => ev_operation_id e = id) (log ++ [e]))).
Proof.
  intros Eseq Hnd Hs. split.
  - rewrite fmap_app. apply NoDup_app. split_and!; [done | | by apply NoDup_singleton].
    intros n (e' & -> & He')%list_elem_of_fmap Hn. cbn in Hn. apply list_elem_of_singleton in Hn.
    apply (nextval_fresh _ Hsv (ev_operation_id e) log e' He'). congruence.
  - intros id. rewrite filter_app, filter_cons, filter_nil. destruct (decide _) as [Eid |]; [| by rewrite app_nil_r].
    apply StronglySorted_snoc; [done |]. intros e' [He' Hin]%list_elem_of_filter. unfold seq_le.
    rewrite Eseq, Eid. apply Z.lt_le_incl, (nextval_grows _ Hsv); done.
Qed.

Lemma pg_append_ok (now id : Z) (from_state : option OpState) (to_state : OpState)
    (worker_id : option pystr) (token : Z) (detail : list (pystr * jval)) (st st' : PgStore) :
  pg_append sv now id from_state to_state worker_id token detail st = Ok st' ->
  exists d, stored_detail sv detail = Some d /\
  st' = mkPg (pg_ops st) (pg_events st ++
          [mkEvent id from_state to_state worker_id token d now (nextval sv id (pg_events st))]).
Proof.
  unfold pg_append. destruct (negb _); [done |]. destruct (stored_detail sv detail) as [d |]; [| done].
  intros [= <-]. by exists d.
Qed.

Lemma as_memory_append (now id : Z) (from_state : option OpState) (to_state : OpState)
    (worker_id : option pystr) (token : Z) (d : list (pystr * jval)) (seq : Z)
    (ops : gmap Z Operation) (log : list Event) (order : Z) (arrival : gmap Z Z) :
  append_event now id from_state to_state worker_id token d (as_memory order arrival (mkPg ops log)) =
  as_memory order arrival (mkPg ops (log ++ [mkEvent id from_state to_state worker_id token d now seq])).
Proof.
  unfold append_event, as_memory. cbn. rewrite renumber_app, length_app. cbn.
  f_equal. lia.
Qed.

(** ** What each transaction does *)

(** The columns [INSERT] writes; the rest take their defaults. *)
Definition inserted (op : Operation) : Operation :=
  new_operation (op_operation_id op) (op_request_hash op) (op_state op) (op_to_address op)
    (op_asset op) (op_amount_units op).

Lemma intake_append (now id : Z) (s : OpState) (st : PgStore) :
  pg_append sv now id None s None 0 intake_detail st =
  Ok (mkPg (pg_ops st) (pg_events st ++
        [mkEvent id None s None 0 intake_detail now (nextval sv id (pg_events st))])).
Proof. unfold pg_append, stored_detail. by rewrite (intake_stored _ Hsv). Qed.

Lemma pg_insert_cases (now : Z) (op : Operation) (st : PgStore) (order : Z) (arrival : gmap Z Z) :
  let '(r, st') := pg_insert_new sv now op st in
  (st' = st /\ forall row, r <> Ok (row, true)) \/
  (exists row arrival', 0 < op_amount_units op < 10 ^ 38 /\
     row = set_updated_at (Some now) (set_created_at (Some now) (inserted op)) /\
     r = Ok (row, true) /\ pg_ops st !! op_operation_id op = None /\
     st' = mkPg (<[op_operation_id op := row]> (pg_ops st)) (pg_events st ++
       [mkEvent (op_operation_id op) None (op_state op) None 0 intake_detail now
          (nextval sv (op_operation_id op) (pg_events st))]) /\
     insert_new now (inserted op) (as_memory order arrival st) =
       ((row, true), as_memory (order + 1) arrival' st')).
Proof.
  unfold pg_insert_new. destruct (negb (_ && _)); [by left |].
  destruct (Z.ltb_spec (Z.abs (op_amount_units op)) (10 ^ 38)) as [Ha |]; [| by left].
  destruct (Z.ltb_spec 0 (op_amount_units op)) as [H0 |]; [| by left]. cbn [negb].
  destruct (pg_ops st !! op_operation_id op) as [e |] eqn:E; [left; split; [done | by intros ? [=]] |].
  rewrite intake_append. cbn [pg_ops pg_events].
  right. eexists _, (<[op_operation_id op := order]> arrival). split_and!; try done; [lia |].
  unfold insert_new. cbn [ms_ops as_memory op_operation_id inserted new_operation]. rewrite E.
  rewrite <- as_memory_append. reflexivity.
Qed.

Lemma pg_cas_cases (now id token : Z) (from_state to_state : OpState) (sets : list FieldSet)
    (detail : list (pystr * jval)) (renew : option Z) (worker_id : option pystr) (st : PgStore) :
  NoDup (column <$> sets) ->
  let '(r, st') := pg_cas sv now id token from_state to_state sets detail renew worker_id st in
  (st' = st /\ forall row, r <> Ok (Some row)) \/
  (exists op d, let row := cas_row now to_state (stored_sets sv sets) renew op in
     pg_ops st !! id = Some op /\ op_fencing_token op = token /\ op_state op = from_state /\
     (from_state ∉ TERMINAL) /\ (is_Some renew -> to_state ∉ TERMINAL) /\
     (forall lease, renew = Some lease -> representable (now + lease)) /\
     stored_detail sv detail = Some d /\ row_error row = None /\ txid_taken id row (pg_ops st) = None /\
     r = Ok (Some row) /\
     st' = mkPg (<[id := row]> (pg_ops st)) (pg_events st ++
       [mkEvent id (Some from_state) to_state worker_id token d now (nextval sv id (pg_events st))]) /\
     forall order arrival,
     cas now id token from_state to_state (stored_sets sv sets) d renew
       worker_id (as_memory order arrival st) = (Ok (Some row), as_memory order arrival st')).
Proof.
  intros Hnd. unfold pg_cas. destruct (forallb (fun f => bool_decide _) _) eqn:Em; [| by left].
  destruct (can_transition _ _) eqn:Ec; [| by left]. cbn [negb].
  destruct (forallb (text_fits sv) sets); [| by left]. cbn [negb].
  rewrite repeated_cas_clauses by done.
  destruct (match renew with Some _ => _ | None => _ end) eqn:Er; [by left |].
  destruct (mapM (param sv) sets) as [bound |] eqn:Eb; [| by left].
  pose proof (mapM_param sv sets bound Eb) as ->. clear Eb.
  destruct (forallb number_fits sets); [| by left]. cbn [negb].
  destruct (match renew with Some lease => interval_fits lease | None => true end); [| by left]. cbn [negb].
  destruct (pg_ops st !! id) as [op |] eqn:E; [| by left].
  destruct (Z.eqb_spec (op_fencing_token op) token) as [Et |]; [| by left].
  destruct (bool_decide_reflect (op_state op = from_state)) as [Es |]; [| by left]. cbn [negb orb].
  rewrite (update_row_cas now id to_state (stored_sets sv sets)) by (rewrite ?columns_stored, ?Es; done).
  destruct (row_error _) eqn:Ee; [by left |].
  destruct (bool_decide_reflect (op_state op ∈ TERMINAL)) as [|Ht]; [by left |].
  destruct (txid_taken _ _ _) eqn:Etx; [by left |].
  destruct (pg_append _ _ _ _ _ _ _ _ _) as [st' | e] eqn:Ea; [| by left].
  apply pg_append_ok in Ea as (d & Ed & ->). right. exists op, d.
  assert (is_Some renew -> to_state ∉ TERMINAL) as Hlive by (intros [l ->]; by case_bool_decide).
  assert (forall lease, renew = Some lease -> representable (now + lease)) as Hfit.
  { intros lease ->. apply row_error_None in Ee as (_ & _ & _ & Hl). apply Hl.
    unfold cas_row. by rewrite bool_decide_eq_false_2 by (apply Hlive; by eexists). }
  split_and!; try done; [by rewrite <- Es |].
  intros order arrival. unfold cas.
  rewrite (mutable_columns (stored_sets sv sets) sets (columns_stored sv sets)), Em, Ec. cbn [negb ms_ops as_memory].
  rewrite E, Et, Z.eqb_refl, Es, bool_decide_eq_true_2 by done. cbn [negb orb].
  rewrite bool_decide_eq_false_2 by (by rewrite <- Es).
  destruct (renewed_lease now renew) as [l | e] eqn:El.
  - rewrite <- as_memory_append. reflexivity.
  - exfalso. unfold renewed_lease in El. destruct renew as [lease |]; [| done].
    by rewrite plus_timedelta_fits in El by auto.
Qed.

Lemma pg_release_cases (now id token : Z) (st : PgStore) :
  let '(r, st') := pg_release now id token st in
  st' = st \/
  (exists op, pg_ops st !! id = Some op /\ (op_state op ∉ TERMINAL) /\
     let row := set_updated_at (Some now) (set_lease_expires_at None (set_claimed_by None op)) in
     row_error row = None /\ txid_taken id op (pg_ops st) = None /\
     st' = mkPg (<[id := row]> (pg_ops st)) (pg_events st) /\
     forall order arrival, release now id token (as_memory order arrival st) = as_memory order arrival st').
Proof.
  unfold pg_release. destruct (pg_ops st !! id) as [op |] eqn:E; [| by left].
  destruct (Z.eqb_spec (op_fencing_token op) token) as [Et |]; [| by left]. cbn [negb orb].
  case_bool_decide as Hlit; [by left |]. rewrite terminal_literal in Hlit.
  unfold update_row. cbn -[Sql.op_transition_guard txid_taken row_error].
  destruct (row_error _) eqn:Ee; [by left |].
  destruct (Sql.op_transition_guard _ _); [| by left].
  destruct (txid_taken _ _ _) eqn:Etx; [by left |]. right. exists op. split_and!; try done.
  intros order arrival. unfold release. cbn [ms_ops as_memory]. by rewrite E, Et, Z.eqb_refl.
Qed.

Lemma pg_claim_row (wanted : list OpState) (limit : nat) (worker_id : pystr) (lease now : Z)
    (scan : list Operation) (st : PgStore) :
  (forall id op, pg_ops st !! id = Some op -> op_operation_id op = id) -> pg_scan scan st ->
  let st' := snd (pg_claim sv wanted limit worker_id lease now scan st) in
  pg_events st' = pg_events st /\
  forall id, pg_ops st' !! id = pg_ops st !! id \/
  exists op, pg_ops st !! id = Some op /\ (op_state op ∉ TERMINAL) /\
  row_error (take_claim now lease worker_id op) = None /\
  pg_ops st' !! id = Some (take_claim now lease worker_id op).
Proof.
  intros Hkey Hs. destruct (pg_picked_rows wanted limit now scan st Hkey Hs) as [Hnd Hin].
  unfold pg_claim. destruct (negb _); [by auto |]. destruct (negb _); [by auto |].
  destruct (pg_claim_rows _ _ _ _ _) as [[out ops'] | e] eqn:E; [| by auto].
  apply pg_claim_rows_ok in E as (-> & -> & Hf); [| done]. cbn [snd pg_events pg_ops].
  split_and!; [done |]. intros id. rewrite lookup_union.
  destruct (list_to_map (keyed _) !! id) as [row |] eqn:Er;
    [right | left; apply (left_id_L None (∪))].
  apply elem_of_list_to_map_2 in Er. apply list_elem_of_fmap in Er as (row' & [= -> <-] & Hrow).
  apply list_elem_of_fmap in Hrow as (op & -> & Hop). exists op. rewrite Forall_forall in Hf.
  destruct (Hf op Hop) as [Hf1 Hf2].
  split_and!; [exact (Hin op Hop) | done | done | by rewrite union_Some_l].
Qed.

(** ** The invariant *)

(** Rows unchanged, or rewritten with the same txid and amount. *)
Lemma pg_inv_rows (st st' : PgStore) :
  pg_inv st -> pg_events st' = pg_events st ->
  (forall id, pg_ops st' !! id = pg_ops st !! id \/
   exists op row, pg_ops st !! id = Some op /\ pg_ops st' !! id = Some row /\
   terms row = terms op /\ op_state row = op_state op /\ op_txid row = op_txid op /\
   op_fencing_token op <= op_fencing_token row /\ row_error row = None) ->
  pg_inv st'.
Proof.
  intros [(o & a & Hwf & Hau) Hu Ha Hf Hids Hord] He Hrows.
  assert (forall id row, pg_ops st' !! id = Some row -> exists op,
    pg_ops st !! id = Some op /\ terms row = terms op /\ op_txid row = op_txid op /\
    op_state row = op_state op /\ row_error row = None) as Hback.
  { intros id row Hid. destruct (Hrows id) as [E | (op & r & H1 & H2 & H3 & H5 & H4 & _ & H6)].
    - rewrite Hid in E. exists row. split_and!; [done.. | by eapply Hf].
    - rewrite Hid in H2. injection H2 as ->. by exists op. }
  split.
  - exists o, a. unfold as_memory. rewrite He. split.
    + apply (wf_same_rows (as_memory o a st)); [done |]. intros id. simpl.
      destruct (Hrows id) as [-> | (op & row & -> & -> & H)]; [apply same_rows_refl | tauto].
    + apply (audited_same_states (as_memory o a st)); [done |]. intros id row Hid. cbn in *.
      destruct (Hback id row Hid) as (op & Hop & _ & _ & E & _). by exists op.
  - intros i j oi oj t Hi Hj Ti Tj.
    apply Hback in Hi as (oi' & Hi & _ & Ei & _), Hj as (oj' & Hj & _ & Ej & _).
    apply (Hu i j oi' oj' t); congruence.
  - intros id row Hid. apply Hback in Hid as (op & Hop & Et & _). apply Ha in Hop.
    by injection Et as _ _ _ _ ->.
  - intros id row Hid. by apply Hback in Hid as (_ & _ & _ & _ & _ & ?).
  - by rewrite He.
  - intros id. by rewrite He.
Qed.

Lemma pg_inv_cas (now id token : Z) (from_state to_state : OpState) (sets : list FieldSet)
    (detail : list (pystr * jval)) (renew : option Z) (worker_id : option pystr) (st : PgStore) :
  NoDup (column <$> sets) -> pg_inv st ->
  pg_inv (snd (pg_cas sv now id token from_state to_state sets detail renew worker_id st)).
Proof.
  intros Hnd Hinv.
  pose proof (pg_cas_cases now id token from_state to_state sets detail renew worker_id st Hnd) as H.
  destruct (pg_cas _ _ _ _ _ _ _ _ _ _ _) as [r st']. cbn [snd].
  destruct H as [[-> _] | (op & d & Hid & _ & _ & _ & _ & Hfit & _ & He & Htx & _ & -> & Hmem)]; [done |].
  destruct Hinv as [(o & a & Hwf & Hau) Hu Ha Hf Hids Hord]. split; cbn [pg_ops pg_events].
  - exists o, a. specialize (Hmem o a).
    pose proof (cas_wf now id token from_state to_state (stored_sets sv sets) d renew worker_id _ Hwf) as H1.
    pose proof (cas_audited now id token from_state to_state (stored_sets sv sets) d renew worker_id _ Hwf Hau Hfit) as H2.
    by rewrite Hmem in H1, H2.
  - by apply txids_unique_insert.
  - intros i o'. rewrite lookup_insert_Some. intros [[<- <-] | [_ H]]; [| by apply (Ha i)].
    destruct (cas_row_frame now to_state (stored_sets sv sets) renew op) as (Et & _).
    injection Et as _ _ _ _ ->. by apply (Ha id).
  - intros i o'. rewrite lookup_insert_Some. intros [[<- <-] | [_ H]]; [done | by apply (Hf i)].
  - by apply next_event_ids.
  - by apply next_event_ids.
Qed.

Lemma inserted_fits (now : Z) (op : Operation) :
  row_error (set_updated_at (Some now) (set_created_at (Some now) (inserted op))) = None.
Proof. by apply row_error_None. Qed.

Lemma pg_inv_insert (now : Z) (op : Operation) (st : PgStore) :
  pg_inv st -> pg_inv (snd (pg_insert_new sv now op st)).
Proof.
  intros [(o & a & Hwf & Hau) Hu Ha Hf Hids Hord]. pose proof (pg_insert_cases now op st o a) as H.
  destruct (pg_insert_new _ _ _ _) as [r st']. cbn [snd].
  destruct H as [[-> _] | (row & a' & Hamt & -> & _ & _ & -> & Hmem)]; [split; eauto |].
  split; cbn [pg_ops pg_events].
  - exists (o + 1), a'. pose proof (insert_new_wf now (inserted op) _ (Z.le_refl 0) Hwf) as H1.
    pose proof (insert_new_audited now (inserted op) _ Hwf Hau) as H2. by rewrite Hmem in H1, H2.
  - apply txids_unique_insert; [done |]. by apply txid_taken_None.
  - intros i r'. rewrite lookup_insert_Some. intros [[<- <-] | [_ H]]; [done | by apply (Ha i)].
  - intros i r'. rewrite lookup_insert_Some. intros [[<- <-] | [_ H]]; [apply inserted_fits | by apply (Hf i)].
  - by apply next_event_ids.
  - by apply next_event_ids.
Qed.

Lemma pg_step_inv (st st' : PgStore) : pg_step st st' -> pg_inv st -> pg_inv st'.
Proof.
  intros [now op | wanted limit worker_id lease now scan Hs
         | now id token f t sets detail renew w Hnd | now id token] Hinv.
  - by apply pg_inv_insert.
  - destruct (pg_claim_row wanted limit worker_id lease now scan st) as (H1 & H3);
      [eauto using pi_key | done |].
    apply (pg_inv_rows st); try done. intros id.
    destruct (H3 id) as [H | (op & Hop & _ & He & H)]; [by left | right].
    exists op, (take_claim now lease worker_id op). split_and!; try done. simpl. lia.
  - by apply pg_inv_cas.
  - pose proof (pg_release_cases now id token st) as H.
    destruct (pg_release now id token st) as [r st1] eqn:E. cbn [snd].
    destruct H as [-> | (op & Hop & _ & He & _ & -> & _)]; [done |].
    apply (pg_inv_rows st); try done. intros i. cbn [pg_ops].
    destruct (decide (i = id)) as [-> |]; [right | left; by rewrite lookup_insert_ne].
    rewrite lookup_insert_eq. eexists op, _. by split_and!.
Qed.

Lemma empty_pg_inv : pg_inv empty_pg.
Proof.
  assert (forall i o, (∅ : gmap Z Operation) !! i = Some o -> False) as Hnone
    by (intros i o H; by rewrite lookup_empty in H).
  split; cbn; try (by intros; exfalso; eauto).
  - exists 0, ∅. split; [apply empty_store_wf | apply empty_store_audited].
  - intros i j oi oj t Hi. by destruct (Hnone i oi).
  - constructor.
  - intros id. constructor.
Qed.

Lemma pg_steps_inv (st st' : PgStore) : rtc pg_step st st' -> pg_inv st -> pg_inv st'.
Proof. induction 1; eauto using pg_step_inv. Qed.

Lemma pg_step_terminal (st st' : PgStore) (id : Z) (op : Operation) :
  pg_inv st -> pg_step st st' -> pg_ops st !! id = Some op -> op_state op ∈ TERMINAL ->
  pg_ops st' !! id = Some op.
Proof.
  intros Hinv [now op' | wanted limit worker_id lease now scan Hs
         | now k token f t sets detail renew w Hnd | now k token] Hid Ht.
  - pose proof (pg_insert_cases now op' st 0 ∅) as H. destruct (pg_insert_new _ _ _ _) as [r st1].
    cbn [snd]. destruct H as [[-> _] | (row & a' & _ & _ & _ & Hnone & -> & _)]; [done |].
    cbn. rewrite lookup_insert_ne; [done | congruence].
  - destruct (pg_claim_row wanted limit worker_id lease now scan st) as (_ & H3);
      [eauto using pi_key | done |].
    destruct (H3 id) as [-> | (o & Ho & Hn & _)]; [done |]. congruence.
  - pose proof (pg_cas_cases now k token f t sets detail renew w st Hnd) as H.
    destruct (pg_cas _ _ _ _ _ _ _ _ _ _ _) as [r st1]. cbn [snd].
    destruct H as [[-> _] | (o & d & Ho & _ & Hs & Hn & _ & _ & _ & _ & _ & _ & -> & _)]; [done |].
    cbn. rewrite lookup_insert_ne; [done |]. intros ->. congruence.
  - pose proof (pg_release_cases now k token st) as H.
    destruct (pg_release now k token st) as [r st1]. cbn [snd].
    destruct H as [-> | (o & Ho & Hn & _ & _ & -> & _)]; [done |].
    cbn. rewrite lookup_insert_ne; [done |]. intros ->. congruence.
Qed.

End steps.

Lemma pg_picked_fifo (wanted : list OpState) (limit : nat) (now : Z) (scan : list Operation)
    (op : Operation) :
  op ∈ scan -> op_state op ∈ wanted -> lease_free now op = true ->
  op ∈ pg_picked wanted limit now scan \/
  (length (pg_picked wanted limit now scan) = limit /\
   forall o, o ∈ pg_picked wanted limit now scan -> created_le o op).
Proof.
  intros Hs Hw Hl. unfold pg_picked. set (l := merge_sort _ _).
  assert (op ∈ l) as Hin by (unfold l; by rewrite merge_sort_Permutation, list_elem_of_filter).
  rewrite <- (take_drop limit l) in Hin. apply elem_of_app in Hin as [Hin | Hin]; [by left | right].
  split.
  - apply length_take_le. destruct (decide (limit <= length l)%nat); [done |].
    rewrite drop_ge in Hin by lia. by apply elem_of_nil in Hin.
  - intros o Ho. eapply (StronglySorted_app_le _ (take limit l) (drop limit l)); [| done..].
    rewrite take_drop. apply StronglySorted_merge_sort.
    + intros a b c. unfold created_le. lia.
    + intros a b. unfold created_le. lia.
Qed.

(** The log an in-memory store would keep, operation by operation. *)
Lemma renumber_with_seq (l : list Event) : with_seq 0 <$> renumber l = with_seq 0 <$> l.
Proof.
  induction l as [|e l IH] using rev_ind; [done |]. rewrite renumber_app, !fmap_app, IH. done.
Qed.

Lemma filter_with_seq (id : Z) (l : list Event) :
  with_seq 0 <$> filter (fun e => ev_operation_id e = id) l =
  filter (fun e => ev_operation_id e = id) (with_seq 0 <$> l).
Proof.
  induction l as [|e l IH]; [done |]. cbn [fmap list_fmap]. rewrite !filter_cons.
  change (ev_operation_id (with_seq 0 e)) with (ev_operation_id e).
  destruct (decide _); cbn [fmap list_fmap]; by rewrite IH.
Qed.

Lemma pg_log_agrees (id : Z) (st : PgStore) (order : Z) (arrival : gmap Z Z) :
  with_seq 0 <$> events id (as_memory order arrival st) =
  with_seq 0 <$> filter (fun e => ev_operation_id e = id) (pg_events st).
Proof. unfold events. cbn. by rewrite !filter_with_seq, renumber_with_seq. Qed.

Lemma audit_trail_numbers (l : list Event) (s : OpState) : audit_trail l s <-> audit_trail (with_seq 0 <$> l) s.
Proof.
  split.
  - induction 1 as [e He | l s e Hl IH He Ht Hn Hf]; [exact (trail_intake (with_seq 0 e) He) |].
    rewrite fmap_app. apply (trail_write _ s (with_seq 0 e)); try done. by apply Forall_fmap.
  - intros H. remember (with_seq 0 <$> l) as l0 eqn:E. revert l E.
    induction H as [e He | l0 s e Hl IH He Ht Hn Hf]; intros l E.
    + destruct l as [|x [|y l]]; try done. injection E as ->. exact (trail_intake x He).
    + symmetry in E. apply fmap_app_inv in E as (l1 & l2 & -> & E2 & ->).
      destruct l2 as [|x [|y l2]]; try done. injection E2 as ->.
      apply (trail_write l1 s x); try done; [by apply IH | exact (proj1 (Forall_fmap _ _ _) Hf)].
Qed.

(** The txids of an operation are those the in-memory store reports, as long as
    the log holds txids as non-empty strings. *)
Lemma pg_all_txids_agree (jsonb_text : jval -> pystr) (id : Z) (st : PgStore) (order : Z)
    (arrival : gmap Z Z) (t : pystr) :
  (forall e v, e ∈ pg_events_of id st -> assoc (str "txid") (ev_detail e) = Some v ->
     exists s, v = JStr s /\ s <> []) ->
  t ∈ pg_all_txids jsonb_text id st <-> t ∈ all_txids id (as_memory order arrival st).
Proof.
  intros Hlog. unfold pg_all_txids, all_txids.
  rewrite list_elem_of_filter, elem_of_remove_dups, !list_elem_of_omap.
  assert (forall P : Event -> Prop, (forall e, P e <-> P (with_seq 0 e)) ->
    (exists e, e ∈ events id (as_memory order arrival st) /\ P e) <->
    (exists e, e ∈ pg_events_of id st /\ P e)) as Hsame.
  { intros P HP.
    assert (forall l : list Event, (exists e, e ∈ l /\ P e) <-> exists e, e ∈ (with_seq 0 <$> l) /\ P e) as Hl.
    { intros l. split; [intros (e & He & Hp); exists (with_seq 0 e); split; [by apply list_elem_of_fmap; exists e | exact (proj1 (HP e) Hp)] |].
      intros (e' & (e & -> & He)%list_elem_of_fmap & Hp). exists e. split; [done | exact (proj2 (HP e) Hp)]. }
    rewrite Hl, (Hl (pg_events_of id st)), pg_log_agrees. unfold pg_events_of.
    split; intros (e & He & Hp); exists e; (split; [| done]); revert He; by rewrite merge_sort_Permutation. }
  rewrite (Hsame (fun e => event_txid e = Some t)) by done. split.
  - intros (_ & e & He & Ht). exists e. split; [done |]. revert Ht. unfold detail_txid, event_txid.
    destruct (assoc _ _) as [v |] eqn:E; [| done]. by destruct (Hlog e v He E) as (s & -> & _).
  - intros (e & He & Ht). unfold event_txid in Ht. destruct (assoc _ _) as [v |] eqn:E; [| done].
    destruct (Hlog e v He E) as (s & -> & Hs). injection Ht as ->. split; [done |].
    exists e. split; [done |]. unfold detail_txid. by rewrite E.
Qed.

Lemma forallb_false {A : Type} (f : A -> bool) (l : list A) :
  forallb f l = false -> exists x, x ∈ l /\ f x = false.
Proof.
  induction l as [|x l IH]; [done |]. cbn. destruct (f x) eqn:E; cbn.
  - intros (y & Hy & Ey)%IH. exists y. split; [by right | done].
  - intros _. exists x. split; [left | done].
Qed.

Lemma mapM_param_None (sv : PgServer) (sets : list FieldSet) :
  mapM (param sv) sets = None -> exists f, f ∈ sets /\ param sv f = None.
Proof.
  induction sets as [|f sets IH]; cbn; [done |]. destruct (param sv f) eqn:E; cbn.
  - destruct (mapM _ sets); [done |]. intros _. destruct (IH eq_refl) as (g & Hg & Eg). exists g. split; [by right | done].
  - intros _. exists f. split; [left | done].
Qed.

(** ** Properties *)

(** C21. The Postgres [cas] refines the in-memory one.  Whenever it answers, the answer
    and the new rows and log are those of [MemoryStore.cas] for the JSON values
    as the server stores them, up to the numbers of the events.  Otherwise
    nothing changed, and each error has its cause: the application error the
    in-memory store raises too; a text or a JSON value that cannot be stored; a
    write into a terminal state that also renews the lease, refused as a syntax
    error; an integer its column cannot hold; a lease that ends past the
    calendar or is no interval; a write from a terminal state, which the
    trigger refuses and the in-memory store answers with [None]; or a txid
    that another row holds.  The rows of the table are assumed to fit their
    columns, as rows of a table do. *)
Theorem pg_cas_refines (sv : PgServer) (now id token : Z) (from_state to_state : OpState)
    (sets : list FieldSet) (detail : list (pystr * jval)) (renew : option Z)
    (worker_id : option pystr) (st : PgStore) (order : Z) (arrival : gmap Z Z) :
  NoDup (column <$> sets) -> (forall i o, pg_ops st !! i = Some o -> row_error o = None) ->
  let '(r, st') := pg_cas sv now id token from_state to_state sets detail renew worker_id st in
  let memory := cas now id token from_state to_state (stored_sets sv sets)
                    (default [] (stored_detail sv detail)) renew worker_id (as_memory order arrival st) in
  match r with
  | Ok answer => memory = (Ok answer, as_memory order arrival st')
  | Err e =>
      st' = st /\
      match e with
      | AppError err => memory = (Err err, as_memory order arrival st)
      | TextRefused =>
          (exists f, f ∈ sets /\ text_fits sv f = false) \/
          (exists w, worker_id = Some w /\ accepts sv (str "worker_id") w = false)
      | JsonRefused => (exists f, f ∈ sets /\ param sv f = None) \/ stored_detail sv detail = None
      | MultipleAssignments c =>
          c = str "lease_expires_at" /\ is_Some renew /\ to_state ∈ TERMINAL
      | NumericOverflow => exists f, f ∈ sets /\ number_fits f = false
      | DatetimeOverflow => exists lease, renew = Some lease /\
          (interval_fits lease = false \/ ~ representable (now + lease))
      | CheckViolation =>
          from_state ∈ TERMINAL /\ memory = (Ok None, as_memory order arrival st)
      | UniqueViolation t =>
          exists i o, i <> id /\ pg_ops st !! i = Some o /\ op_txid o = Some t
      end
  end.
Proof.
  intros Hnd Hrows. unfold pg_cas, cas.
  rewrite (mutable_columns (stored_sets sv sets) sets (columns_stored sv sets)).
  destruct (forallb (fun f => bool_decide _) _) eqn:Em; [| done]. destruct (can_transition _ _) eqn:Ec; [| done]. cbn [negb].
  destruct (forallb (text_fits sv) sets) eqn:Et; [| split; [done | left; by apply forallb_false]]. cbn [negb].
  rewrite repeated_cas_clauses by done.
  destruct (match renew with Some _ => _ | None => _ end) eqn:Er.
  { destruct renew; [| done]. case_bool_decide as Ht; [| done]. injection Er as <-. by eauto. }
  destruct (mapM (param sv) sets) as [bound |] eqn:Eb; [| split; [done | left; by apply mapM_param_None]].
  pose proof (mapM_param sv sets bound Eb) as ->. clear Eb.
  destruct (forallb number_fits sets) eqn:En; [| split; [done | by apply forallb_false]]. cbn [negb].
  destruct (match renew with Some lease => interval_fits lease | None => true end) eqn:Ei;
    [| split; [done |]; destruct renew as [lease |]; [exists lease; auto | done]]. cbn [negb].
  cbn [ms_ops as_memory]. destruct (pg_ops st !! id) as [op |] eqn:E; [| done].
  destruct (Z.eqb_spec (op_fencing_token op) token) as [Etok |]; [| done].
  destruct (bool_decide_reflect (op_state op = from_state)) as [Es |]; [| done]. cbn [negb orb].
  rewrite (update_row_cas now id to_state (stored_sets sv sets)) by (rewrite ?columns_stored, ?Es; done).
  rewrite cas_row_error; [| by apply number_fits_stored | by eapply Hrows | intros [l ->]; by case_bool_decide].
  destruct (bool_decide_reflect (op_state op ∈ TERMINAL)) as [Ht |].
  { rewrite Es in Ht. destruct renew as [lease |]; [destruct (decide _); [done | split; [done | eauto]] | done]. }
  destruct renew as [lease |]; [destruct (decide (representable (now + lease))) as [Hfit |]; [| split; [done | eauto]] |].
  all: destruct (txid_taken _ _ _) eqn:Etx; [split; [done |]; by apply txid_taken_Some in Etx as [_ ?] |].
  all: destruct (pg_append _ _ _ _ _ _ _ _ _) as [st' | e] eqn:Ea.
  1, 3: apply pg_append_ok in Ea as (d & -> & ->); unfold renewed_lease; rewrite ?plus_timedelta_fits by done;
    by rewrite <- as_memory_append.
  all: split; [done |]; unfold pg_append in Ea; destruct worker_id as [w |];
    [destruct (accepts sv (str "worker_id") w) eqn:Ew; cbn [negb] in Ea |]; cbn [negb] in Ea;
    try (destruct (stored_detail sv detail); [done |]); injection Ea as <-; eauto.
Qed.

(** A server that stores everything, and numbers events with gaps. *)
Definition plain_server : PgServer :=
  mkServer Some (fun _ _ => true) (fun _ log => 3 + foldr Z.max 0 (ev_seq <$> log)).

Lemma max_seq (log : list Event) (e : Event) : e ∈ log -> ev_seq e <= foldr Z.max 0 (ev_seq <$> log).
Proof.
  induction log as [|x log IH]; intros He; [by apply elem_of_nil in He |]. cbn.
  apply elem_of_cons in He as [-> | He]; [lia |]. specialize (IH He). cbn in IH. lia.
Qed.

Lemma plain_documented : documented plain_server.
Proof. split; [done | |]; intros id log e He; pose proof (max_seq log e He); cbn; lia. Qed.

Definition pg_demo_row : Operation := set_updated_at (Some 100) (set_created_at (Some 100) demo_row).
Definition pg_demo : PgStore := snd (pg_insert_new plain_server 100 demo_row empty_pg).
Definition pg_demo_claimed : PgStore :=
  snd (pg_claim plain_server CLAIMABLE 10 (str "w1") 30 100 [pg_demo_row] pg_demo).
Definition pg_demo_sets : list FieldSet := [Set_last_error None; Set_attempts 2].
Definition pg_demo_validated : PgStore :=
  snd (pg_cas plain_server 110 7 1 REQUESTED VALIDATED pg_demo_sets [] (Some 30) (Some (str "w1"))
         pg_demo_claimed).

Lemma pg_demo_sets_NoDup : NoDup (column <$> pg_demo_sets).
Proof. apply (bool_decide_unpack _). vm_compute. exact I. Qed.

Lemma pg_cas_refines_witness :
  pg_ops pg_demo_validated !! 7 = Some (cas_row 110 VALIDATED pg_demo_sets (Some 30)
                                          (take_claim 100 30 (str "w1") pg_demo_row)) /\
  snd (cas 110 7 1 REQUESTED VALIDATED pg_demo_sets [] (Some 30) (Some (str "w1"))
         (as_memory 1 ∅ pg_demo_claimed)) = as_memory 1 ∅ pg_demo_validated.
Proof.
  split; [vm_compute; reflexivity |].
  pose proof (pg_cas_refines plain_server 110 7 1 REQUESTED VALIDATED pg_demo_sets [] (Some 30)
    (Some (str "w1")) pg_demo_claimed 1 ∅ pg_demo_sets_NoDup) as H.
  assert (forall i o, pg_ops pg_demo_claimed !! i = Some o -> row_error o = None) as Hrows.
  { intros i o Hi. apply elem_of_map_to_list in Hi.
    vm_compute in Hi. apply list_elem_of_singleton in Hi. injection Hi as _ ->. vm_compute. reflexivity. }
  specialize (H Hrows). vm_compute in H. vm_compute. exact (f_equal snd H).
Defined.

(** C23. What the database guarantees over every sequence of transactions: rows
    sit under their id and fit their columns, no two rows hold the same txid,
    amounts are positive and below [10^38], no two events have the same id, no
    event is younger than its row's token, and each operation's events, in the
    order of their ids, are one intake followed by writes along the transition
    table that end in the row's state, whatever gaps the ids have. *)
Theorem pg_invariant (sv : PgServer) (st : PgStore) :
  documented sv -> rtc (pg_step sv) empty_pg st ->
  (forall id op, pg_ops st !! id = Some op ->
     op_operation_id op = id /\ row_error op = None /\ 0 < op_amount_units op < 10 ^ 38 /\
     audit_trail (pg_events_of id st) (op_state op)) /\
  (forall i j oi oj t, pg_ops st !! i = Some oi -> pg_ops st !! j = Some oj ->
     op_txid oi = Some t -> op_txid oj = Some t -> i = j) /\
  (forall e, e ∈ pg_events st -> exists op,
     pg_ops st !! ev_operation_id e = Some op /\ ev_fencing_token e <= op_fencing_token op) /\
  NoDup (ev_seq <$> pg_events st).
Proof.
  intros Hsv Hr. pose proof (pg_steps_inv sv Hsv _ _ Hr empty_pg_inv) as Hinv.
  destruct Hinv as [(o & a & Hwf & Hau) Hu Ha Hf Hids Hord].
  split_and!; [| exact Hu | | exact Hids].
  - intros id op Hid. split_and!; [exact (wf_key _ Hwf _ _ Hid) | by eapply Hf | by apply (Ha id).. |].
    rewrite pg_events_of_filter by done. apply audit_trail_numbers.
    rewrite <- (pg_log_agrees id st o a). apply (proj1 (audit_trail_numbers _ _)). exact (Hau id op Hid).
  - intros e He. assert (with_seq 0 e ∈ with_seq 0 <$> renumber (pg_events st)) as He'
      by (rewrite renumber_with_seq; apply list_elem_of_fmap; by exists e).
    apply list_elem_of_fmap in He' as (e' & E & He').
    destruct (wf_log _ Hwf e' He') as (op & Hop & Hle). injection E as E1 _ _ _ E2 _ _.
    exists op. by rewrite E1, E2.
Qed.

Lemma pg_demo_scan : pg_scan [pg_demo_row] pg_demo.
Proof. exists []. vm_compute. reflexivity. Qed.

Lemma pg_demo_reachable : rtc (pg_step plain_server) empty_pg pg_demo_validated.
Proof.
  eapply rtc_l; [exact (pg_step_insert plain_server empty_pg 100 demo_row) |].
  eapply rtc_l; [exact (pg_step_claim plain_server pg_demo CLAIMABLE 10 (str "w1") 30 100 _ pg_demo_scan) |].
  apply rtc_once. exact (pg_step_cas plain_server pg_demo_claimed 110 7 1 REQUESTED VALIDATED pg_demo_sets []
    (Some 30) (Some (str "w1")) pg_demo_sets_NoDup).
Qed.

Lemma pg_invariant_witness :
  NoDup (ev_seq <$> pg_events pg_demo_validated) /\ (ev_seq <$> pg_events pg_demo_validated) = [3; 6].
Proof.
  split; [| vm_compute; reflexivity].
  apply (pg_invariant plain_server pg_demo_validated plain_documented pg_demo_reachable).
Defined.

(** Terminal rows are bricks: whatever transactions follow, a row in a
    terminal state stays exactly as it is, every column included. *)
Theorem pg_terminal_frozen (sv : PgServer) (st st' : PgStore) (id : Z) (op : Operation) :
  documented sv -> rtc (pg_step sv) empty_pg st -> rtc (pg_step sv) st st' ->
  pg_ops st !! id = Some op -> op_state op ∈ TERMINAL -> pg_ops st' !! id = Some op.
Proof.
  intros Hj Hr Hs Hid Ht. pose proof (pg_steps_inv sv Hj _ _ Hr empty_pg_inv) as Hinv. clear Hr.
  induction Hs as [st | st st1 st' H1 Hs IH]; [done |].
  apply IH; [eauto using pg_step_terminal | eauto using pg_step_inv].
Qed.

Definition pg_demo_rejected : PgStore :=
  snd (pg_cas plain_server 110 7 1 REQUESTED REJECTED [] [] None (Some (str "w1")) pg_demo_claimed).

Lemma pg_terminal_frozen_witness :
  exists op, op_state op = REJECTED /\
  pg_ops (snd (pg_release 200 7 1 pg_demo_rejected)) !! 7 = Some op.
Proof.
  destruct (pg_ops pg_demo_rejected !! 7) as [op |] eqn:E; [| vm_compute in E; discriminate].
  assert (op_state op = REJECTED) as Hop by (vm_compute in E; by injection E as <-).
  exists op. split; [exact Hop |].
  apply (pg_terminal_frozen plain_server pg_demo_rejected _ 7 op plain_documented); [| | exact E |].
  - eapply rtc_l; [exact (pg_step_insert plain_server empty_pg 100 demo_row) |].
    eapply rtc_l; [exact (pg_step_claim plain_server pg_demo CLAIMABLE 10 (str "w1") 30 100 _ pg_demo_scan) |].
    apply rtc_once. exact (pg_step_cas plain_server pg_demo_claimed 110 7 1 REQUESTED REJECTED [] []
      None (Some (str "w1")) (NoDup_nil_2)).
  - apply rtc_once, pg_step_release.
  - rewrite Hop, elem_of_TERMINAL. auto.
Defined.

(** One claim on Postgres, by a worker whose name can be stored, with a lease
    that ends within the calendar and tokens below the limit of the column,
    succeeds and returns at most [limit] rows, none twice; each is a claimable
    row nobody else had locked, whose lease ran out before [now] or was never
    taken, and is now stored under the claimer with the next token; a row the
    scan saw and left was created no earlier than every row taken, and only
    because the batch was full. *)
Theorem pg_claim_batch (sv : PgServer) (wanted : list OpState) (limit : nat)
    (worker_id : pystr) (lease now : Z) (scan : list Operation) (st : PgStore) :
  documented sv -> rtc (pg_step sv) empty_pg st -> pg_scan scan st ->
  (forall s, s ∈ wanted -> s ∈ CLAIMABLE) -> accepts sv (str "claimed_by") worker_id = true ->
  interval_fits lease = true -> representable (now + lease) ->
  (forall op, op ∈ scan -> fits 64 (op_fencing_token op + 1) = true) ->
  exists out st', pg_claim sv wanted limit worker_id lease now scan st = (Ok out, st') /\
  (length out <= limit)%nat /\ NoDup (op_operation_id <$> out) /\
  (forall row, row ∈ out -> exists op,
     op ∈ scan /\ op_state op ∈ wanted /\ lease_free now op = true /\
     row = take_claim now lease worker_id op /\
     pg_ops st' !! op_operation_id row = Some row) /\
  (forall op, op ∈ scan -> op_state op ∈ wanted -> lease_free now op = true ->
     take_claim now lease worker_id op ∈ out \/
     (length out = limit /\ forall row, row ∈ out -> created_le row op)).
Proof.
  intros Hj Hr Hs Hw Hacc Hint Hfit Htok. pose proof (pg_steps_inv sv Hj _ _ Hr empty_pg_inv) as Hinv.
  destruct (pg_picked_rows wanted limit now scan st) as [Hnd Hin]; [eauto using pi_key | done |].
  destruct (pg_claim_rows_succeeds worker_id lease now (pg_picked wanted limit now scan) (pg_ops st))
    as (out & ops' & E); [apply Hinv | done | |].
  { intros op Hop. pose proof (pi_fits _ Hinv _ _ (Hin op Hop)) as Hf. split; [by apply Hin |].
    apply pg_picked_elem in Hop as (Hsc & Hop & _). split; [by apply elem_of_CLAIMABLE, Hw |].
    apply row_error_None. apply row_error_None in Hf as (F1 & _ & F3 & _). split_and!; [done | by apply Htok | done |].
    by intros t [= <-]. }
  unfold pg_claim. rewrite Hacc, Hint. cbn [negb]. rewrite E. apply pg_claim_rows_ok in E as (-> & -> & _); [| done].
  assert (NoDup (op_operation_id <$> (take_claim now lease worker_id <$> pg_picked wanted limit now scan)))
    as Hnd' by (by rewrite <- list_fmap_compose).
  eexists _, _. split; [done |]. split_and!; [| done | |].
  - rewrite length_fmap. unfold pg_picked. rewrite length_take. lia.
  - intros row Hrow. pose proof Hrow as (op & -> & Hop)%list_elem_of_fmap. exists op.
    apply pg_picked_elem in Hop as (H1 & H2 & H3). split_and!; try done.
    cbn [pg_ops]. apply lookup_union_Some_l, elem_of_list_to_map; [by rewrite keyed_fst |].
    unfold keyed. apply list_elem_of_fmap. eexists. split; [done | exact Hrow].
  - intros op H1 H2 H3. destruct (pg_picked_fifo wanted limit now scan op H1 H2 H3) as [Hp | [Hl Hle]].
    + left. apply list_elem_of_fmap. eauto.
    + right. split; [by rewrite length_fmap |]. intros row (o & -> & Ho)%list_elem_of_fmap.
      exact (Hle o Ho).
Qed.

Lemma pg_claim_batch_witness :
  exists out st', pg_claim plain_server CLAIMABLE 10 (str "w1") 30 100 [pg_demo_row] pg_demo = (Ok out, st') /\
  take_claim 100 30 (str "w1") pg_demo_row ∈ out.
Proof.
  assert (forall op, op ∈ [pg_demo_row] -> fits 64 (op_fencing_token op + 1) = true) as Htok
    by (intros op ->%list_elem_of_singleton; reflexivity).
  destruct (pg_claim_batch plain_server CLAIMABLE 10 (str "w1") 30 100 [pg_demo_row] pg_demo plain_documented
    (rtc_once _ _ (pg_step_insert plain_server empty_pg 100 demo_row)) pg_demo_scan (fun s H => H)
    eq_refl eq_refl ltac:(apply (bool_decide_unpack _); vm_compute; exact I) Htok)
    as (out & st' & H1 & _ & _ & _ & H2).
  exists out, st'. split; [exact H1 |].
  destruct (H2 pg_demo_row) as [H | [H _]]; [left | vm_compute; repeat constructor | reflexivity | exact H |].
  exfalso. vm_compute in H1. injection H1 as <- <-. discriminate H.
Defined.
