(* ===== verification/PgWorker.v ===== *)
(** * The worker over the Postgres store

    The programs of [Pipeline] and [Worker] with the Postgres store behind
    them.  Only which calls a worker makes matters here ([makes] of
    [Discipline]): a worker may see any answer, as long as the store hands back
    rows in the state they were written or claimed in (a database error is to
    the handlers an exception like any other).  The theorem is about the write
    every handler ends an operation with. *)
From Stdlib Require Import ZArith Lia.
From stdpp Require Import base option strings gmap relations list.
From S2P Require Import Prelude Text Json Datetime States Address Wire Model Store Node Effects Pipeline Worker Discipline Postgres.

Local Open Scope Z_scope.

(** ** The deployed system's store *)

(** What reaches the database in production: intake inserts [REQUESTED] rows,
    workers claim, write and release. *)
Inductive pg_worker_step (cfg : Config) (signer : MockSigner) (sv : PgServer) (st : PgStore)
    : PgStore -> Prop :=
| pws_insert (now : Z) (op : Operation) :
    op_state op = REQUESTED ->
    pg_worker_step cfg signer sv st (snd (pg_insert_new sv now op st))
| pws_claim (worker_id w : pystr) (wanted : list OpState) (limit : nat) (lease clock now : Z)
    (scan : list Operation) :
    makes (run_once cfg signer worker_id) _ (CClaim wanted limit w lease clock) ->
    pg_scan scan st ->
    pg_worker_step cfg signer sv st (snd (pg_claim sv wanted limit w lease now scan st))
| pws_cas (worker_id : pystr) (now id token : Z) (from_state to_state : OpState)
    (sets : list FieldSet) (detail : list (pystr * jval)) (renew : option Z) (w : option pystr) :
    makes (run_once cfg signer worker_id) _
      (CCas id token from_state to_state sets detail renew w) ->
    pg_worker_step cfg signer sv st
      (snd (pg_cas sv now id token from_state to_state sets detail renew w st))
| pws_release (worker_id : pystr) (now id token : Z) :
    makes (run_once cfg signer worker_id) _ (CRelease id token) ->
    pg_worker_step cfg signer sv st (snd (pg_release now id token st)).

Definition all_live (st : PgStore) : Prop :=
  forall id op, pg_ops st !! id = Some op -> op_state op ∉ TERMINAL.

Lemma requested_live : REQUESTED ∉ TERMINAL.
Proof. by rewrite elem_of_TERMINAL; intros [H | [H | H]]. Qed.

Section deployed.
Context (cfg : Config) (signer : MockSigner) (sv : PgServer) (Hsv : documented sv).

Lemma worker_cas_shape (worker_id : pystr) (id token : Z) (from_state to_state : OpState)
    (sets : list FieldSet) (detail : list (pystr * jval)) (renew : option Z) (w : option pystr) :
  makes (run_once cfg signer worker_id) _ (CCas id token from_state to_state sets detail renew w) ->
  NoDup (column <$> sets) /\ (is_Some renew \/ to_state = from_state).
Proof.
  intros H. apply worker_write in H as (Hnd & Hr & _). split; [done |].
  destruct Hr as [-> | [-> ->]]; [left; by eexists | by right].
Qed.

Lemma worker_step_pg (st st' : PgStore) :
  pg_worker_step cfg signer sv st st' -> pg_step sv st st'.
Proof.
  intros [now op _ | worker_id w wanted limit lease clock now scan _ Hs
         | worker_id now id token f t sets detail renew w H | worker_id now id token _].
  - apply pg_step_insert.
  - by apply pg_step_claim.
  - apply pg_step_cas. by apply worker_cas_shape in H as [? _].
  - apply pg_step_release.
Qed.

Lemma worker_step_live (st st' : PgStore) :
  pg_worker_step cfg signer sv st st' -> pg_inv st -> all_live st -> all_live st'.
Proof.
  intros [now op Hop | worker_id w wanted limit lease clock now scan _ Hs
         | worker_id now k token f t sets detail renew w H | worker_id now k token _] Hinv Hlive id o.
  - pose proof (pg_insert_cases sv Hsv now op st 0 ∅) as H.
    destruct (pg_insert_new _ _ _ _) as [r st1]. cbn [snd].
    destruct H as [[-> _] | (row & a' & _ & -> & _ & _ & -> & _)]; [by apply Hlive |].
    cbn [pg_ops]. rewrite lookup_insert_Some. intros [[_ <-] | [_ H]]; [| by apply (Hlive id)].
    cbn. rewrite Hop. exact requested_live.
  - destruct (pg_claim_row sv wanted limit w lease now scan st) as (_ & H);
      [eauto using pi_key | done |].
    destruct (H id) as [-> | (op & _ & Ht & _ & ->)]; [by apply Hlive | by intros [= <-]].
  - apply worker_cas_shape in H as [Hnd Hrenew].
    pose proof (pg_cas_cases sv now k token f t sets detail renew w st Hnd) as H.
    destruct (pg_cas _ _ _ _ _ _ _ _ _ _ _) as [r st1]. cbn [snd].
    destruct H as [[-> _] | (op & d & Hop & _ & Hf & Hterm & Ht & _ & _ & _ & _ & _ & -> & _)]; [by apply Hlive |].
    cbn [pg_ops]. rewrite lookup_insert_Some. intros [[_ <-] | [_ H]]; [| by apply (Hlive id)].
    destruct (cas_row_frame now t (stored_sets sv sets) renew op) as (_ & -> & _).
    destruct Hrenew as [Hr | ->]; [by apply Ht | done].
  - pose proof (pg_release_cases now k token st) as H. destruct (pg_release now k token st) as [r st1].
    cbn [snd]. destruct H as [-> | (op & _ & Ht & _ & _ & -> & _)]; [by apply Hlive |].
    cbn [pg_ops]. rewrite lookup_insert_Some. intros [[_ <-] | [_ H]]; [done | by apply (Hlive id)].
Qed.

End deployed.

(** ** Properties *)

(** C22. On Postgres no withdrawal ever reaches an outcome: whatever intake and
    any number of workers do, in any order and with any answers from node,
    clock and database, no row gets into [CONFIRMED], [FAILED] or [REJECTED].
    [_cas] always renews the lease and [PostgresStore.cas] then assigns
    [lease_expires_at] twice in a write into a terminal state, a statement the
    server refuses. *)
Theorem postgres_never_settles (cfg : Config) (signer : MockSigner) (sv : PgServer)
    (st : PgStore) (id : Z) (op : Operation) :
  documented sv ->
  rtc (pg_worker_step cfg signer sv) empty_pg st ->
  pg_ops st !! id = Some op -> op_state op ∉ TERMINAL.
Proof.
  intros Hj Hr.
  assert (pg_inv st /\ all_live st) as [_ H]; [| apply H].
  revert Hr. generalize st. clear st.
  apply rtc_ind_r; [split; [apply empty_pg_inv |] |].
  - intros i o. cbn [empty_pg pg_ops]. intros H. by apply lookup_empty_Some in H.
  - intros st st' _ Hs [Hinv Hlive].
    split; [eapply pg_step_inv; eauto using worker_step_pg | eauto using worker_step_live].
Qed.

(** The worker claims the row of [pg_demo], whose address is invalid, and tries
    to reject it. *)
Definition pg_demo_reject : call (option Operation) :=
  CCas 7 1 REQUESTED REJECTED
    [Set_failure_reason (Some (str "invalid destination address"))] []
    (Some (cfg_lease default_config)) (Some (str "w1")).

Lemma makes_reject : makes (run_once default_config default_signer (str "w1")) _ pg_demo_reject.
Proof.
  unfold run_once. apply (makes_later _ _ _ _ _ (Ok 100)); [exact I |].
  apply (makes_later _ _ _ _ _ (Ok [take_claim 100 30 (str "w1") pg_demo_row]));
    [repeat constructor; apply (bool_decide_unpack _); vm_compute; exact I |].
  cbn [bind drive_all _drive drive_loop MAX_STEPS_PER_CLAIM attempt step take_claim pg_demo_row
       demo_row new_operation op_state set_updated_at set_fencing_token set_lease_expires_at
       set_claimed_by set_created_at].
  apply makes_now.
Qed.

Lemma makes_claim :
  makes (run_once default_config default_signer (str "w1")) _
    (CClaim CLAIMABLE 10 (str "w1") (cfg_lease default_config) 100).
Proof. apply (makes_later _ _ _ _ _ (Ok 100)); [exact I | apply makes_now]. Qed.

Definition pg_demo_leased : PgStore :=
  snd (pg_claim plain_server CLAIMABLE 10 (str "w1") (cfg_lease default_config) 100 [pg_demo_row] pg_demo).
Definition pg_demo_after_reject : PgStore :=
  snd (pg_cas plain_server 110 7 1 REQUESTED REJECTED
         [Set_failure_reason (Some (str "invalid destination address"))] []
         (Some (cfg_lease default_config)) (Some (str "w1")) pg_demo_leased).

Lemma postgres_never_settles_witness :
  exists op, pg_ops pg_demo_after_reject !! 7 = Some op /\ op_fencing_token op = 1 /\
  op_state op ∉ TERMINAL.
Proof.
  destruct (pg_ops pg_demo_after_reject !! 7) as [op |] eqn:E; [| vm_compute in E; discriminate].
  exists op. split; [reflexivity |].
  split; [vm_compute in E; by injection E as <- |].
  apply (postgres_never_settles default_config default_signer plain_server pg_demo_after_reject 7 op plain_documented);
    [| exact E].
  eapply rtc_l; [exact (pws_insert _ _ plain_server empty_pg 100 demo_row eq_refl) |].
  eapply rtc_l; [exact (pws_claim _ _ plain_server pg_demo _ _ _ _ _ _ 100 _ makes_claim pg_demo_scan) |].
  apply rtc_once. exact (pws_cas _ _ plain_server pg_demo_leased _ 110 _ _ _ _ _ _ _ _ makes_reject).
Defined.
