(* ===== verification/PgRow.v ===== *)
(** * Rows of the [operations] table ([sluice/store/postgres.py])

    [Postgres] keeps a table row as the [Operation] it stands for.  Here is the
    step in between: the columns of [migrations/001_schema.sql] as the dict that
    [dict_row] yields for [SELECT *], and [_row_to_op], which turns it into an
    [Operation] by column name.  psycopg loads SQL NULL and a JSON null both as
    [None]. *)
From Stdlib Require Import ZArith Lia.
From stdpp Require Import base option strings gmap list.
From S2P Require Import Prelude Text Json Datetime States Wire Model Store Postgres.

Local Open Scope Z_scope.

(** What psycopg loads for a column. *)
Inductive pgval : Type :=
| VNone
| VUuid (id : Z)
| VBytes (b : bytes)
| VStr (s : pystr)
| VDecimal (n : Z)                (* numeric(38,0) *)
| VInt (n : Z)
| VJson (v : jval)
| VTime (t : Z).

Definition sql_row : Type := list (pystr * pgval).

Definition nullable {A : Type} (f : A -> pgval) (v : option A) : pgval :=
  match v with
  | Some v => f v
  | None => VNone
  end.

Definition load_jsonb (v : jval) : pgval :=
  match v with
  | JNull => VNone
  | v => VJson v
  end.

(** The row of the table that stores [op]. *)
Definition table_row (op : Operation) : sql_row :=
  [(str "operation_id", VUuid (op_operation_id op));
   (str "request_hash", VBytes (op_request_hash op));
   (str "state", VStr (OpState_value (op_state op)));
   (str "to_address", VStr (op_to_address op));
   (str "asset", VStr (op_asset op));
   (str "amount_units", VDecimal (op_amount_units op));
   (str "unsigned_tx", nullable load_jsonb (op_unsigned_tx op));
   (str "txid", nullable VStr (op_txid op));
   (str "tx_expiration", nullable VTime (op_tx_expiration op));
   (str "signed_tx", nullable load_jsonb (op_signed_tx op));
   (str "attempts", VInt (op_attempts op));
   (str "claimed_by", nullable VStr (op_claimed_by op));
   (str "lease_expires_at", nullable VTime (op_lease_expires_at op));
   (str "fencing_token", VInt (op_fencing_token op));
   (str "last_error", nullable VStr (op_last_error op));
   (str "failure_reason", nullable VStr (op_failure_reason op));
   (str "broadcast_at", nullable VTime (op_broadcast_at op));
   (str "included_block", nullable VInt (op_included_block op));
   (str "confirmed_at", nullable VTime (op_confirmed_at op));
   (str "created_at", nullable VTime (op_created_at op));
   (str "updated_at", nullable VTime (op_updated_at op))].

(** ** [_row_to_op] *)

(** [OpState(value)]. *)
Definition all_states : list OpState :=
  [REQUESTED; VALIDATED; SIGNING; SIGNED; BROADCASTING; BROADCAST; CONFIRMED; FAILED; REJECTED].

Definition OpState_of (value : pystr) : result exn OpState :=
  match find (fun s => bool_decide (OpState_value s = value)) all_states with
  | Some s => Ok s
  | None => Err ValueError
  end.

(** [r[k]]. *)
Definition col (k : pystr) (r : sql_row) : result exn pgval :=
  match assoc k r with
  | Some v => Ok v
  | None => Err KeyError
  end.

(** The values a column of each SQL type can hold; nothing else is loaded. *)
Definition as_uuid (v : pgval) : result exn Z := match v with VUuid z => Ok z | _ => Err TypeError end.
Definition as_bytes (v : pgval) : result exn bytes := match v with VBytes b => Ok b | _ => Err TypeError end.
Definition as_str (v : pgval) : result exn pystr := match v with VStr s => Ok s | _ => Err TypeError end.
Definition as_decimal (v : pgval) : result exn Z := match v with VDecimal n => Ok n | _ => Err TypeError end.
Definition as_int (v : pgval) : result exn Z := match v with VInt n => Ok n | _ => Err TypeError end.
Definition as_json (v : pgval) : result exn jval := match v with VJson j => Ok j | _ => Err TypeError end.
Definition as_time (v : pgval) : result exn Z := match v with VTime t => Ok t | _ => Err TypeError end.

Definition or_none {A : Type} (f : pgval -> result exn A) (v : pgval) : result exn (option A) :=
  match v with
  | VNone => Ok None
  | v => match f v with Ok a => Ok (Some a) | Err e => Err e end
  end.

Local Open Scope sluice_scope.

Definition _row_to_op (r : sql_row) : result exn Operation :=
  let? operation_id := result_bind (col (str "operation_id") r) as_uuid in
  let? request_hash := result_bind (col (str "request_hash") r) as_bytes in
  let? state := result_bind (result_bind (col (str "state") r) as_str) OpState_of in
  let? to_address := result_bind (col (str "to_address") r) as_str in
  let? asset := result_bind (col (str "asset") r) as_str in
  let? amount_units := result_bind (col (str "amount_units") r) as_decimal in
  let? unsigned_tx := result_bind (col (str "unsigned_tx") r) (or_none as_json) in
  let? txid := result_bind (col (str "txid") r) (or_none as_str) in
  let? tx_expiration := result_bind (col (str "tx_expiration") r) (or_none as_time) in
  let? signed_tx := result_bind (col (str "signed_tx") r) (or_none as_json) in
  let? attempts := result_bind (col (str "attempts") r) as_int in
  let? claimed_by := result_bind (col (str "claimed_by") r) (or_none as_str) in
  let? lease_expires_at := result_bind (col (str "lease_expires_at") r) (or_none as_time) in
  let? fencing_token := result_bind (col (str "fencing_token") r) as_int in
  let? last_error := result_bind (col (str "last_error") r) (or_none as_str) in
  let? failure_reason := result_bind (col (str "failure_reason") r) (or_none as_str) in
  let? broadcast_at := result_bind (col (str "broadcast_at") r) (or_none as_time) in
  let? included_block := result_bind (col (str "included_block") r) (or_none as_int) in
  let? confirmed_at := result_bind (col (str "confirmed_at") r) (or_none as_time) in
  let? created_at := result_bind (col (str "created_at") r) (or_none as_time) in
  let? updated_at := result_bind (col (str "updated_at") r) (or_none as_time) in
  Ok (mkOperation operation_id request_hash state to_address asset amount_units unsigned_tx txid
        tx_expiration signed_tx attempts claimed_by lease_expires_at fencing_token last_error
        failure_reason broadcast_at included_block confirmed_at created_at updated_at).

Local Close Scope sluice_scope.

(** [get] down to the row: [SELECT * ... WHERE operation_id = %s]. *)
Definition select_get (id : Z) (st : PgStore) : result exn (option Operation) :=
  match pg_ops st !! id with
  | None => Ok None
  | Some op => match _row_to_op (table_row op) with Ok op => Ok (Some op) | Err e => Err e end
  end.

(** ** Lemmas *)

Lemma OpState_of_value (s : OpState) : OpState_of (OpState_value s) = Ok s.
Proof. destruct s; vm_compute; reflexivity. Qed.

Lemma or_none_nullable {A B : Type} (f : pgval -> result exn A) (g : A -> pgval) (v : option A)
    (k : option A -> result exn B) :
  (forall a, or_none f (g a) = Ok (Some a)) -> result_bind (or_none f (nullable g v)) k = k v.
Proof. intros H. destruct v as [a |]; [| done]. cbn [nullable]. by rewrite H. Qed.

(** [None] where the column holds a JSON null. *)
Definition drop_null (v : option jval) : option jval :=
  match v with
  | Some JNull => None
  | v => v
  end.

Definition as_loaded (op : Operation) : Operation :=
  set_signed_tx (drop_null (op_signed_tx op)) (set_unsigned_tx (drop_null (op_unsigned_tx op)) op).

(** Every column is found under its name. *)
Lemma table_columns (op : Operation) (k : pystr) (v : pgval) (pre post : sql_row) :
  table_row op = pre ++ (k, v) :: post -> bool_decide (k ∈ pre.*1) = false -> col k (table_row op) = Ok v.
Proof.
  intros -> Hk%bool_decide_eq_false. unfold col.
  assert (assoc k (pre ++ (k, v) :: post) = Some v) as ->; [| done].
  induction pre as [|[k' v'] pre IH]; cbn [app assoc]; [by rewrite decide_True |].
  apply not_elem_of_cons in Hk as [Hne Hk]. cbn in Hne. rewrite decide_False by congruence. by apply IH.
Qed.

Ltac column n :=
  match goal with
  | |- context [col ?k (table_row ?op)] =>
      rewrite (table_columns op k _ (take n (table_row op)) (drop (S n) (table_row op)) eq_refl)
        by (vm_compute; reflexivity)
  end.

Lemma load_jsonb_drop {B : Type} (v : option jval) (k : option jval -> result exn B) :
  result_bind (or_none as_json (nullable load_jsonb v)) k = k (drop_null v).
Proof. by destruct v as [[] |]. Qed.

Lemma row_loads (op : Operation) : _row_to_op (table_row op) = Ok (as_loaded op).
Proof.
  unfold _row_to_op.
  column 0%nat. column 1%nat. column 2%nat. column 3%nat. column 4%nat. column 5%nat. column 6%nat.
  column 7%nat. column 8%nat. column 9%nat. column 10%nat. column 11%nat. column 12%nat. column 13%nat.
  column 14%nat. column 15%nat. column 16%nat. column 17%nat. column 18%nat. column 19%nat. column 20%nat.
  cbn [result_bind as_uuid as_bytes as_str as_decimal as_int]. rewrite OpState_of_value. cbn [result_bind].
  repeat first [rewrite load_jsonb_drop | rewrite or_none_nullable by done]. by destruct op.
Qed.

(** ** Properties *)

(** C26. Columns land in the right fields: the row that stores an operation reads
    back, by column name, as that operation, every field of it, and the only
    difference it can show is a JSON null that becomes [None].  So on any store
    whose rows hold no JSON null, reading through the row is [pg_get]. *)
Theorem row_roundtrip (st : PgStore) (id : Z) :
  (forall op, pg_ops st !! id = Some op -> op_unsigned_tx op <> Some JNull /\ op_signed_tx op <> Some JNull) ->
  select_get id st = Ok (pg_get id st).
Proof.
  intros H. unfold select_get, pg_get. destruct (pg_ops st !! id) as [op |]; [| done]. rewrite row_loads.
  destruct (H op eq_refl) as [H1 H2]. do 2 f_equal. unfold as_loaded.
  destruct op as [id' ? ? ? ? ? u ? ? sg ? ? ? ? ? ? ? ? ? ? ?]. cbn in *.
  destruct u as [[] |], sg as [[] |]; done.
Qed.

Lemma row_roundtrip_witness : select_get 7 pg_demo_validated = Ok (pg_get 7 pg_demo_validated) /\
  op_state <$> pg_get 7 pg_demo_validated = Some VALIDATED.
Proof.
  split; [| vm_compute; reflexivity]. apply (row_roundtrip pg_demo_validated 7). intros op E.
  vm_compute in E. injection E as <-. split; discriminate.
Defined.
