(* ===== verification/Contract.v ===== *)
(** * Both stores keep the contract ([sluice/store/__init__.py])

    The Postgres store as an instance of the protocol of [Protocol], and the
    proof that it obeys the rules of the contract as [MemoryStore] does.  What
    the rules give, fencing above all, then holds for it too. *)
From Stdlib Require Import ZArith Lia.
From stdpp Require Import base option strings gmap relations list.
From S2P Require Import Prelude Text Json States Wire Model Store Protocol Postgres.

Local Open Scope Z_scope.

Section postgres.
(** [jsonb_text] is the server's text of a JSON value that is not a string. *)
Context (sv : PgServer) (Hsv : documented sv) (jsonb_text : jval -> pystr).

#[local] Instance PgStore_protocol : StoreProtocol PgStore := {|
  store_exn := pg_exn;
  store_insert_new := pg_insert_new sv;
  store_get := pg_get;
  store_claim wanted limit worker_id lease now st r st' :=
    exists scan, pg_scan scan st /\ pg_claim sv wanted limit worker_id lease now scan st = (r, st');
  store_cas := pg_cas sv;
  store_release := pg_release;
  store_events := pg_events_of;
  store_all_txids := pg_all_txids jsonb_text
|}.

Lemma pg_protocol_step (st st' : PgStore) : protocol_step st st' -> pg_step sv st st'.
Proof.
  intros [now op _ | wanted limit w lease now r st1 (scan & Hs & Hc) | now k token f t sets d renew w Hnd | now k token].
  - apply pg_step_insert.
  - replace st1 with (snd (pg_claim sv wanted limit w lease now scan st)) by (by rewrite Hc). by apply pg_step_claim.
  - by apply pg_step_cas.
  - apply pg_step_release.
Qed.

Lemma pg_step_protocol (st st' : PgStore) : pg_step sv st st' -> protocol_step st st'.
Proof.
  intros [now op | wanted limit w lease now scan Hs | now k token f t sets d renew w Hnd | now k token].
  - exact (call_insert_new st now (set_fencing_token 0 op) (Z.le_refl 0)).
  - eapply (call_claim st wanted limit w lease now). exists scan. split; [done | apply surjective_pairing].
  - exact (call_cas st now k token f t sets d renew w Hnd).
  - exact (call_release st now k token).
Qed.

Lemma pg_insert (st : PgStore) (now : Z) (op : Operation) :
  let '(r, st') := store_insert_new now op st in insert_rule op st r st'.
Proof.
  cbn [store_insert_new PgStore_protocol]. unfold pg_insert_new. destruct (negb (_ && _)); [done |].
  destruct (negb (Z.abs _ <? _)); [done |]. destruct (negb (0 <? _)); [done |].
  destruct (pg_ops st !! op_operation_id op) as [row |] eqn:E; cbn [insert_rule]; [by split |].
  rewrite (intake_append sv Hsv). cbn [insert_rule]. split_and!; try done.
  - cbn. apply lookup_insert_eq.
  - intros k Hk. cbn. unfold pg_get. cbn. by rewrite lookup_insert_ne.
Qed.

Lemma pg_write (st : PgStore) (now id token : Z) (from_state to_state : OpState) (sets : list FieldSet)
    (detail : list (pystr * jval)) (renew : option Z) (worker_id : option pystr) :
  pg_inv st -> NoDup (column <$> sets) ->
  let '(r, st') := store_cas now id token from_state to_state sets detail renew worker_id st in
  cas_rule now id token from_state to_state renew worker_id st r st'.
Proof.
  intros Hinv Hnd. pose proof (pg_inv_cas sv Hsv now id token from_state to_state sets detail renew worker_id st Hnd Hinv) as Hinv'.
  pose proof (pg_cas_cases sv now id token from_state to_state sets detail renew worker_id st Hnd) as H.
  cbn [store_cas PgStore_protocol]. destruct (pg_cas _ _ _ _ _ _ _ _ _ _ _) as [r st']. cbn [snd] in Hinv'.
  destruct H as [[-> Hr] | (op & d & H1 & H2 & H3 & H4 & Hlive & _ & _ & _ & _ & -> & Est & Hmem)].
  { destruct r as [[row |] | e]; cbn [cas_rule]; [by destruct (Hr row) | done | by left]. }
  set (sets' := stored_sets sv sets) in *. specialize (Hmem 0 ∅).
  pose proof (memory_cas (as_memory 0 ∅ st) now id token from_state to_state sets' d
    renew worker_id) as H. cbn [store_cas MemoryStore_protocol] in H. rewrite Hmem in H. cbn [cas_rule] in H.
  destruct H as (op' & e & G1 & G2 & G3 & G4 & G5 & G6 & G7 & G8 & G9 & G10 & G11 & _ & _).
  cbn [cas_rule]. exists op', (mkEvent id (Some from_state) to_state worker_id token d now (nextval sv id (pg_events st))).
  split_and!; try done. cbn [store_events PgStore_protocol].
  rewrite (pg_events_of_filter st'), (pg_events_of_filter st) by apply Hinv || apply Hinv'. rewrite Est. cbn [pg_events].
  by rewrite filter_app, filter_cons, decide_True, filter_nil.
Qed.

Lemma lease_free_held (now : Z) (op : Operation) : lease_free now op = true -> held now op = false.
Proof.
  unfold lease_free, held. destruct (op_lease_expires_at op); [| done]. intros H%Z.ltb_lt. apply Z.ltb_ge. lia.
Qed.

Lemma pg_claim_ok (st st' : PgStore) (wanted : list OpState) (limit : nat) (worker_id : pystr)
    (lease now : Z) (r : result pg_exn (list Operation)) :
  pg_inv st -> store_claim wanted limit worker_id lease now st r st' ->
  claim_rule wanted limit worker_id lease now st r st'.
Proof.
  intros Hinv (scan & Hs & Hc).
  destruct (pg_picked_rows wanted limit now scan st) as [Hnd Hin]; [eauto using pi_key | done |].
  unfold pg_claim in Hc. destruct (negb _); [injection Hc as <- <-; by left |].
  destruct (negb _); [injection Hc as <- <-; by left |].
  destruct (pg_claim_rows _ _ _ _ _) as [[out ops'] | e] eqn:E; injection Hc as <- <-; [| by left].
  apply pg_claim_rows_ok in E as (-> & -> & _); [| done]. cbn [claim_rule].
  assert (NoDup (op_operation_id <$> (take_claim now lease worker_id <$> pg_picked wanted limit now scan)))
    as Hnd' by (by rewrite <- list_fmap_compose).
  split_and!; [| done | | |done].
  - rewrite length_fmap. unfold pg_picked. rewrite length_take. lia.
  - intros row Hrow. pose proof Hrow as (op & -> & Hop)%list_elem_of_fmap. exists op.
    pose proof (pg_picked_elem _ _ _ _ _ Hop) as (_ & H2 & H3).
    split_and!; [exact (Hin op Hop) | done | by apply lease_free_held | done |]. cbn [store_get PgStore_protocol]. unfold pg_get. cbn [pg_ops].
    apply lookup_union_Some_l, elem_of_list_to_map; [by rewrite keyed_fst |].
    unfold keyed. apply list_elem_of_fmap. eexists. split; [done | exact Hrow].
  - intros k Hk. cbn. unfold pg_get. cbn [pg_ops]. rewrite lookup_union_r; [done |].
    apply not_elem_of_list_to_map_1. by rewrite keyed_fst.
Qed.

#[local] Instance PgStore_contract : StoreContract PgStore pg_inv.
Proof.
  split.
  - intros st st' H. apply (pg_step_inv sv Hsv). by apply pg_protocol_step.
  - intros st id op. apply pi_key.
  - intros st now op _. apply pg_insert.
  - intros. by apply pg_claim_ok.
  - intros. by apply pg_write.
  - intros st now id token f t sets d renew w Hc. cbn. unfold pg_cas. rewrite Hc.
    destruct (negb (forallb _ _)); by eexists.
  - intros st now id token _. cbn [store_release PgStore_protocol snd].
    unfold release_rule, pg_release. cbn [store_get PgStore_protocol]. unfold pg_get.
    destruct (pg_ops st !! id) as [op |] eqn:E; [| by left].
    destruct (Z.eqb_spec (op_fencing_token op) token) as [Et |]; [| by left]. cbn [negb orb].
    case_bool_decide; [by left |]. unfold update_row.
    cbn -[Sql.op_transition_guard txid_taken row_error]. destruct (row_error _); [by left |].
    destruct (Sql.op_transition_guard _ _); [| by left]. destruct (txid_taken _ _ _); [by left |].
    right. exists op. split_and!; try done;
      [intros k Hk; cbn; unfold pg_get; cbn; by rewrite lookup_insert_ne | cbn; apply lookup_insert_eq].
  - intros st id e t He Ht Hne. cbn in *. unfold pg_all_txids. apply list_elem_of_filter. split; [done |].
    apply elem_of_remove_dups, list_elem_of_omap. exists e. split; [done |]. unfold detail_txid. by rewrite Ht.
Qed.

Definition pg_claims (st : PgStore) (row : Operation) (st' : PgStore) : Prop :=
  exists wanted limit worker_id lease now scan out,
  pg_scan scan st /\ pg_claim sv wanted limit worker_id lease now scan st = (Ok out, st') /\ row ∈ out.

Definition pg_writes (id token : Z) (st st' : PgStore) : Prop :=
  (exists now from_state to_state sets detail renew worker_id, NoDup (column <$> sets) /\
     st' = snd (pg_cas sv now id token from_state to_state sets detail renew worker_id st)) \/
  (exists now, st' = snd (pg_release now id token st)).

Lemma pg_fenced (st1 st1' st2 st3 st4 st5 : PgStore) (row1 row2 : Operation) :
  pg_inv st1 -> pg_claims st1 row1 st1' -> rtc (pg_step sv) st1' st2 -> pg_claims st2 row2 st3 ->
  op_operation_id row2 = op_operation_id row1 -> rtc (pg_step sv) st3 st4 ->
  pg_writes (op_operation_id row1) (op_fencing_token row1) st4 st5 -> st5 = st4.
Proof.
  intros Hinv Hc1 H12 Hc2 Hid H34 Hw.
  assert (forall st st', rtc (pg_step sv) st st' -> rtc protocol_step st st') as Hsteps
    by (intros st st'; apply rtc_subrel, pg_step_protocol).
  assert (forall st row st', pg_claims st row st' -> hands_out st row st') as Hclaims.
  { intros st row st' (wanted & limit & w & lease & now & scan & out & Hs & Hc & Hrow).
    exists wanted, limit, w, lease, now, out. split; [| done]. by exists scan. }
  refine (fenced_for_good (well_formed := pg_inv) st1 st1' st2 st3 st4 st5 row1 row2 Hinv (Hclaims _ _ _ Hc1)
    (Hsteps _ _ H12) (Hclaims _ _ _ Hc2) Hid (Hsteps _ _ H34) _).
  destruct Hw as [(now & f & t & sets & d & r & w & Hnd & ->) | (now & ->)].
  - exact (writes_cas _ _ st4 now f t sets d r w Hnd).
  - exact (writes_release _ _ st4 now).
Qed.

End postgres.

(** ** Properties *)



(** Fencing holds on Postgres as it does in memory: once an operation has
    been claimed a second time, no [cas] and no [release] with the first
    claim's token ever changes the database again, whatever transactions ran
    in between and after. *)
Theorem pg_zombie_is_fenced (sv : PgServer) (st1 st1' st2 st3 st4 st5 : PgStore)
    (row1 row2 : Operation) :
  documented sv ->
  rtc (pg_step sv) empty_pg st1 -> pg_claims sv st1 row1 st1' ->
  rtc (pg_step sv) st1' st2 -> pg_claims sv st2 row2 st3 ->
  op_operation_id row2 = op_operation_id row1 ->
  rtc (pg_step sv) st3 st4 ->
  pg_writes sv (op_operation_id row1) (op_fencing_token row1) st4 st5 -> st5 = st4.
Proof.
  intros Hj H0 Hc1 H12 Hc2 Hid H34 Hw.
  pose proof (pg_steps_inv sv Hj _ _ H0 empty_pg_inv) as Hinv.
  exact (pg_fenced sv Hj (fun _ => []) _ _ _ _ _ _ _ _ Hinv Hc1 H12 Hc2 Hid H34 Hw).
Qed.

Definition pg_demo_row1 : Operation := take_claim 100 30 (str "w1") pg_demo_row.
Definition pg_demo_row2 : Operation := take_claim 140 30 (str "w2") pg_demo_row1.
Definition pg_demo_reclaimed : PgStore :=
  snd (pg_claim plain_server CLAIMABLE 10 (str "w2") 30 140 [pg_demo_row1] pg_demo_claimed).

Lemma pg_zombie_is_fenced_witness :
  snd (pg_cas plain_server 200 7 1 REQUESTED VALIDATED [] [] None None pg_demo_reclaimed) = pg_demo_reclaimed.
Proof.
  apply (pg_zombie_is_fenced plain_server pg_demo pg_demo_claimed pg_demo_claimed pg_demo_reclaimed
    pg_demo_reclaimed _ pg_demo_row1 pg_demo_row2 plain_documented).
  - apply rtc_once. exact (pg_step_insert plain_server empty_pg 100 demo_row).
  - exists CLAIMABLE, 10%nat, (str "w1"), 30, 100, [pg_demo_row], [pg_demo_row1].
    split; [exact pg_demo_scan | split; [vm_compute; reflexivity | left]].
  - apply rtc_refl.
  - exists CLAIMABLE, 10%nat, (str "w2"), 30, 140, [pg_demo_row1], [pg_demo_row2].
    split; [exists []; vm_compute; reflexivity | split; [vm_compute; reflexivity | left]].
  - reflexivity.
  - apply rtc_refl.
  - left. exists 200, REQUESTED, VALIDATED, [], [], None, None. split; [apply NoDup_nil_2 | reflexivity].
Defined.
