(* ===== verification/PgIntake.v ===== *)
(** * Intake over the Postgres store

    [submit_withdrawal] and the views are written against [Store], so the
    definitions of [Intake] apply to the Postgres store as they are.  Here they
    are run over both stores: whatever the requests, the answers agree. *)
From Stdlib Require Import ZArith Lia.
From stdpp Require Import base option strings gmap list.
From S2P Require Import Prelude Text Json Money Hash Address Datetime States Wire Model Store Protocol Node Effects Pipeline Worker System Invariant Payments Intake Postgres Contract.

Local Open Scope Z_scope.

Inductive request : Type :=
| Post (now : Z) (payload : jval)
| Get (op_id : pystr)
| Health.

Section serve.
Context (ucd : Z -> option Z) (cfg : Config) {St : Type} `{!StoreProtocol St}.

Definition handle (r : request) (st : St) : Response * St :=
  match r with
  | Post now payload => post_withdrawal ucd cfg now payload st
  | Get op_id => (get_withdrawal ucd op_id st, st)
  | Health => (healthz, st)
  end.

(** The answers to a run of requests, one after the other. *)
Fixpoint serve (rs : list request) (st : St) : list Response * St :=
  match rs with
  | [] => ([], st)
  | r :: rs =>
      let '(resp, st) := handle r st in
      let '(resps, st) := serve rs st in
      (resp :: resps, st)
  end.

End serve.

Section agree.
Context (ucd : Z -> option Z) (cfg : Config) (sv : PgServer) (Hsv : documented sv) (jsonb_text : jval -> pystr).
Context (Haddr : forall a, is_valid (JStr a) = true -> accepts sv (str "to_address") a = true).
Context (Hasset : accepts sv (str "asset") (cfg_asset cfg) = true).
Context (Hmin : 0 < cfg_min_amount_units cfg) (Hmax : cfg_max_amount_units cfg < 10 ^ 38).

#[local] Existing Instance PgStore_protocol.
Local Abbreviation pg_protocol := (PgStore_protocol sv jsonb_text).

(** The same table, and the same log up to the numbers of the events; the
    arrival numbers exist in memory only. *)
Definition mirrors (pg : PgStore) (st : MemoryStore) : Prop :=
  exists order arrival, st = as_memory order arrival pg.

Lemma insert_agrees (now : Z) (op : Operation) (pg : PgStore) (st : MemoryStore) :
  mirrors pg st -> 0 < op_amount_units op < 10 ^ 38 -> op = inserted op ->
  is_valid (JStr (op_to_address op)) = true -> op_asset op = cfg_asset cfg ->
  exists pg', pg_insert_new sv now op pg = (Ok (fst (insert_new now op st)), pg') /\
  mirrors pg' (snd (insert_new now op st)).
Proof.
  intros (order & arrival & ->) Ha Hop Hv Has. pose proof (pg_insert_cases sv Hsv now op pg order arrival) as H.
  unfold pg_insert_new in *. rewrite (Haddr _ Hv), Has, Hasset in *. cbn [negb andb] in *. destruct (Z.ltb_spec (Z.abs (op_amount_units op)) (10 ^ 38)); [| lia].
  destruct (Z.ltb_spec 0 (op_amount_units op)); [| lia]. cbn [negb] in *.
  destruct (pg_ops pg !! op_operation_id op) as [row |] eqn:E.
  - exists pg. unfold insert_new. cbn [ms_ops as_memory]. rewrite E. split; [done |]. by exists order, arrival.
  - rewrite (intake_append sv Hsv) in *.
    destruct H as [[_ H] | (row & arrival' & _ & _ & [= <-] & _ & _ & Hmem)]; [exfalso; by eapply H |].
    rewrite <- Hop in Hmem. eexists. split; [by rewrite Hmem |]. rewrite Hmem. by eexists _, _.
Qed.

Lemma submit_agrees (now : Z) (payload : jval) (pg : PgStore) (st : MemoryStore) :
  mirrors pg st ->
  exists pg', submit_withdrawal (StoreProtocol0 := pg_protocol) ucd cfg now payload pg =
    (fst (submit_withdrawal ucd cfg now payload st), pg') /\
  mirrors pg' (snd (submit_withdrawal ucd cfg now payload st)).
Proof.
  intros Hm. unfold submit_withdrawal. destruct (read_request ucd cfg payload) as [op | e] eqn:Hr; [| by exists pg].
  destruct (read_request_ok _ _ _ _ Hr) as ((Hv & Has & Ha) & _).
  destruct (insert_agrees now op pg st Hm) as (pg' & E & Hm'); [lia | by eapply read_request_new | done | done |].
  exists pg'. cbn [store_insert_new PgStore_protocol MemoryStore_protocol]. rewrite E.
  destruct (insert_new now op st) as [[row created] st']. cbn [fst snd] in *. by destruct (_ && _).
Qed.

Lemma handle_agrees (r : request) (pg : PgStore) (st : MemoryStore) :
  mirrors pg st ->
  exists pg', handle (StoreProtocol0 := pg_protocol) ucd cfg r pg = (fst (handle ucd cfg r st), pg') /\
  mirrors pg' (snd (handle ucd cfg r st)).
Proof.
  intros Hm. destruct r as [now payload | op_id |]; cbn [handle]; [| | by exists pg].
  - destruct (decide (payload = JNull)) as [-> | Hne]; [by exists pg |].
    destruct (submit_agrees now payload pg st Hm) as (pg' & E & Hm'). exists pg'.
    rewrite (post_answer _ _ _ _ _ Hne), (post_answer _ _ _ _ _ Hne), E. done.
  - exists pg. split; [| done]. f_equal. destruct Hm as (order & arrival & ->). unfold get_withdrawal.
    by destruct (UUID ucd op_id).
Qed.

Lemma serve_agrees (rs : list request) (pg : PgStore) (st : MemoryStore) :
  mirrors pg st ->
  exists pg', serve (StoreProtocol0 := pg_protocol) ucd cfg rs pg = (fst (serve ucd cfg rs st), pg') /\
  mirrors pg' (snd (serve ucd cfg rs st)).
Proof.
  revert pg st. induction rs as [|r rs IH]; intros pg st Hm; cbn [serve]; [by exists pg |].
  destruct (handle_agrees r pg st Hm) as (pg1 & E1 & Hm1). rewrite E1.
  destruct (handle ucd cfg r st) as [resp st1]. cbn [fst snd] in *.
  destruct (IH pg1 st1 Hm1) as (pg2 & E2 & Hm2). rewrite E2. exists pg2.
  by destruct (serve ucd cfg rs st1).
Qed.

End agree.

(** ** Properties *)

(** C25. Clients cannot tell the stores apart: on any database contents and any
    run of requests, well formed or not, the API over the Postgres store gives
    exactly the answers, status, body and replay mark, that it gives over the
    in-memory store with the same rows, and leaves the same rows and, up to the
    numbers of the events, the same log.  The amount column of the schema is
    never a cause of a 500, as long as the configured bounds are positive and
    below 10^38; the text columns are not either, as long as they take valid
    addresses and the configured asset. *)
Theorem pg_serves_as_memory (ucd : Z -> option Z) (cfg : Config) (sv : PgServer)
    (jsonb_text : jval -> pystr) (rs : list request) (pg : PgStore) (order : Z) (arrival : gmap Z Z) :
  documented sv ->
  (forall a, is_valid (JStr a) = true -> accepts sv (str "to_address") a = true) ->
  accepts sv (str "asset") (cfg_asset cfg) = true ->
  0 < cfg_min_amount_units cfg -> cfg_max_amount_units cfg < 10 ^ 38 ->
  let '(resps, pg') := @serve ucd cfg PgStore (PgStore_protocol sv jsonb_text) rs pg in
  let '(resps', st') := serve ucd cfg rs (as_memory order arrival pg) in
  resps = resps' /\ pg_ops pg' = ms_ops st' /\ renumber (pg_events pg') = ms_events st'.
Proof.
  intros Hsv Haddr Hasset Hmin Hmax.
  destruct (serve_agrees ucd cfg sv Hsv jsonb_text Haddr Hasset Hmin Hmax rs pg (as_memory order arrival pg))
    as (pg' & E & o & a & Hm); [by eexists _, _ |]. rewrite E.
  destruct (serve ucd cfg rs (as_memory order arrival pg)) as [resps st']. cbn [fst snd] in *. by subst st'.
Qed.

(** A created withdrawal, its replay, a mismatch, a lookup and a bad body. *)
Definition demo_requests : list request :=
  [Post t0 (demo_payload (str "1.5")); Post t0 (demo_payload (str "1.5"));
   Post t0 (demo_payload (str "2.5")); Get (uuid_str 7); Get (str "x"); Post t0 JNull; Health].

Lemma demo_statuses :
  rs_status <$> fst (serve no_ucd default_config demo_requests empty_store) = [201; 200; 409; 200; 422; 400; 200].
Proof. vm_compute. reflexivity. Qed.

Lemma pg_serves_as_memory_witness :
  let '(resps, pg') := @serve no_ucd default_config PgStore (PgStore_protocol plain_server (fun _ => [])) demo_requests empty_pg in
  let '(resps', st') := serve no_ucd default_config demo_requests (as_memory 0 ∅ empty_pg) in
  resps = resps' /\ pg_ops pg' = ms_ops st' /\ renumber (pg_events pg') = ms_events st'.
Proof.
  apply (pg_serves_as_memory no_ucd default_config plain_server (fun _ => []) demo_requests empty_pg 0 ∅).
  - exact plain_documented.
  - intros a _. reflexivity.
  - reflexivity.
  - vm_compute. reflexivity.
  - vm_compute. reflexivity.
Defined.
