(* ===== verification/Progress.v ===== *)
(** * Progress: a valid withdrawal is paid

    The safety theorems would hold of a worker that never does anything.  Here
    the same programs are run from start to end: on a node without faults, one
    pass of a worker takes a fresh withdrawal through validation, signing and
    broadcast, and, once the chain has moved on before the envelope expires, a
    second pass confirms it.  Both passes terminate with a result, so no fuel
    is involved. *)
From Stdlib Require Import ZArith Lia.
From stdpp Require Import base option strings gmap sorting list.
From S2P Require Import Prelude Text Json Datetime States Address Wire Model Store Node Effects Pipeline Worker Sequential.

Local Open Scope Z_scope.
Local Open Scope prog_scope.

(** The store holds this one operation. *)
Definition only (op : Operation) (st : MemoryStore) : Prop :=
  ms_ops st = {[op_operation_id op := op]}.

Lemma live_not_terminal (s : OpState) : rank s <> 0%nat -> s ∉ TERMINAL.
Proof. rewrite elem_of_TERMINAL. by intros H [-> | [-> | ->]]. Qed.

Lemma cas_row_live (now : Z) (to_state : OpState) (sets : list FieldSet) (lease : Z) (op : Operation) :
  rank to_state <> 0%nat ->
  cas_row now to_state sets (Some lease) op =
  set_lease_expires_at (Some (now + lease))
    (set_updated_at (Some now) (set_state to_state (setattrs op sets))).
Proof. intros H. unfold cas_row. by rewrite bool_decide_eq_false_2 by by apply live_not_terminal. Qed.

Section progress.
Context (cfg : Config) (signer : MockSigner).

(** ** Single calls *)

Lemma run_cas (now : Z) (st : MemoryStore) (nd : MockTronNode) (c : CrashSwitch) (op : Operation)
    (to_state : OpState) (worker_id : pystr) (sets : list FieldSet) (detail : list (pystr * jval)) :
  representable (now + cfg_lease cfg) -> only op st ->
  can_transition (op_state op) to_state = true -> rank (op_state op) <> 0%nat ->
  forallb (fun f => bool_decide (column f ∈ MUTABLE_FIELDS)) sets = true ->
  let row := cas_row now to_state sets (Some (cfg_lease cfg)) op in
  exists st', run (_cas cfg op to_state worker_id sets detail) (mkWorld now st nd c) =
              (Ok row, mkWorld now st' nd c) /\ only row st'.
Proof.
  intros Hfit Hst Hc Hlive Hm row.
  destruct (run_cas_row cfg op to_state worker_id sets detail (mkWorld now st nd c)) as (st' & E & Hops);
    [unfold current; cbn [w_store]; by rewrite Hst, lookup_singleton_eq | done | by apply live_not_terminal | done | done |].
  exists st'. split; [exact E |]. cbn [w_store w_now] in Hops. unfold only. fold row in Hops.
  rewrite Hops, Hst. unfold row. by rewrite cas_row_id, insert_singleton_eq.
Qed.

Lemma run_crash (now : Z) (st : MemoryStore) (nd : MockTronNode) (point : pystr) :
  run (perform (CCrash point)) (mkWorld now st nd no_crash) = (Ok tt, mkWorld now st nd no_crash).
Proof. reflexivity. Qed.

Lemma release_only (now : Z) (st : MemoryStore) (op : Operation) :
  only op st ->
  only (set_updated_at (Some now) (set_lease_expires_at None (set_claimed_by None op)))
       (release now (op_operation_id op) (op_fencing_token op) st).
Proof.
  intros Hst. unfold only, release. rewrite Hst, lookup_singleton_eq, Z.eqb_refl. cbn [negb ms_ops].
  by rewrite Hst, insert_singleton_eq.
Qed.

Lemma claim_only (wanted : list OpState) (limit : nat) (worker_id : pystr) (lease now : Z)
    (st : MemoryStore) (op : Operation) :
  representable (now + lease) -> only op st -> op_state op ∈ wanted -> held now op = false -> (0 < limit)%nat ->
  exists st', claim wanted limit worker_id lease now st = (Ok [take_claim now lease worker_id op], st') /\
  only (take_claim now lease worker_id op) st'.
Proof.
  intros Hfit Hst Hw Hh Hl.
  assert (candidates wanted st = [op]) as Hc.
  { unfold candidates. rewrite Hst, map_to_list_singleton. cbn [fmap list_fmap snd].
    rewrite filter_cons, decide_True, filter_nil by done. reflexivity. }
  unfold claim. rewrite Hc. destruct limit as [|limit]; [lia |]. cbn [claim_loop].
  rewrite Hh, plus_timedelta_fits by done.
  destruct limit; cbn [claim_loop]; eexists; (split; [reflexivity |]); unfold only; cbn [ms_ops];
    by rewrite Hst, insert_singleton_eq.
Qed.

(** ** The loop around the handlers *)

Lemma drive_move (n : nat) (op op' : Operation) (worker_id : pystr) (advanced : Z) (w w' : World) :
  run (step cfg signer op worker_id) w = (Ok op', w') -> rank (op_state op') <> 0%nat ->
  op_state op' <> op_state op ->
  run (drive_loop cfg signer (S n) op worker_id advanced) w =
  run (drive_loop cfg signer n op' worker_id 1) w'.
Proof.
  intros Hs Hl Hne. cbn [drive_loop]. rewrite run_bind, run_attempt, Hs.
  rewrite (bool_decide_eq_false_2 (op_state op' = op_state op)) by done. cbn [negb].
  by rewrite bool_decide_eq_false_2 by by apply live_not_terminal.
Qed.

Lemma drive_park (n : nat) (op : Operation) (worker_id : pystr) (advanced now : Z)
    (st : MemoryStore) (nd : MockTronNode) (c : CrashSwitch) :
  run (step cfg signer op worker_id) (mkWorld now st nd c) = (Ok op, mkWorld now st nd c) ->
  rank (op_state op) <> 0%nat ->
  run (drive_loop cfg signer (S n) op worker_id advanced) (mkWorld now st nd c) =
  (Ok advanced, mkWorld now (release now (op_operation_id op) (op_fencing_token op) st) nd c).
Proof.
  intros Hs Hl. cbn [drive_loop]. rewrite run_bind, run_attempt, Hs.
  rewrite (bool_decide_eq_true_2 (op_state op = op_state op)) by done. cbn [negb].
  by rewrite bool_decide_eq_false_2 by by apply live_not_terminal.
Qed.

Lemma drive_end (n : nat) (op op' : Operation) (worker_id : pystr) (advanced : Z) (w w' : World) :
  run (step cfg signer op worker_id) w = (Ok op', w') -> op_state op' ∈ TERMINAL ->
  run (drive_loop cfg signer (S n) op worker_id advanced) w = (Ok 1, w').
Proof.
  intros Hs Hl. cbn [drive_loop]. rewrite run_bind, run_attempt, Hs. by rewrite bool_decide_eq_true_2.
Qed.

(** A pass over a store with one claimable operation drives it. *)
Lemma run_once_only (now : Z) (st : MemoryStore) (nd : MockTronNode) (c : CrashSwitch)
    (worker_id : pystr) (op : Operation) :
  representable (now + cfg_lease cfg) -> only op st ->
  rank (op_state op) <> 0%nat -> held now op = false -> (0 < cfg_claim_batch cfg)%nat ->
  let op' := take_claim now (cfg_lease cfg) worker_id op in
  exists st', only op' st' /\
  run (run_once cfg signer worker_id) (mkWorld now st nd c) =
  match run (drive_loop cfg signer 8 op' worker_id 0) (mkWorld now st' nd c) with
  | (Ok a, w') => (Ok (a + 0), w')
  | (Err e, w') => (Err e, w')
  end.
Proof.
  intros Hfit Hst Hl Hh Hb op'.
  destruct (claim_only CLAIMABLE (cfg_claim_batch cfg) worker_id (cfg_lease cfg) now st op)
    as (st' & Hc & Hst'); [done | done | by apply elem_of_CLAIMABLE, live_not_terminal | done | done |].
  exists st'. split; [done |]. unfold run_once. rewrite run_bind. cbn [run perform exec w_now].
  rewrite run_bind. cbn [run perform exec w_store]. rewrite Hc. cbn [drive_all with_store w_now w_node w_crash].
  rewrite run_bind. unfold _drive, MAX_STEPS_PER_CLAIM. fold op'.
  destruct (run (drive_loop _ _ _ _ _ _) _) as [[a | e] w']; reflexivity.
Qed.

(** ** The handlers on the straight path *)

Lemma step_validate (now : Z) (st : MemoryStore) (nd : MockTronNode) (c : CrashSwitch)
    (worker_id : pystr) (op : Operation) :
  representable (now + cfg_lease cfg) -> only op st -> op_state op = REQUESTED ->
  is_valid (JStr (op_to_address op)) = true -> op_asset op = cfg_asset cfg ->
  cfg_min_amount_units cfg <= op_amount_units op <= cfg_max_amount_units cfg ->
  let row := cas_row now VALIDATED [] (Some (cfg_lease cfg)) op in
  exists st', run (step cfg signer op worker_id) (mkWorld now st nd c) = (Ok row, mkWorld now st' nd c) /\
  only row st'.
Proof.
  intros Hfit Hst Hs Hv Ha Hb. unfold step. rewrite Hs. unfold _validate. rewrite Hv, Ha.
  rewrite bool_decide_eq_true_2 by done. rewrite (proj2 (Z.leb_le _ _) (proj1 Hb)), (proj2 (Z.leb_le _ _) (proj2 Hb)).
  apply run_cas; [done | done | by rewrite Hs | by rewrite Hs | done].
Qed.

(** The row carries this envelope. *)
Definition carries (sg : SignedTx) (op : Operation) : Prop :=
  op_signed_tx op = Some (to_json sg) /\ op_txid op = Some (stx_txid sg).

Lemma step_build (now : Z) (st : MemoryStore) (nd : MockTronNode) (worker_id : pystr) (op : Operation)
    (ref : Z * pystr) :
  representable (now + cfg_lease cfg) -> only op st -> op_state op = VALIDATED -> op_attempts op < cfg_max_build_attempts cfg ->
  ref_block nd = Ok ref -> representable (now + cfg_tx_ttl cfg) ->
  exists row sg st',
  run (step cfg signer op worker_id) (mkWorld now st nd no_crash) = (Ok row, mkWorld now st' nd no_crash) /\
  only row st' /\ op_state row = SIGNED /\ op_operation_id row = op_operation_id op /\
  carries sg row /\ stx_expiration sg = now + cfg_tx_ttl cfg /\ exists utx, sg = sign signer utx.
Proof.
  intros Hfit Hst Hs Ha Href Hrep. unfold step. rewrite Hs. unfold _build_and_sign.
  rewrite bool_decide_eq_true_2 by done. rewrite run_bind.
  destruct (run_cas now st nd no_crash op SIGNING worker_id [] []) as (st1 & -> & Hst1);
    [done | done | by rewrite Hs | by rewrite Hs | done |].
  rewrite cas_row_live in * by done. set (op1 := set_lease_expires_at _ _) in *.
  unfold build_envelope. rewrite (proj2 (Z.leb_gt _ (op_attempts op1)) Ha).
  rewrite run_bind. cbn [run perform exec w_node]. rewrite Href.
  rewrite run_bind. cbn [run perform exec w_now]. rewrite run_bind. unfold plus_timedelta.
  rewrite decide_True by done. cbn [run lift]. set (u := unsigned_of _ _ _ _ _).
  rewrite run_bind. match goal with |- context [run (_cas cfg op1 SIGNING worker_id ?s ?d) _] =>
    destruct (run_cas now st1 nd no_crash op1 SIGNING worker_id s d) as (st2 & -> & Hst2) end;
    [done | done | done | done | reflexivity |].
  rewrite cas_row_live in * by done. set (op2 := set_lease_expires_at _ _) in Hst2 |- *.
  rewrite run_bind, run_crash.
  destruct (run_cas now st2 nd no_crash op2 SIGNED worker_id [Set_signed_tx (Some (to_json (sign signer u)))] [])
    as (st3 & -> & Hst3); [done | done | done | done | reflexivity |].
  rewrite cas_row_live in * by done.
  eexists _, (sign signer u), st3. split_and!;
    [reflexivity | exact Hst3 | reflexivity | reflexivity | by split | reflexivity | by exists u].
Qed.

Lemma step_broadcast (now : Z) (st : MemoryStore) (nd : MockTronNode) (worker_id : pystr)
    (op : Operation) (sg : SignedTx) :
  representable (now + cfg_lease cfg) -> only op st -> op_state op = SIGNED -> carries sg op -> representable (stx_expiration sg) ->
  now < stx_expiration sg -> nd_faults nd !! str "broadcast" = Some [] ->
  verify (nd_signer nd) sg = true -> find_rec (stx_txid sg) nd = None ->
  exists row st',
  run (step cfg signer op worker_id) (mkWorld now st nd no_crash) =
  (Ok row, mkWorld now st'
     (logit (stx_txid sg) (str "accepted") (Some worker_id)
        (with_txs (nd_txs nd ++ [(stx_txid sg, mkTxRecord sg (nd_head nd) None None)]) nd)) no_crash) /\
  only row st' /\ op_state row = BROADCAST /\ op_operation_id row = op_operation_id op /\ carries sg row.
Proof.
  intros Hfit Hst Hs [Hsg Htx] Hrep Hnow Hf Hv Hr. unfold step. rewrite Hs. unfold _broadcast.
  rewrite Hsg, from_json_to_json by done. rewrite run_bind. cbn [run lift].
  rewrite run_bind. cbn [run perform exec w_now]. rewrite (proj2 (Z.leb_gt _ _) Hnow), run_bind.
  match goal with |- context [run (_cas cfg op BROADCASTING worker_id ?s ?d) _] =>
    destruct (run_cas now st nd no_crash op BROADCASTING worker_id s d) as (st1 & -> & Hst1) end;
    [done | done | by rewrite Hs | by rewrite Hs | done |].
  rewrite cas_row_live in * by done. set (op1 := set_lease_expires_at _ _) in *.
  rewrite run_bind, run_crash. unfold or_timeout. rewrite run_bind, run_attempt.
  cbn [run perform exec w_now w_node]. unfold broadcast, take_fault. rewrite Hf. unfold broadcast_body.
  rewrite !(bool_decide_eq_false_2 (None = Some _)) by done. rewrite Hv. cbn [negb].
  rewrite (proj2 (Z.leb_gt _ _) Hnow), Hr.
  rewrite bool_decide_eq_false_2 by (by intros [? ?]). unfold with_node. cbn [w_now w_store w_crash].
  rewrite run_bind, run_crash. unfold _settle_broadcast_result. cbn [br_code].
  rewrite bool_decide_eq_true_2 by (apply (bool_decide_unpack _); vm_compute; exact I).
  rewrite run_bind. cbn [run perform exec w_now].
  match goal with |- context [run (_cas cfg op1 BROADCAST worker_id ?s ?d) (mkWorld now st1 ?n no_crash)] =>
    destruct (run_cas now st1 n no_crash op1 BROADCAST worker_id s d) as (st2 & -> & Hst2) end;
    [done | done | done | done | reflexivity |].
  rewrite cas_row_live in * by done. eexists _, st2.
  split_and!; [reflexivity | exact Hst2 | reflexivity | reflexivity | by split].
Qed.

(** What the node answers once it has been asked without a fault. *)
Lemma run_find (now : Z) (st : MemoryStore) (nd : MockTronNode) (c : CrashSwitch) (txid : pystr)
    (op : Operation) (k : TxStatus -> prog Operation) :
  nd_faults nd !! str "query" = Some [] ->
  run (or_timeout (CFindTx txid) op k) (mkWorld now st nd c) =
  run (k (tx_status now txid nd)) (mkWorld now st nd c).
Proof.
  intros Hf. unfold or_timeout. rewrite run_bind, run_attempt. cbn [run perform exec w_now w_node].
  unfold find_tx, take_fault. rewrite Hf. by rewrite bool_decide_eq_false_2.
Qed.

Lemma step_pending (now : Z) (st : MemoryStore) (nd : MockTronNode) (c : CrashSwitch)
    (worker_id : pystr) (op : Operation) (sg : SignedTx) :
  op_state op = BROADCAST -> carries sg op -> representable (stx_expiration sg) ->
  nd_faults nd !! str "query" = Some [] ->
  tx_status now (stx_txid sg) nd = mkTxStatus PENDING None false None ->
  run (step cfg signer op worker_id) (mkWorld now st nd c) = (Ok op, mkWorld now st nd c).
Proof.
  intros Hs [Hsg _] Hrep Hf Hp. unfold step. rewrite Hs. unfold _await_confirmation.
  rewrite Hsg, from_json_to_json by done. rewrite run_bind. cbn [run lift].
  rewrite run_find by done. by rewrite Hp.
Qed.

Lemma step_confirm (now : Z) (st : MemoryStore) (nd : MockTronNode) (worker_id : pystr)
    (op : Operation) (sg : SignedTx) (b : Z) :
  representable (now + cfg_lease cfg) -> only op st -> op_state op = BROADCAST -> carries sg op -> representable (stx_expiration sg) ->
  nd_faults nd !! str "query" = Some [] ->
  tx_status now (stx_txid sg) nd = mkTxStatus INCLUDED (Some b) true (Some (str "SUCCESS")) ->
  exists row st',
  run (step cfg signer op worker_id) (mkWorld now st nd no_crash) = (Ok row, mkWorld now st' nd no_crash) /\
  only row st' /\ op_state row = CONFIRMED /\ op_operation_id row = op_operation_id op /\ carries sg row.
Proof.
  intros Hfit Hst Hs [Hsg Htx] Hrep Hf Hp. unfold step. rewrite Hs. unfold _await_confirmation.
  rewrite Hsg, from_json_to_json by done. rewrite run_bind. cbn [run lift].
  rewrite run_find by done. rewrite Hp. cbn [st_result st_solid st_receipt st_block negb].
  rewrite run_bind, run_crash, bool_decide_eq_true_2 by done.
  rewrite run_bind. cbn [run perform exec w_now].
  match goal with |- context [run (_cas cfg op CONFIRMED worker_id ?s ?d) _] =>
    destruct (run_cas now st nd no_crash op CONFIRMED worker_id s d) as (st1 & -> & Hst1) end;
    [done | done | by rewrite Hs | by rewrite Hs | reflexivity |].
  eexists _, st1. split; [reflexivity |]. split; [exact Hst1 |].
  unfold cas_row. rewrite bool_decide_eq_true_2 by (apply elem_of_TERMINAL; auto). by split_and!.
Qed.

(** ** The first pass *)

Lemma first_pass (now : Z) (st : MemoryStore) (nd : MockTronNode) (worker_id : pystr)
    (op : Operation) (ref : Z * pystr) :
  representable (now + cfg_lease cfg) -> only op st -> op_state op = REQUESTED -> op_lease_expires_at op = None ->
  is_valid (JStr (op_to_address op)) = true -> op_asset op = cfg_asset cfg ->
  cfg_min_amount_units cfg <= op_amount_units op <= cfg_max_amount_units cfg ->
  op_attempts op < cfg_max_build_attempts cfg -> (0 < cfg_claim_batch cfg)%nat ->
  0 < cfg_tx_ttl cfg -> representable (now + cfg_tx_ttl cfg) ->
  nd_faults nd !! str "broadcast" = Some [] -> nd_faults nd !! str "query" = Some [] ->
  nd_txs nd = [] -> ref_block nd = Ok ref ->
  (forall utx, verify (nd_signer nd) (sign signer utx) = true) ->
  exists row sg st',
  run (run_once cfg signer worker_id) (mkWorld now st nd no_crash) =
  (Ok 1, mkWorld now st'
     (logit (stx_txid sg) (str "accepted") (Some worker_id)
        (with_txs [(stx_txid sg, mkTxRecord sg (nd_head nd) None None)] nd)) no_crash) /\
  only row st' /\ op_state row = BROADCAST /\ op_operation_id row = op_operation_id op /\
  op_lease_expires_at row = None /\ carries sg row /\ stx_expiration sg = now + cfg_tx_ttl cfg.
Proof.
  intros Hfit Hst Hs Hlease Hv Ha Hb Hatt Hbatch Httl Hrep Hfb Hfq Htxs Href Hsig.
  destruct (run_once_only now st nd no_crash worker_id op) as (st0 & Hst0 & ->);
    [done | done | by rewrite Hs | unfold held; by rewrite Hlease | done |].
  set (op0 := take_claim _ _ _ _) in *.
  destruct (step_validate now st0 nd no_crash worker_id op0) as (st1 & R1 & Hst1); try done.
  rewrite cas_row_live in * by done. set (op1 := set_lease_expires_at _ _) in R1, Hst1.
  destruct (step_build now st1 nd worker_id op1 ref)
    as (op2 & sg & st2 & R2 & Hst2 & Hs2 & Hid2 & Hc2 & He & utx & Hu); try done.
  assert (representable (stx_expiration sg)) as Hrep' by (by rewrite He).
  assert (now < stx_expiration sg) as Hlt by (rewrite He; lia).
  destruct (step_broadcast now st2 nd worker_id op2 sg) as (op3 & st3 & R3 & Hst3 & Hs3 & Hid3 & Hc3);
    try done; [by rewrite Hu | unfold find_rec; by rewrite Htxs |].
  rewrite Htxs in R3. cbn [app] in R3. set (nd' := logit _ _ _ _) in *.
  assert (run (step cfg signer op3 worker_id) (mkWorld now st3 nd' no_crash) =
          (Ok op3, mkWorld now st3 nd' no_crash)) as R4.
  { apply (step_pending _ _ _ _ _ _ sg); try done. unfold tx_status, find_rec, nd'.
    cbn [logit with_txs nd_txs assoc]. rewrite decide_True by done. cbn [tr_included_block tr_tx].
    by rewrite (proj2 (Z.leb_gt _ _) Hlt). }
  rewrite (drive_move _ _ _ _ _ _ _ R1) by (cbn; by rewrite ?Hs).
  rewrite (drive_move _ _ _ _ _ _ _ R2) by (by rewrite Hs2).
  rewrite (drive_move _ _ _ _ _ _ _ R3) by (by rewrite ?Hs2, Hs3).
  rewrite (drive_park _ _ _ _ _ _ _ _ R4) by (by rewrite Hs3).
  pose proof (release_only now st3 op3 Hst3) as Hst4.
  eexists _, sg, _. split; [reflexivity |]. split; [exact Hst4 |].
  split_and!; [exact Hs3 | | reflexivity | exact Hc3 | exact He].
  cbn. by rewrite Hid3, Hid2.
Qed.

End progress.

(** ** The chain in between *)

(** [k] blocks after an envelope was accepted at height [h0] and nothing else
    happened: it waits until its delay is over and is then mined for good. *)
Record grown (sg : SignedTx) (h0 lag delay lim : Z) (k : nat) (nd : MockTronNode) : Prop := {
  gr_head : nd_head nd = h0 + Z.of_nat k;
  gr_lag : nd_solidity_lag nd = lag;
  gr_delay : nd_inclusion_delay nd = delay;
  gr_query : nd_faults nd !! str "query" = Some [];
  gr_receipt : default [] (nd_faults nd !! str "receipt") = [];
  gr_time : exists t, block_time_at (nd_head nd) (nd_block_time nd) = Some t /\
                      t <= lim + 1000 * Z.of_nat k;
  gr_txs : nd_txs nd =
    [(stx_txid sg,
      if Z.of_nat k <? Z.max 1 delay then mkTxRecord sg h0 None None
      else mkTxRecord sg h0 (Some (h0 + Z.max 1 delay)) (Some (str "SUCCESS")))]
}.

Lemma produce_grown (sg : SignedTx) (h0 lag delay lim now : Z) (k : nat) (nd : MockTronNode) :
  grown sg h0 lag delay lim k nd -> now <= lim -> lim + 1000 * Z.of_nat (S k) < stx_expiration sg ->
  exists nd', produce_block now nd = Ok nd' /\ grown sg h0 lag delay lim (S k) nd'.
Proof.
  intros [Hh Hl Hd Hq Hr (t & Ht & Hle) Htx] Hnow Hexp. unfold produce_block. rewrite Ht, Htx, Hd.
  set (t' := if now <=? t then t + 1000 else now).
  assert (t' <= lim + 1000 * Z.of_nat (S k)) as Ht'.
  { unfold t'. destruct (Z.leb_spec now t); lia. }
  assert (forall f nd', nd' = with_chain (nd_head nd + 1) ((nd_head nd + 1, t') :: nd_block_time nd)
      [(stx_txid sg, if Z.of_nat (S k) <? Z.max 1 delay then mkTxRecord sg h0 None None
         else mkTxRecord sg h0 (Some (h0 + Z.max 1 delay)) (Some (str "SUCCESS")))] f nd ->
    f !! str "query" = Some [] -> default [] (f !! str "receipt") = [] ->
    grown sg h0 lag delay lim (S k) nd') as Hgrown.
  { intros f nd' -> Hfq Hfr. split; try done; cbn [with_chain nd_head nd_block_time]; [lia |].
    exists t'. cbn [block_time_at]. by rewrite Z.eqb_refl. }
  cbn [include_all]. unfold include_one.
  destruct (Z.ltb_spec (Z.of_nat k) (Z.max 1 delay)) as [Hk | Hk]; cbn [tr_included_block tr_tx tr_accepted_at_block].
  - rewrite (proj2 (Z.leb_gt _ _) (Z.le_lt_trans _ _ _ Ht' Hexp)).
    destruct (Z.leb_spec delay (nd_head nd + 1 - h0)) as [Hin | Hin].
    + unfold pop_revert. rewrite Hr. eexists. split; [reflexivity |].
      apply (Hgrown (<[str "receipt" := []]> (nd_faults nd)));
        [| rewrite lookup_insert_ne; [exact Hq | vm_compute; discriminate] | by rewrite lookup_insert_eq].
      rewrite (proj2 (Z.ltb_ge _ _)) by lia. do 5 f_equal. lia.
    + eexists. split; [reflexivity |]. apply (Hgrown (nd_faults nd)); [| done | done].
      rewrite (proj2 (Z.ltb_lt _ _)) by lia. done.
  - eexists. split; [reflexivity |]. apply (Hgrown (nd_faults nd)); [| done | done].
    rewrite (proj2 (Z.ltb_ge _ _)) by lia. done.
Qed.

Lemma produce_grown_n (n : nat) (sg : SignedTx) (h0 lag delay lim now : Z) (k : nat) (nd : MockTronNode) :
  grown sg h0 lag delay lim k nd -> now <= lim -> lim + 1000 * Z.of_nat (n + k) < stx_expiration sg ->
  exists nd', produce_blocks n now nd = Ok nd' /\ grown sg h0 lag delay lim (n + k) nd'.
Proof.
  revert k nd. induction n as [|n IH]; intros k nd Hg Hnow Hexp; [by exists nd |].
  destruct (produce_grown sg h0 lag delay lim now k nd) as (nd1 & E1 & Hg1); [done | done | lia |].
  destruct (IH (S k) nd1) as (nd' & E & Hg'); [done | done | lia |]. exists nd'.
  cbn [produce_blocks]. rewrite E1. cbn [result_bind]. split; [done |].
  by replace (S n + k)%nat with (n + S k)%nat by lia.
Qed.

Lemma grown_solid (sg : SignedTx) (h0 lag delay lim now : Z) (k : nat) (nd : MockTronNode) :
  grown sg h0 lag delay lim k nd -> lag + Z.max 1 delay <= Z.of_nat k -> 0 <= lag ->
  tx_status now (stx_txid sg) nd =
    mkTxStatus INCLUDED (Some (h0 + Z.max 1 delay)) true (Some (str "SUCCESS")) /\
  stx_txid sg ∈ successful_txids nd.
Proof.
  intros [Hh Hl _ _ _ _ Htx] Hk Hlag. rewrite (proj2 (Z.ltb_ge _ _)) in Htx by lia. split.
  - unfold tx_status, find_rec. rewrite Htx. cbn [assoc]. rewrite decide_True by done.
    cbn [tr_included_block tr_receipt]. unfold solid_block. rewrite Hh, Hl.
    by rewrite (proj2 (Z.leb_le _ _)) by lia.
  - unfold successful_txids. rewrite Htx. rewrite filter_cons, decide_True, filter_nil by reflexivity.
    left.
Qed.

(** ** Properties *)

(** C8. Progress: on a node that causes no faults, a valid withdrawal is paid
    and confirmed, as long as leases and envelope end within the calendar,
    batch, attempts and lifetime are positive and the key id has no colon.  The
    first pass of a worker validates, signs and broadcasts it and reports that
    it advanced; after the blocks of [solidify], produced before the envelope
    expires, a second pass (by any worker) ends with the operation confirmed
    and its txid among the successful transfers. *)
Theorem withdrawal_settles (cfg : Config) (signer : MockSigner) (worker1 worker2 : pystr)
    (genesis now now2 lag delay id : Z) (request_hash : bytes) (to_address : pystr) (amount_units : Z) :
  58 ∉ key_id signer -> 0 <= lag -> 0 <= delay ->
  (0 < cfg_claim_batch cfg)%nat -> 0 < cfg_max_build_attempts cfg ->
  0 < cfg_tx_ttl cfg -> representable (now + cfg_tx_ttl cfg) ->
  representable (now + cfg_lease cfg) -> representable (now2 + cfg_lease cfg) ->
  is_valid (JStr to_address) = true ->
  cfg_min_amount_units cfg <= amount_units <= cfg_max_amount_units cfg ->
  Z.max now2 genesis + 1000 * (lag + delay + 1) < now + cfg_tx_ttl cfg ->
  let op := new_operation id request_hash REQUESTED to_address (cfg_asset cfg) amount_units in
  let w0 := mkWorld now (snd (insert_new now op empty_store)) (new_node genesis lag delay signer) no_crash in
  exists w1 nd w2 row txid,
  run (run_once cfg signer worker1) w0 = (Ok 1, w1) /\
  solidify now2 (w_node w1) = Ok nd /\
  run (run_once cfg signer worker2) (mkWorld now2 (w_store w1) nd no_crash) = (Ok 1, w2) /\
  get id (w_store w2) = Some row /\ op_state row = CONFIRMED /\ op_txid row = Some txid /\
  txid ∈ successful_txids (w_node w2).
Proof.
  intros Hkey Hlag Hdelay Hbatch Hmax Httl Hrep Hfit Hfit2 Hv Hb Htime op w0.
  set (row0 := set_updated_at (Some now) (set_created_at (Some now) op)).
  destruct (first_pass cfg signer now (snd (insert_new now op empty_store))
    (new_node genesis lag delay signer) worker1 row0 (Z.max (1000 - lag) 1000, str "blk" ++ hex16 (Z.max (1000 - lag) 1000)))
    as (row1 & sg & st1 & R1 & Hst1 & Hs1 & Hid1 & Hl1 & Hc1 & He); try done.
  { intros utx. cbn [nd_signer new_node]. by apply sign_verifies. }
  set (nd1 := logit _ _ _ _) in R1.
  assert (grown sg 1000 lag delay (Z.max now2 genesis) 0 nd1) as Hg.
  { split; try done; [exists genesis; split; [done | lia] |].
    rewrite (proj2 (Z.ltb_lt _ _)) by lia. done. }
  destruct (produce_grown_n (Z.to_nat (lag + delay + 1)) sg 1000 lag delay (Z.max now2 genesis) now2 0 nd1)
    as (nd & E & Hg'); [done | lia | rewrite He; lia |].
  destruct (grown_solid _ _ _ _ _ now2 _ _ Hg') as [Hstat Hsucc]; [lia | done |].
  destruct (run_once_only cfg signer now2 st1 nd no_crash worker2 row1) as (st2 & Hst2 & R2);
    [done | done | by rewrite Hs1 | unfold held; by rewrite Hl1 | done |].
  destruct (step_confirm cfg signer now2 st2 nd worker2 (take_claim now2 (cfg_lease cfg) worker2 row1) sg
    (1000 + Z.max 1 delay)) as (row & st3 & R3 & Hst3 & Hs3 & Hid3 & Hc3); try done.
  { by rewrite He. }
  { apply Hg'. }
  rewrite (drive_end _ _ _ _ _ _ _ _ _ R3) in R2 by (rewrite Hs3, elem_of_TERMINAL; auto).
  eexists _, nd, _, row, (stx_txid sg). split; [exact R1 |]. split; [exact E |]. split; [exact R2 |].
  split_and!; [| exact Hs3 | apply Hc3 | exact Hsucc].
  assert (op_operation_id row = id) as Hid by (rewrite Hid3; exact Hid1).
  unfold get. cbn [w_store]. rewrite Hst3, Hid. apply lookup_singleton_eq.
Qed.

(** With the default configuration, two seconds after the first pass. *)
Lemma withdrawal_settles_witness :
  let op := new_operation 1 [] REQUESTED USDT_TRC20_CONTRACT (cfg_asset default_config) 1500000 in
  let w0 := mkWorld 1000000 (snd (insert_new 1000000 op empty_store)) (new_node 0 2 1 default_signer) no_crash in
  exists w1 nd w2 row txid,
  run (run_once default_config default_signer (str "a")) w0 = (Ok 1, w1) /\
  solidify 3000000 (w_node w1) = Ok nd /\
  run (run_once default_config default_signer (str "b")) (mkWorld 3000000 (w_store w1) nd no_crash) = (Ok 1, w2) /\
  get 1 (w_store w2) = Some row /\ op_state row = CONFIRMED /\ op_txid row = Some txid /\
  txid ∈ successful_txids (w_node w2).
Proof.
  apply (withdrawal_settles default_config default_signer (str "a") (str "b") 0 1000000 3000000 2 1 1 []
           USDT_TRC20_CONTRACT 1500000).
  - apply (bool_decide_unpack _). vm_compute. exact I.
  - lia.
  - lia.
  - vm_compute. lia.
  - reflexivity.
  - reflexivity.
  - apply (bool_decide_unpack _). vm_compute. exact I.
  - apply (bool_decide_unpack _). vm_compute. exact I.
  - apply (bool_decide_unpack _). vm_compute. exact I.
  - vm_compute. reflexivity.
  - vm_compute. split; discriminate.
  - vm_compute. reflexivity.
Defined.
