(* ===== verification/Drain.v ===== *)
(** * Termination of [drain]

    [drain] repeats [run_once] until a pass advances nothing and gives up with
    a [RuntimeError] after 1000 passes.  A row's [potential] falls with every
    change of its state: forward along the table by the rank of the state, and
    back into [SIGNING] because a rebuild uses up one of the build attempts.  So
    the total potential of the store bounds the passes [drain] can need,
    whatever the node answers, faults included.  Another worker or an armed
    crash point would end a pass differently; here the program runs alone. *)
From Stdlib Require Import ZArith Lia.
From stdpp Require Import base option strings gmap fin_maps list.
From S2P Require Import Prelude Text Json Datetime States Address Wire Model Store Node Effects Pipeline Worker Sequential.

Local Open Scope Z_scope.

Section drain.
Context (cfg : Config) (signer : MockSigner).

(** Nothing is rigged to die, and a lease taken now ends within the calendar. *)
Definition alone (w : World) : Prop := unarmed w /\ representable (w_now w + cfg_lease cfg).

Lemma alone_same (w w' : World) : alone w -> w_crash w' = w_crash w -> w_now w' = w_now w -> alone w'.
Proof. unfold alone, unarmed. by intros H -> ->. Qed.

Lemma alone_quiet {X : Type} (c : call X) (Q : result exn X -> World -> Prop) (w : World) :
  quiet c -> alone w ->
  (forall r w', w_store w' = w_store w -> alone w' -> plain r -> Q r w') -> seq (perform c) Q w.
Proof.
  intros Hq [Hu Hfit] HQ. pose proof (quiet_exec c w Hq Hu) as H. pose proof (exec_now c w) as Hn.
  unfold seq, perform. cbn [run]. destruct (exec c w) as [r w']. cbn [fst snd] in *.
  destruct H as (H1 & H2 & H3). apply HQ; [done | | done]. split; [done | by rewrite Hn].
Qed.

(** ** The potential of a row *)

(** A row out of build attempts: from [SIGNING] it can only fail. *)
Definition last_rank (s : OpState) : nat :=
  match s with
  | REQUESTED => 9 | VALIDATED => 8
  | SIGNED => 7 | BROADCASTING => 6 | BROADCAST => 5 | SIGNING => 4
  | CONFIRMED | FAILED | REJECTED => 0
  end.

Definition potential (op : Operation) : nat :=
  if op_attempts op <? cfg_max_build_attempts cfg
  then 8 * Z.to_nat (cfg_max_build_attempts cfg - op_attempts op) + 8 + rank (op_state op)
  else last_rank (op_state op).

(** [row] is what [op] may have become: the same state, or less to do. *)
Definition descends (op row : Operation) : Prop :=
  op_operation_id row = op_operation_id op /\ op_fencing_token row = op_fencing_token op /\
  (potential row <= potential op)%nat /\
  (op_state row = op_state op \/ (potential row < potential op)%nat).

#[export] Instance descends_preorder : PreOrder descends.
Proof.
  split.
  - intros op. split_and!; try done. by left.
  - intros a b c (H1 & H2 & H3 & H4) (H5 & H6 & H7 & H8).
    split_and!; [congruence | congruence | lia |].
    destruct H4 as [H4 |], H8 as [H8 |]; [left; congruence | right; lia..].
Qed.

Lemma potential_same (op row : Operation) :
  op_attempts row = op_attempts op -> op_state row = op_state op -> potential row = potential op.
Proof. intros Ha Hs. unfold potential. by rewrite Ha, Hs. Qed.

(** A write that keeps the attempts and goes forward, into [SIGNED] only with an
    attempt left. *)
Lemma potential_forward (op row : Operation) :
  op_attempts row = op_attempts op -> edge (op_state op) (op_state row) -> op_state row <> SIGNING \/ op_state op = VALIDATED ->
  (op_state row = SIGNED -> op_attempts op < cfg_max_build_attempts cfg) ->
  (potential row < potential op)%nat.
Proof.
  intros Ha He Hn Hs. unfold potential. rewrite Ha. unfold edge in He.
  destruct (Z.ltb_spec (op_attempts op) (cfg_max_build_attempts cfg)) as [Hlt | Hge];
    destruct (op_state op); simpl in He; in_list He; rewrite He in *; simpl; try lia;
    solve [destruct Hn; discriminate || done | specialize (Hs eq_refl); lia].
Qed.

Lemma potential_rebuild (op row : Operation) :
  op_attempts row = op_attempts op + 1 -> op_state row = SIGNING ->
  op_state op ∈ [SIGNED; BROADCASTING; BROADCAST] -> (potential row < potential op)%nat.
Proof.
  intros Ha Hs Hin. unfold potential. rewrite Ha, Hs.
  destruct (Z.ltb_spec (op_attempts op) (cfg_max_build_attempts cfg)),
    (Z.ltb_spec (op_attempts op + 1) (cfg_max_build_attempts cfg)); in_list Hin; rewrite Hin; simpl; lia.
Qed.

Lemma cas_row_attempts (now : Z) (to_state : OpState) (sets : list FieldSet) (renew : option Z) (op : Operation) :
  op_attempts (cas_row now to_state sets renew op) = op_attempts (setattrs op sets).
Proof. unfold cas_row. destruct renew; case_bool_decide; reflexivity. Qed.

Lemma cas_row_descends (now : Z) (to_state : OpState) (sets : list FieldSet) (renew : option Z) (op : Operation) :
  (potential (cas_row now to_state sets renew op) < potential op)%nat \/
  (op_attempts (setattrs op sets) = op_attempts op /\ to_state = op_state op) ->
  descends op (cas_row now to_state sets renew op).
Proof.
  destruct (cas_row_frame now to_state sets renew op) as (Ht & Hs & Hf).
  pose proof (cas_row_attempts now to_state sets renew op) as Ha.
  set (row := cas_row _ _ _ _ _) in *. intros H. split_and!; [by apply terms_id | done | |].
  - destruct H as [H | [H1 H2]]; [lia |]. rewrite (potential_same op row); [done | congruence..].
  - destruct H as [H | [_ H2]]; [by right | left; congruence].
Qed.

(** ** Handlers *)

(** After a handler, run in [w] on the current row [op]: only that row changed,
    to one [op] may become, and a result is that row. *)
Definition handled (op : Operation) (w : World) (r : result exn Operation) (w' : World) : Prop :=
  exists row, ms_ops (w_store w') = <[op_operation_id op := row]> (ms_ops (w_store w)) /\
  descends op row /\ alone w' /\ plain r /\
  match r with Ok op' => op' = row | Err _ => True end.

Lemma handled_same (op : Operation) (w w' : World) (r : result exn Operation) :
  current op w -> w_store w' = w_store w -> alone w' -> plain r ->
  match r with Ok op' => op' = op | Err _ => True end -> handled op w r w'.
Proof.
  intros Hc Hst Hu Hp Hr. exists op. split_and!; try done. by rewrite Hst, insert_id.
Qed.

Lemma handled_after (op op1 : Operation) (w w1 w2 : World) (r : result exn Operation) :
  ms_ops (w_store w1) = <[op_operation_id op := op1]> (ms_ops (w_store w)) -> descends op op1 ->
  handled op1 w1 r w2 -> handled op w r w2.
Proof.
  intros H1 Hd (row & H2 & Hd2 & H). exists row. split_and!; try apply H; [| by etrans].
  destruct Hd as (Hid & _). by rewrite H2, H1, Hid, insert_insert_eq.
Qed.

Lemma handled_store (op : Operation) (w w1 : World) (r : result exn Operation) (w2 : World) :
  w_store w1 = w_store w -> handled op w1 r w2 -> handled op w r w2.
Proof. intros E (row & H). exists row. by rewrite <- E. Qed.

Lemma current_store (op : Operation) (w w' : World) : w_store w' = w_store w -> current op w -> current op w'.
Proof. unfold current. by intros ->. Qed.

(** A last write. *)
Lemma cas_handled (op : Operation) (to_state : OpState) (worker_id : pystr) (sets : list FieldSet)
    (detail : list (pystr * jval)) (w : World) :
  current op w -> alone w -> can_transition (op_state op) to_state = true -> (op_state op ∉ TERMINAL) ->
  forallb (fun f => bool_decide (column f ∈ MUTABLE_FIELDS)) sets = true ->
  (forall now renew, (potential (cas_row now to_state sets renew op) < potential op)%nat \/
    (op_attempts (setattrs op sets) = op_attempts op /\ to_state = op_state op)) ->
  seq (_cas cfg op to_state worker_id sets detail) (handled op w) w.
Proof.
  intros Hc Hu Ht Hl Hm Hd. apply seq_cas; try done; [apply Hu |]. intros w' row Hops Hcr Hnow. exists row.
  split_and!; try done; [by apply cas_row_descends | by eapply alone_same].
Qed.

(** A write that keeps the attempts, forward or in place. *)
Definition forward (op : Operation) (to_state : OpState) : Prop :=
  to_state = op_state op \/
  (edge (op_state op) to_state /\ (to_state <> SIGNING \/ op_state op = VALIDATED) /\
   (to_state = SIGNED -> op_attempts op < cfg_max_build_attempts cfg)).

Lemma forward_transition (op : Operation) (to_state : OpState) :
  forward op to_state -> can_transition (op_state op) to_state = true.
Proof. intros H. apply can_transition_spec. destruct H as [-> | (H & _)]; [by left | by right]. Qed.

Lemma forward_potential (op : Operation) (to_state : OpState) (sets : list FieldSet) (now : Z)
    (renew : option Z) :
  forward op to_state -> op_attempts (setattrs op sets) = op_attempts op ->
  (potential (cas_row now to_state sets renew op) < potential op)%nat \/
  (op_attempts (setattrs op sets) = op_attempts op /\ to_state = op_state op).
Proof.
  intros [-> | (He & Hn & Hs)] Ha; [by right | left].
  destruct (cas_row_frame now to_state sets renew op) as (_ & Est & _).
  apply potential_forward; rewrite ?Est; try done. by rewrite cas_row_attempts.
Qed.

Lemma cas_forward (op : Operation) (to_state : OpState) (worker_id : pystr) (sets : list FieldSet)
    (detail : list (pystr * jval)) (w : World) :
  current op w -> alone w -> (op_state op ∉ TERMINAL) -> forward op to_state ->
  op_attempts (setattrs op sets) = op_attempts op ->
  forallb (fun f => bool_decide (column f ∈ MUTABLE_FIELDS)) sets = true ->
  seq (_cas cfg op to_state worker_id sets detail) (handled op w) w.
Proof.
  intros Hc Hu Hl Hf Ha Hm. apply cas_handled; try done; [by apply forward_transition |].
  intros now renew. by apply forward_potential.
Qed.

Lemma cas_then (op : Operation) (to_state : OpState) (worker_id : pystr) (sets : list FieldSet)
    (detail : list (pystr * jval)) (k : Operation -> prog Operation) (w : World) :
  current op w -> alone w -> (op_state op ∉ TERMINAL) -> forward op to_state ->
  op_attempts (setattrs op sets) = op_attempts op ->
  forallb (fun f => bool_decide (column f ∈ MUTABLE_FIELDS)) sets = true ->
  (forall op1 w1, current op1 w1 -> alone w1 -> op_state op1 = to_state ->
     op_attempts op1 = op_attempts op -> seq (k op1) (handled op1 w1) w1) ->
  seq (bind (_cas cfg op to_state worker_id sets detail) k) (handled op w) w.
Proof.
  intros Hc Hu Hl Hf Ha Hm Hk. apply seq_bind, seq_cas; try done; [by apply forward_transition | apply Hu |].
  intros w' row Hops Hcr Hnow.
  assert (descends op row) as Hd by (apply cas_row_descends; by apply forward_potential).
  eapply seq_weaken; [apply Hk |].
  - unfold current. rewrite Hops. unfold row at 1. rewrite cas_row_id. apply lookup_insert_eq.
  - by eapply alone_same.
  - apply cas_row_frame.
  - unfold row. by rewrite cas_row_attempts.
  - intros r w2. by apply handled_after.
Qed.

(** A call that leaves the store alone, then the rest. *)
Lemma quiet_then {X : Type} (c : call X) (k : X -> prog Operation) (op : Operation) (w : World) :
  quiet c -> current op w -> alone w ->
  (forall x w1, current op w1 -> alone w1 -> seq (k x) (handled op w1) w1) ->
  seq (bind (perform c) k) (handled op w) w.
Proof.
  intros Hq Hc Hu Hk. apply seq_bind, alone_quiet; try done. intros [x | e] w' Hst Hu' Hp.
  - eapply seq_weaken; [apply Hk; [by eapply current_store | done] |]. intros r w2. by apply handled_store.
  - by apply handled_same.
Qed.

Lemma timeout_then {X : Type} (c : call X) (k : X -> prog Operation) (op : Operation) (w : World) :
  quiet c -> current op w -> alone w ->
  (forall x w1, current op w1 -> alone w1 -> seq (k x) (handled op w1) w1) ->
  seq (or_timeout c op k) (handled op w) w.
Proof.
  intros Hq Hc Hu Hk. apply seq_bind, seq_attempt, alone_quiet; try done. intros [x | e] w' Hst Hu' Hp.
  - eapply seq_weaken; [apply Hk; [by eapply current_store | done] |]. intros r w2. by apply handled_store.
  - destruct e; by apply handled_same.
Qed.

Lemma done_handled (r : result exn Operation) (op : Operation) (w : World) :
  current op w -> alone w -> plain r -> match r with Ok op' => op' = op | Err _ => True end ->
  seq (Done r) (handled op w) w.
Proof. intros. by apply handled_same. Qed.

Lemma rebuild_handled (op : Operation) (worker_id reason : pystr) (evidence : list (pystr * jval)) (w : World) :
  current op w -> alone w -> op_state op ∈ [SIGNED; BROADCASTING; BROADCAST] ->
  seq (_rebuild cfg op worker_id reason evidence) (handled op w) w.
Proof.
  intros Hc Hu Hs. apply cas_handled; try done.
  - apply can_transition_spec. right. in_list Hs; rewrite Hs; simpl; rewrite ?elem_of_cons; auto.
  - rewrite elem_of_TERMINAL. intros Ht. in_list Hs; rewrite Hs in Ht; intuition discriminate.
  - intros now renew. left. apply potential_rebuild; [| | done].
    + by rewrite cas_row_attempts.
    + apply cas_row_frame.
Qed.

(** [forward] when the current state is known. *)
Lemma forward_stay (op : Operation) (s : OpState) : op_state op = s -> forward op s.
Proof. by left. Qed.

Lemma forward_edge (op : Operation) (s to_state : OpState) :
  op_state op = s -> bool_decide (edge s to_state) = true -> to_state <> SIGNED ->
  to_state <> SIGNING \/ s = VALIDATED -> forward op to_state.
Proof. intros <- He%bool_decide_eq_true Hn Hs. right. by split_and!. Qed.

Ltac write Hs :=
  first [apply cas_forward | apply cas_then]; [done | done | by eapply live_state
    | first [by apply forward_stay | apply (forward_edge _ _ _ Hs); [reflexivity | discriminate | by auto]]
    | reflexivity | reflexivity | ..].

Lemma validate_handled (op : Operation) (worker_id : pystr) (w : World) :
  current op w -> alone w -> op_state op = REQUESTED ->
  seq (_validate cfg op worker_id) (handled op w) w.
Proof.
  intros Hc Hu Hs. unfold _validate. destruct (negb _); [write Hs |].
  destruct (negb _); [write Hs |]. destruct (negb _); [write Hs |]. write Hs.
Qed.

Lemma lift_handled {X : Type} (r : result exn X) (k : X -> prog Operation) (op : Operation) (w : World) :
  current op w -> alone w -> plain r -> (forall x, r = Ok x -> seq (k x) (handled op w) w) ->
  seq (bind (lift r) k) (handled op w) w.
Proof.
  intros Hc Hu Hp Hk. apply seq_bind. destruct r as [x | e]; [by apply Hk | by apply handled_same].
Qed.

Lemma build_handled (op : Operation) (worker_id : pystr) (w : World) :
  current op w -> alone w -> op_state op = SIGNING ->
  seq (build_envelope cfg signer op worker_id) (handled op w) w.
Proof.
  intros Hc Hu Hs. unfold build_envelope.
  destruct (Z.leb_spec (cfg_max_build_attempts cfg) (op_attempts op)) as [| Hlt]; [write Hs |].
  apply quiet_then; try done. intros ref w1 Hc1 Hu1. apply quiet_then; try done. intros now w2 Hc2 Hu2.
  apply lift_handled; try done; [unfold plus_timedelta; by destruct (decide _) |]. intros expiration _.
  write Hs. intros op1 w3 Hc3 Hu3 Hs1 Ha1. apply quiet_then; try done. intros _ w4 Hc4 Hu4.
  apply cas_forward; try done; [by eapply live_state |].
  right. rewrite Hs1. split_and!; [apply (bool_decide_unpack _); reflexivity | by left | lia].
Qed.

Lemma build_and_sign_handled (op : Operation) (worker_id : pystr) (w : World) :
  current op w -> alone w -> op_state op = VALIDATED \/ op_state op = SIGNING ->
  seq (_build_and_sign cfg signer op worker_id) (handled op w) w.
Proof.
  intros Hc Hu Hs. unfold _build_and_sign. case_bool_decide as Hv.
  - write Hv. intros op1 w1 Hc1 Hu1 Hs1 _. by apply build_handled.
  - apply build_handled; try done. by destruct Hs.
Qed.

Lemma settle_handled (op : Operation) (worker_id : pystr) (signed : SignedTx) (result : BroadcastResult)
    (w : World) :
  current op w -> alone w -> op_state op = BROADCASTING ->
  seq (_settle_broadcast_result cfg op worker_id signed result) (handled op w) w.
Proof.
  intros Hc Hu Hs. unfold _settle_broadcast_result.
  case_bool_decide; [apply quiet_then; try done; intros now w1 Hc1 Hu1; write Hs |].
  case_bool_decide; [write Hs |]. case_bool_decide; [write Hs |].
  case_bool_decide; [by apply done_handled |]. write Hs.
Qed.

Lemma plain_bind {X Y : Type} (r : result exn X) (f : X -> result exn Y) :
  plain r -> (forall x, plain (f x)) -> plain (result_bind r f).
Proof. by destruct r as [x | e]; cbn [result_bind]; auto. Qed.

Lemma get_item_plain (k : pystr) (d : jval) : plain (get_item k d).
Proof. unfold get_item. destruct d; try done. by destruct (assoc _ _). Qed.

Lemma get_str_plain (k : pystr) (d : jval) : plain (get_str k d).
Proof.
  unfold get_str. pose proof (get_item_plain k d) as H. destruct (get_item k d) as [[] |]; done.
Qed.

Lemma from_json_plain (d : option jval) : plain (from_json d).
Proof.
  destruct d as [d |]; [| done]. unfold from_json.
  apply plain_bind; [apply get_item_plain | intros raw].
  apply plain_bind; [apply get_str_plain | intros txid]. apply plain_bind; [apply get_str_plain | intros iso].
  apply plain_bind; [by destruct (fromisoformat _) | intros t]. by apply plain_bind; [apply get_str_plain |].
Qed.

Lemma broadcast_handled (op : Operation) (worker_id : pystr) (w : World) :
  current op w -> alone w -> op_state op = SIGNED ->
  seq (_broadcast cfg op worker_id) (handled op w) w.
Proof.
  intros Hc Hu Hs. apply lift_handled; try done; [apply from_json_plain |]. intros signed _.
  apply quiet_then; try done. intros now w1 Hc1 Hu1.
  destruct (_ <=? _); [apply rebuild_handled; try done; rewrite Hs, ?elem_of_cons; auto |].
  write Hs. intros op1 w2 Hc2 Hu2 Hs2 _. apply quiet_then; try done. intros _ w3 Hc3 Hu3.
  apply timeout_then; try done. intros result w4 Hc4 Hu4. apply quiet_then; try done.
  intros _ w5 Hc5 Hu5. by apply settle_handled.
Qed.

Lemma death_then (signed : SignedTx) (k : bool * list (pystr * jval) -> prog Operation) (op : Operation)
    (w : World) :
  current op w -> alone w ->
  (forall x w1, current op w1 -> alone w1 -> seq (k x) (handled op w1) w1) ->
  seq (bind (_proof_of_death cfg signed) k) (handled op w) w.
Proof.
  intros Hc Hu Hk. apply seq_bind, seq_bind, alone_quiet; try done. intros [t | e] w1 E1 Hu1 Hp; [| by apply handled_same].
  apply seq_bind, seq_done. unfold plus_timedelta. destruct (decide _); [| by apply handled_same].
  apply seq_bind, alone_quiet; try done. intros [b | e] w2 E2 Hu2 Hp2; [| apply handled_same; try done; by etrans].
  apply seq_done. eapply seq_weaken; [apply Hk; [eapply current_store; [| exact Hc]; congruence | done] |].
  intros r' w3. apply handled_store. congruence.
Qed.

Lemma reconcile_handled (op : Operation) (worker_id : pystr) (w : World) :
  current op w -> alone w -> op_state op = BROADCASTING ->
  seq (_reconcile_broadcast cfg op worker_id) (handled op w) w.
Proof.
  intros Hc Hu Hs. apply lift_handled; try done; [apply from_json_plain |]. intros signed _.
  apply timeout_then; try done. intros status w1 Hc1 Hu1. case_bool_decide.
  - unfold broadcast_at_or_now. destruct (op_broadcast_at op) as [t |].
    + cbn [bind ret]. write Hs.
    + apply quiet_then; try done. intros t w2 Hc2 Hu2. write Hs.
  - apply death_then; try done. intros [dead evidence] w2 Hc2 Hu2. destruct dead; cbn [fst negb].
    + apply rebuild_handled; try done. rewrite Hs, ?elem_of_cons; auto.
    + apply timeout_then; try done. intros result w3 Hc3 Hu3. by apply settle_handled.
Qed.

Lemma await_handled (op : Operation) (worker_id : pystr) (w : World) :
  current op w -> alone w -> op_state op = BROADCAST ->
  seq (_await_confirmation cfg op worker_id) (handled op w) w.
Proof.
  intros Hc Hu Hs. apply lift_handled; try done; [apply from_json_plain |]. intros signed _.
  apply timeout_then; try done. intros status w1 Hc1 Hu1.
  destruct (st_result status); [| by apply done_handled |].
  - apply death_then; try done. intros [dead evidence] w2 Hc2 Hu2. destruct dead; cbn [fst].
    + apply rebuild_handled; try done. rewrite Hs, ?elem_of_cons; auto.
    + by apply done_handled.
  - destruct (negb _); [by apply done_handled |]. apply quiet_then; try done. intros _ w2 Hc2 Hu2.
    case_bool_decide; [| write Hs]. apply quiet_then; try done. intros now w3 Hc3 Hu3. write Hs.
Qed.

Lemma step_handled (op : Operation) (worker_id : pystr) (w : World) :
  current op w -> alone w -> seq (step cfg signer op worker_id) (handled op w) w.
Proof.
  intros Hc Hu. unfold step. destruct (op_state op) eqn:Hs;
    auto using validate_handled, build_and_sign_handled, broadcast_handled, reconcile_handled, await_handled.
  all: by apply done_handled.
Qed.

(** ** The loop around the handlers *)

(** A drive of operation [id] that started in [w0] with potential [base] is over:
    it returned, only that row changed, and what it reports to have advanced
    was paid for with potential. *)
Definition driven (id : Z) (base : nat) (w0 : World) (r : result exn Z) (w' : World) : Prop :=
  exists row a, r = Ok a /\ alone w' /\
  ms_ops (w_store w') = <[id := row]> (ms_ops (w_store w0)) /\ op_operation_id row = id /\
  0 <= a /\ a + Z.of_nat (potential row) <= Z.of_nat base.

(** Its state on the way. *)
Definition driving (id : Z) (base : nat) (w0 : World) (advanced : Z) (row : Operation) (w : World) : Prop :=
  ms_ops (w_store w) = <[id := row]> (ms_ops (w_store w0)) /\ alone w /\ op_operation_id row = id /\
  0 <= advanced /\ advanced + Z.of_nat (potential row) <= Z.of_nat base.

Lemma driving_driven (id : Z) (base : nat) (w0 w : World) (advanced : Z) (row : Operation) :
  driving id base w0 advanced row w -> driven id base w0 (Ok advanced) w.
Proof. intros (H1 & H2 & H3 & H4 & H5). by exists row, advanced. Qed.

Lemma release_driven (op row : Operation) (base : nat) (advanced : Z) (w0 w : World) :
  driving (op_operation_id op) base w0 advanced row w ->
  seq (release_after op advanced) (driven (op_operation_id op) base w0) w.
Proof.
  intros (Hops & Hu & Hid & H0 & Hle). unfold seq, release_after. rewrite run_bind.
  cbn [run perform exec ret fst snd]. apply driving_driven with
    (if op_fencing_token row =? op_fencing_token op
     then set_updated_at (Some (w_now w)) (set_lease_expires_at None (set_claimed_by None row)) else row).
  unfold release. rewrite Hops, lookup_insert_eq.
  destruct (_ =? _); cbn [negb]; (split_and!; try done); cbn [with_store w_store ms_ops].
  by rewrite insert_insert_eq.
Qed.

(** The breadcrumb never raises: it stays in its state. *)
Lemma crumb_ok (now id token : Z) (s : OpState) (text : pystr) (worker_id : option pystr) (st : MemoryStore) :
  exists o, fst (cas now id token s s [Set_last_error (Some text)] [] None worker_id st) = Ok o.
Proof.
  unfold cas. rewrite can_transition_refl. cbn [negb forallb column].
  rewrite bool_decide_eq_true_2 by (apply (bool_decide_unpack _); vm_compute; exact I). cbn [andb negb].
  destruct (ms_ops _ !! _); [| by eexists]. destruct (_ || _); [by eexists |].
  case_bool_decide; by eexists.
Qed.

Lemma crumb_driven (op row : Operation) (base : nat) (worker_id : pystr) (advanced : Z) (w0 w : World) :
  driving (op_operation_id op) base w0 advanced row w ->
  seq (breadcrumb op worker_id advanced) (driven (op_operation_id op) base w0) w.
Proof.
  intros (Hops & Hu & Hid & H0 & Hle). apply seq_bind. unfold seq at 1. cbn [run perform exec].
  set (text := str "handler exception (see logs)").
  pose proof (cas_cases (w_now w) (op_operation_id op) (op_fencing_token op) (op_state op) (op_state op)
    [Set_last_error (Some text)] [] None (Some worker_id) (w_store w)) as H.
  pose proof (crumb_ok (w_now w) (op_operation_id op) (op_fencing_token op) (op_state op) text
    (Some worker_id) (w_store w)) as [o Hok].
  destruct (cas _ _ _ _ _ _ _ _ _ _) as [r st]. cbn [fst snd] in *. subst r.
  destruct H as [[-> _] | (op' & Hop' & _ & Hs & _ & _ & [(_ & _ & ->) | (? & [=] & _)])];
    [by apply (release_driven op row) |].
  rewrite Hops, lookup_insert_eq in Hop'. injection Hop' as <-.
  apply (release_driven op (cas_row (w_now w) (op_state op) [Set_last_error (Some text)] None row)).
  split_and!; try done.
  - cbn [with_store w_store append_event ms_ops]. by rewrite Hops, insert_insert_eq.
  - by rewrite cas_row_id.
  - erewrite potential_same; [exact Hle | by rewrite cas_row_attempts |].
    rewrite Hs. apply cas_row_frame.
Qed.

Lemma loop_driven (n : nat) (op : Operation) (base : nat) (worker_id : pystr) (advanced : Z) (w0 w : World) :
  driving (op_operation_id op) base w0 advanced op w -> (op_state op ∉ TERMINAL) ->
  seq (drive_loop cfg signer n op worker_id advanced) (driven (op_operation_id op) base w0) w.
Proof.
  revert op advanced w. induction n as [|n IH]; intros op advanced w Hd Hlive; cbn [drive_loop];
    [by apply (release_driven op op) |].
  pose proof Hd as (Hops & Hu & _ & H0 & Hle).
  apply seq_bind, seq_attempt. eapply seq_weaken; [apply step_handled; [| done] |].
  { unfold current. by rewrite Hops, lookup_insert_eq. }
  intros r w' (row & Hops' & (Hid & _ & Hpot & Hmove) & Hu' & Hp & Hr).
  rewrite Hops, insert_insert_eq in Hops'. destruct r as [op' | e].
  - subst op'. rewrite <- Hid. destruct (decide (op_state row = op_state op)) as [Eq | Hne].
    + rewrite (bool_decide_eq_true_2 _ Eq), bool_decide_eq_false_2 by (by rewrite Eq). cbn [negb]. apply (release_driven row row).
      rewrite Hid. split_and!; try done; lia.
    + assert (driving (op_operation_id row) base w0 1 row w') as Hd'.
      { rewrite Hid. destruct Hmove as [|Hlt]; [done |]. split_and!; try done; lia. }
      rewrite (bool_decide_eq_false_2 _ Hne). cbn [negb].
      case_bool_decide; [by eapply driving_driven | by apply IH].
  - assert (seq (breadcrumb op worker_id advanced) (driven (op_operation_id op) base w0) w') as Hc.
    { apply (crumb_driven op row). split_and!; try done; lia. }
    destruct Hp as [He Hlost]. destruct e; done.
Qed.

(** ** Passes *)

Definition total (ops : gmap Z Operation) : nat :=
  map_fold (fun _ n acc => n + acc)%nat 0%nat (potential <$> ops).

Lemma total_insert (ops : gmap Z Operation) (id : Z) (op row : Operation) :
  ops !! id = Some op -> (total (<[id := row]> ops) + potential op = total ops + potential row)%nat.
Proof.
  intros Hid. unfold total.
  assert (forall n (m : gmap Z nat), m !! id = None ->
    map_fold (fun _ n acc => n + acc)%nat 0%nat (<[id := n]> m) =
    (n + map_fold (fun _ n acc => n + acc) 0 m)%nat) as Hins.
  { intros n m Hm. rewrite map_fold_insert_L; [done | intros; lia | done]. }
  rewrite <- (insert_delete_id ops id op Hid) at 2. rewrite <- insert_delete_eq, !fmap_insert.
  rewrite !Hins by (by rewrite fmap_delete, lookup_delete_eq). lia.
Qed.

Lemma total_same (ops ops' : gmap Z Operation) :
  (forall id, potential <$> ops !! id = potential <$> ops' !! id) -> total ops = total ops'.
Proof.
  intros H. unfold total. f_equal. apply map_eq. intros id. by rewrite !lookup_fmap.
Qed.

Lemma drive_all_total (ops : list Operation) (worker_id : pystr) (w : World) :
  NoDup (op_operation_id <$> ops) -> alone w ->
  (forall op, op ∈ ops -> current op w /\ op_state op ∉ TERMINAL) ->
  seq (drive_all cfg signer ops worker_id)
    (fun r w' => exists a, r = Ok a /\ alone w' /\ 0 <= a /\
       a + Z.of_nat (total (ms_ops (w_store w'))) <= Z.of_nat (total (ms_ops (w_store w)))) w.
Proof.
  revert w. induction ops as [|op ops IH]; intros w Hnd Hu Hops; cbn [drive_all].
  { apply seq_done. exists 0. split_and!; try done; lia. }
  apply NoDup_cons in Hnd as [Hop Hnd]. destruct (Hops op (list_elem_of_here _ _)) as [Hc Hl].
  apply seq_bind. eapply seq_weaken; [apply (loop_driven 8 op (potential op) worker_id 0 w) |].
  { split_and!; try done. by rewrite insert_id. }
  { done. }
  intros r w1 (row & a & -> & Hu1 & Hops1 & Hid & Ha & Hle).
  pose proof (total_insert _ _ _ row Hc) as Ht. rewrite <- Hops1 in Ht.
  apply seq_bind. eapply seq_weaken; [apply IH; try done |].
  - intros o Ho. destruct (Hops o (list_elem_of_further _ _ _ Ho)) as [Hco Hlo]. split; [| done].
    unfold current. rewrite Hops1, lookup_insert_ne; [exact Hco |]. intros E. apply Hop.
    rewrite E. apply list_elem_of_fmap. by exists o.
  - intros r w2 (b & -> & Hu2 & Hb & Hle2). apply seq_done. exists (a + b). split_and!; try done; lia.
Qed.

Lemma run_once_total (worker_id : pystr) (w : World) :
  alone w -> store_wf (w_store w) ->
  seq (run_once cfg signer worker_id)
    (fun r w' => exists a, r = Ok a /\ alone w' /\ 0 <= a /\
       a + Z.of_nat (total (ms_ops (w_store w'))) <= Z.of_nat (total (ms_ops (w_store w)))) w.
Proof.
  intros Hu Hwf. apply seq_bind. unfold seq at 1. cbn [run perform exec fst snd].
  apply seq_bind. unfold seq at 1. cbn [run perform exec].
  set (claim_now := claim CLAIMABLE (cfg_claim_batch cfg) worker_id (cfg_lease cfg) (w_now w) (w_store w)).
  pose proof (claim_fits CLAIMABLE (cfg_claim_batch cfg) worker_id (cfg_lease cfg) (w_now w) _ Hwf (proj2 Hu)) as Hok.
  pose proof (claim_NoDup CLAIMABLE _ _ _ _ _ _ Hwf Hok) as Hnd.
  pose proof (fun row => claim_out CLAIMABLE _ _ _ _ _ _ row Hwf Hok) as Hout.
  assert (total (ms_ops (snd claim_now)) = total (ms_ops (w_store w))) as Ht.
  { apply total_same. intros id.
    pose proof (claim_row CLAIMABLE (cfg_claim_batch cfg) worker_id (cfg_lease cfg) (w_now w) (w_store w) id Hwf) as H.
    fold claim_now in H, Hok. destruct claim_now as [r st]. cbn [fst snd] in *.
    destruct H as [-> | (op & -> & _ & _ & [(? & _ & -> & _) | (-> & _)])]; done. }
  fold claim_now in Hok, Hout. destruct claim_now as [r st]. cbn [fst snd] in *. subst r.
  rewrite <- Ht. apply (drive_all_total _ worker_id (with_store st w)); [done | done |].
  intros row Hrow. destruct (Hout row Hrow) as (op & -> & _ & Hs & _ & Hin). split; [exact Hin |].
  by apply elem_of_CLAIMABLE.
Qed.

(** A pass whose lease would end past the calendar finds nothing to claim, or fails. *)
Lemma run_once_late (worker_id : pystr) (w : World) :
  store_wf (w_store w) -> ~ representable (w_now w + cfg_lease cfg) ->
  exists w', run (run_once cfg signer worker_id) w = (Ok 0, w') \/
  run (run_once cfg signer worker_id) w = (Err OverflowError, w').
Proof.
  intros Hwf Hlate. unfold run_once. rewrite run_bind. cbn [run perform exec]. rewrite run_bind. cbn [run perform exec].
  destruct (claim_cases CLAIMABLE (cfg_claim_batch cfg) worker_id (cfg_lease cfg) (w_now w) _ Hwf)
    as [[-> [? | ->]] | (op & rest & _ & _ & ->)]; [done | |]; cbn [fmap list_fmap drive_all]; eexists; [by left | by right].
Qed.

Lemma drain_late (n : nat) (worker_id : pystr) (w : World) :
  store_wf (w_store w) -> ~ representable (w_now w + cfg_lease cfg) ->
  (exists w1 w', run (drain_cycles cfg signer (S n) worker_id) w = (Ok true, w') /\
     run (run_once cfg signer worker_id) w1 = (Ok 0, w')) \/
  exists w', run (drain_cycles cfg signer (S n) worker_id) w = (Err OverflowError, w').
Proof.
  intros Hwf Hlate. cbn [drain_cycles]. rewrite run_bind.
  destruct (run_once_late worker_id w Hwf Hlate) as (w' & [E | E]); rewrite E; [left; by exists w, w' | right; by eexists].
Qed.

Lemma drain_total (n : nat) (worker_id : pystr) (w : World) :
  alone w -> store_wf (w_store w) -> (total (ms_ops (w_store w)) < n)%nat ->
  exists w1 w', run (drain_cycles cfg signer n worker_id) w = (Ok true, w') /\
  run (run_once cfg signer worker_id) w1 = (Ok 0, w').
Proof.
  revert w. induction n as [|n IH]; intros w Hu Hwf Hn; [lia |]. cbn [drain_cycles]. rewrite run_bind.
  pose proof (run_once_total worker_id w Hu Hwf) as (a & E & Hu' & Ha & Hle).
  pose proof (run_store_wf (run_once cfg signer worker_id) w Hwf) as Hwf'.
  destruct (run (run_once cfg signer worker_id) w) as [r w'] eqn:Erun. cbn [fst snd] in *. subst r.
  destruct (Z.eqb_spec a 0) as [-> |Hne]; [by exists w, w' |]. apply IH; [done | done | lia].
Qed.

End drain.

(** ** Properties *)

(** C15. [drain] terminates: alone on any well-formed store whose rows have a
    total potential below 1000 (at most [8 * max_build_attempts + 14] for a
    fresh withdrawal), in any state and whatever the node answers, it returns
    before its 1000 passes are over, after a pass that advanced nothing; or,
    when a lease taken now would end past the calendar, it raises the
    [OverflowError] of its first claim. *)
Theorem drain_settles (cfg : Config) (signer : MockSigner) (worker_id : pystr) (w : World) :
  store_wf (w_store w) -> w_crash w = no_crash -> (total cfg (ms_ops (w_store w)) < 1000)%nat ->
  (exists w1 w', run (drain cfg signer worker_id) w = (Ok true, w') /\
     run (run_once cfg signer worker_id) w1 = (Ok 0, w')) \/
  (~ representable (w_now w + cfg_lease cfg) /\
   exists w', run (drain cfg signer worker_id) w = (Err OverflowError, w')).
Proof.
  intros Hwf Hu Ht. destruct (decide (representable (w_now w + cfg_lease cfg))) as [Hfit | Hlate].
  - left. by apply drain_total.
  - destruct (drain_late cfg signer 999 worker_id w Hwf Hlate) as [H | H]; [by left | by right].
Qed.

(** Two withdrawals to valid addresses, on a quiet node. *)
Definition two_rows : MemoryStore :=
  snd (insert_new 1000000 (new_operation 2 [] REQUESTED USDT_TRC20_CONTRACT (str "USDT-TRC20") 7)
    (snd (insert_new 1000000 (new_operation 1 [] REQUESTED USDT_TRC20_CONTRACT (str "USDT-TRC20") 5)
      empty_store))).
Definition two_world : World := mkWorld 1000000 two_rows (new_node 0 2 1 default_signer) no_crash.

Lemma two_rows_wf : store_wf two_rows.
Proof. apply insert_new_wf, insert_new_wf, empty_store_wf; done. Qed.

Lemma drain_settles_witness :
  exists w1 w', run (drain default_config default_signer (str "w")) two_world = (Ok true, w') /\
  run (run_once default_config default_signer (str "w")) w1 = (Ok 0, w').
Proof.
  destruct (drain_settles default_config default_signer (str "w") two_world two_rows_wf eq_refl) as [H | [H _]].
  - apply Nat.ltb_lt. vm_compute. reflexivity.
  - exact H.
  - exfalso. apply H. apply (bool_decide_unpack _). vm_compute. exact I.
Defined.

(** The default configuration with [SLUICE_CLAIM_BATCH] set to [n]. *)
Definition batch_config (n : nat) : Config :=
  mkConfig (cfg_asset default_config) (cfg_token_decimals default_config)
    (cfg_min_amount_units default_config) (cfg_max_amount_units default_config)
    (cfg_lease default_config) n (cfg_poll_interval default_config) (cfg_tx_ttl default_config)
    (cfg_expiration_safety default_config) (cfg_max_build_attempts default_config)
    (cfg_usdt_contract default_config) (cfg_expiration_safety_repr default_config).

Definition drained_state (n : nat) (id : Z) : option OpState :=
  op_state <$> get id (w_store (snd (run (drain (batch_config n) default_signer (str "w")) two_world))).

(** [drain] can stop while an operation could still advance: a pass only
    looks at the [claim_batch] oldest rows, and as long as these wait for the
    chain every row behind them is left where it is.  With a batch of one, the
    second of two withdrawals is still [REQUESTED] after [drain]; with a batch
    of two the same call broadcasts both. *)
Theorem drain_leaves_tail :
  fst (run (drain (batch_config 1) default_signer (str "w")) two_world) = Ok true /\
  drained_state 1 1 = Some BROADCAST /\ drained_state 1 2 = Some REQUESTED /\
  drained_state 2 1 = Some BROADCAST /\ drained_state 2 2 = Some BROADCAST.
Proof. vm_compute. split_and!; reflexivity. Qed.
