(* ===== verification/Recovery.v ===== *)
(** * Recovery: after any history, everything settles

    The liveness claim of the design.  Take any reachable system, whatever
    crashes, faults and lost claims led there, and let the faults stop.  Once
    every lease has run out and the solid chain time is past every outstanding
    envelope's deadline, one pass of a worker with a batch large enough finishes
    or sends again every live operation; once the chain has moved on before the new envelopes
    expire, a second pass finishes the rest.  [Progress] is about one fresh
    withdrawal; here every state of every row is a starting point. *)
From Stdlib Require Import ZArith Lia.
From stdpp Require Import base option strings gmap sorting list.
From S2P Require Import Prelude Text Json Datetime States Address Wire Model Store Node Chain Effects Pipeline Worker Sequential System Invariant Safety Payments.

Local Open Scope Z_scope.

(** A batch with room for every row takes every eligible one. *)
Lemma picked_all (wanted : list OpState) (limit : nat) (now : Z) (st : MemoryStore) (id : Z) (op : Operation) :
  (size (ms_ops st) <= limit)%nat -> ms_ops st !! id = Some op -> op_state op ∈ wanted ->
  held now op = false -> op ∈ picked now limit (candidates wanted st).
Proof.
  intros Hsize Hid Hw Hh. unfold picked. rewrite take_ge.
  - apply list_elem_of_filter. split; [done |]. apply candidates_elem. eauto.
  - etrans; [apply length_filter |]. unfold candidates. rewrite (merge_sort_Permutation _ _).
    etrans; [apply length_filter |]. rewrite length_fmap, length_map_to_list. exact Hsize.
Qed.

Section pass.
Context (cfg : Config) (signer : MockSigner) (worker_id : pystr).

(** The clock and the node when the pass starts, and the node's solid time. *)
Context (T : Z) (nd : MockTronNode) (ref : Z * pystr) (solid_time : Z).

Local Abbreviation ttl := (cfg_tx_ttl cfg).
Local Abbreviation margin := (cfg_expiration_safety cfg).

(** What [_build_and_sign] makes in this pass. *)
Definition built_now (s : SignedTx) : Prop :=
  exists op ref, s = sign signer (unsigned_of cfg op ref T (T + ttl)).

Lemma built_now_expiration (s : SignedTx) : built_now s -> stx_expiration s = T + ttl.
Proof. by intros (op & ref' & ->). Qed.

(** An envelope built in this pass, not on chain yet. *)
Definition fresh (rec : TxRecord) : Prop :=
  tr_included_block rec = None /\ stx_expiration (tr_tx rec) = T + ttl /\
  tr_accepted_at_block rec = nd_head nd.

(** The world during the pass: the clock and the chain stand still, no fault is
    scripted, no crash point armed, and the node takes in fresh envelopes only. *)
Record calm (w : World) : Prop := {
  ca_now : w_now w = T;
  ca_unarmed : unarmed w;
  ca_broadcast : nd_faults (w_node w) !! str "broadcast" = Some [];
  ca_query : nd_faults (w_node w) !! str "query" = Some [];
  ca_chain : same_chain nd (w_node w);
  ca_recs : forall t rec, find_rec t (w_node w) = Some rec ->
    find_rec t nd = Some rec \/ (find_rec t nd = None /\ fresh rec);
  ca_old : forall t rec, find_rec t nd = Some rec -> find_rec t (w_node w) = Some rec
}.

Definition grows (w w' : World) : Prop :=
  forall t rec, find_rec t (w_node w) = Some rec -> find_rec t (w_node w') = Some rec.

#[export] Instance grows_preorder : PreOrder grows.
Proof. split; [by intros w t rec | intros w1 w2 w3 H1 H2 t rec H; auto]. Qed.

(** The row of [op] became [row]; nothing else in the store changed. *)
Definition moved (op : Operation) (w : World) (row : Operation) (w' : World) : Prop :=
  calm w' /\ grows w w' /\ op_operation_id row = op_operation_id op /\
  ms_ops (w_store w') = <[op_operation_id op := row]> (ms_ops (w_store w)).

Lemma moved_current (op row : Operation) (w w' : World) : moved op w row w' -> current row w'.
Proof. intros (_ & _ & Hid & Hops). unfold current. rewrite Hops, Hid. apply lookup_insert_eq. Qed.

Lemma moved_trans (op op1 op2 : Operation) (w w1 w2 : World) :
  moved op w op1 w1 -> moved op1 w1 op2 w2 -> moved op w op2 w2.
Proof.
  intros (_ & G1 & I1 & O1) (C2 & G2 & I2 & O2). split_and!; [done | by etrans | congruence |].
  by rewrite O2, O1, I1, insert_insert_eq.
Qed.

Lemma moved_refl (op : Operation) (w : World) : calm w -> current op w -> moved op w op w.
Proof. intros Hc Hcur. split_and!; try done. by rewrite insert_id. Qed.

Lemma calm_store (w : World) (st : MemoryStore) : calm w -> calm (with_store st w).
Proof. by intros []. Qed.

(** ** Calls in a calm world *)

Lemma seq_now (Q : result exn Z -> World -> Prop) (w : World) :
  calm w -> Q (Ok T) w -> seq (perform CNow) Q w.
Proof. intros Hc HQ. unfold seq. cbn [run perform exec fst snd]. by rewrite (ca_now _ Hc). Qed.

Lemma seq_crash (point : pystr) (Q : result exn unit -> World -> Prop) (w : World) :
  calm w -> Q (Ok tt) w -> seq (perform (CCrash point)) Q w.
Proof.
  intros Hc HQ. unfold seq. cbn [run perform exec]. pose proof (ca_unarmed _ Hc) as Hu.
  unfold unarmed in Hu. destruct w as [now st n c]. cbn in *. by subst c.
Qed.

Lemma seq_find (txid : pystr) (Q : result exn TxStatus -> World -> Prop) (w : World) :
  calm w -> Q (Ok (tx_status T txid (w_node w))) w -> seq (perform (CFindTx txid)) Q w.
Proof.
  intros Hc HQ. unfold seq. cbn [run perform exec]. unfold find_tx, take_fault.
  rewrite (ca_query _ Hc), (ca_now _ Hc), bool_decide_eq_false_2 by done. cbn. by destruct w.
Qed.

Lemma same_chain_ref (nd1 nd2 : MockTronNode) :
  same_chain nd1 nd2 -> ref_block nd2 = ref_block nd1 /\ solid_now nd2 = solid_now nd1 /\
  solid_block nd2 = solid_block nd1.
Proof.
  intros (E1 & E2 & _ & E4 & _). unfold ref_block, solid_now, solid_height, heights, solid_block.
  by rewrite E1, E2, E4.
Qed.

Lemma seq_ref (Q : result exn (Z * pystr) -> World -> Prop) (w : World) :
  ref_block nd = Ok ref -> calm w -> Q (Ok ref) w -> seq (perform CRefBlock) Q w.
Proof.
  intros Hr Hc HQ. unfold seq. cbn [run perform exec fst snd].
  destruct (same_chain_ref _ _ (ca_chain _ Hc)) as (-> & _). by rewrite Hr.
Qed.

Lemma seq_solid_now (Q : result exn Z -> World -> Prop) (w : World) :
  solid_now nd = Ok solid_time -> calm w -> Q (Ok solid_time) w -> seq (perform CSolidNow) Q w.
Proof.
  intros Hr Hc HQ. unfold seq. cbn [run perform exec fst snd].
  destruct (same_chain_ref _ _ (ca_chain _ Hc)) as (_ & -> & _). by rewrite Hr.
Qed.

Lemma seq_send (tx : SignedTx) (Q : result exn BroadcastResult -> World -> Prop) (w : World) :
  calm w -> 0 < ttl -> stx_expiration tx = T + ttl ->
  (forall res w', calm w' -> grows w w' -> w_store w' = w_store w ->
     br_code res ∈ HARD_REJECT \/
     (br_code res ∈ ACCEPTED /\ is_Some (find_rec (stx_txid tx) (w_node w'))) -> Q (Ok res) w') ->
  seq (perform (CBroadcast tx (Some worker_id))) Q w.
Proof.
  intros Hc Httl He HQ. pose proof Hc as [H1 H2 H3 H4 H5 H6 H7]. unfold seq. cbn [run perform exec].
  unfold broadcast, take_fault. rewrite H3, H1. unfold broadcast_body.
  rewrite !(bool_decide_eq_false_2 (None = Some _)) by done.
  assert (forall outcome, calm (with_node (logit (stx_txid tx) outcome (Some worker_id) (w_node w)) w)) as Hlog
    by (intros outcome; split; cbn; [exact H1 | exact H2 | exact H3 | exact H4 | exact H5 | exact H6 | exact H7]).
  destruct (verify _ _); cbn [negb].
  2:{ cbn [fst snd]. apply HQ; [apply Hlog | by intros t rec | done |]. left. apply (bool_decide_unpack _). vm_compute. exact I. }
  destruct (Z.leb_spec (stx_expiration tx) T); [lia |].
  case_bool_decide as Hk.
  { cbn [fst snd]. apply HQ; [apply Hlog | by intros t rec | done |]. right. split; [| done]. apply (bool_decide_unpack _). vm_compute. exact I. }
  assert (find_rec (stx_txid tx) (w_node w) = None) as Hn by by apply eq_None_not_Some.
  set (nd' := logit _ _ _ _).
  assert (forall t, find_rec t nd' = if decide (stx_txid tx = t)
    then Some (mkTxRecord tx (nd_head (w_node w)) None None) else find_rec t (w_node w)) as Hf.
  { intros t. unfold nd', find_rec. cbn [logit with_txs nd_txs]. rewrite assoc_app. simpl. unfold find_rec in Hn.
    destruct (decide (stx_txid tx = t)) as [<- |]; [by rewrite Hn |]. by destruct (assoc t _). }
  assert (find_rec (stx_txid tx) nd = None) as Hn0.
  { destruct (find_rec (stx_txid tx) nd) as [rec |] eqn:E; [| done]. apply H7 in E. congruence. }
  pose proof H5 as (Eh & _).
  cbn [fst snd]. apply HQ; unfold grows; cbn [with_node w_node w_store].
  - split; try done; cbn [with_node w_node]; intros t rec; rewrite Hf;
      destruct (decide (stx_txid tx = t)) as [<- |]; [| apply H6 | congruence | apply H7].
    intros [= <-]. right. by split.
  - intros t rec. rewrite Hf. destruct (decide (stx_txid tx = t)) as [<- |]; [congruence | done].
  - done.
  - right. split; [apply (bool_decide_unpack _); vm_compute; exact I |].
    rewrite Hf, decide_True by done. by eexists.
Qed.

(** ** Writes *)

Context (Hlease : representable (T + cfg_lease cfg)).

Lemma seq_write (op : Operation) (to_state : OpState) (sets : list FieldSet)
    (detail : list (pystr * jval)) (Q : result exn Operation -> World -> Prop) (w : World) :
  calm w -> current op w -> can_transition (op_state op) to_state = true -> (op_state op ∉ TERMINAL) ->
  forallb (fun f => bool_decide (column f ∈ MUTABLE_FIELDS)) sets = true ->
  (forall w', let row := cas_row T to_state sets (Some (cfg_lease cfg)) op in
     moved op w row w' -> w_node w' = w_node w -> Q (Ok row) w') ->
  seq (_cas cfg op to_state worker_id sets detail) Q w.
Proof.
  intros Hc Hcur Ht Hl Hm HQ.
  destruct (run_cas_row cfg op to_state worker_id sets detail w Hcur Ht Hl Hm) as (st' & E & Hst);
    [by rewrite (ca_now _ Hc) |].
  unfold seq. rewrite E. rewrite (ca_now _ Hc) in *. apply HQ; [| done].
  split_and!; [by apply calm_store | by intros t rec | apply cas_row_id | exact Hst].
Qed.

(** The row holds the signed envelope [s]. *)
Definition signed_with (s : SignedTx) (op : Operation) : Prop :=
  op_signed_tx op = Some (to_json s) /\ op_txid op = Some (stx_txid s) /\ representable (stx_expiration s).

Lemma signed_with_row (s : SignedTx) (op : Operation) (now : Z) (to_state : OpState) (sets : list FieldSet)
    (renew : option Z) :
  signed_with s op -> op_signed_tx (setattrs op sets) = op_signed_tx op ->
  op_txid (setattrs op sets) = op_txid op -> signed_with s (cas_row now to_state sets renew op).
Proof.
  intros (H1 & H2 & H3) E1 E2. unfold signed_with, cas_row.
  destruct renew; case_bool_decide; cbn; by rewrite E1, E2.
Qed.

(** A step that moved the row to [row], where [P] holds. *)
Definition stepped (op : Operation) (w : World) (P : Operation -> World -> Prop)
    (r : result exn Operation) (w' : World) : Prop :=
  exists row, r = Ok row /\ moved op w row w' /\ P row w'.

Lemma stepped_after (op op1 : Operation) (w w1 w2 : World) (P : Operation -> World -> Prop)
    (r : result exn Operation) :
  moved op w op1 w1 -> stepped op1 w1 P r w2 -> stepped op w P r w2.
Proof. intros H1 (row & -> & H2 & HP). exists row. split_and!; [done | by eapply moved_trans | done]. Qed.

(** ** The handlers in a calm world *)

Context (Href : ref_block nd = Ok ref) (Hsolid : solid_now nd = Ok solid_time).
Context (Httl : 0 < ttl) (Hrep : representable (T + ttl)).
Context (Hmined : forall t rec b, find_rec t nd = Some rec -> tr_included_block rec = Some b -> b <= solid_block nd).
Context (Hexpired : forall t rec, find_rec t nd = Some rec -> tr_included_block rec = None ->
  stx_expiration (tr_tx rec) <= T).

Ltac write Hs := apply seq_write; [done | done | rewrite Hs; reflexivity | by eapply live_state | reflexivity |].

Lemma calm_validate (op : Operation) (w : World) :
  calm w -> current op w -> op_state op = REQUESTED ->
  seq (step cfg signer op worker_id)
    (stepped op w (fun row _ => op_state row = VALIDATED \/ op_state row ∈ TERMINAL)) w.
Proof.
  intros Hc Hcur Hs. unfold step. rewrite Hs. unfold _validate.
  assert (forall x sets w', moved op w (cas_row T x sets (Some (cfg_lease cfg)) op) w' ->
    x = VALIDATED \/ x ∈ TERMINAL -> stepped op w (fun row _ => op_state row = VALIDATED \/ op_state row ∈ TERMINAL)
      (Ok (cas_row T x sets (Some (cfg_lease cfg)) op)) w') as Hgo.
  { intros x sets w' Hm Hx. eexists. split_and!; [done | done |].
    by destruct (cas_row_frame T x sets (Some (cfg_lease cfg)) op) as (_ & -> & _). }
  assert (REJECTED ∈ TERMINAL) by (apply elem_of_TERMINAL; auto).
  repeat (destruct (negb _); [write Hs; intros w' row Hm _; apply Hgo; auto |]).
  write Hs. intros w' row Hm _. apply Hgo; auto.
Qed.

Lemma calm_build (op : Operation) (w : World) :
  calm w -> current op w -> op_state op = VALIDATED \/ op_state op = SIGNING ->
  seq (step cfg signer op worker_id)
    (stepped op w (fun row _ => op_state row ∈ TERMINAL \/
       op_state row = SIGNED /\ exists s, signed_with s row /\ built_now s)) w.
Proof.
  intros Hc Hcur Hs. assert (forall op w, calm w -> current op w -> op_state op = SIGNING ->
    seq (build_envelope cfg signer op worker_id) (stepped op w (fun row _ => op_state row ∈ TERMINAL \/
       op_state row = SIGNED /\ exists s, signed_with s row /\ built_now s)) w) as Hbuild.
  { clear op w Hc Hcur Hs. intros op w Hc Hcur Hs. unfold build_envelope. destruct (_ <=? _).
    { write Hs. intros w' row Hm _. eexists. split_and!; [done | done |]. left.
      unfold row. destruct (cas_row_frame T FAILED [Set_failure_reason
        (Some (str "gave up after " ++ str_of_int (op_attempts op) ++ str " build attempts"))]
        (Some (cfg_lease cfg)) op) as (_ & -> & _). apply elem_of_TERMINAL. auto. }
    apply seq_bind, seq_ref; [done | done |]. apply seq_bind, seq_now; [done |].
    apply seq_bind. unfold plus_timedelta. rewrite decide_True by done. apply seq_done. cbv zeta.
    set (u := unsigned_of _ _ _ _ _). apply seq_bind. write Hs. intros w1 op1 Hm1 _.
    pose proof (moved_current _ _ _ _ Hm1) as Hcur1. pose proof Hm1 as (Hc1 & _).
    assert (op_state op1 = SIGNING) as Hs1 by apply cas_row_frame.
    apply seq_bind, seq_crash; [done |]. write Hs1. intros w2 op2 Hm2 _.
    eexists. split_and!; [done | by eapply moved_trans |]. right. split; [apply cas_row_frame |].
    exists (sign signer u). split; [| by eexists _, _]. unfold op2, op1, signed_with, cas_row.
    rewrite !(bool_decide_eq_false_2 (_ ∈ TERMINAL)) by (rewrite elem_of_TERMINAL; intuition discriminate).
    done. }
  unfold step. destruct Hs as [Hs | Hs]; rewrite Hs; unfold _build_and_sign.
  - rewrite bool_decide_eq_true_2 by done. apply seq_bind. write Hs. intros w1 op1 Hm1 _.
    eapply seq_weaken; [apply Hbuild; [apply Hm1 | by eapply moved_current | apply cas_row_frame] |].
    intros r w2. by apply stepped_after.
  - rewrite bool_decide_eq_false_2 by congruence. by apply Hbuild.
Qed.

Lemma status_cases (txid : pystr) (w : World) :
  calm w ->
  (tx_status T txid (w_node w) = mkTxStatus UNKNOWN None false None /\
   forall rec, find_rec txid (w_node w) = Some rec -> find_rec txid nd = Some rec /\ tr_included_block rec = None) \/
  (tx_status T txid (w_node w) = mkTxStatus PENDING None false None /\
   exists rec, find_rec txid (w_node w) = Some rec /\ find_rec txid nd = None /\ fresh rec) \/
  (exists b receipt, tx_status T txid (w_node w) = mkTxStatus INCLUDED (Some b) true receipt).
Proof.
  intros Hc. unfold tx_status. destruct (find_rec txid (w_node w)) as [rec |] eqn:E; [| by left].
  destruct (ca_recs _ Hc _ _ E) as [E0 | [E0 Hf]].
  - destruct (tr_included_block rec) as [b |] eqn:Eb.
    + right. right. destruct (same_chain_ref _ _ (ca_chain _ Hc)) as (_ & _ & ->).
      rewrite (proj2 (Z.leb_le _ _) (Hmined _ _ _ E0 Eb)). by eexists _, _.
    + left. rewrite (proj2 (Z.leb_le _ _) (Hexpired _ _ E0 Eb)). split; [done |]. by intros rec' [= <-].
  - right. left. destruct Hf as (F1 & F2 & F3). rewrite F1, F2, (proj2 (Z.leb_gt _ _)) by lia.
    split; [done |]. by exists rec.
Qed.

Lemma row_state (now : Z) (to_state : OpState) (sets : list FieldSet) (renew : option Z) (op : Operation) :
  op_state (cas_row now to_state sets renew op) = to_state.
Proof. apply cas_row_frame. Qed.

Lemma seq_or_timeout {X : Type} (c : call X) (op : Operation) (k : X -> prog Operation)
    (Q : result exn Operation -> World -> Prop) (w : World) :
  seq (perform c) (fun r w' => match r with Ok x => seq (k x) Q w' | Err _ => False end) w ->
  seq (or_timeout c op k) Q w.
Proof.
  intros H. apply seq_bind, seq_attempt. eapply seq_weaken; [exact H |]. by intros [x | e] w'.
Qed.

Lemma load (s : SignedTx) (op : Operation) (k : SignedTx -> prog Operation)
    (Q : result exn Operation -> World -> Prop) (w : World) :
  signed_with s op -> seq (k s) Q w -> seq (bind (lift (from_json (op_signed_tx op))) k) Q w.
Proof. intros (E & _ & Hr) H. apply seq_bind. rewrite E, from_json_to_json by done. exact H. Qed.

(** An envelope never sent and past its time is retired. *)
Lemma calm_retire (op : Operation) (s : SignedTx) (w : World) :
  calm w -> current op w -> op_state op = SIGNED -> signed_with s op -> stx_expiration s <= T ->
  seq (step cfg signer op worker_id) (stepped op w (fun row _ => op_state row = SIGNING)) w.
Proof.
  intros Hc Hcur Hs Hsg He. unfold step. rewrite Hs. apply (load s); [done |].
  apply seq_bind, seq_now; [done |]. rewrite (proj2 (Z.leb_le _ _) He).
  write Hs. intros w' row Hm _. eexists. split_and!; [done | done | apply row_state].
Qed.

Lemma hard_not_accepted (code : pystr) : code ∈ HARD_REJECT -> code ∉ ACCEPTED.
Proof.
  intros H. unfold HARD_REJECT in H. cbn [map] in H. in_list H; subst code;
    apply (bool_decide_unpack _); vm_compute; exact I.
Qed.

Lemma calm_send (op : Operation) (s : SignedTx) (w : World) :
  calm w -> current op w -> op_state op = SIGNED -> signed_with s op -> stx_expiration s = T + ttl ->
  seq (step cfg signer op worker_id)
    (stepped op w (fun row w' => op_state row ∈ TERMINAL \/
       op_state row = BROADCAST /\ signed_with s row /\ is_Some (find_rec (stx_txid s) (w_node w')))) w.
Proof.
  intros Hc Hcur Hs Hsg He. unfold step. rewrite Hs. apply (load s); [done |].
  apply seq_bind, seq_now; [done |]. rewrite (proj2 (Z.leb_gt _ _)) by lia.
  apply seq_bind. write Hs. intros w1 op1 Hm1 _. pose proof Hm1 as (Hc1 & _).
  assert (op_state op1 = BROADCASTING) as Hs1 by apply row_state.
  assert (signed_with s op1) as Hsg1 by by apply signed_with_row.
  apply seq_bind, seq_crash; [done |]. apply seq_or_timeout, seq_send; [done | done | done |].
  intros res w2 Hc2 Hg2 Hst2 Hres. apply seq_bind, seq_crash; [done |].
  assert (moved op w op1 w2) as Hm2.
  { destruct Hm1 as (_ & Hg1 & Hid & Hops). split_and!; [done | by etrans | done | by rewrite Hst2]. }
  pose proof (moved_current _ _ _ _ Hm2) as Hcur2. unfold _settle_broadcast_result.
  destruct Hres as [Hres | [Hres Hrec]].
  - rewrite bool_decide_eq_false_2, bool_decide_eq_true_2; [| done |].
    + write Hs1. intros w3 row Hm3 _. eexists. split_and!; [done | by eapply moved_trans |].
      left. unfold row. rewrite row_state. apply elem_of_TERMINAL. auto.
    + by apply hard_not_accepted.
  - rewrite bool_decide_eq_true_2 by done. apply seq_bind, seq_now; [done |].
    write Hs1. intros w3 row Hm3 Hn3. eexists. split_and!; [done | by eapply moved_trans |]. right.
    split_and!; [apply row_state | by apply signed_with_row | by rewrite Hn3].
Qed.

(** What the node knows of an envelope in flight: a record of this pass, or one
    from before that will never be mined. *)
Definition lingers (s : SignedTx) (n : MockTronNode) : Prop :=
  exists rec, find_rec (stx_txid s) n = Some rec /\
  ((find_rec (stx_txid s) nd = None /\ fresh rec) \/
   (find_rec (stx_txid s) nd = Some rec /\ tr_included_block rec = None /\
    solid_time < stx_expiration s + margin)).

(** [_proof_of_death] against the solid time. *)
Lemma seq_death (s : SignedTx) (Q : result exn (bool * list (pystr * jval)) -> World -> Prop) (w : World) :
  calm w -> representable (stx_expiration s + margin) ->
  (forall evidence, Q (Ok (stx_expiration s + margin <=? solid_time, evidence)) w) ->
  seq (_proof_of_death cfg s) Q w.
Proof.
  intros Hc Hr HQ. apply seq_bind, seq_solid_now; [done | done |]. apply seq_bind.
  unfold plus_timedelta. rewrite decide_True by done. apply seq_done. apply seq_bind. apply HQ.
Qed.

Lemma calm_await (op : Operation) (s : SignedTx) (w : World) :
  calm w -> current op w -> op_state op = BROADCAST -> signed_with s op ->
  representable (stx_expiration s + margin) ->
  is_Some (find_rec (stx_txid s) (w_node w)) \/ stx_expiration s + margin <= solid_time ->
  seq (step cfg signer op worker_id)
    (stepped op w (fun row w' => op_state row ∈ TERMINAL \/ (row = op /\ lingers s (w_node w')) \/
       (op_state row = SIGNING /\ stx_expiration s + margin <= solid_time /\
        forall rec, find_rec (stx_txid s) nd = Some rec -> tr_included_block rec = None))) w.
Proof.
  intros Hc Hcur Hs Hsg Hr Hk. unfold step. rewrite Hs. apply (load s); [done |].
  apply seq_or_timeout, seq_find; [done |].
  destruct (status_cases (stx_txid s) w Hc) as [[-> Hrec] | [[-> Hrec] | (b & receipt & ->)]];
    cbn [st_result st_solid st_receipt st_block negb].
  - apply seq_bind, seq_death; [done | done |]. intros evidence. cbn [fst snd].
    destruct (Z.leb_spec (stx_expiration s + margin) solid_time) as [Hd | Hd].
    + write Hs. intros w' row Hm _. eexists. split_and!; [done | done |]. right. right.
      split_and!; [apply row_state | done |]. intros rec Hrec0. by apply (Hrec _ (ca_old _ Hc _ _ Hrec0)).
    + apply seq_done. exists op. split_and!; [done | by apply moved_refl |]. right. left.
      destruct Hk as [[rec Hk] | ?]; [| lia]. split; [done |]. exists rec. split; [done |].
      right. destruct (Hrec _ Hk). by split_and!.
  - apply seq_done. exists op. split_and!; [done | by apply moved_refl |]. right. left. split; [done |].
    destruct Hrec as (rec & H1 & H2). exists rec. split; [done |]. by left.
  - apply seq_bind, seq_crash; [done |]. case_bool_decide.
    + apply seq_bind, seq_now; [done |]. write Hs. intros w' row Hm _. eexists. split_and!; [done | done |].
      left. unfold row. rewrite row_state. apply elem_of_TERMINAL. auto.
    + write Hs. intros w' row Hm _. eexists. split_and!; [done | done |].
      left. unfold row. rewrite row_state. apply elem_of_TERMINAL. auto.
Qed.

Lemma calm_reconcile (op : Operation) (s : SignedTx) (w : World) :
  calm w -> current op w -> op_state op = BROADCASTING -> signed_with s op ->
  representable (stx_expiration s + margin) -> stx_expiration s + margin <= solid_time ->
  seq (step cfg signer op worker_id)
    (stepped op w (fun row _ => op_state row = SIGNING \/ op_state row = BROADCAST /\ signed_with s row)) w.
Proof.
  intros Hc Hcur Hs Hsg Hr Hd. unfold step. rewrite Hs. apply (load s); [done |].
  apply seq_or_timeout, seq_find; [done |].
  destruct (bool_decide (st_result (tx_status T (stx_txid s) (w_node w)) ∈ [INCLUDED; PENDING])).
  - assert (forall at_, seq (_cas cfg op BROADCAST worker_id [Set_broadcast_at (Some at_)]
      [(str "txid", JStr (stx_txid s)); (str "via", JStr (str "reconcile"));
       (str "found", JStr (TxQuery_value (st_result (tx_status T (stx_txid s) (w_node w)))))])
      (stepped op w (fun row _ => op_state row = SIGNING \/ op_state row = BROADCAST /\ signed_with s row)) w) as Hgo.
    { intros at_. write Hs. intros w' row Hm _. eexists. split_and!; [done | done |]. right.
      split; [apply row_state | by apply signed_with_row]. }
    apply seq_bind. unfold broadcast_at_or_now. destruct (op_broadcast_at op); [apply Hgo |].
    apply seq_now; [done | apply Hgo].
  - apply seq_bind, seq_death; [done | done |]. intros evidence. cbn [fst snd].
    rewrite (proj2 (Z.leb_le _ _) Hd). cbn [negb]. write Hs. intros w' row Hm _.
    eexists. split_and!; [done | done |]. left. apply row_state.
Qed.

(** ** The loop around the handlers *)

Section drive.
(** What a drive is to achieve for a row it does not finish. *)
Context (G : Operation -> MockTronNode -> Prop).
Context (HG : forall row w w', grows w w' -> G row (w_node w) -> G row (w_node w')).

Definition fine (row : Operation) (w : World) : Prop := op_state row ∈ TERMINAL \/ G row (w_node w).

Definition finished (op : Operation) (w : World) (r : result exn Z) (w' : World) : Prop :=
  exists row a, r = Ok a /\ moved op w row w' /\ fine row w'.

(** The row after [release]. *)
Definition freed (row : Operation) : Operation :=
  set_updated_at (Some T) (set_lease_expires_at None (set_claimed_by None row)).

Lemma seq_free (op row : Operation) (advanced : Z) (w0 w : World) :
  moved op w0 row w -> G (freed row) (w_node w) -> seq (release_after row advanced) (finished op w0) w.
Proof.
  intros Hm Hg. pose proof Hm as (Hc & Hgr & Hid & Hops). unfold seq, release_after.
  rewrite run_bind. cbn [run perform exec ret fst snd].
  exists (freed row), advanced. split; [done |]. split; [| by right].
  split_and!; [by apply calm_store | done | done |]. cbn [with_store w_store]. unfold release.
  rewrite (moved_current _ _ _ _ Hm), Z.eqb_refl, (ca_now _ Hc). cbn [negb ms_ops].
  by rewrite Hops, Hid, insert_insert_eq.
Qed.

(** One more turn of the loop. *)
Lemma drive_turn (n : nat) (op : Operation) (advanced : Z) (w : World) (P : Operation -> World -> Prop) :
  seq (step cfg signer op worker_id) (stepped op w P) w -> (op_state op ∉ TERMINAL) ->
  (forall row w', moved op w row w' -> P row w' ->
     op_state row ∈ TERMINAL \/ (row = op /\ G (freed op) (w_node w')) \/
     (op_state row <> op_state op /\
      forall advanced, seq (drive_loop cfg signer n row worker_id advanced) (finished row w') w')) ->
  seq (drive_loop cfg signer (S n) op worker_id advanced) (finished op w) w.
Proof.
  intros Hstep Hlive Hnext. cbn [drive_loop]. apply seq_bind, seq_attempt.
  eapply seq_weaken; [exact Hstep |]. intros r w' (row & -> & Hm & HP). cbv zeta.
  destruct (decide (op_state row ∈ TERMINAL)) as [Ht | Ht].
  { rewrite (bool_decide_eq_true_2 _ Ht). exists row, 1. split_and!; [done | done | by left]. }
  rewrite (bool_decide_eq_false_2 _ Ht).
  destruct (Hnext row w' Hm HP) as [? | [[-> Hg] | [Hne Hgo]]]; [done | |].
  - rewrite (bool_decide_eq_true_2 (op_state op = op_state op)) by done. cbn [negb]. by apply seq_free.
  - rewrite (bool_decide_eq_false_2 _ Hne). cbn [negb]. eapply seq_weaken; [apply Hgo |].
    intros r w2 (row2 & a & -> & Hm2 & Hf). exists row2, a. split_and!; [done | by eapply moved_trans | done].
Qed.

(** ** A pass *)

(** Rows of [ids] are fine, the others as before. *)
Definition swept (ids : list Z) (w w' : World) : Prop :=
  calm w' /\ grows w w' /\
  (forall id, id ∉ ids -> ms_ops (w_store w') !! id = ms_ops (w_store w) !! id) /\
  (forall id, id ∈ ids -> exists row, ms_ops (w_store w') !! id = Some row /\ fine row w').

Lemma drive_all_swept (Pre : Operation -> Prop) (ops : list Operation) (w : World) :
  (forall op w, calm w -> current op w -> Pre op -> seq (_drive cfg signer op worker_id) (finished op w) w) ->
  NoDup (op_operation_id <$> ops) -> calm w -> (forall op, op ∈ ops -> current op w /\ Pre op) ->
  seq (drive_all cfg signer ops worker_id)
    (fun r w' => (exists a, r = Ok a) /\ swept (op_operation_id <$> ops) w w') w.
Proof.
  intros Hdrive. revert w. induction ops as [|op ops IH]; intros w Hnd Hc Hops; cbn [drive_all].
  { apply seq_done. split; [by eexists |]. split_and!; [done | done | done |]. intros id Hid. by apply elem_of_nil in Hid. }
  cbn [fmap list_fmap] in *. apply NoDup_cons in Hnd as [Hop Hnd].
  destruct (Hops op (list_elem_of_here _ _)) as [Hcur Hpre].
  apply seq_bind. eapply seq_weaken; [by apply Hdrive |].
  intros r w1 (row & a & -> & (Hc1 & Hg1 & Hid & Hops1) & Hf).
  apply seq_bind. eapply seq_weaken; [apply IH; try done |].
  { intros o Ho. destruct (Hops o (list_elem_of_further _ _ _ Ho)) as [Hco Hpo]. split; [| done].
    unfold current. rewrite Hops1, lookup_insert_ne; [exact Hco |]. intros E. apply Hop.
    rewrite E. apply list_elem_of_fmap. by exists o. }
  intros r w2 ([b ->] & Hc2 & Hg2 & Hother & Hin). apply seq_done. split; [by eexists |].
  split_and!; [done | by etrans | |].
  - intros id [Hne Hni]%not_elem_of_cons. by rewrite Hother, Hops1, lookup_insert_ne.
  - intros id [-> | Hi]%elem_of_cons; [| by apply Hin]. exists row.
    rewrite Hother, Hops1, lookup_insert_eq by done. split; [done |].
    destruct Hf as [? | Hf]; [by left | right; by eapply HG].
Qed.

Lemma run_once_swept (Pre : Operation -> Prop) (w : World) :
  (forall op w, calm w -> current op w -> Pre op -> seq (_drive cfg signer op worker_id) (finished op w) w) ->
  calm w -> store_wf (w_store w) -> (size (ms_ops (w_store w)) <= cfg_claim_batch cfg)%nat ->
  (forall id op, ms_ops (w_store w) !! id = Some op -> op_state op ∈ TERMINAL \/
     held T op = false /\ Pre (take_claim T (cfg_lease cfg) worker_id op)) ->
  seq (run_once cfg signer worker_id)
    (fun r w' => (exists a, r = Ok a) /\ calm w' /\ grows w w' /\
       dom (ms_ops (w_store w')) = dom (ms_ops (w_store w)) /\
       forall id row, ms_ops (w_store w') !! id = Some row -> fine row w') w.
Proof.
  intros Hdrive Hc Hwf Hsize Hrows. apply seq_bind, seq_now; [done |]. apply seq_bind. unfold seq at 1. cbn [run perform exec].
  set (claimed := claim CLAIMABLE (cfg_claim_batch cfg) worker_id (cfg_lease cfg) T (w_store w)).
  pose proof (claim_fits CLAIMABLE (cfg_claim_batch cfg) worker_id (cfg_lease cfg) T _ Hwf Hlease) as Hok.
  pose proof (claim_NoDup CLAIMABLE _ _ _ _ _ _ Hwf Hok) as Hnd.
  pose proof (fun row => claim_out CLAIMABLE _ _ _ _ _ _ row Hwf Hok) as Hout.
  pose proof (fun id => claim_row CLAIMABLE (cfg_claim_batch cfg) worker_id (cfg_lease cfg) T (w_store w) id Hwf) as Hrow.
  set (out := take_claim _ _ _ <$> _) in *.
  assert (forall id op, ms_ops (w_store w) !! id = Some op -> op_state op ∈ CLAIMABLE -> held T op = false ->
    take_claim T (cfg_lease cfg) worker_id op ∈ out) as Hall.
  { intros id op Hid Hs Hh. apply list_elem_of_fmap_2. by eapply picked_all. }
  fold claimed in Hok, Hout, Hrow. destruct claimed as [r st]. cbn [fst snd] in *. subst r.
  eapply seq_weaken; [apply (drive_all_swept Pre out (with_store st w)); [done | done | by apply calm_store |] |].
  { intros row Hin. destruct (Hout row Hin) as (op & -> & Hop & Hs & _ & Hst). split; [exact Hst |].
    destruct (Hrows _ _ Hop) as [Ht | [_ Hp]]; [| done]. by apply elem_of_CLAIMABLE in Hs. }
  intros r w' ([a ->] & Hc' & Hg' & Hother & Hin). split; [by eexists |]. cbn [with_store w_store] in Hother.
  assert (forall id, is_Some (ms_ops (w_store w') !! id) <-> is_Some (ms_ops (w_store w) !! id)) as Hdom.
  { intros id. destruct (decide (id ∈ op_operation_id <$> out)) as [Hid | Hid].
    - destruct (Hin id Hid) as (row & -> & _). split; [| done]. intros _.
      apply list_elem_of_fmap in Hid as (row' & -> & Hr). destruct (Hout _ Hr) as (op & -> & Hop & _).
      by exists op.
    - rewrite (Hother id Hid). destruct (Hrow id) as [-> | (op & -> & _ & _ & [(? & _ & -> & _) | (? & _)])]; [done | | done].
      split; intros _; by eexists. }
  split_and!; [done | done | apply set_eq; intros id; rewrite !elem_of_dom; apply Hdom |].
  intros id row Hid. destruct (decide (id ∈ op_operation_id <$> out)) as [Hi | Hi].
  { destruct (Hin id Hi) as (row' & E & Hf). congruence. }
  rewrite (Hother id Hi) in Hid. destruct (Hrow id) as [E | (op & Hop & _ & _ & [(? & [= <-] & _ & Ho) | (? & _)])]; [| | done].
  - rewrite E in Hid. destruct (Hrows _ _ Hid) as [Ht | [Hh _]]; [by left |].
    destruct (decide (op_state row ∈ TERMINAL)) as [Ht | Ht]; [by left |]. exfalso. apply Hi.
    apply list_elem_of_fmap. eexists. split; [| apply (Hall id row Hid); [by apply elem_of_CLAIMABLE | done]].
    symmetry. exact (wf_key _ Hwf _ _ Hid).
  - exfalso. apply Hi, list_elem_of_fmap. eexists. split; [| exact Ho].
    symmetry. exact (wf_key _ Hwf _ _ Hop).
Qed.

End drive.

(** ** The first pass: every live row is finished or sent *)

Context (Hmargin : 0 <= margin) (Hrepm : representable (T + ttl + margin)) (Hlate : solid_time < T + ttl).

(** Sent and free to be claimed; its txid is new to the node, or the envelope
    was built in this pass and its txid was taken before. *)
Definition parked (row : Operation) (n : MockTronNode) : Prop :=
  op_state row = BROADCAST /\ op_lease_expires_at row = None /\
  exists s, signed_with s row /\ representable (stx_expiration s + margin) /\
  exists rec, find_rec (stx_txid s) n = Some rec /\
  ((find_rec (stx_txid s) nd = None /\ fresh rec) \/
   (find_rec (stx_txid s) nd = Some rec /\ built_now s)).

Lemma parked_grows (row : Operation) (w w' : World) :
  grows w w' -> parked row (w_node w) -> parked row (w_node w').
Proof.
  intros Hg (H1 & H2 & s & H3 & H4 & rec & H5 & H6). split_and!; [done | done |]. exists s.
  split_and!; [done | done |]. exists rec. split; [by apply Hg | done].
Qed.

Local Abbreviation drives n op w :=
  (forall advanced, seq (drive_loop cfg signer n op worker_id advanced) (finished parked op w) w).

Lemma lingers_parked (op : Operation) (s : SignedTx) (n : MockTronNode) :
  op_state op = BROADCAST -> signed_with s op -> representable (stx_expiration s + margin) ->
  built_now s \/ stx_expiration s + margin <= solid_time ->
  lingers s n -> parked (freed op) n.
Proof.
  intros Hs Hsg Hr He (rec & Hrec & Hcase). split_and!; [done | done |]. exists s. split_and!; [done | done |].
  exists rec. split; [done |]. destruct Hcase as [? | (H1 & _ & H2)]; [by left | right].
  split; [done |]. destruct He; [done | lia].
Qed.

Lemma drive_sent (n : nat) (op : Operation) (s : SignedTx) (w : World) :
  calm w -> current op w -> op_state op = BROADCAST -> signed_with s op -> built_now s ->
  is_Some (find_rec (stx_txid s) (w_node w)) -> drives (S n) op w.
Proof.
  intros Hc Hcur Hs Hsg He Hrec advanced.
  pose proof (built_now_expiration s He) as Ee.
  assert (representable (stx_expiration s + margin)) as Hr by by rewrite Ee.
  eapply drive_turn; [apply (calm_await op s); auto | by eapply live_state |].
  intros row w' Hm [? | [[-> Hl] | (_ & Hd & _)]]; [by left | right; left | lia].
  split; [done |]. eapply lingers_parked; eauto.
Qed.

Lemma drive_signed (n : nat) (op : Operation) (s : SignedTx) (w : World) :
  calm w -> current op w -> op_state op = SIGNED -> signed_with s op -> built_now s ->
  drives (S (S n)) op w.
Proof.
  intros Hc Hcur Hs Hsg He advanced.
  eapply drive_turn; [apply (calm_send op s); auto using built_now_expiration | by eapply live_state |].
  intros row w' Hm [? | (H1 & H2 & H3)]; [by left | right; right]. split; [congruence |].
  apply (drive_sent n row s); try done; [apply Hm | by eapply moved_current].
Qed.

Lemma drive_build (n : nat) (op : Operation) (w : World) :
  calm w -> current op w -> op_state op = VALIDATED \/ op_state op = SIGNING -> drives (S (S (S n))) op w.
Proof.
  intros Hc Hcur Hs advanced.
  eapply drive_turn; [by apply calm_build | destruct Hs; by eapply live_state |].
  intros row w' Hm [? | (H1 & s & H2 & H3)]; [by left | right; right].
  split; [destruct Hs; congruence |]. apply (drive_signed n row s); try done; [apply Hm | by eapply moved_current].
Qed.

(** An envelope from before the pass: past its time, and provably so. *)
Definition old (s : SignedTx) (op : Operation) : Prop :=
  signed_with s op /\ stx_expiration s <= T /\ stx_expiration s + margin <= solid_time.

Lemma old_representable (s : SignedTx) (op : Operation) : old s op -> representable (stx_expiration s + margin).
Proof. intros ((_ & _ & Hr) & He & _). unfold representable in *. lia. Qed.

Lemma drive_old (n : nat) (op : Operation) (s : SignedTx) (w : World) :
  calm w -> current op w -> op_state op = BROADCAST -> old s op -> drives (S (S (S (S n)))) op w.
Proof.
  intros Hc Hcur Hs Ho advanced. pose proof (old_representable s op Ho) as Hr.
  destruct Ho as (Hsg & He & Hd).
  eapply drive_turn; [apply (calm_await op s); auto | by eapply live_state |].
  intros row w' Hm [? | [[-> Hl] | (H1 & _)]]; [by left | right; left | right; right].
  - split; [done |]. eapply lingers_parked; eauto.
  - split; [congruence |]. apply drive_build; [apply Hm | by eapply moved_current | by right].
Qed.

(** What a row may look like when the pass begins. *)
Definition ready (op : Operation) : Prop :=
  match op_state op with
  | REQUESTED | VALIDATED | SIGNING => True
  | SIGNED | BROADCASTING | BROADCAST => exists s, old s op
  | CONFIRMED | FAILED | REJECTED => False
  end.

Lemma drive_ready (op : Operation) (w : World) :
  calm w -> current op w -> ready op -> seq (_drive cfg signer op worker_id) (finished parked op w) w.
Proof.
  intros Hc Hcur Hready. unfold ready in Hready. unfold _drive, MAX_STEPS_PER_CLAIM.
  assert (forall row w', moved op w row w' -> calm w' /\ current row w') as Hnext
    by (intros row w' Hm; split; [apply Hm | by eapply moved_current]).
  destruct (op_state op) eqn:Hs; try done; try destruct Hready as (s & Ho).
  - eapply drive_turn; [by apply calm_validate | by eapply live_state |].
    intros row w' Hm [H1 | ?]; [right; right | by left]. destruct (Hnext _ _ Hm).
    split; [congruence | apply drive_build; auto].
  - apply drive_build; auto.
  - apply drive_build; auto.
  - eapply drive_turn; [apply (calm_retire op s); try done; apply Ho | by eapply live_state |].
    intros row w' Hm H1. right. right. destruct (Hnext _ _ Hm). split; [congruence | apply drive_build; auto].
  - eapply drive_turn; [apply (calm_reconcile op s); try done; [apply Ho | by eapply old_representable | apply Ho]
      | by eapply live_state |].
    intros row w' Hm H1. right. right. destruct (Hnext _ _ Hm).
    destruct H1 as [H1 | [H1 H2]]; (split; [congruence |]); [apply drive_build; auto |].
    apply (drive_old _ row s); try done. split; [done | apply Ho].
  - by apply (drive_old 4 op s).
Qed.

(** ** The second pass: what was sent is finished *)

(** Sent before, mined by now; or the envelope's txid was [taken]. *)
Definition landed (taken : SignedTx -> Prop) (op : Operation) : Prop :=
  op_state op = BROADCAST /\ exists s rec, signed_with s op /\ representable (stx_expiration s + margin) /\
  find_rec (stx_txid s) nd = Some rec /\
  (is_Some (tr_included_block rec) \/ (solid_time < stx_expiration s + margin /\ taken s)).

Definition collided (taken : SignedTx -> Prop) (row : Operation) (_ : MockTronNode) : Prop :=
  op_state row = BROADCAST /\ exists s, op_signed_tx row = Some (to_json s) /\ taken s.

Lemma drive_landed (taken : SignedTx -> Prop) (op : Operation) (w : World) :
  calm w -> current op w -> landed taken op ->
  seq (_drive cfg signer op worker_id) (finished (collided taken) op w) w.
Proof.
  intros Hc Hcur (Hs & s & rec & Hsg & Hr & Hrec & Hcase).
  eapply drive_turn; [apply (calm_await op s); try done | by eapply live_state |].
  { left. exists rec. by apply Hc. }
  intros row w' Hm [? | [[-> Hl] | (_ & Hd & Hn)]]; [by left | right; left |].
  - split; [done |]. split; [done |]. exists s. split; [apply Hsg |].
    destruct Hl as (rec' & _ & [[? _] | (H1 & H2 & _)]); [congruence |]. assert (rec' = rec) as -> by congruence.
    destruct Hcase as [[b Hb] | [_ ?]]; [congruence | done].
  - specialize (Hn _ Hrec). destruct Hcase as [[b Hb] | [? _]]; [congruence | lia].
Qed.

End pass.

(** ** The chain between the passes *)

Lemma exec_node_wf {X : Type} (c : call X) (w : World) :
  node_wf (w_node w) -> node_wf (w_node (snd (exec c w))).
Proof.
  intros Hwf. destruct c; cbn [exec]; try done.
  - by destruct (cas _ _ _ _ _ _ _ _ _ _).
  - by destruct (claim _ _ _ _ _ _).
  - pose proof (node_step_wf _ _ (step_find _ (w_now w) txid) Hwf) as H. by destruct (find_tx _ _ _).
  - pose proof (node_step_wf _ _ (step_broadcast _ (w_now w) tx worker_id) Hwf) as H.
    by destruct (broadcast _ _ _ _).
  - by destruct (here _ _).
Qed.

Lemma run_node_wf {A : Type} (p : prog A) (w : World) :
  node_wf (w_node w) -> node_wf (w_node (snd (run p w))).
Proof.
  revert w. induction p as [r | X c k IH]; intros w Hwf; [done |]. cbn [run].
  pose proof (exec_node_wf c w Hwf) as H. destruct (exec c w) as [r w']. by apply IH.
Qed.

Section settle.
Context (cfg : Config) (signer : MockSigner).

Local Abbreviation ttl := (cfg_tx_ttl cfg).
Local Abbreviation margin := (cfg_expiration_safety cfg).

(** At [T] every lease has run out, every envelope is past its deadline and the
    chain has not run ahead of the clock. *)
Definition row_aged (T : Z) (op : Operation) : bool :=
  negb (held T op) &&
  match from_json (op_signed_tx op) with
  | Ok s => (stx_expiration s <=? T) && (stx_expiration s + margin <=? T)
  | Err _ => true
  end.

Definition aged (T : Z) (w : World) : bool :=
  (head_time (w_node w) <? T) && forallb (row_aged T) (all_operations (w_store w)) &&
  forallb (fun tr => stx_expiration (tr_tx (snd tr)) <=? T) (nd_txs (w_node w)).

Lemma aged_rec (T : Z) (w : World) (t : pystr) (rec : TxRecord) :
  aged T w = true -> find_rec t (w_node w) = Some rec -> stx_expiration (tr_tx rec) <= T.
Proof.
  intros [_ Ha]%andb_true_iff Hr%assoc_elem. rewrite forallb_forall in Ha.
  apply Z.leb_le, (Ha (t, rec)). by apply list_elem_of_In.
Qed.

Lemma aged_row (T : Z) (w : World) (id : Z) (op : Operation) :
  aged T w = true -> ms_ops (w_store w) !! id = Some op ->
  held T op = false /\
  forall s, signed_with s op -> stx_expiration s <= T /\ stx_expiration s + margin <= T.
Proof.
  intros [[_ Ha]%andb_true_iff _]%andb_true_iff Hop. rewrite forallb_forall in Ha.
  assert (row_aged T op = true) as [Hh Hs]%andb_true_iff.
  { apply Ha, list_elem_of_In, list_elem_of_fmap. exists (id, op). split; [done | by apply elem_of_map_to_list]. }
  split; [by apply negb_true_iff |]. intros s (E & _ & Hr). rewrite E, from_json_to_json in Hs by done.
  apply andb_true_iff in Hs as [H1%Z.leb_le H2%Z.leb_le]. done.
Qed.

(** A world whose node is [nd] and has scripted no fault. *)
Lemma calm_start (T : Z) (nd : MockTronNode) (st : MemoryStore) :
  nd_faults nd !! str "broadcast" = Some [] -> nd_faults nd !! str "query" = Some [] ->
  calm cfg T nd (mkWorld T st nd no_crash).
Proof. intros H1 H2. split; try done. intros t rec Hr. by left. Qed.

Lemma channel_names : str "broadcast" <> str "receipt" /\ str "query" <> str "receipt".
Proof. split; vm_compute; discriminate. Qed.

Lemma grew_faults (n : nat) (T : Z) (nd nd' : MockTronNode) :
  grew n T nd nd' -> nd_faults nd !! str "broadcast" = Some [] -> nd_faults nd !! str "query" = Some [] ->
  nd_faults nd' !! str "broadcast" = Some [] /\ nd_faults nd' !! str "query" = Some [].
Proof. intros G H1 H2. destruct channel_names. by rewrite !(gw_faults _ _ _ _ G) by done. Qed.

Definition span (nd : MockTronNode) : Z := nd_solidity_lag nd + nd_inclusion_delay nd + 1.

(** What is settled about the records of a node before a pass: on chain for good
    or past their time. *)
Definition decided (T : Z) (nd : MockTronNode) : Prop :=
  (forall t rec b, find_rec t nd = Some rec -> tr_included_block rec = Some b -> b <= solid_block nd) /\
  (forall t rec, find_rec t nd = Some rec -> tr_included_block rec = None -> stx_expiration (tr_tx rec) <= T).

Lemma aged_decided (T : Z) (w : World) (nd : MockTronNode) :
  aged T w = true -> node_wf (w_node w) -> 0 <= nd_solidity_lag (w_node w) -> 0 <= nd_inclusion_delay (w_node w) ->
  grew (Z.to_nat (span (w_node w))) T (w_node w) nd ->
  (forall t rec, find_rec t nd = Some rec -> find_rec t (w_node w) = Some rec) /\ decided T nd.
Proof.
  intros Ha Hwf Hlag Hdelay G. unfold span in G.
  assert (forall t rec, find_rec t nd = Some rec -> find_rec t (w_node w) = Some rec) as Hback.
  { intros t rec Hr. destruct (find_rec t (w_node w)) as [rec0 |] eqn:E; [| by rewrite (gw_none _ _ _ _ G) in Hr].
    destruct (gw_recs _ _ _ _ G _ _ E) as (rec' & Hr' & _ & Hsame & _).
    rewrite Hsame in Hr' by (right; by eapply aged_rec). congruence. }
  split; [done |]. split; intros t rec.
  - intros b Hr%Hback Hb. destruct (rec_mined _ _ _ (nw_recs _ Hwf _ _ Hr) b Hb) as (Hle & _).
    unfold solid_block. rewrite (gw_head _ _ _ _ G), (gw_lag _ _ _ _ G). lia.
  - intros Hr%Hback _. by eapply aged_rec.
Qed.

(** The blocks after a pass mine everything the pass sent. *)
Lemma sent_decided (T T' : Z) (nd nd' : MockTronNode) (w : World) :
  calm cfg T nd w -> decided T nd -> T <= T' -> 0 <= nd_solidity_lag nd -> 0 <= nd_inclusion_delay nd ->
  grew (Z.to_nat (span nd)) T' (w_node w) nd' -> by_then (Z.to_nat (span nd)) T' (w_node w) < T + ttl ->
  decided T' nd' /\
  (forall t rec, find_rec t nd = Some rec -> find_rec t nd' = Some rec) /\
  (forall t rec, find_rec t (w_node w) = Some rec -> find_rec t nd = None ->
     exists rec', find_rec t nd' = Some rec' /\ is_Some (tr_included_block rec')).
Proof.
  intros Hc [Hmined Hexp] HT Hlag Hdelay G Hby. unfold span in *.
  pose proof (ca_chain _ _ _ _ Hc) as (Eh & _ & _ & El & Ed).
  pose proof (gw_head _ _ _ _ G) as Hh. pose proof (gw_lag _ _ _ _ G) as Hl.
  assert (forall t rec, find_rec t nd = Some rec -> find_rec t nd' = Some rec) as Hkeep.
  { intros t rec Hr. destruct (gw_recs _ _ _ _ G _ _ (ca_old _ _ _ _ Hc _ _ Hr)) as (rec' & Hr' & _ & Hsame & _).
    rewrite Hsame in Hr'; [done |]. destruct (tr_included_block rec) eqn:Ei; [left; by eexists | right].
    specialize (Hexp _ _ Hr Ei). lia. }
  assert (forall t rec, find_rec t (w_node w) = Some rec -> find_rec t nd = None ->
    exists rec' b, find_rec t nd' = Some rec' /\ tr_included_block rec' = Some b /\ b <= solid_block nd') as Hland.
  { intros t rec Hr Hn. destruct (ca_recs _ _ _ _ Hc _ _ Hr) as [? | [_ (F1 & F2 & F3)]]; [congruence |].
    destruct (gw_recs _ _ _ _ G _ _ Hr) as (rec' & Hr' & _ & _ & Hw). exists rec'.
    rewrite F2, F3, Eh, Ed in Hw. specialize (Hw F1 Hby).
    destruct (tr_included_block rec') as [b |]; [| lia]. exists b. split_and!; [done | done |].
    unfold solid_block. lia. }
  split_and!; [| done |].
  - assert (forall t rec, find_rec t nd' = Some rec -> find_rec t nd = Some rec \/
      exists b, tr_included_block rec = Some b /\ b <= solid_block nd') as Hback.
    { intros t rec Hr. destruct (find_rec t nd) as [rec0 |] eqn:E0; [left; pose proof (Hkeep _ _ E0); congruence | right].
      destruct (find_rec t (w_node w)) as [rec1 |] eqn:E1; [| by rewrite (gw_none _ _ _ _ G) in Hr].
      destruct (Hland _ _ E1 E0) as (rec' & b & H1 & H2 & H3). exists b. split; congruence. }
    split; intros t rec.
    + intros b Hr Hb. destruct (Hback _ _ Hr) as [Hr0 | (b' & Eb & Hle)]; [| congruence].
      specialize (Hmined _ _ _ Hr0 Hb). unfold solid_block in *. lia.
    + intros Hr Hb. destruct (Hback _ _ Hr) as [Hr0 | (b' & Eb & _)]; [| congruence].
      specialize (Hexp _ _ Hr0 Hb). lia.
  - intros t rec Hr Hn. destruct (Hland _ _ Hr Hn) as (rec' & b & H1 & H2 & _). exists rec'. split; [done | by eexists].
Qed.

(** ** The two passes *)

Context (Httl : 0 < ttl) (Hmargin : 0 <= margin).

Lemma row_ready (T solid_time lease : Z) (worker_id : pystr) (w : World) (id : Z) (op : Operation) :
  aged T w = true -> T <= solid_time -> row_ok cfg signer w op -> ms_ops (w_store w) !! id = Some op ->
  op_state op ∈ TERMINAL \/ held T op = false /\ ready cfg T solid_time (take_claim T lease worker_id op).
Proof.
  intros Ha HT [_ Hok] Hop. destruct (aged_row _ _ _ _ Ha Hop) as [Hh Hs].
  assert ((exists s, carries cfg signer w op s) -> exists s, old cfg T solid_time s (take_claim T lease worker_id op)) as Hold.
  { intros (s & _ & E1 & E2 & [Hr _] & _). destruct (Hs s) as [H1 H2]; [by split_and! |].
    exists s. split_and!; [by split_and! | done | lia]. }
  unfold envelope_ok in Hok. unfold ready. cbn [take_claim set_updated_at set_fencing_token set_lease_expires_at
    set_claimed_by op_state]. destruct (op_state op);
    first [left; apply elem_of_TERMINAL; by auto | right; split; [done | by auto]].
Qed.

(** A new envelope [s] and an older one with different contents under one txid. *)
Definition clash (s old : SignedTx) : Prop :=
  stx_raw_data s <> stx_raw_data old /\ compute_txid (stx_raw_data s) = compute_txid (stx_raw_data old).

(** [s] was built at [T], but the node of [w] already holds its txid, for an older transaction. *)
Definition preempted (T : Z) (w : World) (s : SignedTx) : Prop :=
  stx_expiration s = T + ttl /\ exists rec, find_rec (stx_txid s) (w_node w) = Some rec /\
  stx_expiration (tr_tx rec) <= T /\ clash s (tr_tx rec).

Lemma raw_data_expiration (op1 op2 : Operation) (ref1 ref2 : Z * pystr) (now1 now2 exp1 exp2 : Z) :
  raw_data_of cfg op1 ref1 now1 exp1 = raw_data_of cfg op2 ref2 now2 exp2 -> to_ms exp1 = to_ms exp2.
Proof. unfold raw_data_of. congruence. Qed.

Lemma taken_preempted (T : Z) (w : World) (s : SignedTx) (rec : TxRecord) :
  inv cfg signer w -> aged T w = true -> 2000 < ttl -> representable (T + ttl) ->
  find_rec (stx_txid s) (w_node w) = Some rec -> built_now cfg signer T s -> preempted T w s.
Proof.
  intros I Ha Httl' Hrep Hrec (op & ref & ->). pose proof (aged_rec _ _ _ _ Ha Hrec) as Hexp.
  split; [done |]. exists rec. split_and!; [done | done |].
  pose proof (rec_txid _ _ _ (nw_recs _ (inv_node _ _ _ I) _ _ Hrec)) as Et.
  destruct (inv_known _ _ _ I _ _ Hrec) as (id & op' & _ & [Hr (ref' & now' & _ & E)] & _).
  rewrite E in Et |- *. split; [| exact (eq_sym Et)]. intros Eraw%raw_data_expiration.
  pose proof (to_ms_apart _ _ Hr Hrep ltac:(lia)). lia.
Qed.

Lemma pass_one (T : Z) (w : World) (nd : MockTronNode) (worker_id : pystr) :
  inv cfg signer w -> nd_faults (w_node w) !! str "broadcast" = Some [] ->
  nd_faults (w_node w) !! str "query" = Some [] ->
  0 <= nd_solidity_lag (w_node w) -> 0 <= nd_inclusion_delay (w_node w) ->
  1000 * span (w_node w) < ttl -> (size (ms_ops (w_store w)) <= cfg_claim_batch cfg)%nat ->
  aged T w = true -> representable T -> representable (T + cfg_lease cfg) -> representable (T + ttl + margin) ->
  grew (Z.to_nat (span (w_node w))) T (w_node w) nd ->
  exists a w1, run (run_once cfg signer worker_id) (mkWorld T (w_store w) nd no_crash) = (Ok a, w1) /\
  calm cfg T nd w1 /\ dom (ms_ops (w_store w1)) = dom (ms_ops (w_store w)) /\
  forall id row, ms_ops (w_store w1) !! id = Some row -> fine (parked cfg signer T nd) row w1.
Proof.
  intros I Hb Hq Hlag Hdelay Hspan Hsize Ha HT Hlease Hrep G.
  destruct (aged_decided T w nd Ha (inv_node _ _ _ I) Hlag Hdelay G) as [Hback [Hmined Hexp]].
  destruct (grew_faults _ _ _ _ G Hb Hq) as [Hb' Hq'].
  destruct (wf_ref_block nd (gw_wf _ _ _ _ G)) as [ref Href].
  destruct (grew_solid _ _ _ _ G) as (st & Hst & Hle1 & Hle2); [unfold span; lia |].
  assert (st < T + ttl) as Hlate.
  { unfold aged in Ha. apply andb_true_iff in Ha as [[Ht%Z.ltb_lt _]%andb_true_iff _].
    unfold by_then, span in *. lia. }
  assert (representable (T + ttl)) as Hrep' by (unfold representable in *; lia).
  pose proof (run_once_swept cfg signer worker_id T nd Hlease (parked cfg signer T nd) (parked_grows cfg signer T nd)
    (ready cfg T st) (mkWorld T (w_store w) nd no_crash)) as H.
  destruct H as ([a E] & Hc & _ & Hdom & Hrows).
  - intros op w0. apply (drive_ready cfg signer worker_id T nd ref st); done.
  - by apply calm_start.
  - apply I.
  - done.
  - intros id op Hop. eapply row_ready; try done. by eapply (inv_rows _ _ _ I).
  - exists a. destruct (run _ _) as [r w1]. cbn [fst snd] in *. exists w1. by rewrite E.
Qed.

Lemma parked_landed (T T' solid_time : Z) (nd nd' : MockTronNode) (w : World) (taken : SignedTx -> Prop)
    (worker_id : pystr) (row : Operation) :
  (forall t rec, find_rec t nd = Some rec -> find_rec t nd' = Some rec) ->
  (forall t rec, find_rec t (w_node w) = Some rec -> find_rec t nd = None ->
     exists rec', find_rec t nd' = Some rec' /\ is_Some (tr_included_block rec')) ->
  (forall s, is_Some (find_rec (stx_txid s) nd) -> built_now cfg signer T s -> taken s) -> solid_time < T + ttl ->
  fine (parked cfg signer T nd) row w ->
  op_state row ∈ TERMINAL \/
  held T' row = false /\ landed cfg nd' solid_time taken (take_claim T' (cfg_lease cfg) worker_id row).
Proof.
  intros Hkeep Hland Htaken Hlate [? | (Hs & Hl & s & Hsg & Hr & rec & Hrec & Hcase)]; [by left | right].
  split; [unfold held; by rewrite Hl |]. split; [done |].
  destruct Hcase as [[Hn _] | [Hold He]].
  - destruct (Hland _ _ Hrec Hn) as (rec' & H1 & H2). exists s, rec'. split_and!; [done | done | done | by left].
  - exists s, rec. split_and!; [done | done | by apply Hkeep | right]. split; [rewrite (built_now_expiration _ _ _ _ He); lia |]. apply Htaken; [by eexists | done].
Qed.

Lemma pass_two (T T' : Z) (taken : SignedTx -> Prop) (w : World) (nd nd' : MockTronNode) (worker_id : pystr) :
  calm cfg T nd w -> store_wf (w_store w) -> decided T nd -> T <= T' -> representable (T' + cfg_lease cfg) ->
  0 <= nd_solidity_lag nd -> 0 <= nd_inclusion_delay nd ->
  (size (ms_ops (w_store w)) <= cfg_claim_batch cfg)%nat ->
  grew (Z.to_nat (span nd)) T' (w_node w) nd' -> by_then (Z.to_nat (span nd)) T' (w_node w) < T + ttl ->
  (forall s, is_Some (find_rec (stx_txid s) nd) -> built_now cfg signer T s -> taken s) ->
  (forall id row, ms_ops (w_store w) !! id = Some row -> fine (parked cfg signer T nd) row w) ->
  exists a w2, run (run_once cfg signer worker_id) (mkWorld T' (w_store w) nd' no_crash) = (Ok a, w2) /\
  dom (ms_ops (w_store w2)) = dom (ms_ops (w_store w)) /\
  forall id row, ms_ops (w_store w2) !! id = Some row -> fine (collided taken) row w2.
Proof.
  intros Hc Hwf Hdec HT Hlease Hlag Hdelay Hsize G Hby Htaken Hfine.
  destruct (sent_decided T T' nd nd' w Hc Hdec HT Hlag Hdelay G Hby) as ([Hmined Hexp] & Hkeep & Hland).
  destruct (grew_faults _ _ _ _ G (ca_broadcast _ _ _ _ Hc) (ca_query _ _ _ _ Hc)) as [Hb' Hq'].
  pose proof (ca_chain _ _ _ _ Hc) as (_ & _ & _ & El & _).
  destruct (grew_solid _ _ _ _ G) as (st & Hst & Hle1 & Hle2); [unfold span; lia |].
  pose proof (run_once_swept cfg signer worker_id T' nd' Hlease (collided taken) (fun row w w' _ H => H)
    (landed cfg nd' st taken) (mkWorld T' (w_store w) nd' no_crash)) as H.
  destruct H as ([a E] & _ & _ & Hdom & Hrows).
  - intros op w0. apply (drive_landed cfg signer worker_id T' nd' st); done.
  - by apply calm_start.
  - done.
  - done.
  - intros id row Hrow. eapply (parked_landed T T' st nd nd' w); try done; [lia | by eapply Hfine].
  - exists a. destruct (run _ _) as [r w2]. cbn [fst snd] in *. exists w2. by rewrite E.
Qed.

Lemma settle (T d : Z) (w : World) (worker1 worker2 : pystr) :
  inv cfg signer w -> nd_faults (w_node w) !! str "broadcast" = Some [] ->
  nd_faults (w_node w) !! str "query" = Some [] ->
  0 <= nd_solidity_lag (w_node w) -> 0 <= nd_inclusion_delay (w_node w) ->
  0 <= d -> d + 2000 * span (w_node w) < ttl -> (size (ms_ops (w_store w)) <= cfg_claim_batch cfg)%nat ->
  aged T w = true -> representable T -> representable (T + ttl + margin) ->
  representable (T + cfg_lease cfg) -> representable (T + d + cfg_lease cfg) ->
  exists nd1 a w1 nd2 b w2,
  solidify T (w_node w) = Ok nd1 /\
  run (run_once cfg signer worker1) (mkWorld T (w_store w) nd1 no_crash) = (Ok a, w1) /\
  solidify (T + d) (w_node w1) = Ok nd2 /\
  run (run_once cfg signer worker2) (mkWorld (T + d) (w_store w1) nd2 no_crash) = (Ok b, w2) /\
  dom (ms_ops (w_store w2)) = dom (ms_ops (w_store w)) /\
  forall id row, get id (w_store w2) = Some row -> op_state row ∈ TERMINAL \/
    (op_state row = BROADCAST /\ exists s, op_signed_tx row = Some (to_json s) /\ preempted T w s).
Proof.
  intros I Hb Hq Hlag Hdelay Hd Hspan Hsize Ha HT Hrep Hlease1 Hlease2.
  destruct (produce_blocks_grew (Z.to_nat (span (w_node w))) T (w_node w) (inv_node _ _ _ I)) as (nd1 & E1 & G1).
  destruct (pass_one T w nd1 worker1) as (a & w1 & R1 & Hc1 & Hdom1 & Hrows1); try done; [unfold span in *; lia |].
  destruct (aged_decided T w nd1 Ha (inv_node _ _ _ I) Hlag Hdelay G1) as [Hback Hdec].
  pose proof (run_store_wf (run_once cfg signer worker1) (mkWorld T (w_store w) nd1 no_crash) (inv_store _ _ _ I)) as Hwf1.
  pose proof (run_node_wf (run_once cfg signer worker1) (mkWorld T (w_store w) nd1 no_crash) (gw_wf _ _ _ _ G1)) as Hnwf1.
  rewrite R1 in Hwf1, Hnwf1. cbn [snd] in *.
  pose proof (gw_lag _ _ _ _ G1) as El. pose proof (gw_delay _ _ _ _ G1) as Ed.
  assert (span nd1 = span (w_node w)) as Es by (unfold span; congruence).
  pose proof (ca_chain _ _ _ _ Hc1) as (_ & Ebt & _ & El1 & Ed1).
  destruct (produce_blocks_grew (Z.to_nat (span nd1)) (T + d) (w_node w1) Hnwf1) as (nd2 & E2 & G2).
  assert (by_then (Z.to_nat (span nd1)) (T + d) (w_node w1) < T + ttl) as Hby.
  { pose proof (gw_time _ _ _ _ G1) as Ht. unfold aged in Ha.
    apply andb_true_iff in Ha as [[Hh%Z.ltb_lt _]%andb_true_iff _].
    unfold by_then, span in *. unfold head_time at 1. rewrite Ebt. fold (head_time nd1). lia. }
  destruct (pass_two T (T + d) (preempted T w) w1 nd1 nd2 worker2)
    as (b & w2 & R2 & Hdom2 & Hrows2); try done; [lia | lia | lia | | |].
  { by rewrite <- size_dom, Hdom1, size_dom. }
  { intros s [rec Hr%Hback] Hs. eapply taken_preempted; try done; unfold span, representable in *; lia. }
  exists nd1, a, w1, nd2, b, w2. split_and!; try done.
  - unfold solidify. unfold span in E2. by rewrite El1, Ed1.
  - congruence.
Qed.

(** Such a [T] always comes. *)
Lemma aged_eventually (w : World) : exists D, forall T, D <= T -> aged T w = true.
Proof.
  assert (forall A (P : Z -> A -> bool) (l : list A), (forall a, exists D, forall T, D <= T -> P T a = true) ->
    exists D, forall T, D <= T -> forallb (P T) l = true) as Hall.
  { intros A P l HP. induction l as [|x l [D1 H1]]; [by exists 0 |]. destruct (HP x) as [D2 H2].
    exists (Z.max D1 D2). intros T HT. cbn [forallb]. rewrite H1, H2 by lia. done. }
  destruct (Hall _ row_aged (all_operations (w_store w))) as [D1 H1].
  { intros op. unfold row_aged, held.
    set (L := default 0 (op_lease_expires_at op)).
    set (X := match from_json (op_signed_tx op) with Ok s => stx_expiration s | Err _ => 0 end).
    exists (Z.max L (X + margin)). intros T HT. apply andb_true_iff. split.
    - destruct (op_lease_expires_at op); [| done]. apply negb_true_iff, Z.ltb_ge. cbn in L. lia.
    - destruct (from_json _); [| done]. apply andb_true_iff. split; apply Z.leb_le; lia. }
  destruct (Hall _ (fun T tr => stx_expiration (tr_tx (snd tr)) <=? T) (nd_txs (w_node w))) as [D2 H2].
  { intros [t rec]. exists (stx_expiration (tr_tx rec)). intros T HT. by apply Z.leb_le. }
  exists (Z.max (head_time (w_node w) + 1) (Z.max D1 D2)). intros T HT. unfold aged.
  rewrite H1, H2, (proj2 (Z.ltb_lt _ _)) by lia. done.
Qed.

End settle.

(** ** Properties *)

(** C7. Liveness after chaos: take any system that a timely schedule reached,
    whatever crashes, faults, store failures and lost claims led there, and let
    the faults stop.  From some
    time on every lease has run out and every outstanding envelope is past its
    deadline; at any such time [T] whose dates fit the calendar, with a batch
    that has room for all rows and an envelope lifetime longer than the delay
    [d] and the blocks of both passes, two passes settle everything: blocks, a
    pass of any worker at [T], blocks again, a second pass at [T + d].  Both
    passes return, no operation is lost, and every operation is confirmed,
    failed or rejected.  A row can still wait only behind a hash collision: it
    was rebuilt in these passes ([T + ttl] is later than any deadline before),
    and the new envelope's txid is that of an older transaction the node knew,
    with different contents. *)
Theorem chaos_settles (cfg : Config) (signer node_signer : MockSigner) (now lag delay : Z)
    (s : System) (worker1 worker2 : pystr) (d : Z) :
  let w := sys_world s in
  rtc (sys_step cfg signer) (initial now lag delay node_signer) s ->
  nd_faults (w_node w) !! str "broadcast" = Some [] -> nd_faults (w_node w) !! str "query" = Some [] ->
  0 <= nd_solidity_lag (w_node w) -> 0 <= nd_inclusion_delay (w_node w) ->
  0 <= cfg_expiration_safety cfg -> 0 <= d -> d + 2000 * span (w_node w) < cfg_tx_ttl cfg ->
  (size (ms_ops (w_store w)) <= cfg_claim_batch cfg)%nat ->
  (exists D, forall T, D <= T -> aged cfg T w = true) /\
  forall T, aged cfg T w = true -> representable T ->
  representable (T + cfg_tx_ttl cfg + cfg_expiration_safety cfg) ->
  representable (T + cfg_lease cfg) -> representable (T + d + cfg_lease cfg) ->
  exists nd1 a w1 nd2 b w2,
  solidify T (w_node w) = Ok nd1 /\
  run (run_once cfg signer worker1) (mkWorld T (w_store w) nd1 no_crash) = (Ok a, w1) /\
  solidify (T + d) (w_node w1) = Ok nd2 /\
  run (run_once cfg signer worker2) (mkWorld (T + d) (w_store w1) nd2 no_crash) = (Ok b, w2) /\
  dom (ms_ops (w_store w2)) = dom (ms_ops (w_store w)) /\
  forall id row, get id (w_store w2) = Some row -> op_state row ∈ TERMINAL \/
    (op_state row = BROADCAST /\ exists tx, op_signed_tx row = Some (to_json tx) /\ preempted cfg T w tx).
Proof.
  intros w Hs Hb Hq Hlag Hdelay Hm Hd Hspan Hsize.
  pose proof (si_inv _ _ _ (reachable_inv _ _ _ _ _ _ _ Hs)) as I. split; [by apply aged_eventually |].
  intros T Ha HT Hrep Hl1 Hl2. apply (settle cfg signer); try done. unfold span in Hspan. lia.
Qed.

(** Five withdrawals in five states: one sent and accepted behind a timeout, one
    whose write-ahead was committed but never acknowledged, one signed, one fresh to an
    invalid address, one fresh and valid. *)
Definition chaos_path : list event :=
  [EScript (str "broadcast") [TIMEOUT_ACCEPTED];
   ESubmit 1 [] dest (str "USDT-TRC20") 1500000; ESpawn (str "A") 1] ++ runs 0 16 ++
  [ESubmit 2 [] dest (str "USDT-TRC20") 2500000; ESpawn (str "B") 1] ++ runs 1 10 ++
  [EFail 1 true; ESubmit 3 [] dest (str "USDT-TRC20") 3500000; ESpawn (str "C") 1] ++ runs 2 9 ++
  [ESubmit 4 [] (str "nowhere") (str "USDT-TRC20") 4500000;
   ESubmit 5 [] dest (str "USDT-TRC20") 5500000].

Definition chaos : System := play chaos_path.

Definition states_of (st : MemoryStore) : list (option OpState) :=
  (fun id => op_state <$> get id st) <$> [1; 2; 3; 4; 5].

Lemma chaos_states :
  states_of (w_store (sys_world chaos)) =
  [Some BROADCAST; Some BROADCASTING; Some SIGNED; Some REQUESTED; Some REQUESTED].
Proof. vm_compute. reflexivity. Qed.

Lemma chaos_reachable : rtc (sys_step default_config default_signer) genesis chaos.
Proof. apply play_reachable; vm_compute; reflexivity. Qed.

Lemma chaos_settles_witness : exists nd1 a w1 nd2 b w2,
  solidify (t0 + seconds 500) (w_node (sys_world chaos)) = Ok nd1 /\
  run (run_once default_config default_signer (str "X"))
    (mkWorld (t0 + seconds 500) (w_store (sys_world chaos)) nd1 no_crash) = (Ok a, w1) /\
  solidify (t0 + seconds 500 + seconds 10) (w_node w1) = Ok nd2 /\
  run (run_once default_config default_signer (str "Y"))
    (mkWorld (t0 + seconds 500 + seconds 10) (w_store w1) nd2 no_crash) = (Ok b, w2) /\
  dom (ms_ops (w_store w2)) = dom (ms_ops (w_store (sys_world chaos))) /\
  forall id row, get id (w_store w2) = Some row -> op_state row ∈ TERMINAL \/
    (op_state row = BROADCAST /\
     exists tx, op_signed_tx row = Some (to_json tx) /\
     preempted default_config (t0 + seconds 500) (sys_world chaos) tx).
Proof.
  destruct (chaos_settles default_config default_signer default_signer t0 2 1 chaos
    (str "X") (str "Y") (seconds 10)) as [_ H].
  - exact chaos_reachable.
  - vm_compute. reflexivity.
  - vm_compute. reflexivity.
  - vm_compute. discriminate.
  - vm_compute. discriminate.
  - vm_compute. discriminate.
  - vm_compute. discriminate.
  - vm_compute. reflexivity.
  - apply Nat.leb_le. vm_compute. reflexivity.
  - apply (H (t0 + seconds 500)).
    + vm_compute. reflexivity.
    + apply (bool_decide_unpack _). vm_compute. exact I.
    + apply (bool_decide_unpack _). vm_compute. exact I.
    + apply (bool_decide_unpack _). vm_compute. exact I.
    + apply (bool_decide_unpack _). vm_compute. exact I.
Defined.
