(* ===== verification/Soundness.v ===== *)
(** * Handlers do not go wrong

    The handlers index dicts, parse stored JSON, dispatch on the state and
    write through a checked table, so they could raise a [KeyError], a
    [ValueError], a [TypeError] or an [IllegalTransition].  On the rows of a
    reachable system none of them does: a handler returns the stored row, or
    the clock has run out of representable dates, or a crash point fired. *)
From Stdlib Require Import ZArith Lia.
From stdpp Require Import base option strings gmap list.
From S2P Require Import Prelude Text Json Datetime States Address Wire Model Store Node Chain Effects Pipeline Worker Sequential System Invariant Safety Payments Recovery.

Local Open Scope Z_scope.

(** ** Handlers *)

Section sound.
Context (cfg : Config) (signer : MockSigner) (worker_id : pystr).

(** The operation, the time, and the condition under which a date overflows. *)
Context (id T : Z) (late : Prop) (Hlease : ~ representable (T + cfg_lease cfg) -> late).

Definition sound (r : result exn Operation) (w : World) : Prop :=
  match r with
  | Ok row => current row w /\ op_operation_id row = id
  | Err e => (e = OverflowError /\ late) \/ exists point, e = SimulatedCrash point
  end.

Definition steady (op : Operation) (w : World) : Prop :=
  node_wf (w_node w) /\ w_now w = T /\ current op w /\ op_operation_id op = id.

Lemma steady_quiet (op : Operation) (w w' : World) :
  steady op w -> w_store w' = w_store w -> node_wf (w_node w') -> w_now w' = w_now w -> steady op w'.
Proof. intros (H1 & H2 & H3 & H4) E Hwf En. split_and!; [done | congruence | unfold current; by rewrite E | done]. Qed.

Lemma sound_done (op : Operation) (w : World) : steady op w -> seq (ret op) sound w.
Proof. intros (_ & _ & H & Hid). by split. Qed.

Lemma sound_quiet {X : Type} (c : call X) (k : X -> prog Operation) (op : Operation) (w : World) :
  quiet c -> (forall e, raises c e -> exists point, e = SimulatedCrash point) -> steady op w ->
  (forall x w1, steady op w1 -> seq (k x) sound w1) -> seq (bind (perform c) k) sound w.
Proof.
  intros Hq Hr Hs Hk. apply seq_bind. pose proof (quiet_raises c w Hq (proj1 Hs)) as H.
  unfold seq at 1. cbn [run perform]. destruct (exec c w) as [r w']. destruct H as (E1 & E2 & E3 & E4).
  destruct r as [x | e]; cbn [fst snd]; [apply Hk; by eapply steady_quiet | right; auto].
Qed.

Lemma sound_timeout {X : Type} (c : call X) (k : X -> prog Operation) (op : Operation) (w : World) :
  quiet c -> (forall e, raises c e -> e = NodeTimeout) -> steady op w ->
  (forall x w1, steady op w1 -> seq (k x) sound w1) -> seq (or_timeout c op k) sound w.
Proof.
  intros Hq Hr Hs Hk. apply seq_bind, seq_attempt. pose proof (quiet_raises c w Hq (proj1 Hs)) as H.
  unfold seq at 1. cbn [run perform]. destruct (exec c w) as [r w']. destruct H as (E1 & E2 & E3 & E4).
  assert (steady op w') by by eapply steady_quiet.
  destruct r as [x | e]; cbn [fst snd]; [by apply Hk |]. rewrite (Hr e E4). by apply sound_done.
Qed.

Lemma sound_cas (op : Operation) (to_state : OpState) (sets : list FieldSet) (detail : list (pystr * jval))
    (k : Operation -> prog Operation) (w : World) :
  steady op w -> can_transition (op_state op) to_state = true -> (op_state op ∉ TERMINAL) ->
  forallb (fun f => bool_decide (column f ∈ MUTABLE_FIELDS)) sets = true ->
  (forall row w1, steady row w1 -> op_state row = to_state -> seq (k row) sound w1) ->
  seq (bind (_cas cfg op to_state worker_id sets detail) k) sound w.
Proof.
  intros (Hwf & Hn & Hc & Hid) Ht Hl Hm Hk. apply seq_bind.
  unfold seq at 1. destruct (decide (representable (w_now w + cfg_lease cfg))) as [Hfit | Hout].
  2:{ pose proof (run_cas_late cfg op to_state worker_id sets detail w Hc Ht Hl Hm Hout) as E.
      rewrite E. left. split; [done |]. apply Hlease. by rewrite <- Hn. }
  destruct (run_cas_row cfg op to_state worker_id sets detail w Hc Ht Hl Hm Hfit) as (st' & E & Hst).
  rewrite E. cbn [fst snd]. apply Hk; [| apply cas_row_frame].
  split_and!; [done | done | | by rewrite cas_row_id].
  unfold current. cbn [with_store w_store]. rewrite Hst, cas_row_id. apply lookup_insert_eq.
Qed.

Lemma bind_ret (p : prog Operation) (Q : result exn Operation -> World -> Prop) (w : World) :
  seq (bind p ret) Q w -> seq p Q w.
Proof. unfold seq. rewrite run_bind. by destruct (run p w) as [[] ?]. Qed.

Lemma cas_last (op : Operation) (to_state : OpState) (sets : list FieldSet) (detail : list (pystr * jval)) (w : World) :
  steady op w -> can_transition (op_state op) to_state = true -> (op_state op ∉ TERMINAL) ->
  forallb (fun f => bool_decide (column f ∈ MUTABLE_FIELDS)) sets = true ->
  seq (_cas cfg op to_state worker_id sets detail) sound w.
Proof. intros. apply bind_ret, sound_cas; try done. intros row w1 Hs _. by apply sound_done. Qed.

Ltac write Hs :=
  first [apply cas_last | apply sound_cas]; [done | rewrite Hs; reflexivity | by eapply live_state | reflexivity | ..].

Lemma validate_sound (op : Operation) (w : World) :
  steady op w -> op_state op = REQUESTED -> seq (_validate cfg op worker_id) sound w.
Proof. intros Hst Hs. unfold _validate. repeat (destruct (negb _); [write Hs |]). write Hs. Qed.

Lemma build_sound (op : Operation) (w : World) :
  (~ representable (T + cfg_tx_ttl cfg) -> late) -> steady op w -> op_state op = SIGNING ->
  seq (build_envelope cfg signer op worker_id) sound w.
Proof.
  intros Hlate Hst Hs. unfold build_envelope. destruct (_ <=? _); [write Hs |].
  apply (sound_quiet _ _ op); [done | done | done |]. intros ref w1 Hst1.
  apply seq_bind. unfold seq at 1. cbn [run perform exec fst snd]. pose proof Hst1 as (_ & -> & _).
  unfold plus_timedelta. destruct (decide _) as [Hr | Hr]; [| left; split; [done | auto]].
  cbn [lift bind]. cbv zeta. write Hs. intros row w2 Hst2 Hs2.
  apply (sound_quiet _ _ row); [done | done | done |]. intros _ w3 Hst3. write Hs2.
Qed.

Lemma build_and_sign_sound (op : Operation) (w : World) :
  (~ representable (T + cfg_tx_ttl cfg) -> late) -> steady op w ->
  op_state op = VALIDATED \/ op_state op = SIGNING -> seq (_build_and_sign cfg signer op worker_id) sound w.
Proof.
  intros Hlate Hst Hs. unfold _build_and_sign. case_bool_decide as Hv.
  - write Hv. intros row w1 Hst1 Hs1. by apply build_sound.
  - apply build_sound; try done. by destruct Hs.
Qed.

Lemma settle_sound (op : Operation) (s : SignedTx) (res : BroadcastResult) (w : World) :
  steady op w -> op_state op = BROADCASTING -> seq (_settle_broadcast_result cfg op worker_id s res) sound w.
Proof.
  intros Hst Hs. unfold _settle_broadcast_result.
  case_bool_decide; [apply (sound_quiet _ _ op); [done | done | done |]; intros now w1 Hst1; write Hs |].
  case_bool_decide; [write Hs |]. case_bool_decide; [write Hs |]. case_bool_decide; [by apply sound_done | write Hs].
Qed.

(** The row carries an envelope. *)
Context (s : SignedTx) (Hrep : representable (stx_expiration s)).
Context (Hlate : ~ representable (stx_expiration s + cfg_expiration_safety cfg) -> late).

Lemma broadcast_sound (op : Operation) (w : World) :
  steady op w -> op_state op = SIGNED -> op_signed_tx op = Some (to_json s) ->
  seq (_broadcast cfg op worker_id) sound w.
Proof.
  intros Hst Hs E. unfold _broadcast. rewrite E, from_json_to_json by done. cbn [lift bind].
  apply (sound_quiet _ _ op); [done | done | done |]. intros now w1 Hst1. destruct (_ <=? _); [write Hs |].
  write Hs. intros row w2 Hst2 Hs2. apply (sound_quiet _ _ row); [done | done | done |]. intros _ w3 Hst3.
  apply sound_timeout; [done | done | done |]. intros res w4 Hst4.
  apply (sound_quiet _ _ row); [done | done | done |]. intros _ w5 Hst5. by apply settle_sound.
Qed.

Lemma sound_death (op : Operation) (k : bool * list (pystr * jval) -> prog Operation) (w : World) :
  steady op w -> (forall d w1, steady op w1 -> seq (k d) sound w1) -> seq (bind (_proof_of_death cfg s) k) sound w.
Proof.
  intros Hst Hk. unfold _proof_of_death.
  apply seq_bind, seq_bind. pose proof (quiet_raises CSolidNow w I (proj1 Hst)) as H.
  unfold seq at 1. cbn [run perform]. destruct (exec CSolidNow w) as [r w1]. destruct H as (E1 & E2 & E3 & E4).
  assert (steady op w1) as Hst1 by by eapply steady_quiet. destruct r as [t | e]; [| done]. cbn [fst snd].
  apply seq_bind. unfold plus_timedelta. destruct (decide _) as [Hr | Hr]; [| left; split; [done | auto]].
  apply seq_done, seq_bind. by apply Hk.
Qed.

Lemma reconcile_sound (op : Operation) (w : World) :
  steady op w -> op_state op = BROADCASTING -> op_signed_tx op = Some (to_json s) ->
  seq (_reconcile_broadcast cfg op worker_id) sound w.
Proof.
  intros Hst Hs E. unfold _reconcile_broadcast. rewrite E, from_json_to_json by done. cbn [lift bind].
  apply sound_timeout; [done | done | done |]. intros st w1 Hst1. case_bool_decide.
  - unfold broadcast_at_or_now. destruct (op_broadcast_at op); [cbn [bind ret]; write Hs |].
    apply (sound_quiet _ _ op); [done | done | done |]. intros now w2 Hst2. write Hs.
  - apply (sound_death op); [done |]. intros [[] evidence] w2 Hst2; cbn [fst snd negb]; [write Hs |].
    apply sound_timeout; [done | done | done |]. intros res w3 Hst3. by apply settle_sound.
Qed.

Lemma await_sound (op : Operation) (w : World) :
  steady op w -> op_state op = BROADCAST -> op_signed_tx op = Some (to_json s) ->
  seq (_await_confirmation cfg op worker_id) sound w.
Proof.
  intros Hst Hs E. unfold _await_confirmation. rewrite E, from_json_to_json by done. cbn [lift bind].
  apply sound_timeout; [done | done | done |]. intros st w1 Hst1. destruct (st_result st); [| by apply sound_done |].
  - apply (sound_death op); [done |]. intros [[] evidence] w2 Hst2; cbn [fst snd]; [write Hs | by apply sound_done].
  - destruct (negb _); [by apply sound_done |]. apply (sound_quiet _ _ op); [done | done | done |]. intros _ w2 Hst2.
    case_bool_decide; [| write Hs]. apply (sound_quiet _ _ op); [done | done | done |]. intros now w3 Hst3. write Hs.
Qed.

End sound.

(** ** Properties *)

(** C11. Handlers do not go wrong: in any system that a timely schedule reaches, the handler of any live
    operation, run on its current row with whatever the node answers, returns a
    row that is the stored one; it never raises [KeyError], [ValueError],
    [TypeError] or [IllegalTransition].  The only exceptions are a crash point
    that fired, and an [OverflowError] when a lease or an envelope taken now, or
    the death proof of the row's envelope, would end past the calendar. *)
Theorem handlers_sound (cfg : Config) (signer node_signer : MockSigner) (now lag delay : Z)
    (s : System) (id : Z) (op : Operation) (worker_id : pystr) :
  rtc (sys_step cfg signer) (initial now lag delay node_signer) s ->
  get id (w_store (sys_world s)) = Some op -> (op_state op ∉ TERMINAL) ->
  let '(r, w') := run (step cfg signer op worker_id) (sys_world s) in
  match r with
  | Ok row => op_operation_id row = id /\ get id (w_store w') = Some row
  | Err e =>
      (e = OverflowError /\
       (~ representable (w_now (sys_world s) + cfg_lease cfg) \/
        ~ representable (w_now (sys_world s) + cfg_tx_ttl cfg) \/
        exists tx, from_json (op_signed_tx op) = Ok tx /\
        ~ representable (stx_expiration tx + cfg_expiration_safety cfg))) \/
      exists point, e = SimulatedCrash point
  end.
Proof.
  intros Hs Hop Hlive. pose proof (si_inv _ _ _ (reachable_inv _ _ _ _ _ _ _ Hs)) as I.
  pose proof (wf_key _ (inv_store _ _ _ I) _ _ Hop) as Hid.
  set (late := ~ representable (w_now (sys_world s) + cfg_lease cfg) \/ _).
  assert (~ representable (w_now (sys_world s) + cfg_lease cfg) -> late) as Hlease by by left.
  assert (seq (step cfg signer op worker_id) (sound id late) (sys_world s)) as H.
  { assert (steady id (w_now (sys_world s)) op (sys_world s)) as Hst.
    { split_and!; [apply I | done | by rewrite <- Hid in Hop | done]. }
    destruct (inv_rows _ _ _ I _ _ Hop) as [_ Hok]. unfold envelope_ok in Hok.
    assert ((exists tx, carries cfg signer (sys_world s) op tx) -> exists tx, representable (stx_expiration tx) /\
      op_signed_tx op = Some (to_json tx) /\ (~ representable (stx_expiration tx + cfg_expiration_safety cfg) -> late)) as Hc.
    { intros (tx & _ & E & _ & [Hr _] & _). exists tx. split_and!; [done | done |]. intros Hn. right. right. exists tx.
      split; [| done]. rewrite E. by apply from_json_to_json. }
    rewrite elem_of_TERMINAL in Hlive. unfold step. destruct (op_state op) eqn:Es; try (exfalso; by auto).
    - by eapply validate_sound.
    - eapply build_and_sign_sound; [done | by right; left | done | auto].
    - eapply build_and_sign_sound; [done | by right; left | done | auto].
    - destruct (Hc Hok) as (tx & Hr & E & Hl). by eapply broadcast_sound.
    - destruct (Hc Hok) as (tx & Hr & E & Hl). by eapply reconcile_sound.
    - destruct (Hc Hok) as (tx & Hr & E & Hl). by eapply await_sound. }
  unfold seq in H. destruct (run _ _) as [[row | e] w']; cbn [fst snd sound] in H; [| exact H].
  destruct H as [Hcur E]. split; [done |]. unfold current in Hcur. by rewrite E in Hcur.
Qed.

(** A row in [BROADCASTING] whose worker never learned that it is. *)
Definition orphan : Operation := default demo_row (get 2 (w_store (sys_world chaos))).

Lemma handlers_sound_witness :
  op_state orphan = BROADCASTING /\
  let '(r, w') := run (step default_config default_signer orphan (str "w")) (sys_world chaos) in
  match r with
  | Ok row => op_operation_id row = 2 /\ get 2 (w_store w') = Some row
  | Err e =>
      (e = OverflowError /\
       (~ representable (w_now (sys_world chaos) + cfg_lease default_config) \/
        ~ representable (w_now (sys_world chaos) + cfg_tx_ttl default_config) \/
        exists tx, from_json (op_signed_tx orphan) = Ok tx /\
        ~ representable (stx_expiration tx + cfg_expiration_safety default_config))) \/
      exists point, e = SimulatedCrash point
  end.
Proof.
  assert (op_state orphan = BROADCASTING) as Hs by (vm_compute; reflexivity).
  split; [exact Hs |].
  refine (handlers_sound default_config default_signer default_signer t0 2 1 chaos 2 orphan (str "w") _ _ _).
  - exact chaos_reachable.
  - vm_compute. reflexivity.
  - rewrite Hs, elem_of_TERMINAL. intros [E | [E | E]]; discriminate E.
Defined.
