(* ===== verification/Demo.v ===== *)
(** * The demo scenario ([scripts/demo.py])

    The script end to end over the modelled parts: two withdrawals, one of them
    submitted twice; a node that accepts a broadcast and then times out; a
    worker killed between its write-ahead and its send; a second worker that
    finishes both.  What the script prints is part of its result, line by line.
    The two operation ids, random in the script, are arguments.  Its [while
    w.run_once(): pass] is [drain_cycles], which reports when its fuel was not
    enough; [demo_story] shows that it is. *)
From Stdlib Require Import ZArith Lia.
From stdpp Require Import base option strings gmap list.
From S2P Require Import Prelude Text Json Money Hash Address Datetime States Wire Model Store Protocol Node Effects Pipeline Worker System Invariant Payments Intake.

Local Open Scope Z_scope.

Inductive demo_error : Type :=
| Rejected (e : service_exn)
| Raised (e : exn)
| AssertionError
| OutOfFuel.

Definition ellipsis : pystr := [8230].

Definition newline : Z := 10.

(** [say(text)]. *)
Definition say (text : pystr) : pystr :=
  newline :: 27 :: str "[1m" ++ 187 :: 32 :: text ++ 27 :: str "[0m".

Definition py_bool (b : bool) : pystr := if b then str "True" else str "False".
Definition py_opt_str (o : option pystr) : pystr := default (str "None") o.
Definition py_opt_int (o : option Z) : pystr := default (str "None") (str_of_int <$> o).

Definition demo_payload (id : Z) (payload : bytes) (amount : pystr) : jval :=
  JObj [(str "operation_id", JStr (uuid_str id));
        (str "to_address", JStr (default [] (from_payload payload)));
        (str "amount", JStr amount);
        (str "asset", JStr (str "USDT-TRC20"))].

(** [while w.run_once(): pass], until an exception. *)
Definition spin (name : pystr) (w : World) : result exn bool * World :=
  run (drain_cycles default_config default_signer 1000 name) w.

(** The line printed for an operation after the crash. *)
Definition wreck_line (op : Operation) : pystr :=
  str "  " ++ rjust 3 32 (match op_claimed_by op with
                          | Some (c :: who) => c :: who
                          | _ => str "-"
                          end) ++ str " | " ++
  ljust 13 32 (OpState_value (op_state op)) ++ str " txid=" ++ take 16 (py_opt_str (op_txid op)) ++ ellipsis.

Definition final_line (name txid : pystr) (op : Operation) : pystr :=
  str "  " ++ name ++ str ": " ++ OpState_value (op_state op) ++ str "  block=" ++
  py_opt_int (op_included_block op) ++ str "  txid=" ++ take 16 txid ++ ellipsis.

(** [e.detail[k]] of a text entry. *)
Definition detail_text (k : pystr) (e : Event) : option pystr :=
  match assoc k (ev_detail e) with
  | Some (JStr t) => Some t
  | _ => None
  end.

Definition timeline_line (e : Event) : pystr :=
  let frm := default [183] (OpState_value <$> ev_from_state e) in
  let extra :=
    match detail_text (str "txid") e with
    | Some t => str "  txid=" ++ take 12 t ++ ellipsis
    | None => []
    end ++
    match detail_text (str "reason") e with
    | Some t => str "  (" ++ t ++ str ")"
    | None => []
    end ++
    match detail_text (str "found") e with
    | Some t => str "  [chain said: " ++ t ++ str "]"
    | None => []
    end in
  let who := match ev_worker_id e with
             | Some (c :: who) => c :: who
             | _ => str "intake"
             end in
  str "  " ++ rjust 2 32 (str_of_int (ev_seq e)) ++ str "  " ++ rjust 13 32 frm ++ str " -> " ++
  ljust 13 32 (OpState_value (ev_to_state e)) ++ str " " ++ ljust 7 32 who ++ extra.

Section demo.
Context (ucd : Z -> option Z).

Local Open Scope sluice_scope.

Definition demo_submit (payload : jval) (w : World) : result demo_error (Operation * bool * World) :=
  match submit_withdrawal ucd default_config (w_now w) payload (w_store w) with
  | (Ok (row, created), st) => Ok (row, created, with_store st w)
  | (Err e, _) => Err (Rejected e)
  end.

Definition demo_spin (name : pystr) (w : World) : result demo_error World :=
  match spin name w with
  | (Ok true, w) => Ok w
  | (Ok false, _) => Err OutOfFuel
  | (Err e, _) => Err (Raised e)
  end.

(** The check and the line of the [Final states] loop. *)
Definition demo_final (w : World) (name : pystr) (id : Z) : result demo_error pystr :=
  match get id (w_store w) with
  | None => Err (Raised TypeError)
  | Some op =>
      if negb (bool_decide (op_state op ∈ TERMINAL)) then Err AssertionError
      else match op_txid op with
           | None => Err (Raised TypeError)
           | Some txid =>
               if (accepted_count txid (w_node w) =? 1)%nat then Ok (final_line name txid op)
               else Err AssertionError
           end
  end.

Definition demo_timeline (w : World) (who : pystr) (id : Z) : list pystr :=
  (str "  --- " ++ who ++ str " ---") :: map timeline_line (events id (w_store w)).

Definition created_line (name : pystr) (row : Operation) (created : bool) : pystr :=
  str "  " ++ name ++ str " -> " ++ uuid_str (op_operation_id row) ++ str "  created=" ++ py_bool created.

(** [main()]: the lines printed and the world at the end. *)
Definition demo (alice bob : Z) : result demo_error (list pystr * World) :=
  let w := mkWorld t0 empty_store (new_node t0 2 1 default_signer) no_crash in
  let pay_alice := demo_payload alice (repeat 10 20) (str "1250.75") in
  let pay_bob := demo_payload bob (repeat 11 20) (str "9.99") in
  let? (r1, created1, w) := demo_submit pay_alice w in
  let? (r2, created2, w) := demo_submit pay_bob w in
  let out := [say (str "Two withdrawal requests arrive over the API");
              created_line (str "alice") r1 created1;
              created_line (str "bob  ") r2 created2;
              say (str "Alice's client times out and RETRIES the exact same request")] in
  let? (r3, created3, w) := demo_submit pay_alice w in
  let out := out ++
    [str "  replay detected: created=" ++ py_bool created3 ++ str ", same row, " ++
       str_of_int (Z.of_nat (length (all_operations (w_store w)))) ++ str " rows total";
     say (str "The network is scripted to ACCEPT the next broadcast and then time out anyway");
     say (str "Worker w1 is rigged to die kill -9 style right after Alice's write-ahead commit")] in
  let w := with_node (script (str "broadcast") [TIMEOUT_ACCEPTED] (w_node w)) w in
  let w := with_crash (arm BROADCAST_PRE_SEND 1 (w_crash w)) w in
  let? (crashed, w) := match spin (str "w1") w with
                       | (Ok true, w) => Ok ([], w)
                       | (Ok false, _) => Err OutOfFuel
                       | (Err (SimulatedCrash _), w) =>
                           Ok ([str "  w1 crashed mid-broadcast. No cleanup ran. Its lease is still held."], w)
                       | (Err e, _) => Err (Raised e)
                       end in
  let wreck := omap (fun id => wreck_line <$> get id (w_store w))
                    [op_operation_id r1; op_operation_id r2] in
  let out := out ++ crashed ++ wreck ++
    [say (str "Nobody notices for a while" ++ ellipsis ++ str " lease (30.0s) expires");
     say (str "Worker w2 starts, claims the wreckage, and asks the CHAIN what happened")] in
  let w := with_now (w_now w + (cfg_lease default_config + seconds 1)) w in
  let? w := demo_spin (str "w2") w in
  let? nd := result_map_err Raised (solidify (w_now w) (w_node w)) in
  let? w := demo_spin (str "w2") (with_node nd w) in
  let? line1 := demo_final w (str "alice") (op_operation_id r1) in
  let? line2 := demo_final w (str "bob") (op_operation_id r2) in
  Ok (out ++ [say (str "Final states"); line1; line2;
              say (str "Event timeline (what the auditors and the chaos verifier read)")] ++
      demo_timeline w (str "alice") (op_operation_id r1) ++
      demo_timeline w (str "bob") (op_operation_id r2) ++
      [say (str "Done: one crash, one lying timeout, one duplicate request - zero double spends")], w).

Local Close Scope sluice_scope.

End demo.

Definition demo_ids : Z * Z := (0x0a0a0a0a0a0a40a0a00a0a0a0a0a0a0a, 0x0b0b0b0b0b0b40b0b00b0b0b0b0b0b0b).

(** What the script prints for these ids. *)
Definition demo_output : list pystr :=
  [say (str "Two withdrawal requests arrive over the API");
   str "  alice -> 0a0a0a0a-0a0a-40a0-a00a-0a0a0a0a0a0a  created=True";
   str "  bob   -> 0b0b0b0b-0b0b-40b0-b00b-0b0b0b0b0b0b  created=True";
   say (str "Alice's client times out and RETRIES the exact same request");
   str "  replay detected: created=False, same row, 2 rows total";
   say (str "The network is scripted to ACCEPT the next broadcast and then time out anyway");
   say (str "Worker w1 is rigged to die kill -9 style right after Alice's write-ahead commit");
   str "  w1 crashed mid-broadcast. No cleanup ran. Its lease is still held.";
   str "   w1 | broadcasting  txid=2d5a25e6eb80ce74" ++ ellipsis;
   str "   w1 | requested     txid=None" ++ ellipsis;
   say (str "Nobody notices for a while" ++ ellipsis ++ str " lease (30.0s) expires");
   say (str "Worker w2 starts, claims the wreckage, and asks the CHAIN what happened");
   say (str "Final states");
   str "  alice: confirmed  block=1001  txid=2d5a25e6eb80ce74" ++ ellipsis;
   str "  bob: confirmed  block=1001  txid=3b1cae82462077fb" ++ ellipsis;
   say (str "Event timeline (what the auditors and the chaos verifier read)");
   str "  --- alice ---";
   str "   1              " ++ [183] ++ str " -> requested     intake ";
   str "   3      requested -> validated     w1     ";
   str "   4      validated -> signing       w1     ";
   str "   5        signing -> signing       w1       txid=2d5a25e6eb80" ++ ellipsis ++ str "  (envelope built)";
   str "   6        signing -> signed        w1     ";
   str "   7         signed -> broadcasting  w1       txid=2d5a25e6eb80" ++ ellipsis ++ str "  (write-ahead)";
   str "  14   broadcasting -> broadcast     w2       txid=2d5a25e6eb80" ++ ellipsis ++ str "  [chain said: pending]";
   str "  15      broadcast -> confirmed     w2       txid=2d5a25e6eb80" ++ ellipsis;
   str "  --- bob ---";
   str "   2              " ++ [183] ++ str " -> requested     intake ";
   str "   8      requested -> validated     w2     ";
   str "   9      validated -> signing       w2     ";
   str "  10        signing -> signing       w2       txid=3b1cae824620" ++ ellipsis ++ str "  (envelope built)";
   str "  11        signing -> signed        w2     ";
   str "  12         signed -> broadcasting  w2       txid=3b1cae824620" ++ ellipsis ++ str "  (write-ahead)";
   str "  13   broadcasting -> broadcast     w2       txid=3b1cae824620" ++ ellipsis;
   str "  16      broadcast -> confirmed     w2       txid=3b1cae824620" ++ ellipsis;
   say (str "Done: one crash, one lying timeout, one duplicate request - zero double spends")].

(** The demo tells the story it announces: both assertions of the script
    hold and it runs to its last line, whatever the Unicode digit table.  The
    replay creates no third row; [w1] dies holding both leases, Alice's row
    already [BROADCASTING] with its txid written ahead and nothing sent; [w2]
    sends, is told a timeout, finds the transaction pending on chain instead
    of sending again, and both operations end [CONFIRMED] with two transfers
    on chain, each accepted by the node once.  The printed lines are the
    whole of [demo_output], the audit timeline included. *)
Theorem demo_story : forall ucd, exists w,
  demo ucd (fst demo_ids) (snd demo_ids) = Ok (demo_output, w) /\
  map op_state (all_operations (w_store w)) = [CONFIRMED; CONFIRMED] /\
  map (fun txid => accepted_count txid (w_node w)) (successful_txids (w_node w)) = [1; 1]%nat /\
  omap op_txid (all_operations (w_store w)) ≡ₚ successful_txids (w_node w).
Proof.
  intros ucd. eexists. split; [vm_compute; reflexivity|].
  split; [vm_compute; reflexivity|]. split; [vm_compute; reflexivity|].
  vm_compute. apply perm_swap.
Qed.
